(* ===== verification/_CoqProject ===== *)
-Q . S2P
Prelude.v
Bytes.v
Message.v
ControlMessages.v
Capabilities.v
OpenMessage.v
Attr.v
UpdateMessage.v
Fuzz.v
Text.v
Rpki.v
Env.v
Dampening.v
Rib.v
RibSpec.v
RibRefine.v
Metrics.v
MetricsSpec.v
Fsm.v
Peer.v
SessionLogic.v
Profiles.v
PeerSpec.v
Show.v
Config.v
Policy.v
RouteReflector.v
Mp.v
Mgmt.v
Server.v
EndToEnd.v
UnitTests.v
UnitTestsConfig.v
UnitTestsRib.v
