(* ===== verification/Prelude.v ===== *)
(** * PathForge: a verification development

    PathForge ([src/src/]) is a BGP-4 daemon.  [main.rs] reads a configuration,
    starts the server and the management interface.  The server ([server.rs]) accepts
    TCP connections and spawns a session task for each ([peer.rs]); a session sends an
    OPEN, then loops: it checks its timers ([timer.rs]), reads from the stream, cuts
    the bytes into messages ([message/mod.rs]), decodes them ([message/*.rs],
    [attr.rs], [capabilities.rs]), moves its state machine ([fsm.rs]) and applies
    UPDATEs to the RIB ([rib.rs]), which the sessions share behind a lock, and which
    consults flap dampening ([dampening.rs]) and origin validation ([rpki.rs]).
    Counters ([metrics.rs]) and the RIB are shown by the management interface
    ([mgmt.rs]).  The policy engine ([policy.rs]), route reflection ([rr.rs]) and the
    multi-protocol attributes ([mp.rs]) are libraries the daemon does not call yet.

    ** How the code is modelled

    A piece of Rust that returns a [Result] is a function into [outcome E A] (below):
    [Ok], [Err], [Panic], or [Diverge] for a loop whose fuel ran out.  An integer of
    width [w] is a [Z] with its wrap-around ([wrap w]), and arithmetic that overflows
    takes the build [profile]: a [Debug] build panics, a [Release] build wraps.  A
    byte is a [Z], a buffer is a list of bytes, and the buffer crate is the class
    [BytesApi] of [Bytes.v], whose laws [BytesLaws] state its documented behaviour;
    [list_bytes_api] is an instance of both.  Code that reads the clock or iterates
    over a hash map runs in [io] ([Env.v]): the readings and the iteration orders are
    streams of the environment, arbitrary in every theorem.  A session task runs in
    the state monad [M] of [Peer.v], over its own [Peer] and stream and the shared
    lock, metrics and environment; the state reached is kept when it fails or panics.

    ** The files

    - [Prelude.v]: outcomes, loops, machine integers, and their lemmas.
    - [Bytes.v]: the buffer interface; the loop "while bytes remain, parse one more".
    - [Message.v] ([message/mod.rs], the read loop of [peer.rs]): [Header],
      [BgpMessage.parse], [BgpMessage.drain] and [feed].
    - [ControlMessages.v] ([message/notification.rs], [keepalive.rs],
      [route_refresh.rs]).
    - [Capabilities.v] ([capabilities.rs]) and [OpenMessage.v] ([message/open.rs]).
    - [Attr.v] ([attr.rs]): path attributes and their codec.
    - [UpdateMessage.v] ([message/update.rs]): prefixes and UPDATEs.
    - [Fuzz.v] ([fuzz/fuzz_targets/*.rs]): the harnesses that run the parsers.
    - [Text.v], [Show.v]: the standard library's parsers of numbers and addresses,
      its formatting, [split_whitespace] and [trim] on UTF-8 strings.
    - [Rpki.v] ([rpki.rs]), [Dampening.v] ([dampening.rs]; [f64] is IEEE binary64,
      and [powf] the class [Libm]).
    - [Env.v]: keys, clock and iteration orders.
    - [Rib.v] ([rib.rs]): the operations, and the invariant [rib_wf] they keep;
      [RibSpec.v]: what each operation does; [RibRefine.v]: the RIB as an abstract
      machine ([spec_step] on the tables of the peers, [chosen] for Loc-RIB), which
      the operations refine, and the class [Closed] of the properties of the tables
      that one peer's operations keep: the interface between the RIB and its clients.
    - [Metrics.v] ([metrics.rs]) and [MetricsSpec.v], what its texts say;
      [Fsm.v] ([fsm.rs], [timer.rs]).
    - [Peer.v] ([peer.rs]): the session task, handler by handler; [SessionLogic.v]:
      rules for invariants of sessions ([keeps]), for sessions that return ([safe])
      and for what a session leads to ([leads]), with the invariants proved once for
      any [Closed] property; [Profiles.v]: the two build profiles of a session
      compared, by the preorder "the same, or it panics"; [PeerSpec.v]: the theorems
      about sessions.
    - [Config.v] ([config.rs], [main.rs]): validation, and the configuration the
      daemon starts with.
    - [Policy.v] ([policy.rs]), [RouteReflector.v] ([rr.rs]), [Mp.v] ([mp.rs]).
    - [Mgmt.v] ([mgmt.rs]): the commands and the loop of a management connection.
    - [Server.v] ([server.rs]): all the tasks interleaved, with a step per accepted
      connection, poll of a session, message handled, purge task and command.
    - [EndToEnd.v]: a whole session with a peer that runs the same encoders, from its
      bytes to the RIB.
    - [UnitTests.v], [UnitTestsConfig.v], [UnitTestsRib.v]: the program's own tests (the
      [cfg(test)] modules) as computations of the model.

    ** What is proved

    - The RIB: along any sequence of operations no call panics (in a debug build
      below 2^32 withdrawals) and Loc-RIB is decided by Adj-RIB-In ([rib_consistent]);
      the operations refine the abstract machine ([rib_refines]); each operation's
      effect ([process_update_spec], [remove_peer_spec], [graceful_restart_spec]); the
      decision process is the order of its criteria and does not depend on the hash
      map's order ([decision_criteria], [decision_order_independent]); longest-prefix
      match ([longest_match_spec]).
    - The sessions: what each handler does on every branch, when a session is
      established ([session_established]), what its end does ([session_end_withdraws],
      [error_exits_keep_routes]), that a silent peer is dropped ([silent_session_ends])
      and that only the parser of an UPDATE can panic ([session_round_safe]).  These
      hold in both build profiles: where a debug build could panic under the lock, the
      theorem says that it poisons it, or asks for room in the flap counters
      ([DampeningTable.room]).
    - The composition: what the program's own encoders write, cut into reads in any
      way, establishes a session and applies the peer's UPDATEs in order
      ([session_end_to_end]); a session refines the abstract machine with operations of its
      own peer ([session_refines]), so does the server however its tasks interleave
      ([server_refines]), and a peer without a session keeps its table
      ([dead_peer_table_stays]); a debug server does what a release server does, up to
      a step that poisons the lock ([profiles_agree]).  The steps of [Server.v] make up
      the rounds of [Peer.v]: the lemma [round_steps].
    - The wire formats: framing does not depend on how the stream is cut
      ([framing_stream], [framing_exact]); round trips of attributes, UPDATEs, OPENs,
      capabilities and the multi-protocol attributes; what the fuzz targets look for,
      decided for all inputs: where a parser panics, exactly ([fuzz_targets]; the
      same for the multi-protocol attributes, [mp_parse_panics]).
    - RPKI, dampening, policy, reflection, configuration, management, metrics: the
      functional behaviour of each, in terms that do not mention the code; both texts
      of the metrics determine every counter ([metrics_exposed]).

    The model itself is validated against the program's own 109 tests, which it passes
    ([unit_tests_pass]).

    ** Bounds and fuel

    A parser's loop is given one more unit of fuel than the bytes it reads, and each
    of its rounds consumes one at least, so [Diverge] is never reached: the totality
    lemmas ([..._returns], [bgp_parse_total], [parse_many_returns]) say so.  A session
    loop runs over the list of the reads its stream delivers, and a server over the
    list of what happens, both of any length.

    ** Granularity of the interleaving

    Between two steps of [Server.v] any other task may run.  Within a step a session
    enters the RIB's lock at most once, and what else it touches is its own, but for
    the counters (atomic additions) and the clock; writes to the stream are part of
    the step that makes them.

    ** Not modelled

    Logging and tracing; the TOML parser, the file system and the command line
    parser, which are parameters; the runtime's scheduling within a step, and sockets
    beyond "a read delivers these bytes", "a write succeeds or fails"; binding the
    listening sockets; the delay of a purge task (it may run at any time).  What a
    panic leaves in the lock it poisons is left open (such a panic needs a debug
    build): the sessions never look at it, and a management command, which does, is
    given any RIB ([into_inner]).  The RIB's
    validator keeps its default mode, [Disabled], since nothing in the program gives
    it another: the session theorems take that as a hypothesis on the RIB they start
    from, and [Server.new] satisfies it.  [lib.rs] is a list of modules.  The tests of
    the configuration are stated for any TOML reader that reads their documents, and
    the test of the decay for any [powf] right to one unit in the last place at its
    argument. *)

From stdpp Require Export base tactics numbers list option strings gmap sorting pretty.
From Stdlib Require Export ZArith Lia ZifyBool.

#[export] Set Warnings "-clear-no-such-hyp".

#[export] Set Default Goal Selector "!".

(* ------------------------------------------------------------------ *)
(** ** Outcomes: [Result<A, E>], panics and loops *)

(** The result of running a piece of Rust code: it returns [Ok] or [Err], it
    panics, or (only for a loop given too little fuel) it is still running. *)
Inductive outcome (E A : Type) : Type :=
| Ok (a : A)
| Err (e : E)
| Panic
| Diverge.
Arguments Ok {E A} a.
Arguments Err {E A} e.
Arguments Panic {E A}.
Arguments Diverge {E A}.

#[export] Instance outcome_ret {E} : MRet (outcome E) := λ A a, Ok a.

(** The [?] operator. *)
#[export] Instance outcome_bind {E} : MBind (outcome E) := λ A B f o,
  match o with
  | Ok a => f a
  | Err e => Err e
  | Panic => Panic
  | Diverge => Diverge
  end.

(** [Result::map_err]. *)
Definition map_err {E F A} (f : E → F) (o : outcome E A) : outcome F A :=
  match o with
  | Ok a => Ok a
  | Err e => Err (f e)
  | Panic => Panic
  | Diverge => Diverge
  end.

(** The code returned: no panic, no loop left running. *)
Definition returns {E A} (o : outcome E A) : Prop :=
  match o with Ok _ | Err _ => True | Panic | Diverge => False end.

(** [slice[i]]: out of range is a panic. *)
Definition index {E A} (l : list A) (i : nat) : outcome E A :=
  match l !! i with Some a => Ok a | None => Panic end.

(** [&slice[i..j]]: panics unless [i ≤ j ≤ len]. *)
Definition slice {E A} (l : list A) (i j : nat) : outcome E (list A) :=
  if decide (i ≤ j ∧ j ≤ length l) then Ok (take (j - i) (drop i l)) else Panic.

(** A [while] loop: [body s] is one iteration, [inl] goes round again, [inr]
    leaves the loop.  [fuel] bounds the iterations. *)
Fixpoint loop {E S R} (fuel : nat) (body : S → outcome E (S + R)) (s : S) : outcome E R :=
  match fuel with
  | O => Diverge
  | S fuel =>
      r ← body s;
      match r with
      | inl s' => loop fuel body s'
      | inr r => Ok r
      end
  end.

(* ------------------------------------------------------------------ *)
(** ** Machine integers *)

(** An unsigned [w]-bit value. *)
Definition uint (w z : Z) : Prop := (0 ≤ z < 2 ^ w)%Z.

#[export] Instance uint_dec w z : Decision (uint w z).
Proof. unfold uint. apply _. Defined.

(** [as uN]: truncation to the low [w] bits. *)
Definition wrap (w z : Z) : Z := (z mod 2 ^ w)%Z.

(** Cargo's two profiles: [debug] checks arithmetic overflow and panics,
    [release] wraps around (and masks a shift amount). *)
Inductive profile := Debug | Release.

(** [a - b] on [w]-bit unsigned integers. *)
Definition sub_uint {E} (p : profile) (w a b : Z) : outcome E Z :=
  if (b <=? a)%Z then Ok (a - b)%Z
  else match p with Debug => Panic | Release => Ok (wrap w (a - b)) end.

(** [a + b] on [w]-bit unsigned integers. *)
Definition add_uint {E} (p : profile) (w a b : Z) : outcome E Z :=
  if (a + b <? 2 ^ w)%Z then Ok (a + b)%Z
  else match p with Debug => Panic | Release => Ok (wrap w (a + b)) end.

(** [x >> n] on a [w]-bit unsigned integer. *)
Definition shr_uint {E} (p : profile) (w x n : Z) : outcome E Z :=
  if (n <? w)%Z then Ok (Z.shiftr x n)
  else match p with Debug => Panic | Release => Ok (Z.shiftr x (n mod w)) end.

(** [x << n] on a [w]-bit unsigned integer. *)
Definition shl_uint {E} (p : profile) (w x n : Z) : outcome E Z :=
  if (n <? w)%Z then Ok (wrap w (Z.shiftl x n))
  else match p with Debug => Panic | Release => Ok (wrap w (Z.shiftl x (n mod w))) end.

(** [usize::div_ceil(8)]. *)
Definition div_ceil8 (n : Z) : nat := Z.to_nat ((n + 7) / 8).

(** Big-endian bytes: [to_be_bytes] of an [n]-byte integer, and back. *)
Fixpoint be_bytes (n : nat) (z : Z) : list Z :=
  match n with
  | O => []
  | S n => (Z.shiftr z (8 * Z.of_nat n) mod 256)%Z :: be_bytes n z
  end.

Definition of_be (bs : list Z) : Z := foldl (λ acc b, acc * 256 + b)%Z 0%Z bs.

Abbreviation u8 := (uint 8).
Abbreviation u16 := (uint 16).
Abbreviation u32 := (uint 32).
Abbreviation u64 := (uint 64).

(** An IPv4 address is its 32-bit value; [octets] are [be_bytes 4]. *)
Abbreviation Ipv4Addr := Z.

(** [n.to_string()] of an unsigned integer. *)
Definition show_uint (n : Z) : string := pretty n.

(* ------------------------------------------------------------------ *)
(** ** Lemmas on outcomes and loops *)

Create HintDb outcome discriminated.
Create Rewrite HintDb outcome.

Section outcome_lemmas.
Context {E : Type}.

Lemma bind_Ok_inv {A B} (m : outcome E A) (f : A → outcome E B) b :
  m ≫= f = Ok b → ∃ a, m = Ok a ∧ f a = Ok b.
Proof. destruct m; simpl; naive_solver. Qed.

Lemma bind_Ok_eq {A B} (m : outcome E A) (f : A → outcome E B) a :
  m = Ok a → m ≫= f = f a.
Proof. by intros ->. Qed.

Lemma bind_assoc {A B C} (m : outcome E A) (f : A → outcome E B) (g : B → outcome E C) :
  (m ≫= f) ≫= g = m ≫= (λ a, f a ≫= g).
Proof. by destruct m. Qed.

Lemma returns_bind {A B} (m : outcome E A) (f : A → outcome E B) :
  returns m → (∀ a, m = Ok a → returns (f a)) → returns (m ≫= f).
Proof. destruct m; simpl; naive_solver. Qed.

Lemma returns_Ok {A} (a : A) : returns (E:=E) (Ok a).
Proof. done. Qed.

Lemma returns_Err {A} (e : E) : returns (A:=A) (Err e).
Proof. done. Qed.

Lemma returns_map_err {F A} (f : E → F) (m : outcome E A) :
  returns (map_err f m) ↔ returns m.
Proof. by destruct m. Qed.

Lemma returns_not_panic {A} (m : outcome E A) : returns m → m ≠ Panic ∧ m ≠ Diverge.
Proof. by destruct m. Qed.

Lemma returns_cases {A} (m : outcome E A) :
  returns m → (∃ a, m = Ok a) ∨ (∃ e, m = Err e).
Proof. destruct m; simpl; naive_solver. Qed.

Lemma index_Ok {A} (l : list A) i a : l !! i = Some a → index (E:=E) l i = Ok a.
Proof. unfold index. by intros ->. Qed.

Lemma index_returns {A} (l : list A) i : i < length l → returns (index (E:=E) l i).
Proof. intros [a Ha]%lookup_lt_is_Some. by rewrite (index_Ok _ _ _ Ha). Qed.

Lemma slice_Ok {A} (l : list A) i j :
  i ≤ j → j ≤ length l → slice (E:=E) l i j = Ok (take (j - i) (drop i l)).
Proof. intros. unfold slice. by rewrite decide_True. Qed.

Context {S R : Type}.
Implicit Types (body : S → outcome E (S + R)).

Lemma loop_unfold n body s :
  loop (Datatypes.S n) body s =
    body s ≫= λ r, match r with inl s' => loop n body s' | inr r => Ok r end.
Proof. done. Qed.

(** More fuel does not change the result of a loop that finished. *)
Lemma loop_fuel_mono n m body s :
  loop n body s ≠ Diverge → n ≤ m → loop m body s = loop n body s.
Proof.
  revert m s; induction n as [|n IH]; intros m s Hd Hle; [done|].
  destruct m as [|m]; [lia|]. revert Hd. rewrite !loop_unfold.
  destruct (body s) as [[s'|r]|e| |]; simpl; try done.
  intros Hd. apply IH; [done|lia].
Qed.

(** A loop whose measure decreases, from states of the invariant [I], leaves
    with [Ok] or [Err]. *)
Lemma loop_returns (I : S → Prop) (μ : S → nat) n body s :
  (∀ s, I s → returns (body s)) →
  (∀ s s', I s → body s = Ok (inl s') → I s' ∧ μ s' < μ s) →
  I s → μ s < n → returns (loop n body s).
Proof.
  intros Hret Hdec. revert s; induction n as [|n IH]; intros s HI Hμ; [lia|].
  rewrite loop_unfold. apply returns_bind; [by apply Hret|].
  intros [s'|r] Hb; [|done].
  destruct (Hdec _ _ HI Hb) as [HI' ?]. apply IH; [done|lia].
Qed.

(** The same for loops that may panic: the fuel is always enough. *)
Lemma loop_not_diverge (I : S → Prop) (μ : S → nat) n body s :
  (∀ s, I s → body s ≠ Diverge) →
  (∀ s s', I s → body s = Ok (inl s') → I s' ∧ μ s' < μ s) →
  I s → μ s < n → loop n body s ≠ Diverge.
Proof.
  intros Hret Hdec. revert s; induction n as [|n IH]; intros s HI Hμ; [lia|].
  rewrite loop_unfold. specialize (Hret s HI). specialize (Hdec s).
  destruct (body s) as [[s'|r]|e| |]; simpl; try done.
  destruct (Hdec s' HI eq_refl) as [HI' ?]. apply IH; [done|lia].
Qed.

(** Partial correctness: an invariant of the iterations holds at the exit. *)
Lemma loop_invariant (I : S → Prop) (Q : R → Prop) n body s r :
  (∀ s s', I s → body s = Ok (inl s') → I s') →
  (∀ s r, I s → body s = Ok (inr r) → Q r) →
  I s → loop n body s = Ok r → Q r.
Proof.
  intros Hstep Hexit. revert s; induction n as [|n IH]; intros s HI; [done|].
  rewrite loop_unfold. intros ([s'|r']&Hb&Hr)%bind_Ok_inv; simplify_eq; eauto.
Qed.
End outcome_lemmas.

#[export] Hint Resolve returns_Ok returns_Err returns_bind index_returns : outcome.

(** Splits an equation [m ≫= f = Ok b] of the context into its steps. *)
Ltac inv_bind :=
  repeat match goal with
  | H : mbind _ _ = Ok _ |- _ =>
      let a := fresh "a" in let Ha := fresh "H" in
      apply bind_Ok_inv in H as (a & Ha & H)
  | H : Ok _ = Ok _ |- _ => injection H as H; subst
  | H : Err _ = Ok _ |- _ => discriminate H
  | H : Panic = Ok _ |- _ => discriminate H
  | H : (let '(_, _) := ?x in _) = Ok _ |- _ => destruct x
  end.

(** Proves a decidable statement about concrete values by running its decision. *)
Ltac by_decide := refine (bool_decide_unpack _ _); vm_compute; exact I.

(** Replaces the next step of the goal by its result. *)
Ltac step_with H := erewrite bind_Ok_eq; [|apply H]; cbv beta iota.

(* ------------------------------------------------------------------ *)
(** ** Lemmas on machine integers and bytes *)

Section ints.
Local Open Scope Z_scope.

Lemma uint_mono w w' z : 0 ≤ w ≤ w' → uint w z → uint w' z.
Proof.
  intros Hw [H1 H2]. split; [done|].
  eapply Z.lt_le_trans; [done|]. apply Z.pow_le_mono_r; lia.
Qed.

Lemma wrap_uint w z : 0 ≤ w → uint w (wrap w z).
Proof. intros Hw. apply Z.mod_pos_bound. lia. Qed.

Lemma wrap_small w z : uint w z → wrap w z = z.
Proof. apply Z.mod_small. Qed.

Lemma length_be_bytes n z : length (be_bytes n z) = n.
Proof. induction n; simpl; congruence. Qed.

Lemma be_bytes_u8 n z : Forall u8 (be_bytes n z).
Proof.
  induction n as [|n IH]; simpl; constructor; [|done].
  unfold uint. change (2 ^ 8) with 256. apply Z.mod_pos_bound. lia.
Qed.

Lemma of_be_app bs cs :
  of_be (bs ++ cs) = of_be bs * 256 ^ Z.of_nat (length cs) + of_be cs.
Proof.
  unfold of_be. rewrite foldl_app. generalize (foldl (λ acc b, acc * 256 + b) 0 bs) as a.
  induction cs as [|c cs IH] using rev_ind; intros a; simpl; [lia|].
  rewrite !foldl_app, !length_app; simpl. rewrite IH.
  rewrite Nat2Z.inj_add, Z.pow_add_r by lia. change (Z.of_nat 1) with 1. lia.
Qed.

Lemma of_be_cons b bs : of_be (b :: bs) = b * 256 ^ Z.of_nat (length bs) + of_be bs.
Proof. apply (of_be_app [b]). Qed.

Lemma of_be_bound bs : Forall u8 bs → 0 ≤ of_be bs < 256 ^ Z.of_nat (length bs).
Proof.
  unfold uint; change (2 ^ 8) with 256.
  induction 1 as [|b bs Hb _ IH]; [done|]. rewrite of_be_cons. simpl length.
  rewrite Nat2Z.inj_succ, Z.pow_succ_r by lia. nia.
Qed.

Lemma of_be_uint n bs : Forall u8 bs → length bs = n → uint (8 * Z.of_nat n) (of_be bs).
Proof.
  intros Hbs <-. unfold uint. rewrite Z.pow_mul_r by lia. by apply of_be_bound.
Qed.

Lemma of_be_be_bytes_wrap n z : of_be (be_bytes n z) = wrap (8 * Z.of_nat n) z.
Proof.
  unfold wrap. rewrite Z.pow_mul_r by lia. change (2 ^ 8) with 256.
  induction n as [|n IH]; simpl be_bytes; [by rewrite Z.mod_1_r|].
  rewrite of_be_cons, length_be_bytes, IH.
  rewrite Z.shiftr_div_pow2 by lia. rewrite Z.pow_mul_r by lia. change (2 ^ 8) with 256.
  rewrite Nat2Z.inj_succ, Z.pow_succ_r by lia.
  rewrite (Z.mul_comm 256), (Z.rem_mul_r z (256 ^ Z.of_nat n) 256) by lia. lia.
Qed.

Lemma of_be_be_bytes n z : uint (8 * Z.of_nat n) z → of_be (be_bytes n z) = z.
Proof. intros Hz. rewrite of_be_be_bytes_wrap. by apply wrap_small. Qed.

(** The bytes of the low part do not see a multiple of [256 ^ len]. *)
Lemma be_bytes_add_high n len m y :
  (n ≤ len)%nat → be_bytes n (m * 256 ^ Z.of_nat len + y) = be_bytes n y.
Proof.
  induction n as [|n IHn]; intros Hn; [done|]. simpl. f_equal; [|apply IHn; lia].
  rewrite !Z.shiftr_div_pow2, !Z.pow_mul_r by lia. change (2 ^ 8) with 256.
  replace (Z.of_nat len) with (Z.of_nat n + 1 + Z.of_nat (len - S n)) by lia.
  rewrite !Z.pow_add_r, Z.pow_1_r by lia.
  replace (m * (256 ^ Z.of_nat n * 256 * 256 ^ Z.of_nat (len - S n)) + y)
    with (m * 256 ^ Z.of_nat (len - S n) * 256 * 256 ^ Z.of_nat n + y) by lia.
  rewrite Z.div_add_l by lia. rewrite Z.add_comm, Z.mod_add by lia. done.
Qed.

Lemma be_bytes_of_be bs : Forall u8 bs → be_bytes (length bs) (of_be bs) = bs.
Proof.
  induction 1 as [|b bs Hb Hbs IH]; [done|]. simpl. f_equal.
  - rewrite of_be_cons, Z.shiftr_div_pow2 by lia. rewrite Z.pow_mul_r by lia.
    change (2 ^ 8) with 256. rewrite Z.div_add_l by lia.
    rewrite Z.div_small by (by apply of_be_bound). rewrite Z.add_0_r.
    apply Z.mod_small, Hb.
  - by rewrite of_be_cons, be_bytes_add_high.
Qed.

Lemma sub_uint_le {E} p w a b : b ≤ a → sub_uint (E:=E) p w a b = Ok (a - b).
Proof. intros ?. unfold sub_uint. by rewrite (proj2 (Z.leb_le _ _)) by done. Qed.

Lemma add_uint_lt {E} p w a b : a + b < 2 ^ w → add_uint (E:=E) p w a b = Ok (a + b).
Proof. intros ?. unfold add_uint. by rewrite (proj2 (Z.ltb_lt _ _)) by done. Qed.

Lemma shr_uint_lt {E} p w x n : n < w → shr_uint (E:=E) p w x n = Ok (Z.shiftr x n).
Proof. intros ?. unfold shr_uint. by rewrite (proj2 (Z.ltb_lt _ _)) by done. Qed.

Lemma shl_uint_lt {E} p w x n : n < w → shl_uint (E:=E) p w x n = Ok (wrap w (Z.shiftl x n)).
Proof. intros ?. unfold shl_uint. by rewrite (proj2 (Z.ltb_lt _ _)) by done. Qed.

Lemma div_ceil8_le n : n ≤ 32 → (div_ceil8 n ≤ 4)%nat.
Proof. intros Hn. unfold div_ceil8. assert ((n + 7) / 8 < 5) by (apply Z.div_lt_upper_bound; lia). lia. Qed.
End ints.

#[export] Hint Resolve wrap_uint be_bytes_u8 : outcome.

Arguments be_bytes : simpl never.
Arguments of_be : simpl never.
Arguments wrap : simpl never.
Arguments loop : simpl never.
