(* ===== verification/Bytes.v ===== *)
(** * The interface of the [bytes] crate

    PathForge reads and writes its wire formats through [bytes::Buf] and
    [bytes::BufMut].  The crate is third-party code: its operations are the
    parameter [BytesApi] of the development, and [BytesLaws] states what the
    crate documents of them.  A buffer is seen as the list of bytes that remain
    to be read (or that were written); [remaining], [len] and [is_empty] are the
    list's.  [list_bytes_api] is a concrete instance, used by the witnesses. *)

From S2P Require Import Prelude.

Abbreviation bytes := (list Z).

(** The operations PathForge calls.  A read returns the value and the buffer
    after it; reading past the end is a panic, as the crate documents. *)
Class BytesApi := {
  get_u8 : ∀ {E}, bytes → outcome E (Z * bytes);
  get_u16 : ∀ {E}, bytes → outcome E (Z * bytes);
  get_u32 : ∀ {E}, bytes → outcome E (Z * bytes);
  (** [copy_to_slice] of a slice of [n] bytes, [copy_to_bytes n] *)
  copy_to_slice : ∀ {E}, nat → bytes → outcome E (bytes * bytes);
  copy_to_bytes : ∀ {E}, nat → bytes → outcome E (bytes * bytes);
  advance : ∀ {E}, nat → bytes → outcome E bytes;
  put_u8 : bytes → Z → bytes;
  put_u16 : bytes → Z → bytes;
  put_u32 : bytes → Z → bytes;
  put_slice : bytes → bytes → bytes;
  put_bytes : bytes → Z → nat → bytes;
  (** [BufMut::put] of a whole buffer *)
  put : bytes → bytes → bytes
}.

(** What a read of [n] bytes gives: the first [n] bytes, or a panic. *)
Definition take_or_panic {E A} (n : nat) (f : bytes → A) (buf : bytes) : outcome E (A * bytes) :=
  if decide (n ≤ length buf) then Ok (f (take n buf), drop n buf) else Panic.

(** The documented behaviour of [bytes::Buf] and [bytes::BufMut] (big endian). *)
Class BytesLaws (api : BytesApi) : Prop := {
  get_u8_spec E buf : get_u8 (E:=E) buf = take_or_panic 1 of_be buf;
  get_u16_spec E buf : get_u16 (E:=E) buf = take_or_panic 2 of_be buf;
  get_u32_spec E buf : get_u32 (E:=E) buf = take_or_panic 4 of_be buf;
  copy_to_slice_spec E n buf : copy_to_slice (E:=E) n buf = take_or_panic n id buf;
  copy_to_bytes_spec E n buf : copy_to_bytes (E:=E) n buf = take_or_panic n id buf;
  advance_spec E n buf :
    advance (E:=E) n buf = '(_, rest) ← take_or_panic n id buf; Ok rest;
  put_u8_spec buf v : put_u8 buf v = buf ++ [v];
  put_u16_spec buf v : put_u16 buf v = buf ++ be_bytes 2 v;
  put_u32_spec buf v : put_u32 buf v = buf ++ be_bytes 4 v;
  put_slice_spec buf s : put_slice buf s = buf ++ s;
  put_bytes_spec buf v n : put_bytes buf v n = buf ++ replicate n v;
  put_spec buf s : put buf s = buf ++ s
}.

(** Buffers as plain lists. *)
Definition list_bytes_api : BytesApi := {|
  get_u8 E := take_or_panic 1 of_be;
  get_u16 E := take_or_panic 2 of_be;
  get_u32 E := take_or_panic 4 of_be;
  copy_to_slice E n := take_or_panic n id;
  copy_to_bytes E n := take_or_panic n id;
  advance E n buf := '(_, rest) ← take_or_panic n id buf; Ok rest;
  put_u8 buf v := buf ++ [v];
  put_u16 buf v := buf ++ be_bytes 2 v;
  put_u32 buf v := buf ++ be_bytes 4 v;
  put_slice buf s := buf ++ s;
  put_bytes buf v n := buf ++ replicate n v;
  put buf s := buf ++ s
|}.

#[export] Instance list_bytes_laws : BytesLaws list_bytes_api.
Proof. by constructor. Qed.

(* ------------------------------------------------------------------ *)
(** ** Reading back what was written *)

Create Rewrite HintDb bytes.

Section bytes_lemmas.
Context {api : BytesApi} {laws : BytesLaws api}.

Lemma take_or_panic_app {E A} n (f : bytes → A) bs rest :
  length bs = n → take_or_panic (E:=E) n f (bs ++ rest) = Ok (f bs, rest).
Proof.
  intros <-. unfold take_or_panic. rewrite decide_True by (rewrite length_app; lia).
  by rewrite take_app_length, drop_app_length.
Qed.

Lemma take_or_panic_short {E A} n (f : bytes → A) buf :
  length buf < n → take_or_panic (E:=E) n f buf = Panic.
Proof. intros ?. unfold take_or_panic. rewrite decide_False; [done|lia]. Qed.

Lemma take_or_panic_long {E A} n (f : bytes → A) buf :
  n ≤ length buf → take_or_panic (E:=E) n f buf = Ok (f (take n buf), drop n buf).
Proof. intros ?. unfold take_or_panic. by rewrite decide_True. Qed.

Lemma take_or_panic_Ok {E A} n (f : bytes → A) buf a rest :
  take_or_panic (E:=E) n f buf = Ok (a, rest) →
  n ≤ length buf ∧ a = f (take n buf) ∧ rest = drop n buf.
Proof. unfold take_or_panic. case_decide; naive_solver. Qed.

Lemma get_u8_cons {E} b rest : get_u8 (E:=E) (b :: rest) = Ok (b, rest).
Proof.
  rewrite get_u8_spec. change (b :: rest) with ([b] ++ rest).
  rewrite take_or_panic_app by done. by rewrite of_be_cons, Z.mul_1_r, Z.add_0_r.
Qed.

Lemma get_u8_nil {E} : get_u8 (E:=E) [] = Panic.
Proof. by rewrite get_u8_spec. Qed.

Lemma get_u16_cons {E} a b rest : get_u16 (E:=E) (a :: b :: rest) = Ok ((a * 256 + b)%Z, rest).
Proof.
  rewrite get_u16_spec. change (a :: b :: rest) with ([a; b] ++ rest).
  by rewrite take_or_panic_app.
Qed.

Lemma get_u16_app {E} v rest : u16 v → get_u16 (E:=E) (be_bytes 2 v ++ rest) = Ok (v, rest).
Proof.
  intros. rewrite get_u16_spec, take_or_panic_app by apply length_be_bytes.
  by rewrite of_be_be_bytes.
Qed.

Lemma get_u32_app {E} v rest : u32 v → get_u32 (E:=E) (be_bytes 4 v ++ rest) = Ok (v, rest).
Proof.
  intros. rewrite get_u32_spec, take_or_panic_app by apply length_be_bytes.
  by rewrite of_be_be_bytes.
Qed.

Lemma copy_to_slice_app {E} n bs rest :
  length bs = n → copy_to_slice (E:=E) n (bs ++ rest) = Ok (bs, rest).
Proof. intros. by rewrite copy_to_slice_spec, take_or_panic_app. Qed.

Lemma copy_to_bytes_app {E} n bs rest :
  length bs = n → copy_to_bytes (E:=E) n (bs ++ rest) = Ok (bs, rest).
Proof. intros. by rewrite copy_to_bytes_spec, take_or_panic_app. Qed.

(** The same for a buffer that ends with what was written. *)
Lemma get_u16_all {E} v : u16 v → get_u16 (E:=E) (be_bytes 2 v) = Ok (v, []).
Proof. intros. rewrite <- (app_nil_r (be_bytes 2 v)). by apply get_u16_app. Qed.

Lemma get_u32_all {E} v : u32 v → get_u32 (E:=E) (be_bytes 4 v) = Ok (v, []).
Proof. intros. rewrite <- (app_nil_r (be_bytes 4 v)). by apply get_u32_app. Qed.

Lemma copy_to_bytes_all {E} n bs : length bs = n → copy_to_bytes (E:=E) n bs = Ok (bs, []).
Proof. intros. rewrite <- (app_nil_r bs) at 1. by apply copy_to_bytes_app. Qed.

Lemma copy_to_slice_all {E} n bs : length bs = n → copy_to_slice (E:=E) n bs = Ok (bs, []).
Proof. intros. rewrite <- (app_nil_r bs) at 1. by apply copy_to_slice_app. Qed.

(** Results of the reads, by the length of the buffer. *)
Lemma get_u8_Ok {E} buf v rest :
  get_u8 (E:=E) buf = Ok (v, rest) → buf = v :: rest.
Proof.
  rewrite get_u8_spec. intros (Hl&->&->)%take_or_panic_Ok.
  destruct buf as [|b buf]; simpl in *; [lia|]. rewrite take_0, drop_0.
  by rewrite of_be_cons, Z.mul_1_r, Z.add_0_r.
Qed.

Lemma get_u16_Ok {E} buf v rest :
  get_u16 (E:=E) buf = Ok (v, rest) → 2 ≤ length buf ∧ v = of_be (take 2 buf) ∧ rest = drop 2 buf.
Proof. rewrite get_u16_spec. apply take_or_panic_Ok. Qed.

Lemma get_u32_Ok {E} buf v rest :
  get_u32 (E:=E) buf = Ok (v, rest) → 4 ≤ length buf ∧ v = of_be (take 4 buf) ∧ rest = drop 4 buf.
Proof. rewrite get_u32_spec. apply take_or_panic_Ok. Qed.

Lemma get_u8_returns {E} buf : 1 ≤ length buf → returns (get_u8 (E:=E) buf).
Proof. intros. by rewrite get_u8_spec, take_or_panic_long. Qed.

Lemma get_u16_returns {E} buf : 2 ≤ length buf → returns (get_u16 (E:=E) buf).
Proof. intros. by rewrite get_u16_spec, take_or_panic_long. Qed.

Lemma get_u32_returns {E} buf : 4 ≤ length buf → returns (get_u32 (E:=E) buf).
Proof. intros. by rewrite get_u32_spec, take_or_panic_long. Qed.

Lemma copy_to_slice_long {E} n buf :
  n ≤ length buf → copy_to_slice (E:=E) n buf = Ok (take n buf, drop n buf).
Proof. intros. by rewrite copy_to_slice_spec, take_or_panic_long. Qed.

Lemma copy_to_bytes_long {E} n buf :
  n ≤ length buf → copy_to_bytes (E:=E) n buf = Ok (take n buf, drop n buf).
Proof. intros. by rewrite copy_to_bytes_spec, take_or_panic_long. Qed.

Lemma advance_long {E} n buf : n ≤ length buf → advance (E:=E) n buf = Ok (drop n buf).
Proof. intros. by rewrite advance_spec, take_or_panic_long. Qed.

Lemma u8_take_drop (buf : bytes) n : Forall u8 buf → Forall u8 (take n buf) ∧ Forall u8 (drop n buf).
Proof. intros. split; [by apply Forall_take|by apply Forall_drop]. Qed.
End bytes_lemmas.

#[export] Hint Rewrite @put_u8_spec @put_u16_spec @put_u32_spec @put_slice_spec
  @put_bytes_spec @put_spec using typeclasses eauto : bytes.
#[export] Hint Resolve get_u8_returns get_u16_returns get_u32_returns : outcome.

(** ** Reading to the end of a buffer

    The loop [while buf.remaining() > 0 { items.push(parse(&mut buf)?) }]. *)

Section many.
Context {E A : Type} (parse : bytes → outcome E (A * bytes)).

Definition parse_step (s : list A * bytes) : outcome E ((list A * bytes) + list A) :=
  let '(items, buf) := s in
  if decide (0 < length buf) then
    '(a, buf) ← parse buf;
    Ok (inl (items ++ [a], buf))
  else Ok (inr items).

Definition parse_many (buf : bytes) : outcome E (list A) :=
  loop (S (length buf)) parse_step ([], buf).

(** It returns when the parser does, and consumes something each time. *)
Lemma parse_many_returns buf :
  (∀ buf, returns (parse buf)) →
  (∀ buf a rest, parse buf = Ok (a, rest) → length rest < length buf) →
  returns (parse_many buf).
Proof.
  intros Hret Hshort. apply (loop_returns (λ _, True) (λ s, length s.2)); [| |done|simpl; lia].
  - intros [ps b] _. simpl. case_decide; [|done]. apply returns_bind; [apply Hret|]. by intros [].
  - intros [ps b] [ps' b'] _ Hs. split; [done|]. simpl in Hs. case_decide; [|done].
    apply bind_Ok_inv in Hs as ([p rest]&Hp&[= <- <-]). by apply Hshort in Hp.
Qed.

(** It reads back a sequence of encodings. *)
Lemma parse_many_concat (enc : A → bytes) (wf : A → Prop) l :
  (∀ a rest, wf a → parse (enc a ++ rest) = Ok (a, rest)) →
  (∀ a, 0 < length (enc a)) → Forall wf l →
  parse_many (concat (map enc l)) = Ok l.
Proof.
  intros Hparse Henc Hl. unfold parse_many.
  assert (∀ acc n, length (concat (map enc l)) < n →
    loop n parse_step (acc, concat (map enc l)) = Ok (acc ++ l)) as Hloop; [|by rewrite Hloop by lia].
  induction Hl as [|a l Ha _ IH]; intros acc n Hn; (destruct n as [|n]; [simpl in *; lia|]);
    rewrite loop_unfold; cbn [parse_step].
  - by rewrite app_nil_r.
  - cbn [map concat] in *. rewrite length_app in Hn. pose proof (Henc a).
    rewrite decide_True by (rewrite length_app; lia).
    rewrite Hparse by done. cbn [mbind outcome_bind].
    rewrite IH by lia. by rewrite <- app_assoc.
Qed.
End many.

(** Evaluates the next read of the goal on a buffer that starts with what it
    reads. *)
Ltac read_step :=
  first
    [ rewrite get_u8_cons | rewrite get_u16_app by eauto | rewrite get_u32_app by eauto
    | rewrite get_u16_all by eauto | rewrite get_u32_all by eauto
    | rewrite copy_to_bytes_app by eauto | rewrite copy_to_slice_app by eauto
    | rewrite copy_to_bytes_all by eauto | rewrite copy_to_slice_all by eauto ];
  cbn [mbind outcome_bind].
