(* ===== verification/Message.v ===== *)
(** * Message framing ([src/message/mod.rs])

    The 19-byte header, the message types and their errors, and
    [BgpMessage::parse], which takes one complete message off the front of the
    receive buffer.  [WireMessage] is the interface between framing and the
    message kinds of [OpenMessage], [Notification], [UpdateMessage]. *)

From S2P Require Import Prelude.
From S2P Require Import Bytes.

Module MessageType.
Inductive t := Open | Update | Notification | Keepalive | RouteRefresh.

#[global] Instance t_eq_dec : EqDecision t.
Proof. solve_decision. Defined.

(** [msg_type as u8] *)
Definition to_u8 (m : t) : Z :=
  match m with
  | Open => 1 | Update => 2 | Notification => 3 | Keepalive => 4 | RouteRefresh => 5
  end.
End MessageType.

Module MessageError.
Inductive t :=
| UnknownType (v : Z)
| TooShort (expected got : nat)
| InvalidMarker
| InvalidLength (l : Z)
| Parse (msg : string).
End MessageError.

Definition msg_type_try_from (v : Z) : outcome MessageError.t MessageType.t :=
  match v with
  | 1%Z => Ok MessageType.Open
  | 2%Z => Ok MessageType.Update
  | 3%Z => Ok MessageType.Notification
  | 4%Z => Ok MessageType.Keepalive
  | 5%Z => Ok MessageType.RouteRefresh
  | _ => Err (MessageError.UnknownType v)
  end.

Definition MARKER : bytes := replicate 16 255%Z.
Definition HEADER_LEN : nat := 19.
Definition MAX_MESSAGE_LEN : Z := 4096.

Module Header.
Record t := mk { len : Z; msg_type : MessageType.t }.

Definition new (msg_type : MessageType.t) (body_len : nat) : t :=
  {| len := wrap 16 (Z.of_nat (HEADER_LEN + body_len)); msg_type := msg_type |}.

Section api.
Context {api : BytesApi}.

(** The result carries the buffer after the header; on an error the caller's
    cursor is dropped with the error ([BgpMessage::parse] reads a copy). *)
Definition parse (buf : bytes) : outcome MessageError.t (t * bytes) :=
  if decide (length buf < HEADER_LEN) then
    Err (MessageError.TooShort HEADER_LEN (length buf))
  else
    '(marker, buf) ← copy_to_slice 16 buf;
    if bool_decide (marker ≠ MARKER) then Err MessageError.InvalidMarker
    else
      '(len, buf) ← get_u16 buf;
      if ((len <? Z.of_nat HEADER_LEN) || (MAX_MESSAGE_LEN <? len))%Z
      then Err (MessageError.InvalidLength len)
      else
        '(type_byte, buf) ← get_u8 buf;
        msg_type ← msg_type_try_from type_byte;
        Ok ({| len := len; msg_type := msg_type |}, buf).

Definition serialize (self : t) (buf : bytes) : bytes :=
  let buf := put_slice buf MARKER in
  let buf := put_u16 buf self.(len) in
  put_u8 buf (MessageType.to_u8 self.(msg_type)).
End api.
End Header.

Module BgpMessage.
Record t := mk { header : Header.t; body : bytes }.

Section api.
Context {api : BytesApi}.

(** [None] asks for more data and leaves the buffer as it is. *)
Definition parse (buf : bytes) : outcome MessageError.t (option t * bytes) :=
  if decide (length buf < HEADER_LEN) then Ok (None, buf)
  else
    '(header, _) ← Header.parse buf;
    let total := Z.to_nat header.(Header.len) in
    if decide (length buf < total) then Ok (None, buf)
    else
      rest ← advance HEADER_LEN buf;
      '(body, rest) ← copy_to_bytes (total - HEADER_LEN) rest;
      Ok (Some {| header := header; body := body |}, rest).

(** The message as it stands on the wire. *)
Definition encode (m : t) : bytes := Header.serialize m.(header) [] ++ m.(body).

(** The [while let Some(msg) = BgpMessage::parse(&mut buf)?] loop of
    [Peer::run_session], with the messages collected in order instead of
    handled. *)
Definition drain (buf : bytes) : outcome MessageError.t (list t * bytes) :=
  loop (S (length buf)) (λ '(msgs, buf),
    '(m, rest) ← parse buf;
    match m with
    | Some msg => Ok (inl (msgs ++ [msg], rest))
    | None => Ok (inr (msgs, rest))
    end) ([], buf).
End api.

(** A header the parser accepts, and a body of the length it announces. *)
Definition wf (m : t) : Prop :=
  m.(header).(Header.len) = Z.of_nat (HEADER_LEN + length m.(body)) ∧
  (Z.of_nat (HEADER_LEN + length m.(body)) ≤ MAX_MESSAGE_LEN)%Z.
End BgpMessage.

(** The read loop of [Peer::run_session]: every chunk the socket delivers is
    appended to the buffer, which is then drained. *)
Fixpoint feed {api : BytesApi} (chunks : list bytes) (buf : bytes) :
    outcome MessageError.t (list BgpMessage.t * bytes) :=
  match chunks with
  | [] => Ok ([], buf)
  | chunk :: chunks =>
      '(msgs, rest) ← BgpMessage.drain (buf ++ chunk);
      '(msgs', rest) ← feed chunks rest;
      Ok (msgs ++ msgs', rest)
  end.

(** What a message kind promises to the framing layer: it is written as a header
    of its type followed by a body, and its body parser reads that body back. *)
Class WireMessage (M : Type) {api : BytesApi} := {
  wire_type : MessageType.t;
  wire_body : M → bytes;
  wire_serialize : M → bytes;
  wire_parse : bytes → outcome MessageError.t M;
  wire_wf : M → Prop;
  wire_serialize_eq m :
    wire_serialize m = Header.serialize (Header.new wire_type (length (wire_body m))) [] ++ wire_body m;
  wire_parse_body m : wire_wf m → wire_parse (wire_body m) = Ok m
}.

(* ------------------------------------------------------------------ *)
(** ** Lemmas *)

Lemma msg_type_of_to_u8 mt : msg_type_try_from (MessageType.to_u8 mt) = Ok mt.
Proof. by destruct mt. Qed.

Lemma msg_type_try_from_Ok v mt : msg_type_try_from v = Ok mt → v = MessageType.to_u8 mt.
Proof.
  unfold msg_type_try_from. intros Hv.
  repeat (case_match; try discriminate); by simplify_eq.
Qed.

Lemma msg_type_returns v : returns (msg_type_try_from v).
Proof. unfold msg_type_try_from. by repeat case_match. Qed.

Section message_lemmas.
Context {api : BytesApi} {laws : BytesLaws api}.

Lemma header_serialize_eq h buf :
  Header.serialize h buf =
    buf ++ MARKER ++ be_bytes 2 h.(Header.len) ++ [MessageType.to_u8 h.(Header.msg_type)].
Proof. unfold Header.serialize. autorewrite with bytes. by rewrite <- !app_assoc. Qed.

Lemma length_header_serialize h : length (Header.serialize h []) = HEADER_LEN.
Proof. by rewrite header_serialize_eq, !length_app, length_be_bytes. Qed.

(** What [Header::parse] does, by the byte offsets of the header. *)
Lemma header_parse_spec buf :
  Header.parse buf =
    if decide (length buf < HEADER_LEN) then Err (MessageError.TooShort HEADER_LEN (length buf))
    else if bool_decide (take 16 buf ≠ MARKER) then Err MessageError.InvalidMarker
    else
      let l := of_be (take 2 (drop 16 buf)) in
      if ((l <? 19) || (4096 <? l))%Z then Err (MessageError.InvalidLength l)
      else
        mt ← msg_type_try_from (of_be (take 1 (drop 18 buf)));
        Ok ({| Header.len := l; Header.msg_type := mt |}, drop 19 buf).
Proof.
  unfold Header.parse. destruct (decide (length buf < HEADER_LEN)) as [|Hlen]; [done|].
  unfold HEADER_LEN in *.
  rewrite copy_to_slice_long by lia. cbn [mbind outcome_bind]. case_bool_decide; [done|].
  rewrite get_u16_spec, take_or_panic_long by (rewrite length_drop; lia).
  cbn [mbind outcome_bind]. cbv zeta. destruct (_ || _)%Z; [done|].
  rewrite get_u8_spec, take_or_panic_long by (rewrite !length_drop; lia).
  cbn [mbind outcome_bind]. by rewrite !drop_drop.
Qed.

Lemma header_parse_returns buf : returns (Header.parse buf).
Proof.
  rewrite header_parse_spec. case_decide; [done|]. case_bool_decide; [done|].
  cbv zeta. destruct (_ || _)%Z; [done|].
  apply returns_bind; [apply msg_type_returns|done].
Qed.

Lemma header_parse_app mt l rest :
  (19 ≤ l ≤ 4096)%Z →
  let h := {| Header.len := l; Header.msg_type := mt |} in
  Header.parse (Header.serialize h [] ++ rest) = Ok (h, rest).
Proof.
  intros Hl; cbv zeta. assert (u16 l) by (split; lia).
  unfold Header.parse. rewrite decide_False
    by (rewrite length_app, length_header_serialize; lia).
  rewrite header_serialize_eq, app_nil_l, <- !app_assoc.
  cbn [Header.len Header.msg_type].
  rewrite copy_to_slice_app by done. cbn [mbind outcome_bind].
  rewrite bool_decide_false by auto. read_step.
  replace ((l <? _) || _)%Z with false; [|unfold HEADER_LEN, MAX_MESSAGE_LEN; lia].
  simpl app. read_step. by rewrite msg_type_of_to_u8.
Qed.

(** The header of a buffer does not depend on the bytes after it. *)
Lemma header_parse_more buf more :
  HEADER_LEN ≤ length buf →
  Header.parse (buf ++ more) = '(h, rest) ← Header.parse buf; Ok (h, rest ++ more).
Proof.
  unfold HEADER_LEN. intros Hlen. rewrite !header_parse_spec. unfold HEADER_LEN.
  rewrite !decide_False by (rewrite ?length_app; lia).
  rewrite !take_app_le, !drop_app_le by lia. rewrite !take_app_le by (rewrite length_drop; lia).
  case_bool_decide; [done|]. cbv zeta. destruct (_ || _)%Z; [done|].
  by destruct (msg_type_try_from _).
Qed.

Lemma header_parse_Ok buf h rest :
  Header.parse buf = Ok (h, rest) →
  HEADER_LEN ≤ length buf ∧ take 16 buf = MARKER ∧
  h.(Header.len) = of_be (take 2 (drop 16 buf)) ∧ (19 ≤ h.(Header.len) ≤ 4096)%Z ∧
  of_be (take 1 (drop 18 buf)) = MessageType.to_u8 h.(Header.msg_type) ∧ rest = drop 19 buf.
Proof.
  rewrite header_parse_spec. destruct (decide _) as [|Hlen]; [done|].
  case_bool_decide as Hm; [done|]. cbv zeta. destruct (_ || _)%Z eqn:Hl; [done|].
  intros (mt&Hmt%msg_type_try_from_Ok&[= <- <-])%bind_Ok_inv. simpl.
  split_and!; [lia|done|done|lia|lia|done|done].
Qed.

(** A parsed header is the header's serialisation, byte for byte. *)
Lemma header_parse_inv buf h rest :
  Forall u8 buf → Header.parse buf = Ok (h, rest) → buf = Header.serialize h [] ++ rest.
Proof.
  intros Hu8 (Hlen&Hm&Hl&_&Ht&->)%header_parse_Ok. unfold HEADER_LEN in *.
  rewrite header_serialize_eq, app_nil_l, <- !app_assoc, <- Hm, Hl, <- Ht.
  destruct (u8_take_drop buf 16 Hu8) as [_ Hu16].
  destruct (u8_take_drop (drop 16 buf) 2 Hu16) as [H2 _].
  apply be_bytes_of_be in H2. rewrite length_take_le in H2 by (rewrite length_drop; lia).
  rewrite H2. rewrite <- (take_drop 16 buf) at 1. f_equal.
  rewrite <- (take_drop 2 (drop 16 buf)) at 1. f_equal. rewrite drop_drop. simpl Nat.add.
  rewrite <- (take_drop 1 (drop 18 buf)) at 1. rewrite drop_drop. f_equal.
  assert (Hd : length (drop 18 buf) > 0) by (rewrite length_drop; lia).
  destruct (drop 18 buf) as [|b ?]; simpl in *; [lia|].
  by rewrite take_0, of_be_cons, Z.mul_1_r, Z.add_0_r.
Qed.

(* ------------------------------------------------------------------ *)
(** ** One message off the buffer *)

Lemma length_encode m : length (BgpMessage.encode m) = HEADER_LEN + length m.(BgpMessage.body).
Proof. unfold BgpMessage.encode. by rewrite length_app, length_header_serialize. Qed.

Lemma bgp_parse_eq buf :
  BgpMessage.parse buf =
    if decide (length buf < HEADER_LEN) then Ok (None, buf)
    else
      '(h, _) ← Header.parse buf;
      let total := Z.to_nat h.(Header.len) in
      if decide (length buf < total) then Ok (None, buf)
      else Ok (Some (BgpMessage.mk h (take (total - HEADER_LEN) (drop HEADER_LEN buf))),
               drop total buf).
Proof.
  unfold BgpMessage.parse. destruct (decide (length buf < HEADER_LEN)) as [|Hlen]; [done|].
  destruct (Header.parse buf) as [[h r]|e| |] eqn:Hh; simpl; [|done..].
  apply header_parse_Ok in Hh as (_&_&_&Hl&_). unfold HEADER_LEN in *.
  destruct (decide (length buf < Z.to_nat _)) as [|Ht]; [done|].
  rewrite advance_long by lia. simpl. rewrite copy_to_bytes_long by (rewrite length_drop; lia).
  simpl. rewrite drop_drop. do 3 f_equal. f_equal. lia.
Qed.

Lemma bgp_parse_total buf : returns (BgpMessage.parse buf).
Proof.
  rewrite bgp_parse_eq. destruct (decide _); [done|].
  apply returns_bind; [apply header_parse_returns|]. intros [h r] _. cbv zeta. by case_decide.
Qed.

Lemma header_parse_encode m rest :
  BgpMessage.wf m →
  Header.parse (BgpMessage.encode m ++ rest) =
    Ok (m.(BgpMessage.header), m.(BgpMessage.body) ++ rest).
Proof.
  destruct m as [[l mt] body]. unfold BgpMessage.wf, MAX_MESSAGE_LEN, BgpMessage.encode, HEADER_LEN.
  cbn [BgpMessage.header BgpMessage.body Header.len]. intros [Hl Hmax].
  rewrite <- app_assoc. apply header_parse_app. lia.
Qed.

Lemma bgp_parse_encode m rest :
  BgpMessage.wf m → BgpMessage.parse (BgpMessage.encode m ++ rest) = Ok (Some m, rest).
Proof.
  intros Hwf. pose proof (length_encode m) as Henc. rewrite bgp_parse_eq.
  rewrite decide_False by (rewrite length_app; lia). rewrite header_parse_encode by done.
  destruct Hwf as [Hl _]. cbn [mbind outcome_bind]. rewrite Hl, Nat2Z.id. cbv zeta.
  rewrite decide_False by (rewrite length_app; lia).
  rewrite (drop_app_length' (BgpMessage.encode m) rest (HEADER_LEN + _)) by lia.
  do 3 f_equal. unfold BgpMessage.encode.
  rewrite <- app_assoc, drop_app_length' by (by rewrite length_header_serialize).
  rewrite take_app_length' by lia. by destruct m.
Qed.

Lemma bgp_parse_Some buf m rest :
  Forall u8 buf → BgpMessage.parse buf = Ok (Some m, rest) →
  BgpMessage.wf m ∧ buf = BgpMessage.encode m ++ rest.
Proof.
  intros Hu8. rewrite bgp_parse_eq. destruct (decide _) as [|Hlen]; [done|].
  intros ([h r]&Hh&Hm)%bind_Ok_inv. cbv zeta in Hm. destruct (decide _) as [|Ht]; [done|].
  injection Hm as <- <-. pose proof (header_parse_Ok _ _ _ Hh) as (_&_&_&Hl&_&->).
  apply header_parse_inv in Hh; [|done]. unfold BgpMessage.wf, MAX_MESSAGE_LEN. simpl.
  unfold HEADER_LEN in *.
  rewrite length_take_le by (rewrite length_drop; lia). split_and!; [lia|lia|].
  unfold BgpMessage.encode. simpl. rewrite <- app_assoc. rewrite Hh at 1. f_equal.
  rewrite <- (take_drop (Z.to_nat (Header.len h) - 19) (drop 19 buf)) at 1.
  rewrite drop_drop. do 2 f_equal. lia.
Qed.

(** A message found in a buffer is found there again when more bytes follow, and
    so is an error. *)
Lemma bgp_parse_more buf more m rest :
  BgpMessage.parse buf = Ok (Some m, rest) →
  BgpMessage.parse (buf ++ more) = Ok (Some m, rest ++ more).
Proof.
  rewrite !bgp_parse_eq. destruct (decide _) as [|Hlen]; [done|].
  intros ([h r]&Hh&Hm)%bind_Ok_inv. cbv zeta in Hm. destruct (decide _) as [|Ht]; [done|].
  pose proof (header_parse_Ok _ _ _ Hh) as (_&_&_&Hl&_&->).
  injection Hm as <- <-. unfold HEADER_LEN in *.
  rewrite decide_False by (rewrite length_app; lia). rewrite header_parse_more by (unfold HEADER_LEN; lia).
  rewrite Hh. simpl. rewrite decide_False by (rewrite length_app; lia).
  rewrite !drop_app_le by lia. by rewrite take_app_le by (rewrite length_drop; lia).
Qed.

Lemma bgp_parse_more_Err buf more e :
  BgpMessage.parse buf = Err e → BgpMessage.parse (buf ++ more) = Err e.
Proof.
  rewrite !bgp_parse_eq. destruct (decide _) as [|Hlen]; [done|].
  rewrite decide_False by (rewrite length_app; lia). rewrite header_parse_more by lia.
  destruct (Header.parse buf) as [[h r]|e'| |]; simpl; [by destruct (decide _)|done..].
Qed.

Lemma bgp_parse_None buf rest : BgpMessage.parse buf = Ok (None, rest) → rest = buf.
Proof.
  rewrite bgp_parse_eq. destruct (decide _); [by intros [= <-]|].
  intros ([h r]&_&Hm)%bind_Ok_inv. cbv zeta in Hm. destruct (decide _); by simplify_eq.
Qed.

Lemma bgp_parse_shorter buf m rest :
  BgpMessage.parse buf = Ok (Some m, rest) → length rest < length buf.
Proof.
  rewrite bgp_parse_eq. destruct (decide _) as [|Hlen]; [done|].
  intros ([h r]&Hh&Hm)%bind_Ok_inv. cbv zeta in Hm. destruct (decide _) as [|Ht]; [done|].
  apply header_parse_Ok in Hh as (_&_&_&Hl&_). injection Hm as _ <-.
  unfold HEADER_LEN in *. rewrite length_drop. lia.
Qed.

(* ------------------------------------------------------------------ *)
(** ** The receive loop *)

(** One round of [drain], with the messages already collected put in front. *)
Lemma drain_acc n acc buf :
  loop n (λ '(msgs, buf),
    '(m, rest) ← BgpMessage.parse buf;
    match m with
    | Some msg => Ok (inl (msgs ++ [msg], rest))
    | None => Ok (inr (msgs, rest))
    end) (acc, buf) =
  '(msgs, rest) ← loop n (λ '(msgs, buf),
    '(m, rest) ← BgpMessage.parse buf;
    match m with
    | Some msg => Ok (inl (msgs ++ [msg], rest))
    | None => Ok (inr (msgs, rest))
    end) ([], buf);
  Ok (acc ++ msgs, rest).
Proof.
  revert acc buf; induction n as [|n IH]; intros acc buf; [done|]. rewrite !loop_unfold.
  destruct (BgpMessage.parse buf) as [[[m|] rest]|e| |]; simpl; [|by rewrite app_nil_r|done..].
  rewrite IH. rewrite (IH [m]). destruct (loop n _ ([], rest)) as [[ms r]|e| |]; simpl; [|done..].
  by rewrite <- app_assoc.
Qed.

Lemma drain_unfold buf :
  BgpMessage.drain buf =
    '(m, rest) ← BgpMessage.parse buf;
    match m with
    | Some msg => '(msgs, rest) ← BgpMessage.drain rest; Ok (msg :: msgs, rest)
    | None => Ok ([], rest)
    end.
Proof.
  unfold BgpMessage.drain at 1. rewrite loop_unfold. cbv beta iota.
  destruct (BgpMessage.parse buf) as [[[m|] rest]|e| |] eqn:Hp; simpl; [|done..].
  apply bgp_parse_shorter in Hp. rewrite drain_acc. unfold BgpMessage.drain.
  erewrite (loop_fuel_mono (S (length rest)) (length buf)); [done| |lia].
  apply (loop_not_diverge (λ _, True) (λ s, length s.2)); simpl; [| |done|lia].
  - intros [ms b] _. pose proof (bgp_parse_total b) as Ht.
    destruct (BgpMessage.parse b) as [[[?|] ?]|?| |]; done.
  - intros [ms b] s' _ Hb. split; [done|]. apply bind_Ok_inv in Hb as ([[m'|] r]&Hp'&Hs); simplify_eq.
    by apply bgp_parse_shorter in Hp'.
Qed.

(** Induction on the length of the receive buffer. *)
Lemma bytes_length_ind (P : bytes → Prop) :
  (∀ buf, (∀ buf', length buf' < length buf → P buf') → P buf) → ∀ buf, P buf.
Proof. intros IH. apply (well_founded_induction (well_founded_ltof _ length)), IH. Qed.

Lemma drain_total buf : returns (BgpMessage.drain buf).
Proof.
  induction buf as [buf IH] using bytes_length_ind. rewrite drain_unfold.
  apply returns_bind; [apply bgp_parse_total|]. intros [[m|] rest] Hp; [|done].
  apply returns_bind; [by eapply IH, bgp_parse_shorter|]. by intros [].
Qed.

(** Draining a buffer first, and then what follows it, finds the same messages. *)
Lemma drain_app b1 b2 :
  BgpMessage.drain (b1 ++ b2) =
    '(ms1, r1) ← BgpMessage.drain b1;
    '(ms2, r2) ← BgpMessage.drain (r1 ++ b2);
    Ok (ms1 ++ ms2, r2).
Proof.
  induction b1 as [b1 IH] using bytes_length_ind. rewrite (drain_unfold b1).
  pose proof (bgp_parse_total b1) as Ht.
  destruct (BgpMessage.parse b1) as [[[m|] rest]|e| |] eqn:Hp; simpl; try done.
  - rewrite drain_unfold, (bgp_parse_more _ _ _ _ Hp). simpl.
    rewrite IH by (by eapply bgp_parse_shorter).
    destruct (BgpMessage.drain rest) as [[ms r]|e| |]; simpl; [|done..].
    by destruct (BgpMessage.drain (r ++ b2)) as [[ms' r']|e| |].
  - apply bgp_parse_None in Hp as ->. by destruct (BgpMessage.drain (b1 ++ b2)) as [[]|e| |].
  - by rewrite drain_unfold, (bgp_parse_more_Err _ _ _ Hp).
Qed.

Lemma drain_encode ms rest :
  Forall BgpMessage.wf ms →
  BgpMessage.drain (concat (map BgpMessage.encode ms) ++ rest) =
    '(ms', rest) ← BgpMessage.drain rest; Ok (ms ++ ms', rest).
Proof.
  induction 1 as [|m ms Hm _ IH]; simpl; [by destruct (BgpMessage.drain rest) as [[]|e| |]|].
  rewrite <- app_assoc, drain_unfold, bgp_parse_encode by done. simpl. rewrite IH.
  by destruct (BgpMessage.drain rest) as [[]|e| |].
Qed.

Lemma drain_nil : BgpMessage.drain [] = Ok ([], []).
Proof. done. Qed.

(** Feeding chunk by chunk is draining everything at once. *)
Lemma feed_concat chunks buf :
  chunks ≠ [] → feed chunks buf = BgpMessage.drain (buf ++ concat chunks).
Proof.
  revert buf; induction chunks as [|c chunks IH]; intros buf Hne; [done|]. simpl.
  rewrite app_assoc, (drain_app (buf ++ c)).
  destruct (BgpMessage.drain (buf ++ c)) as [[ms r]|e| |] eqn:Hd; simpl; [|done..].
  destruct chunks as [|c' chunks]; [|by rewrite IH]. simpl. rewrite !app_nil_r.
  pose proof (drain_app (buf ++ c) []) as Happ. rewrite app_nil_r, Hd in Happ. simpl in Happ.
  rewrite app_nil_r in Happ.
  destruct (BgpMessage.drain r) as [[ms2 r2]|e| |]; simpl in *; [|done..].
  done.
Qed.

Lemma wire_serialize_encode `{!WireMessage M} m :
  wire_serialize m =
    BgpMessage.encode (BgpMessage.mk (Header.new wire_type (length (wire_body m))) (wire_body m)).
Proof. apply wire_serialize_eq. Qed.

(** A serialised message short enough for its length field is a message the
    framing accepts. *)
Lemma wire_message_wf mt (body : bytes) :
  (Z.of_nat (HEADER_LEN + length body) ≤ MAX_MESSAGE_LEN)%Z →
  BgpMessage.wf (BgpMessage.mk (Header.new mt (length body)) body).
Proof.
  unfold BgpMessage.wf, MAX_MESSAGE_LEN. intros Hl. simpl BgpMessage.body. split; [|done].
  cbn [BgpMessage.header Header.len Header.new]. apply wrap_small. split; lia.
Qed.

(** A message kind on the wire, and its round trip through the framing layer. *)
Lemma wire_encoded `{!WireMessage M} m :
  wire_wf m → (Z.of_nat (HEADER_LEN + length (wire_body m)) ≤ MAX_MESSAGE_LEN)%Z →
  ∃ msg, wire_serialize m = BgpMessage.encode msg ∧ BgpMessage.wf msg ∧
    msg.(BgpMessage.header).(Header.msg_type) = wire_type ∧
    wire_parse msg.(BgpMessage.body) = Ok m.
Proof.
  intros Hwf Hlen. eexists. split; [apply wire_serialize_encode|].
  split; [by apply wire_message_wf|]. split; [done|]. by apply wire_parse_body.
Qed.

Lemma wire_roundtrip `{!WireMessage M} m rest :
  wire_wf m → (Z.of_nat (HEADER_LEN + length (wire_body m)) ≤ MAX_MESSAGE_LEN)%Z →
  ∃ msg, BgpMessage.parse (wire_serialize m ++ rest) = Ok (Some msg, rest) ∧
    msg.(BgpMessage.header).(Header.msg_type) = wire_type ∧
    wire_parse msg.(BgpMessage.body) = Ok m.
Proof.
  intros Hwf Hlen. destruct (wire_encoded m Hwf Hlen) as (msg&->&?&?&?).
  exists msg. by rewrite bgp_parse_encode.
Qed.
End message_lemmas.

(* ------------------------------------------------------------------ *)
(** ** Properties *)

(** C22: [BgpMessage::parse] takes a message off the front of the buffer exactly
    when the buffer starts with the encoding of a message whose header announces
    the body's length (at most 4096 bytes in all), and leaves the rest. *)
Theorem framing_exact {api : BytesApi} {laws : BytesLaws api} buf m rest :
  Forall u8 buf →
  BgpMessage.parse buf = Ok (Some m, rest) ↔
  BgpMessage.wf m ∧ buf = BgpMessage.encode m ++ rest.
Proof.
  intros Hu8. split; [by apply bgp_parse_Some|].
  intros [Hwf ->]. by apply bgp_parse_encode.
Qed.

(** C9: the receive loop does not depend on how TCP cuts the stream: whatever
    the chunks, the messages sent are delivered in order, and the bytes of an
    unfinished message stay in the buffer. *)
Theorem framing_stream {api : BytesApi} {laws : BytesLaws api} ms chunks partial :
  chunks ≠ [] → Forall BgpMessage.wf ms →
  BgpMessage.parse partial = Ok (None, partial) →
  concat chunks = concat (map BgpMessage.encode ms) ++ partial →
  feed chunks [] = Ok (ms, partial).
Proof.
  intros Hne Hms Hp Hc. rewrite feed_concat by done. simpl. rewrite Hc, drain_encode by done.
  rewrite drain_unfold, Hp. simpl. by rewrite app_nil_r.
Qed.

(** What [BgpMessage::parse] does with every buffer: it waits while the
    header or the announced length is incomplete, and reports a bad marker, a
    length outside 19..4096 and an unknown type, in that order; it never panics. *)
Theorem framing_branches {api : BytesApi} {laws : BytesLaws api} buf :
  BgpMessage.parse buf =
    if decide (length buf < 19) then Ok (None, buf)
    else if decide (take 16 buf ≠ MARKER) then Err MessageError.InvalidMarker
    else
      let l := of_be (take 2 (drop 16 buf)) in
      if decide (l < 19 ∨ 4096 < l)%Z then Err (MessageError.InvalidLength l)
      else
        match msg_type_try_from (of_be (take 1 (drop 18 buf))) with
        | Ok mt =>
            if decide (length buf < Z.to_nat l) then Ok (None, buf)
            else Ok (Some (BgpMessage.mk (Header.mk l mt) (take (Z.to_nat l - 19) (drop 19 buf))),
                     drop (Z.to_nat l) buf)
        | Err e => Err e
        | Panic => Panic
        | Diverge => Diverge
        end.
Proof.
  rewrite bgp_parse_eq, header_parse_spec. unfold HEADER_LEN.
  destruct (decide (length buf < 19)); [done|]. rewrite bool_decide_decide.
  destruct (decide (take 16 buf ≠ MARKER)); [done|]. cbv zeta.
  destruct (decide (_ ∨ _)) as [Hl|Hl].
  - replace ((_ <? 19) || _)%Z with true by lia. done.
  - replace ((_ <? 19) || _)%Z with false by lia.
    by destruct (msg_type_try_from _).
Qed.

Definition keepalive_wire : bytes := MARKER ++ [0; 19; 4]%Z.

Lemma framing_exact_witness :
  BgpMessage.parse (api:=list_bytes_api) (keepalive_wire ++ [7%Z]) =
    Ok (Some (BgpMessage.mk (Header.mk 19 MessageType.Keepalive) []), [7%Z]).
Proof.
  apply framing_exact.
  - by_decide.
  - split; [split; [done|vm_compute; done]|done].
Defined.

Lemma framing_stream_witness :
  feed (api:=list_bytes_api) [take 7 keepalive_wire; drop 7 keepalive_wire ++ [255%Z]] [] =
    Ok ([BgpMessage.mk (Header.mk 19 MessageType.Keepalive) []], [255%Z]).
Proof.
  apply framing_stream.
  - done.
  - constructor; [|constructor]. split; [done|vm_compute; done].
  - done.
  - reflexivity.
Defined.

Lemma framing_branches_witness :
  BgpMessage.parse (api:=list_bytes_api) (MARKER ++ [0; 18; 4]%Z) =
    Err (MessageError.InvalidLength 18).
Proof. rewrite framing_branches. reflexivity. Defined.
