(* ===== verification/ControlMessages.v ===== *)
(** * NOTIFICATION, KEEPALIVE and ROUTE-REFRESH
    ([src/message/notification.rs], [keepalive.rs], [route_refresh.rs]) *)

From S2P Require Import Prelude.
From S2P Require Import Bytes.
From S2P Require Import Message.

Module ErrorCode.
Inductive t :=
| MessageHeaderError | OpenMessageError | UpdateMessageError
| HoldTimerExpired | FiniteStateMachineError | Cease.

(** [error_code as u8] *)
Definition to_u8 (c : t) : Z :=
  match c with
  | MessageHeaderError => 1 | OpenMessageError => 2 | UpdateMessageError => 3
  | HoldTimerExpired => 4 | FiniteStateMachineError => 5 | Cease => 6
  end.
End ErrorCode.

Module NotificationMessage.
Record t := mk { error_code : Z; error_subcode : Z; data : bytes }.

Definition new (error_code : ErrorCode.t) (error_subcode : Z) : t :=
  {| error_code := ErrorCode.to_u8 error_code; error_subcode := error_subcode; data := [] |}.

Definition cease : t := new ErrorCode.Cease 0.

Definition hold_timer_expired : t := new ErrorCode.HoldTimerExpired 0.

Section api.
Context {api : BytesApi}.

Definition parse (body : bytes) : outcome MessageError.t t :=
  if decide (length body < 2) then Err (MessageError.TooShort 2 (length body))
  else
    '(error_code, body) ← get_u8 body;
    '(error_subcode, body) ← get_u8 body;
    '(data, _) ← copy_to_slice (length body) body;
    Ok {| error_code := error_code; error_subcode := error_subcode; data := data |}.

Definition serialize (self : t) : bytes :=
  let body_len := 2 + length self.(data) in
  let hdr := Header.new MessageType.Notification body_len in
  let out := Header.serialize hdr [] in
  let out := put_u8 out self.(error_code) in
  let out := put_u8 out self.(error_subcode) in
  put_slice out self.(data).
End api.
End NotificationMessage.

Module KeepaliveMessage.
(** KEEPALIVE is the header alone. *)
Definition serialize {api : BytesApi} : bytes :=
  Header.serialize (Header.new MessageType.Keepalive 0) [].
End KeepaliveMessage.

Module RouteRefresh.
Record t := mk { afi : Z; safi : Z }.

Definition new (afi safi : Z) : t := {| afi := afi; safi := safi |}.

Definition parse (data : bytes) : outcome Empty_set (option t) :=
  if decide (length data < 4) then Ok None
  else
    b0 ← index data 0;
    b1 ← index data 1;
    b3 ← index data 3;
    Ok (Some {| afi := of_be [b0; b1]; safi := b3 |}).

(** The message is written without going through [Header]. *)
Definition serialize {api : BytesApi} (self : t) : bytes :=
  let buf := put_bytes [] 255 16 in
  let buf := put_u16 buf (19 + 4) in
  let buf := put_u8 buf 5 in
  let buf := put_u16 buf self.(afi) in
  let buf := put_u8 buf 0 in
  put_u8 buf self.(safi).
End RouteRefresh.

(* ------------------------------------------------------------------ *)
(** ** Lemmas *)

Section control_lemmas.
Context {api : BytesApi} {laws : BytesLaws api}.

Lemma notification_parse_eq c s data :
  NotificationMessage.parse (c :: s :: data) = Ok (NotificationMessage.mk c s data).
Proof.
  unfold NotificationMessage.parse. rewrite decide_False by (simpl; lia).
  do 2 read_step. by read_step.
Qed.

Lemma notification_parse_returns body : returns (NotificationMessage.parse body).
Proof.
  destruct body as [|c [|s data]]; [done..|]. by rewrite notification_parse_eq.
Qed.

#[export] Program Instance notification_wire : WireMessage NotificationMessage.t := {|
  wire_type := MessageType.Notification;
  wire_body n := n.(NotificationMessage.error_code) :: n.(NotificationMessage.error_subcode)
    :: n.(NotificationMessage.data);
  wire_serialize := NotificationMessage.serialize;
  wire_parse := NotificationMessage.parse;
  wire_wf _ := True
|}.
Next Obligation.
  intros [c s d]. unfold NotificationMessage.serialize. autorewrite with bytes.
  by rewrite <- !app_assoc.
Qed.
Next Obligation. intros [c s d] _. apply notification_parse_eq. Qed.

#[export] Program Instance keepalive_wire_message : WireMessage unit := {|
  wire_type := MessageType.Keepalive;
  wire_body _ := [];
  wire_serialize _ := KeepaliveMessage.serialize;
  wire_parse _ := Ok tt;
  wire_wf _ := True
|}.
Next Obligation. intros. by rewrite app_nil_r. Qed.
Next Obligation. by intros []. Qed.

Lemma route_refresh_serialize_eq rr :
  RouteRefresh.serialize rr =
    BgpMessage.encode (BgpMessage.mk (Header.mk 23 MessageType.RouteRefresh)
      (be_bytes 2 rr.(RouteRefresh.afi) ++ [0%Z; rr.(RouteRefresh.safi)])).
Proof.
  unfold RouteRefresh.serialize, BgpMessage.encode. autorewrite with bytes.
  cbn [BgpMessage.header BgpMessage.body]. rewrite header_serialize_eq.
  cbn [Header.len Header.msg_type]. by rewrite <- !app_assoc.
Qed.

Lemma route_refresh_parse_eq rr :
  u16 rr.(RouteRefresh.afi) →
  RouteRefresh.parse (be_bytes 2 rr.(RouteRefresh.afi) ++ [0%Z; rr.(RouteRefresh.safi)]) =
    Ok (Some rr).
Proof.
  destruct rr as [afi safi]; cbn [RouteRefresh.afi RouteRefresh.safi]. intros Hafi. pose proof (of_be_be_bytes 2 afi Hafi) as Hb.
  pose proof (length_be_bytes 2 afi) as Hl. destruct (be_bytes 2 afi) as [|a [|b [|]]]; try done.
  unfold RouteRefresh.parse. rewrite decide_False by (simpl; lia).
  cbn. rewrite Hb. done.
Qed.
End control_lemmas.

(* ------------------------------------------------------------------ *)
(** ** Properties *)

(** A NOTIFICATION written by PathForge is framed and parsed back to the same
    error code, subcode and data, whatever follows it on the stream, as long as
    the message fits in 4096 bytes. *)
Theorem notification_roundtrip {api : BytesApi} {laws : BytesLaws api}
    (n : NotificationMessage.t) rest :
  length n.(NotificationMessage.data) ≤ 4075 →
  ∃ msg, BgpMessage.parse (NotificationMessage.serialize n ++ rest) = Ok (Some msg, rest) ∧
    msg.(BgpMessage.header).(Header.msg_type) = MessageType.Notification ∧
    NotificationMessage.parse msg.(BgpMessage.body) = Ok n.
Proof.
  intros Hlen. pose proof (wire_roundtrip n rest) as Hw. apply Hw; [done|].
  unfold MAX_MESSAGE_LEN, HEADER_LEN. simpl length. lia.
Qed.

(** ROUTE-REFRESH is framed and parsed back to the same AFI and SAFI. *)
Theorem route_refresh_roundtrip {api : BytesApi} {laws : BytesLaws api} rr rest :
  u16 rr.(RouteRefresh.afi) →
  ∃ msg, BgpMessage.parse (RouteRefresh.serialize rr ++ rest) = Ok (Some msg, rest) ∧
    msg.(BgpMessage.header).(Header.msg_type) = MessageType.RouteRefresh ∧
    RouteRefresh.parse msg.(BgpMessage.body) = Ok (Some rr).
Proof.
  intros Hafi. rewrite route_refresh_serialize_eq. eexists.
  rewrite bgp_parse_encode; [split; [done|]|].
  - split; [done|]. by apply route_refresh_parse_eq.
  - unfold BgpMessage.wf. cbn [BgpMessage.body]. rewrite length_app, length_be_bytes.
    split; [done|by vm_compute].
Qed.

Lemma notification_roundtrip_witness :
  ∃ msg, BgpMessage.parse (api:=list_bytes_api)
      (NotificationMessage.serialize (api:=list_bytes_api)
         (NotificationMessage.mk 6 2 [1; 2; 3]%Z) ++ [9%Z]) = Ok (Some msg, [9%Z]) ∧
    msg.(BgpMessage.header).(Header.msg_type) = MessageType.Notification ∧
    NotificationMessage.parse (api:=list_bytes_api) msg.(BgpMessage.body) =
      Ok (NotificationMessage.mk 6 2 [1; 2; 3]%Z).
Proof. apply notification_roundtrip. simpl. lia. Defined.

Lemma route_refresh_roundtrip_witness :
  ∃ msg, BgpMessage.parse (api:=list_bytes_api)
      (RouteRefresh.serialize (api:=list_bytes_api) (RouteRefresh.mk 2 1) ++ []) = Ok (Some msg, []) ∧
    msg.(BgpMessage.header).(Header.msg_type) = MessageType.RouteRefresh ∧
    RouteRefresh.parse msg.(BgpMessage.body) = Ok (Some (RouteRefresh.mk 2 1)).
Proof. apply route_refresh_roundtrip. by_decide. Defined.
