(* ===== verification/Capabilities.v ===== *)
(** * Capability negotiation ([src/capabilities.rs])

    The capability type-length-value encoding, and the two nested index loops of
    [Capability::parse_optional_params] over the optional parameters of an OPEN.
    Both loops get fuel [S (length data)]: each round moves its index forward by
    at least two. *)

From S2P Require Import Prelude.

Module OptionalParam.
(** [message::open::OptionalParam] *)
Record t := mk { param_type : Z; value : list Z }.
End OptionalParam.

Module Capability.
Inductive t :=
| MultiProtocol (afi safi : Z)
| RouteRefresh
| FourOctetAsn (asn : Z)
| GracefulRestart (restart_time flags : Z)
| Unknown (code : Z) (data : list Z).

#[global] Instance t_eq_dec : EqDecision t.
Proof. solve_decision. Defined.

(** [Display] *)
Definition to_string (self : t) : string :=
  match self with
  | MultiProtocol afi safi =>
      "MultiProtocol(AFI=" +:+ show_uint afi +:+ ", SAFI=" +:+ show_uint safi +:+ ")"
  | RouteRefresh => "RouteRefresh"
  | GracefulRestart restart_time _ => "GracefulRestart(time=" +:+ show_uint restart_time +:+ "s)"
  | FourOctetAsn asn => "4-byte-ASN(" +:+ show_uint asn +:+ ")"
  | Unknown code _ => "Unknown(code=" +:+ show_uint code +:+ ")"
  end.

Definition code (self : t) : Z :=
  match self with
  | MultiProtocol _ _ => 1
  | RouteRefresh => 2
  | GracefulRestart _ _ => 64
  | FourOctetAsn _ => 65
  | Unknown code _ => code
  end.

Definition to_bytes (self : t) : list Z :=
  let '(code, value) :=
    match self with
    | MultiProtocol afi safi => (1%Z, [wrap 8 (Z.shiftr afi 8); wrap 8 afi; 0%Z; safi])
    | RouteRefresh => (2%Z, [])
    | GracefulRestart restart_time flags =>
        let word := Z.lor (Z.shiftl (Z.land flags 15) 12) (Z.land restart_time 4095) in
        (64%Z, [wrap 8 (Z.shiftr word 8); wrap 8 word])
    | FourOctetAsn asn => (65%Z, be_bytes 4 asn)
    | Unknown code data => (code, data)
    end in
  [code; wrap 8 (Z.of_nat (length value))] ++ value.

Definition parse_one {E} (code : Z) (data : list Z) : outcome E t :=
  if ((code =? 1)%Z && bool_decide (4 ≤ length data))%bool then
    b0 ← index data 0; b1 ← index data 1; b3 ← index data 3;
    Ok (MultiProtocol (of_be [b0; b1]) b3)
  else if (code =? 2)%Z then Ok RouteRefresh
  else if ((code =? 64)%Z && bool_decide (2 ≤ length data))%bool then
    b0 ← index data 0; b1 ← index data 1;
    let word := of_be [b0; b1] in
    Ok (GracefulRestart (Z.land word 4095) (Z.land (Z.shiftr word 12) 15))
  else if ((code =? 65)%Z && bool_decide (4 ≤ length data))%bool then
    b0 ← index data 0; b1 ← index data 1; b2 ← index data 2; b3 ← index data 3;
    Ok (FourOctetAsn (of_be [b0; b1; b2; b3]))
  else Ok (Unknown code data).

(** One round of the inner loop: the capability at [cap_pos]. *)
Definition parse_cap_step {E} (data : list Z) (end_ : nat) (s : list t * nat) :
    outcome E ((list t * nat) + list t) :=
  let '(caps, cap_pos) := s in
  if decide (cap_pos + 2 ≤ min end_ (length data)) then
    cap_code ← index data cap_pos;
    cap_len ← index data (cap_pos + 1);
    let cap_pos := cap_pos + 2 in
    let cap_end := cap_pos + Z.to_nat cap_len in
    if decide (length data < cap_end) then Ok (inr caps)
    else
      cap_data ← slice data cap_pos cap_end;
      cap ← parse_one cap_code cap_data;
      Ok (inl (caps ++ [cap], cap_end))
  else Ok (inr caps).

(** One round of the outer loop: the optional parameter at [pos]. *)
Definition parse_param_step {E} (data : list Z) (s : list t * nat) :
    outcome E ((list t * nat) + list t) :=
  let '(caps, pos) := s in
  if decide (pos + 2 ≤ length data) then
    param_type ← index data pos;
    param_len ← index data (pos + 1);
    let param_len := Z.to_nat param_len in
    let pos := pos + 2 in
    caps ←
      (if (param_type =? 2)%Z then
         loop (S (length data)) (parse_cap_step data (pos + param_len)) (caps, pos)
       else Ok caps);
    Ok (inl (caps, pos + param_len))
  else Ok (inr caps).

Definition parse_optional_params {E} (data : list Z) : outcome E (list t) :=
  loop (S (length data)) (parse_param_step data) ([], 0).

(** The raw bytes [parse_from_open_params] rebuilds from the decoded parameters. *)
Definition param_bytes (p : OptionalParam.t) : list Z :=
  p.(OptionalParam.param_type)
    :: wrap 8 (Z.of_nat (length p.(OptionalParam.value))) :: p.(OptionalParam.value).

Definition parse_from_open_params {E} (params : list OptionalParam.t) : outcome E (list t) :=
  parse_optional_params (concat (map param_bytes params)).

Definition build_capabilities (caps : list t) : list Z :=
  let cap_bytes := concat (map to_bytes caps) in
  match cap_bytes with
  | [] => [0%Z]
  | _ =>
      let out := [2%Z; wrap 8 (Z.of_nat (length cap_bytes))] ++ cap_bytes in
      [wrap 8 (Z.of_nat (length out))] ++ out
  end.

(** A capability whose fields fit their wire encoding; an [Unknown] one must not
    be of a code and length that [parse_one] decodes as a known capability. *)
Definition wf (c : t) : Prop :=
  match c with
  | MultiProtocol afi safi => u16 afi ∧ u8 safi
  | RouteRefresh => True
  | FourOctetAsn asn => u32 asn
  | GracefulRestart restart_time flags => uint 12 restart_time ∧ uint 4 flags
  | Unknown code data =>
      length data ≤ 255 ∧ code ≠ 2%Z ∧
      (code = 1%Z → length data < 4) ∧ (code = 64%Z → length data < 2) ∧
      (code = 65%Z → length data < 4)
  end.
End Capability.

(* ------------------------------------------------------------------ *)
(** ** Lemmas *)

Import Capability.

Section capability_lemmas.
Context {E : Type}.

Lemma parse_one_returns code data : returns (E:=E) (parse_one code data).
Proof.
  unfold parse_one.
  repeat case_match; try done;
    repeat match goal with
    | Hb : (_ && bool_decide _)%bool = true |- _ =>
        apply andb_prop in Hb as [_ Hb]; apply bool_decide_eq_true in Hb
    | |- returns (_ ≫= _) => apply returns_bind; [apply index_returns; lia|intros ? _]
    end; done.
Qed.

Lemma parse_cap_step_returns data end_ s : returns (E:=E) (parse_cap_step data end_ s).
Proof.
  destruct s as [caps pos]. unfold parse_cap_step. case_decide as Hpos; [|done].
  apply returns_bind; [apply index_returns; lia|intros c _].
  apply returns_bind; [apply index_returns; lia|intros l _]. cbv zeta.
  case_decide; [done|]. rewrite slice_Ok by lia. simpl.
  apply returns_bind; [apply parse_one_returns|done].
Qed.

Lemma parse_cap_step_forward data end_ s s' :
  parse_cap_step (E:=E) data end_ s = Ok (inl s') →
  length data - s'.2 < length data - s.2.
Proof.
  destruct s as [caps pos]. unfold parse_cap_step. case_decide as Hpos; [|done].
  intros Hs. inv_bind. cbv zeta in Hs. case_decide; [done|]. inv_bind.
  simpl. lia.
Qed.

Lemma parse_param_step_returns data s : returns (E:=E) (parse_param_step data s).
Proof.
  destruct s as [caps pos]. unfold parse_param_step. case_decide as Hpos; [|done].
  apply returns_bind; [apply index_returns; lia|intros ty _].
  apply returns_bind; [apply index_returns; lia|intros l _]. cbv zeta.
  apply returns_bind; [|done]. case_match; [|done].
  apply (loop_returns (λ _, True) (λ s, length data - s.2)); simpl; [..|done|lia].
  - intros; apply parse_cap_step_returns.
  - intros s s' _ Hs. split; [done|]. by eapply parse_cap_step_forward.
Qed.

Lemma parse_optional_params_returns data : returns (E:=E) (parse_optional_params data).
Proof.
  unfold parse_optional_params.
  apply (loop_returns (λ _, True) (λ s, length data - s.2)); simpl; [..|done|lia].
  - intros; apply parse_param_step_returns.
  - intros [caps pos] s' _ Hs. split; [done|]. unfold parse_param_step in Hs.
    case_decide; [|done]. inv_bind. simpl. lia.
Qed.

(** The value part of a capability. *)
Definition cap_value (c : t) : list Z :=
  match c with
  | MultiProtocol afi safi => be_bytes 2 afi ++ [0%Z; safi]
  | RouteRefresh => []
  | GracefulRestart restart_time flags =>
      be_bytes 2 (Z.lor (Z.shiftl (Z.land flags 15) 12) (Z.land restart_time 4095))
  | FourOctetAsn asn => be_bytes 4 asn
  | Unknown _ data => data
  end.

Lemma be_bytes_2 z : be_bytes 2 z = [wrap 8 (Z.shiftr z 8); wrap 8 z].
Proof. unfold be_bytes, wrap. by rewrite Z.shiftr_0_r. Qed.

Lemma to_bytes_eq c :
  to_bytes c = [code c; wrap 8 (Z.of_nat (length (cap_value c)))] ++ cap_value c.
Proof. destruct c; unfold to_bytes, cap_value; rewrite ?be_bytes_2; done. Qed.

Lemma cap_value_length c : wf c → length (cap_value c) ≤ 255.
Proof.
  destruct c; simpl; rewrite ?length_app, ?length_be_bytes; simpl; [lia..|]. tauto.
Qed.

(** The two halves of the Graceful Restart word come apart again. *)
Lemma gr_word_split (rt flags : Z) :
  uint 12 rt → uint 4 flags →
  let word := Z.lor (Z.shiftl (Z.land flags 15) 12) (Z.land rt 4095) in
  u16 word ∧ Z.land word 4095 = rt ∧ Z.land (Z.shiftr word 12) 15 = flags.
Proof.
  intros Hrt Hf word. unfold uint in Hrt, Hf |- *.
  assert (Z.land flags 15 = flags) as Hf'
    by (change 15%Z with (Z.ones 4); rewrite Z.land_ones by lia; apply Z.mod_small; lia).
  assert (Z.land rt 4095 = rt) as Hr'
    by (change 4095%Z with (Z.ones 12); rewrite Z.land_ones by lia; apply Z.mod_small; lia).
  assert (word = flags * 4096 + rt)%Z as Hw.
  { unfold word. rewrite Hf', Hr'.
    assert (Z.land (Z.shiftl flags 12) rt = 0%Z) as H0.
    { apply Z.bits_inj'. intros i Hi. rewrite Z.land_spec, Z.bits_0.
      destruct (Z.lt_ge_cases i 12).
      - by rewrite Z.shiftl_spec_low.
      - rewrite <- (Z.mod_small rt (2 ^ 12)) by done.
        rewrite Z.mod_pow2_bits_high by lia. apply andb_false_r. }
    rewrite <- Z.lxor_lor, <- Z.add_nocarry_lxor by done.
    rewrite Z.shiftl_mul_pow2 by lia. lia. }
  rewrite Hw. change 4095%Z with (Z.ones 12). change 15%Z with (Z.ones 4).
  rewrite !Z.land_ones, Z.shiftr_div_pow2 by lia. split_and!.
  - lia.
  - lia.
  - change (2 ^ 12)%Z with 4096%Z in *. rewrite (Z.add_comm (flags * 4096)).
    rewrite Z.mod_add by lia. apply Z.mod_small. lia.
  - change (2 ^ 12)%Z with 4096%Z in *. rewrite Z.div_add_l, (Z.div_small rt) by lia.
    rewrite Z.add_0_r. apply Z.mod_small. lia.
Qed.

Lemma parse_one_value c : wf c → parse_one (E:=E) (code c) (cap_value c) = Ok c.
Proof.
  destruct c as [afi safi| |asn|rt flags|co data]; intros Hwf.
  - destruct Hwf as [Hafi _]. unfold parse_one, cap_value, code. rewrite be_bytes_2. cbn.
    rewrite <- be_bytes_2. by rewrite of_be_be_bytes.
  - done.
  - pose proof (of_be_be_bytes 4 asn Hwf) as Hb. pose proof (length_be_bytes 4 asn) as Hl.
    unfold parse_one, cap_value, code. destruct (be_bytes 4 asn) as [|a [|b [|c [|d [|]]]]]; try done.
    cbn. by rewrite Hb.
  - destruct Hwf as [Hrt Hf]. destruct (gr_word_split rt flags Hrt Hf) as (Hw&Hlo&Hhi).
    unfold parse_one, cap_value, code. rewrite be_bytes_2. cbn -[Z.lor Z.land Z.shiftl Z.shiftr].
    rewrite <- be_bytes_2, of_be_be_bytes by done. by rewrite Hlo, Hhi.
  - destruct Hwf as (_&H2&H1&H64&H65). unfold parse_one, cap_value, code.
    repeat match goal with
    | |- context [(?x =? ?y)%Z] => destruct (Z.eqb_spec x y); simpl
    end; subst; try done; rewrite bool_decide_false by lia; done.
Qed.

Lemma cap_len_byte c : wf c → Z.to_nat (wrap 8 (Z.of_nat (length (cap_value c)))) = length (cap_value c).
Proof.
  intros Hwf%cap_value_length. rewrite wrap_small by (split; lia). lia.
Qed.

Lemma lookup_app_at (pre : list Z) x rest : (pre ++ x :: rest) !! length pre = Some x.
Proof. by rewrite lookup_app_r, Nat.sub_diag by lia. Qed.

Lemma lookup_app_at1 (pre : list Z) x y rest : (pre ++ x :: y :: rest) !! (length pre + 1) = Some y.
Proof. rewrite lookup_app_r by lia. by replace (length pre + 1 - length pre) with 1 by lia. Qed.

Lemma slice_app (pre : list Z) mid rest i j :
  i = length pre → j = length pre + length mid →
  slice (E:=E) (pre ++ mid ++ rest) i j = Ok mid.
Proof.
  intros -> ->. rewrite slice_Ok by (rewrite ?length_app; lia).
  rewrite drop_app_length, take_app_length' by lia. done.
Qed.

(** The inner loop reads one well-formed capability. *)
Lemma parse_cap_step_one c acc pre post end_ :
  wf c → length pre + length (to_bytes c) ≤ end_ →
  parse_cap_step (E:=E) (pre ++ to_bytes c ++ post) end_ (acc, length pre) =
    Ok (inl (acc ++ [c], length pre + length (to_bytes c))).
Proof.
  intros Hwf Hend. rewrite to_bytes_eq in *. pose proof (cap_len_byte c Hwf) as Hlen.
  rewrite length_app in Hend. simpl length in Hend. unfold parse_cap_step.
  rewrite decide_True by (rewrite !length_app; simpl; lia). simpl app.
  rewrite (index_Ok _ _ _ (lookup_app_at _ _ _)), (index_Ok _ _ _ (lookup_app_at1 _ _ _ _)).
  simpl mbind. rewrite Hlen. cbv zeta.
  rewrite decide_False by (rewrite !length_app; simpl; rewrite length_app; lia).
  change (pre ++ ?a :: ?b :: ?l) with (pre ++ [a; b] ++ l). rewrite app_assoc.
  rewrite slice_app by (rewrite length_app; simpl; lia). simpl.
  rewrite parse_one_value by done. simpl. do 3 f_equal. lia.
Qed.

Lemma parse_caps_loop caps acc pre post end_ n :
  Forall wf caps →
  end_ = length pre + length (concat (map to_bytes caps)) →
  length (concat (map to_bytes caps)) < n →
  loop n (parse_cap_step (E:=E) (pre ++ concat (map to_bytes caps) ++ post) end_) (acc, length pre)
    = Ok (acc ++ caps).
Proof.
  intros Hwf. revert acc pre n. induction Hwf as [|c caps Hc _ IH]; intros acc pre n Hend Hn.
  - destruct n as [|n]; [simpl in *; lia|]. rewrite loop_unfold. unfold parse_cap_step.
    rewrite decide_False by (simpl in *; lia). simpl. by rewrite app_nil_r.
  - destruct n as [|n]; [lia|]. simpl in *. rewrite length_app in *. rewrite loop_unfold.
    rewrite <- app_assoc, parse_cap_step_one by (done || lia). simpl.
    rewrite (app_assoc pre). rewrite <- length_app.
    rewrite IH; [by rewrite <- app_assoc| |].
    + rewrite length_app. lia.
    + rewrite to_bytes_eq in Hn. simpl in Hn. lia.
Qed.

(** A parameter and the capabilities it carries: those it encodes when it is of
    type 2, none otherwise. *)
Definition carries (p : OptionalParam.t) (caps : list t) : Prop :=
  length p.(OptionalParam.value) ≤ 255 ∧ Forall wf caps ∧
  if decide (p.(OptionalParam.param_type) = 2%Z)
  then p.(OptionalParam.value) = concat (map to_bytes caps) else caps = [].

Lemma parse_param_step_one p caps acc pre post :
  carries p caps →
  parse_param_step (E:=E) (pre ++ param_bytes p ++ post) (acc, length pre) =
    Ok (inl (acc ++ caps, length pre + length (param_bytes p))).
Proof.
  destruct p as [ty v]. unfold carries, param_bytes. simpl. intros (Hlen&Hwf&Hcaps).
  unfold parse_param_step. rewrite decide_True by (rewrite !length_app; simpl; lia).
  rewrite (index_Ok _ _ _ (lookup_app_at _ _ _)), (index_Ok _ _ _ (lookup_app_at1 _ _ _ _)).
  cbn [mbind outcome_bind]. rewrite wrap_small by (split; lia). rewrite Nat2Z.id.
  cbv zeta. case_decide as Hty; subst.
  - rewrite Z.eqb_refl.
    change (pre ++ ?a :: ?b :: ?l) with (pre ++ [a; b] ++ l). rewrite app_assoc.
    replace (length pre + 2) with (length (pre ++ [2%Z; Z.of_nat (length (concat (map to_bytes caps)))]))
      by (by rewrite length_app).
    rewrite parse_caps_loop; [|done..|rewrite !length_app; lia]. simpl.
    rewrite length_app. simpl. do 3 f_equal. lia.
  - rewrite (proj2 (Z.eqb_neq _ _)) by done. simpl. rewrite app_nil_r. do 3 f_equal. lia.
Qed.

Lemma parse_params_loop params capss acc pre n :
  Forall2 carries params capss →
  length (concat (map param_bytes params)) < n →
  loop n (parse_param_step (E:=E) (pre ++ concat (map param_bytes params))) (acc, length pre)
    = Ok (acc ++ concat capss).
Proof.
  intros Hall. revert acc pre n. induction Hall as [|p caps ps capss Hp _ IH]; intros acc pre n Hn.
  - destruct n as [|n]; [simpl in *; lia|]. rewrite loop_unfold. unfold parse_param_step.
    rewrite decide_False by (rewrite length_app; simpl; lia). simpl. by rewrite app_nil_r.
  - destruct n as [|n]; [lia|]. cbn [map concat] in *. rewrite length_app in *. rewrite loop_unfold.
    rewrite parse_param_step_one with (caps := caps) by done. cbn [mbind outcome_bind].
    rewrite (app_assoc pre). rewrite <- length_app.
    rewrite IH; [by rewrite <- app_assoc|]. assert (0 < length (param_bytes p)) by (simpl; lia). lia.
Qed.
End capability_lemmas.

(* ------------------------------------------------------------------ *)
(** ** Properties *)

(** Parsing the optional parameters of an OPEN never indexes out of range and
    always terminates, on any bytes whatever: it returns a list of capabilities. *)
Theorem capabilities_parse_total (data : list Z) :
  ∃ caps, parse_optional_params (E:=Empty_set) data = Ok caps.
Proof.
  destruct (returns_cases _ (parse_optional_params_returns (E:=Empty_set) data))
    as [?|[[] _]]; done.
Qed.

(** The capabilities of a peer's OPEN are recovered from its optional
    parameters, in order, across any number of parameters, the ones of another
    type being skipped; every Graceful Restart time below 4096 and flags below 16
    survive, and unknown capabilities keep their bytes. *)
Theorem capabilities_roundtrip params capss :
  Forall2 carries params capss →
  parse_from_open_params (E:=Empty_set) params = Ok (concat capss).
Proof.
  intros Hall. unfold parse_from_open_params, parse_optional_params.
  apply (parse_params_loop params capss [] [] _ Hall). simpl. lia.
Qed.

(** The block [build_capabilities] writes is its own length followed by one
    type 2 parameter, from which the capabilities are read back. *)
Theorem build_capabilities_roundtrip caps :
  caps ≠ [] → Forall wf caps → length (concat (map to_bytes caps)) ≤ 253 →
  ∃ block, build_capabilities caps = Z.of_nat (length block) :: block ∧
    parse_optional_params (E:=Empty_set) block = Ok caps.
Proof.
  intros Hne Hwf Hlen. set (bs := concat (map to_bytes caps)) in *.
  exists (param_bytes (OptionalParam.mk 2 bs)). split.
  - unfold build_capabilities. fold bs. destruct bs as [|b bs'] eqn:Hbs.
    + destruct caps as [|c caps]; [done|]. unfold bs in Hbs. simpl in Hbs.
      by rewrite to_bytes_eq in Hbs.
    + unfold param_bytes. simpl OptionalParam.value. rewrite (wrap_small 8 (Z.of_nat (length _)))
        by (split; simpl in *; lia). done.
  - pose proof (capabilities_roundtrip [OptionalParam.mk 2 bs] [caps]) as Hr.
    unfold parse_from_open_params in Hr. simpl in Hr. rewrite !app_nil_r in Hr. apply Hr.
    constructor; [|constructor]. split_and!; simpl; [lia|done|]. done.
Qed.

Definition sample_caps : list t :=
  [FourOctetAsn 131072; RouteRefresh; MultiProtocol 2 1; GracefulRestart 120 8;
   Unknown 99 [170; 187]%Z].

Lemma capabilities_parse_total_witness :
  ∃ caps, parse_optional_params (E:=Empty_set) [2; 9; 1; 200; 0]%Z = Ok caps.
Proof. apply capabilities_parse_total. Defined.

Lemma capabilities_roundtrip_witness :
  parse_from_open_params (E:=Empty_set)
    [OptionalParam.mk 1 [7%Z]; OptionalParam.mk 2 (concat (map to_bytes sample_caps))] =
    Ok (concat [[]; sample_caps]).
Proof.
  apply capabilities_roundtrip. constructor; [|constructor; [|constructor]].
  - split_and!; simpl; [lia|constructor|]. done.
  - split_and!; [by vm_compute; lia| |done]. repeat constructor; simpl; (by_decide || lia || done).
Defined.

Lemma build_capabilities_roundtrip_witness :
  ∃ block, build_capabilities sample_caps = Z.of_nat (length block) :: block ∧
    parse_optional_params (E:=Empty_set) block = Ok sample_caps.
Proof.
  apply build_capabilities_roundtrip; [done| |by vm_compute; lia].
  repeat constructor; simpl; (by_decide || lia || done).
Defined.
