(* ===== verification/OpenMessage.v ===== *)
(** * The OPEN message ([src/message/open.rs]) *)

From S2P Require Import Prelude.
From S2P Require Import Bytes.
From S2P Require Import Message.
From S2P Require Import Capabilities.

Record OpenMessage := {
  version : Z;
  my_as : Z;
  hold_time : Z;
  bgp_id : Ipv4Addr;
  optional_params : list OptionalParam.t
}.

Module Open.
Definition new (my_as hold_time : Z) (bgp_id : Ipv4Addr) : OpenMessage :=
  {| version := 4; my_as := my_as; hold_time := hold_time; bgp_id := bgp_id;
     optional_params := [] |}.

Definition new_with_capabilities (asn hold : Z) (id : Ipv4Addr)
    (caps : list Capability.t) : OpenMessage :=
  let msg := new asn hold id in
  match caps with
  | [] => msg
  | _ =>
      let cap_bytes := concat (map Capability.to_bytes caps) in
      {| version := msg.(version); my_as := msg.(my_as); hold_time := msg.(hold_time);
         bgp_id := msg.(bgp_id);
         optional_params := msg.(optional_params) ++ [OptionalParam.mk 2 cap_bytes] |}
  end.

Section api.
Context {api : BytesApi}.

(** One round of the [while remaining >= 2] loop. *)
Definition parse_param_step (s : list OptionalParam.t * nat * bytes) :
    outcome MessageError.t ((list OptionalParam.t * nat * bytes) + list OptionalParam.t) :=
  let '(params, remaining, body) := s in
  if decide (2 ≤ remaining) then
    '(param_type, body) ← get_u8 body;
    '(param_len, body) ← get_u8 body;
    let param_len := Z.to_nat param_len in
    let remaining := remaining - 2 in
    if decide (length body < param_len ∨ remaining < param_len) then
      Err (MessageError.Parse "Truncated optional parameter")
    else
      '(value, body) ← copy_to_slice param_len body;
      Ok (inl (params ++ [OptionalParam.mk param_type value], remaining - param_len, body))
  else Ok (inr params).

Definition parse (body : bytes) : outcome MessageError.t OpenMessage :=
  if decide (length body < 10) then Err (MessageError.TooShort 10 (length body))
  else
    '(version, body) ← get_u8 body;
    '(my_as, body) ← get_u16 body;
    '(hold_time, body) ← get_u16 body;
    '(bgp_id, body) ← get_u32 body;
    '(opt_param_len, body) ← get_u8 body;
    let opt_param_len := Z.to_nat opt_param_len in
    if decide (length body < opt_param_len) then
      Err (MessageError.TooShort opt_param_len (length body))
    else
      optional_params ← loop (S opt_param_len) parse_param_step ([], opt_param_len, body);
      Ok {| version := version; my_as := my_as; hold_time := hold_time; bgp_id := bgp_id;
            optional_params := optional_params |}.

Definition serialize_params (params : list OptionalParam.t) : bytes :=
  foldl (λ opt_buf p,
    let opt_buf := put_u8 opt_buf p.(OptionalParam.param_type) in
    let opt_buf := put_u8 opt_buf (wrap 8 (Z.of_nat (length p.(OptionalParam.value)))) in
    put_slice opt_buf p.(OptionalParam.value)) [] params.

Definition serialize_body (self : OpenMessage) : bytes :=
  let body := put_u8 [] self.(version) in
  let body := put_u16 body self.(my_as) in
  let body := put_u16 body self.(hold_time) in
  let body := put_u32 body self.(bgp_id) in
  let opt_buf := serialize_params self.(optional_params) in
  let body := put_u8 body (wrap 8 (Z.of_nat (length opt_buf))) in
  put body opt_buf.

Definition serialize (self : OpenMessage) : bytes :=
  let body := serialize_body self in
  let hdr := Header.new MessageType.Open (length body) in
  put (Header.serialize hdr []) body.
End api.

(** The fields fit their wire encoding. *)
Definition wf (m : OpenMessage) : Prop :=
  u8 m.(version) ∧ u16 m.(my_as) ∧ u16 m.(hold_time) ∧ u32 m.(bgp_id) ∧
  Forall (λ p, length p.(OptionalParam.value) ≤ 255) m.(optional_params) ∧
  length (concat (map Capability.param_bytes m.(optional_params))) ≤ 255.
End Open.

(* ------------------------------------------------------------------ *)
(** ** Lemmas *)

Section open_lemmas.
Context {api : BytesApi} {laws : BytesLaws api}.

Lemma serialize_params_eq params :
  Open.serialize_params params = concat (map Capability.param_bytes params).
Proof.
  unfold Open.serialize_params.
  rewrite <- (app_nil_l (concat _)). generalize (@nil Z) as buf.
  induction params as [|p ps IH]; intros buf; simpl; [by rewrite app_nil_r|].
  rewrite IH. autorewrite with bytes. by rewrite <- !app_assoc.
Qed.

Lemma open_body_eq m :
  Open.serialize_body m =
    [m.(version)] ++ be_bytes 2 m.(my_as) ++ be_bytes 2 m.(hold_time) ++ be_bytes 4 m.(bgp_id) ++
    [wrap 8 (Z.of_nat (length (concat (map Capability.param_bytes m.(optional_params)))))] ++
    concat (map Capability.param_bytes m.(optional_params)).
Proof.
  unfold Open.serialize_body. autorewrite with bytes. rewrite serialize_params_eq.
  by rewrite app_nil_l, <- !app_assoc.
Qed.

Lemma open_param_step_returns s :
  s.1.2 ≤ length s.2 → returns (Open.parse_param_step s).
Proof.
  destruct s as [[params remaining] body]. simpl. intros Hle. unfold Open.parse_param_step.
  case_decide; [|done]. destruct body as [|t [|l body]]; simpl in *; [lia..|].
  do 2 read_step. cbv zeta. case_decide; [done|]. rewrite copy_to_slice_long by lia. done.
Qed.

Lemma open_param_step_inl s s' :
  s.1.2 ≤ length s.2 → Open.parse_param_step s = Ok (inl s') →
  s'.1.2 ≤ length s'.2 ∧ s'.1.2 < s.1.2.
Proof.
  destruct s as [[params remaining] body]. simpl. intros Hle. unfold Open.parse_param_step.
  case_decide; [|done]. destruct body as [|t [|l body]]; simpl in *; [lia..|].
  do 2 read_step. cbv zeta. case_decide; [done|]. rewrite copy_to_slice_long by lia.
  intros [= <-]. simpl. rewrite length_drop. lia.
Qed.

Lemma open_parse_returns body : returns (Open.parse body).
Proof.
  unfold Open.parse. case_decide; [done|].
  destruct body as [|v body]; simpl in *; [lia|]. read_step.
  rewrite get_u16_spec, take_or_panic_long by lia. cbn [mbind outcome_bind].
  rewrite get_u16_spec, take_or_panic_long by (rewrite length_drop; lia).
  cbn [mbind outcome_bind].
  rewrite get_u32_spec, take_or_panic_long by (rewrite !length_drop; lia).
  cbn [mbind outcome_bind].
  rewrite get_u8_spec, take_or_panic_long by (rewrite !length_drop; lia).
  cbn [mbind outcome_bind]. cbv zeta. case_decide; [done|].
  apply returns_bind; [|done].
  apply (loop_returns (λ s, s.1.2 ≤ length s.2) (λ s, s.1.2)); simpl; [| |lia..].
  - apply open_param_step_returns.
  - apply open_param_step_inl.
Qed.

Lemma open_param_step_one p acc k rest :
  length p.(OptionalParam.value) ≤ 255 → k ≤ length rest →
  Open.parse_param_step
    (acc, length (Capability.param_bytes p) + k, Capability.param_bytes p ++ rest) =
    Ok (inl (acc ++ [p], k, rest)).
Proof.
  destruct p as [ty v]. unfold Open.parse_param_step, Capability.param_bytes.
  cbn [OptionalParam.value OptionalParam.param_type]. intros Hp Hk.
  rewrite decide_True by (simpl; lia). simpl app. do 2 read_step.
  rewrite wrap_small by (split; lia). rewrite Nat2Z.id. cbv zeta. simpl length.
  rewrite decide_False by (rewrite length_app; lia).
  rewrite copy_to_slice_app by done. cbn [mbind outcome_bind]. do 4 f_equal. lia.
Qed.

Lemma open_params_loop params acc rest n :
  Forall (λ p, length p.(OptionalParam.value) ≤ 255) params →
  length (concat (map Capability.param_bytes params)) < n →
  loop n Open.parse_param_step
    (acc, length (concat (map Capability.param_bytes params)),
     concat (map Capability.param_bytes params) ++ rest) = Ok (acc ++ params).
Proof.
  intros Hall. revert acc n. induction Hall as [|p ps Hp _ IH]; intros acc n Hn.
  - destruct n as [|n]; [simpl in *; lia|]. by rewrite loop_unfold, app_nil_r.
  - destruct n as [|n]; [simpl in *; lia|]. rewrite loop_unfold. cbn [map concat] in *.
    rewrite length_app in *. rewrite <- app_assoc.
    rewrite open_param_step_one by (done || (rewrite length_app; lia)).
    cbn [mbind outcome_bind]. assert (0 < length (Capability.param_bytes p)) by (simpl; lia).
    rewrite IH by lia. by rewrite <- app_assoc.
Qed.

#[export] Program Instance open_wire : WireMessage OpenMessage := {|
  wire_type := MessageType.Open;
  wire_body := Open.serialize_body;
  wire_serialize := Open.serialize;
  wire_parse := Open.parse;
  wire_wf := Open.wf
|}.
Next Obligation. intros m. unfold Open.serialize. by rewrite put_spec. Qed.
Next Obligation.
  intros [v a h i ps] (Hv&Ha&Hh&Hi&Hps&Hlen). rewrite open_body_eq. cbn [version my_as hold_time
    bgp_id optional_params] in *. unfold Open.parse.
  rewrite decide_False by (rewrite !length_app, !length_be_bytes; simpl; lia).
  cbn [app]. read_step. do 2 read_step. read_step. cbn [app].
  rewrite <- (app_nil_r (concat _)) at 2. read_step.
  rewrite wrap_small by (split; lia). rewrite Nat2Z.id. cbv zeta.
  rewrite decide_False by (rewrite length_app; lia).
  by rewrite (open_params_loop ps [] []) by (done || lia).
Qed.

Lemma length_open_body m :
  length (Open.serialize_body m) =
    10 + length (concat (map Capability.param_bytes m.(optional_params))).
Proof. rewrite open_body_eq, !length_app, !length_be_bytes. done. Qed.
End open_lemmas.

(* ------------------------------------------------------------------ *)
(** ** Properties *)

(** [OpenMessage::parse] neither panics nor loops, on any body. *)
Theorem open_parse_total {api : BytesApi} {laws : BytesLaws api} body :
  (∃ m, Open.parse body = Ok m) ∨ (∃ e, Open.parse body = Err e).
Proof. apply returns_cases, open_parse_returns. Qed.

(** An OPEN whose fields fit their width is framed and parsed back unchanged,
    optional parameters included. *)
Theorem open_roundtrip {api : BytesApi} {laws : BytesLaws api} (m : OpenMessage) rest :
  Open.wf m →
  ∃ msg, BgpMessage.parse (Open.serialize m ++ rest) = Ok (Some msg, rest) ∧
    msg.(BgpMessage.header).(Header.msg_type) = MessageType.Open ∧
    Open.parse msg.(BgpMessage.body) = Ok m.
Proof.
  intros Hwf. pose proof (wire_roundtrip m rest) as Hw. apply Hw; [done|].
  destruct Hwf as (_&_&_&_&_&Hlen). simpl wire_body. rewrite length_open_body.
  unfold MAX_MESSAGE_LEN, HEADER_LEN. lia.
Qed.

(** An OPEN that announces capabilities. *)
Lemma open_caps {api : BytesApi} {laws : BytesLaws api} asn hold id caps :
  u16 asn → u16 hold → u32 id → Forall Capability.wf caps →
  length (concat (map Capability.to_bytes caps)) ≤ 253 →
  let m := Open.new_with_capabilities asn hold id caps in
  Open.wf m ∧ (m.(version), m.(my_as), m.(hold_time), m.(bgp_id)) = (4%Z, asn, hold, id) ∧
  Capability.parse_from_open_params (E:=Empty_set) m.(optional_params) = Ok caps.
Proof.
  intros Ha Hh Hi Hcaps Hlen m.
  assert (Hm : (version m, my_as m, hold_time m, bgp_id m) = (4%Z, asn, hold, id))
    by (by destruct caps).
  assert (Hps : optional_params m = [] ∧ caps = [] ∨
      optional_params m = [OptionalParam.mk 2 (concat (map Capability.to_bytes caps))])
    by (destruct caps; [by left|by right]).
  clearbody m. destruct m as [v a h i ps]. cbn in Hm, Hps. simplify_eq.
  set (m := Build_OpenMessage _ _ _ _ _).
  assert (Open.wf m ∧
    Capability.parse_from_open_params (E:=Empty_set) ps = Ok caps) as [Hwf Hc].
  { unfold m, Open.wf. destruct Hps as [[-> ->]| ->]; simpl.
    - split_and!; try done; lia.
    - rewrite app_nil_r. split_and!; try done; [|lia|].
      + constructor; [|done]. simpl. lia.
      + rewrite <- (app_nil_r caps) at 2.
        unfold Capability.parse_from_open_params, Capability.parse_optional_params.
        apply (parse_params_loop _ [caps] [] []); [|simpl; lia].
        constructor; [|done]. split_and!; [simpl; lia|done|]. by rewrite decide_True. }
  done.
Qed.

Lemma open_encoded {api : BytesApi} {laws : BytesLaws api} (m : OpenMessage) :
  Open.wf m →
  ∃ msg, Open.serialize m = BgpMessage.encode msg ∧ BgpMessage.wf msg ∧
    msg.(BgpMessage.header).(Header.msg_type) = MessageType.Open ∧
    Open.parse msg.(BgpMessage.body) = Ok m.
Proof.
  intros Hwf. pose proof (wire_encoded m) as Hw. apply Hw; [done|]. destruct Hwf as (_&_&_&_&_&Hlen). simpl wire_body.
  rewrite length_open_body. unfold MAX_MESSAGE_LEN, HEADER_LEN. lia.
Qed.


Lemma open_parse_total_witness :
  (∃ m, Open.parse (api:=list_bytes_api) [4; 0; 1; 0; 90; 1; 1; 1; 1; 2; 2; 9]%Z = Ok m) ∨
  (∃ e, Open.parse (api:=list_bytes_api) [4; 0; 1; 0; 90; 1; 1; 1; 1; 2; 2; 9]%Z = Err e).
Proof. apply open_parse_total. Defined.

Definition sample_open : OpenMessage :=
  {| version := 4; my_as := 65000; hold_time := 180; bgp_id := 16843009;
     optional_params := [OptionalParam.mk 2 [1; 4; 0; 1; 0; 1]%Z; OptionalParam.mk 1 []] |}.

Lemma open_roundtrip_witness :
  ∃ msg, BgpMessage.parse (api:=list_bytes_api)
      (Open.serialize (api:=list_bytes_api) sample_open ++ [255%Z]) = Ok (Some msg, [255%Z]) ∧
    msg.(BgpMessage.header).(Header.msg_type) = MessageType.Open ∧
    Open.parse (api:=list_bytes_api) msg.(BgpMessage.body) = Ok sample_open.
Proof. apply open_roundtrip. by_decide. Defined.

