(* ===== verification/Attr.v ===== *)
(** * Path attributes ([src/attr.rs])

    The data of a BGP route, the attribute parser (a loop over type-length-value
    records, with inner loops for AS_PATH segments, COMMUNITIES and CLUSTER_LIST)
    and the serialiser.  Each loop gets one unit of fuel more than there are bytes
    to read: a round reads at least one byte. *)

From S2P Require Import Prelude.
From S2P Require Import Bytes.

Module Origin.
Inductive t := Igp | Egp | Incomplete.

#[global] Instance t_eq_dec : EqDecision t.
Proof. solve_decision. Defined.

(** [origin as u8] *)
Definition to_u8 (o : t) : Z := match o with Igp => 0 | Egp => 1 | Incomplete => 2 end.

Definition to_string (o : t) : string :=
  match o with Igp => "IGP" | Egp => "EGP" | Incomplete => "Incomplete" end.
End Origin.

Module AsPathSegment.
Inductive t := AsSet (asns : list Z) | AsSequence (asns : list Z).

#[global] Instance t_eq_dec : EqDecision t.
Proof. solve_decision. Defined.

Definition as_numbers (s : t) : list Z :=
  match s with AsSet v | AsSequence v => v end.

Definition len (s : t) : nat :=
  match s with AsSet v | AsSequence v => length v end.

Definition is_empty (s : t) : bool := len s =? 0.
End AsPathSegment.

Module AttrError.
Inductive t :=
| TooShort
| InvalidOrigin (v : Z)
| InvalidAsPathSegment (v : Z)
| Parse (msg : string).

Definition to_string (e : t) : string :=
  match e with
  | TooShort => "Attribute too short"
  | InvalidOrigin v => "Invalid ORIGIN value: " +:+ show_uint v
  | InvalidAsPathSegment v => "Invalid AS_PATH segment type: " +:+ show_uint v
  | Parse msg => "Parse error: " +:+ msg
  end.
End AttrError.

Definition origin_try_from (v : Z) : outcome AttrError.t Origin.t :=
  match v with
  | 0%Z => Ok Origin.Igp
  | 1%Z => Ok Origin.Egp
  | 2%Z => Ok Origin.Incomplete
  | _ => Err (AttrError.InvalidOrigin v)
  end.

Module Community.
(** [Community(u32)] *)
Abbreviation t := Z.
Definition NO_EXPORT : t := 0xFFFFFF01%Z.
Definition NO_ADVERTISE : t := 0xFFFFFF02%Z.
Definition NO_EXPORT_SUBCONFED : t := 0xFFFFFF03%Z.
Definition asn (c : t) : Z := wrap 16 (Z.shiftr c 16).
Definition value (c : t) : Z := wrap 16 c.

Definition to_string (c : t) : string :=
  if (c =? NO_EXPORT)%Z then "no-export"
  else if (c =? NO_ADVERTISE)%Z then "no-advertise"
  else if (c =? NO_EXPORT_SUBCONFED)%Z then "no-export-subconfed"
  else show_uint (asn c) +:+ ":" +:+ show_uint (value c).
End Community.

Module RawAttribute.
Record t := mk { flags : Z; type_code : Z; value : bytes }.

#[global] Instance t_eq_dec : EqDecision t.
Proof. solve_decision. Defined.
End RawAttribute.

Record PathAttributes := {
  origin : option Origin.t;
  as_path : list AsPathSegment.t;
  next_hop : option Ipv4Addr;
  multi_exit_disc : option Z;
  local_pref : option Z;
  atomic_aggregate : bool;
  aggregator : option (Z * Ipv4Addr);
  communities : list Community.t;
  originator_id : option Ipv4Addr;
  cluster_list : list Ipv4Addr;
  unknown : list RawAttribute.t
}.

#[export] Instance PathAttributes_eq_dec : EqDecision PathAttributes.
Proof. solve_decision. Defined.

Definition FLAG_OPTIONAL : Z := 0x80.
Definition FLAG_TRANSITIVE : Z := 0x40.
Definition FLAG_EXTENDED_LEN : Z := 0x10.

Module Attrs.
(** [PathAttributes::default()] *)
Definition default : PathAttributes :=
  {| origin := None; as_path := []; next_hop := None; multi_exit_disc := None;
     local_pref := None; atomic_aggregate := false; aggregator := None;
     communities := []; originator_id := None; cluster_list := []; unknown := [] |}.

Definition is_empty (a : PathAttributes) : bool :=
  bool_decide (a.(origin) = None) && bool_decide (a.(as_path) = []) &&
  bool_decide (a.(next_hop) = None) && bool_decide (a.(multi_exit_disc) = None) &&
  bool_decide (a.(local_pref) = None) && negb a.(atomic_aggregate) &&
  bool_decide (a.(aggregator) = None) && bool_decide (a.(communities) = []) &&
  bool_decide (a.(originator_id) = None) && bool_decide (a.(cluster_list) = []) &&
  bool_decide (a.(unknown) = []).

(** Assignments to one field. *)
Definition set_origin (a : PathAttributes) v : PathAttributes :=
  {| origin := v; as_path := as_path a; next_hop := next_hop a;
     multi_exit_disc := multi_exit_disc a; local_pref := local_pref a;
     atomic_aggregate := atomic_aggregate a; aggregator := aggregator a;
     communities := communities a; originator_id := originator_id a;
     cluster_list := cluster_list a; unknown := unknown a |}.
Definition set_as_path (a : PathAttributes) v : PathAttributes :=
  {| origin := origin a; as_path := v; next_hop := next_hop a;
     multi_exit_disc := multi_exit_disc a; local_pref := local_pref a;
     atomic_aggregate := atomic_aggregate a; aggregator := aggregator a;
     communities := communities a; originator_id := originator_id a;
     cluster_list := cluster_list a; unknown := unknown a |}.
Definition set_next_hop (a : PathAttributes) v : PathAttributes :=
  {| origin := origin a; as_path := as_path a; next_hop := v;
     multi_exit_disc := multi_exit_disc a; local_pref := local_pref a;
     atomic_aggregate := atomic_aggregate a; aggregator := aggregator a;
     communities := communities a; originator_id := originator_id a;
     cluster_list := cluster_list a; unknown := unknown a |}.
Definition set_multi_exit_disc (a : PathAttributes) v : PathAttributes :=
  {| origin := origin a; as_path := as_path a; next_hop := next_hop a;
     multi_exit_disc := v; local_pref := local_pref a;
     atomic_aggregate := atomic_aggregate a; aggregator := aggregator a;
     communities := communities a; originator_id := originator_id a;
     cluster_list := cluster_list a; unknown := unknown a |}.
Definition set_local_pref (a : PathAttributes) v : PathAttributes :=
  {| origin := origin a; as_path := as_path a; next_hop := next_hop a;
     multi_exit_disc := multi_exit_disc a; local_pref := v;
     atomic_aggregate := atomic_aggregate a; aggregator := aggregator a;
     communities := communities a; originator_id := originator_id a;
     cluster_list := cluster_list a; unknown := unknown a |}.
Definition set_atomic_aggregate (a : PathAttributes) v : PathAttributes :=
  {| origin := origin a; as_path := as_path a; next_hop := next_hop a;
     multi_exit_disc := multi_exit_disc a; local_pref := local_pref a;
     atomic_aggregate := v; aggregator := aggregator a;
     communities := communities a; originator_id := originator_id a;
     cluster_list := cluster_list a; unknown := unknown a |}.
Definition set_aggregator (a : PathAttributes) v : PathAttributes :=
  {| origin := origin a; as_path := as_path a; next_hop := next_hop a;
     multi_exit_disc := multi_exit_disc a; local_pref := local_pref a;
     atomic_aggregate := atomic_aggregate a; aggregator := v;
     communities := communities a; originator_id := originator_id a;
     cluster_list := cluster_list a; unknown := unknown a |}.
Definition set_communities (a : PathAttributes) v : PathAttributes :=
  {| origin := origin a; as_path := as_path a; next_hop := next_hop a;
     multi_exit_disc := multi_exit_disc a; local_pref := local_pref a;
     atomic_aggregate := atomic_aggregate a; aggregator := aggregator a;
     communities := v; originator_id := originator_id a;
     cluster_list := cluster_list a; unknown := unknown a |}.
Definition set_originator_id (a : PathAttributes) v : PathAttributes :=
  {| origin := origin a; as_path := as_path a; next_hop := next_hop a;
     multi_exit_disc := multi_exit_disc a; local_pref := local_pref a;
     atomic_aggregate := atomic_aggregate a; aggregator := aggregator a;
     communities := communities a; originator_id := v;
     cluster_list := cluster_list a; unknown := unknown a |}.
Definition set_cluster_list (a : PathAttributes) v : PathAttributes :=
  {| origin := origin a; as_path := as_path a; next_hop := next_hop a;
     multi_exit_disc := multi_exit_disc a; local_pref := local_pref a;
     atomic_aggregate := atomic_aggregate a; aggregator := aggregator a;
     communities := communities a; originator_id := originator_id a;
     cluster_list := v; unknown := unknown a |}.
Definition set_unknown (a : PathAttributes) v : PathAttributes :=
  {| origin := origin a; as_path := as_path a; next_hop := next_hop a;
     multi_exit_disc := multi_exit_disc a; local_pref := local_pref a;
     atomic_aggregate := atomic_aggregate a; aggregator := aggregator a;
     communities := communities a; originator_id := originator_id a;
     cluster_list := cluster_list a; unknown := v |}.

Section api.
Context {api : BytesApi}.
Abbreviation result := (outcome AttrError.t).

(** [for _ in 0..n { asns.push(seg_buf.get_u32()) }] *)
Fixpoint get_asns (n : nat) (asns : list Z) (buf : bytes) : result (list Z * bytes) :=
  match n with
  | O => Ok (asns, buf)
  | S n =>
      '(asn, buf) ← get_u32 buf;
      get_asns n (asns ++ [asn]) buf
  end.

(** One round of the AS_PATH loop: [while seg_buf.remaining() >= 2]. *)
Definition parse_segment_step (s : list AsPathSegment.t * bytes) :
    result ((list AsPathSegment.t * bytes) + list AsPathSegment.t) :=
  let '(as_path, seg_buf) := s in
  if decide (2 ≤ length seg_buf) then
    '(seg_type, seg_buf) ← get_u8 seg_buf;
    '(seg_len, seg_buf) ← get_u8 seg_buf;
    let seg_len := Z.to_nat seg_len in
    if decide (length seg_buf < seg_len * 4) then Err AttrError.TooShort
    else
      '(asns, seg_buf) ← get_asns seg_len [] seg_buf;
      seg ← (if (seg_type =? 1)%Z then Ok (AsPathSegment.AsSet asns)
             else if (seg_type =? 2)%Z then Ok (AsPathSegment.AsSequence asns)
             else Err (AttrError.InvalidAsPathSegment seg_type));
      Ok (inl (as_path ++ [seg], seg_buf))
  else Ok (inr as_path).

(** One round of the loops of COMMUNITIES and CLUSTER_LIST:
    [while b.remaining() >= 4 { out.push(b.get_u32()) }] *)
Definition parse_u32_step (s : list Z * bytes) : result ((list Z * bytes) + list Z) :=
  let '(out, b) := s in
  if decide (4 ≤ length b) then
    '(v, b) ← get_u32 b;
    Ok (inl (out ++ [v], b))
  else Ok (inr out).

(** The first four bytes of an attribute whose value is a 32-bit field. *)
Definition parse_u32_value (value : bytes) : result Z :=
  if decide (length value < 4) then Err AttrError.TooShort
  else '(v, _) ← get_u32 value; Ok v.

(** The [match type_code] of the attribute loop. *)
Definition parse_value (attrs : PathAttributes) (flags type_code : Z) (value : bytes) :
    result PathAttributes :=
  match type_code with
  | 1%Z =>
      if decide (value = []) then Err AttrError.TooShort
      else
        v ← index value 0;
        o ← origin_try_from v;
        Ok (set_origin attrs (Some o))
  | 2%Z =>
      p ← loop (S (length value)) parse_segment_step (attrs.(as_path), value);
      Ok (set_as_path attrs p)
  | 3%Z => v ← parse_u32_value value; Ok (set_next_hop attrs (Some v))
  | 4%Z => v ← parse_u32_value value; Ok (set_multi_exit_disc attrs (Some v))
  | 5%Z => v ← parse_u32_value value; Ok (set_local_pref attrs (Some v))
  | 6%Z => Ok (set_atomic_aggregate attrs true)
  | 7%Z =>
      if decide (length value < 6) then Err AttrError.TooShort
      else
        '(asn, b) ← get_u16 value;
        '(ip, _) ← get_u32 b;
        Ok (set_aggregator attrs (Some (asn, ip)))
  | 8%Z =>
      cs ← loop (S (length value)) parse_u32_step (attrs.(communities), value);
      Ok (set_communities attrs cs)
  | 9%Z => v ← parse_u32_value value; Ok (set_originator_id attrs (Some v))
  | 10%Z =>
      cl ← loop (S (length value)) parse_u32_step (attrs.(cluster_list), value);
      Ok (set_cluster_list attrs cl)
  | _ => Ok (set_unknown attrs (attrs.(unknown) ++ [RawAttribute.mk flags type_code value]))
  end.

(** One round of [while buf.remaining() >= 3]. *)
Definition parse_attr_step (s : PathAttributes * bytes) :
    result ((PathAttributes * bytes) + PathAttributes) :=
  let '(attrs, buf) := s in
  if decide (3 ≤ length buf) then
    '(flags, buf) ← get_u8 buf;
    '(type_code, buf) ← get_u8 buf;
    '(len, buf) ←
      (if decide (Z.land flags FLAG_EXTENDED_LEN ≠ 0%Z) then
         if decide (length buf < 2) then Err AttrError.TooShort else get_u16 buf
       else
         if decide (length buf < 1) then Err AttrError.TooShort else get_u8 buf);
    let len := Z.to_nat len in
    if decide (length buf < len) then Err AttrError.TooShort
    else
      '(value, buf) ← copy_to_bytes len buf;
      attrs ← parse_value attrs flags type_code value;
      Ok (inl (attrs, buf))
  else Ok (inr attrs).

Definition parse (buf : bytes) : result PathAttributes :=
  loop (S (length buf)) parse_attr_step (default, buf).

Definition write_attr (buf : bytes) (flags type_code : Z) (value : bytes) : bytes :=
  let len := length value in
  let buf :=
    if decide (255 < len) then
      let buf := put_u8 buf (Z.lor flags FLAG_EXTENDED_LEN) in
      let buf := put_u8 buf type_code in
      put_u16 buf (wrap 16 (Z.of_nat len))
    else
      let buf := put_u8 buf flags in
      let buf := put_u8 buf type_code in
      put_u8 buf (wrap 8 (Z.of_nat len)) in
  put_slice buf value.

Definition write_segment (seg_buf : bytes) (seg : AsPathSegment.t) : bytes :=
  let '(seg_type, asns) :=
    match seg with
    | AsPathSegment.AsSet v => (1%Z, v)
    | AsPathSegment.AsSequence v => (2%Z, v)
    end in
  let seg_buf := put_u8 seg_buf seg_type in
  let seg_buf := put_u8 seg_buf (wrap 8 (Z.of_nat (length asns))) in
  foldl put_u32 seg_buf asns.

Definition serialize (a : PathAttributes) : bytes :=
  let buf := [] in
  let buf := match a.(origin) with
    | Some o => write_attr buf FLAG_TRANSITIVE 1 [Origin.to_u8 o] | None => buf end in
  let buf := match a.(as_path) with
    | [] => buf
    | p => write_attr buf FLAG_TRANSITIVE 2 (foldl write_segment [] p) end in
  let buf := match a.(next_hop) with
    | Some nh => write_attr buf FLAG_TRANSITIVE 3 (be_bytes 4 nh) | None => buf end in
  let buf := match a.(multi_exit_disc) with
    | Some med => write_attr buf FLAG_OPTIONAL 4 (be_bytes 4 med) | None => buf end in
  let buf := match a.(local_pref) with
    | Some lp => write_attr buf FLAG_TRANSITIVE 5 (be_bytes 4 lp) | None => buf end in
  let buf := if a.(atomic_aggregate) then write_attr buf FLAG_TRANSITIVE 6 [] else buf in
  let buf := match a.(aggregator) with
    | Some (asn, ip) =>
        let v := put_u16 [] asn in
        let v := put_u32 v ip in
        write_attr buf (Z.lor FLAG_OPTIONAL FLAG_TRANSITIVE) 7 v
    | None => buf end in
  let buf := match a.(communities) with
    | [] => buf
    | cs => write_attr buf (Z.lor FLAG_OPTIONAL FLAG_TRANSITIVE) 8 (foldl put_u32 [] cs) end in
  let buf := match a.(originator_id) with
    | Some orig_id => write_attr buf FLAG_OPTIONAL 9 (be_bytes 4 orig_id) | None => buf end in
  let buf := match a.(cluster_list) with
    | [] => buf
    | ips => write_attr buf FLAG_OPTIONAL 10 (foldl put_u32 [] ips) end in
  foldl (λ buf attr, write_attr buf attr.(RawAttribute.flags) attr.(RawAttribute.type_code)
                       attr.(RawAttribute.value)) buf a.(unknown).
End api.

(** AS_SETs count as 1. *)
Definition as_path_len (a : PathAttributes) : nat :=
  sum_list (map (λ seg, match seg with
    | AsPathSegment.AsSet _ => 1
    | AsPathSegment.AsSequence v => length v
    end) a.(as_path)).
End Attrs.

(* ------------------------------------------------------------------ *)
(** ** Lemmas: every loop returns *)

Section attr_lemmas.
Context {api : BytesApi} {laws : BytesLaws api}.

Lemma get_asns_spec n asns buf :
  n * 4 ≤ length buf →
  ∃ l, length l = n ∧ Attrs.get_asns n asns buf = Ok (asns ++ l, drop (n * 4) buf) ∧
       (Forall u8 buf → Forall u32 l).
Proof.
  revert asns buf; induction n as [|n IH]; intros asns buf Hl; simpl.
  - exists []. by rewrite app_nil_r, drop_0.
  - rewrite get_u32_spec, take_or_panic_long by lia. cbn [mbind outcome_bind].
    destruct (IH (asns ++ [of_be (take 4 buf)]) (drop 4 buf)) as (l&Hlen&->&Hu8);
      [rewrite length_drop; lia|].
    exists (of_be (take 4 buf) :: l). simpl. rewrite Hlen, <- app_assoc, drop_drop.
    split_and!; [done..|]. intros Hb. constructor; [|by apply Hu8, Forall_drop].
    apply (of_be_uint 4); [by apply Forall_take|rewrite length_take; lia].
Qed.

Lemma origin_returns v : returns (origin_try_from v).
Proof. unfold origin_try_from. by repeat case_match. Qed.

Lemma origin_of_to_u8 o : origin_try_from (Origin.to_u8 o) = Ok o.
Proof. by destruct o. Qed.

(** What a round of the segment loop does with a buffer it can read. *)
Lemma segment_step_returns s : returns (Attrs.parse_segment_step s).
Proof.
  destruct s as [p buf]. unfold Attrs.parse_segment_step. case_decide; [|done].
  destruct buf as [|ty [|n buf]]; simpl in *; [lia..|]. do 2 read_step. cbv zeta.
  case_decide; [done|]. destruct (get_asns_spec (Z.to_nat n) [] buf) as (l&_&->&_); [lia|].
  simpl. by repeat case_match.
Qed.

Lemma segment_step_inl p buf p' buf' :
  Attrs.parse_segment_step (p, buf) = Ok (inl (p', buf')) →
  ∃ seg, p' = p ++ [seg] ∧ length buf = 2 + 4 * length (AsPathSegment.as_numbers seg) + length buf' ∧
    (Forall u8 buf → length (AsPathSegment.as_numbers seg) ≤ 255 ∧
       Forall u32 (AsPathSegment.as_numbers seg) ∧ Forall u8 buf').
Proof.
  unfold Attrs.parse_segment_step. case_decide; [|done].
  destruct buf as [|ty [|n buf]]; simpl in *; [lia..|]. do 2 read_step. cbv zeta.
  case_decide; [done|]. destruct (get_asns_spec (Z.to_nat n) [] buf) as (l&Hl&->&Hu); [lia|].
  simpl. intros Hs.
  assert (∃ seg, AsPathSegment.as_numbers seg = l ∧ p' = p ++ [seg] ∧
    buf' = drop (Z.to_nat n * 4) buf) as (seg&Hseg&->&->).
  { destruct (ty =? 1)%Z; [|destruct (ty =? 2)%Z]; simplify_eq/=;
      (eexists; split_and!; [|done..]; done). }
  exists seg. rewrite Hseg, length_drop. split_and!; [done|lia|].
  intros Hb. inv Hb as [|? ? _ Hb']. inv Hb' as [|? ? Hn Hb]. unfold uint in Hn.
  split_and!; [lia|by apply Hu|by apply Forall_drop].
Qed.

Lemma segment_loop_returns p buf :
  returns (loop (S (length buf)) Attrs.parse_segment_step (p, buf)).
Proof.
  apply (loop_returns (λ _, True) (λ s, length s.2)); simpl; [..|done|lia].
  - intros. apply segment_step_returns.
  - intros [q b] [q' b'] _ (seg&_&Hl&_)%segment_step_inl. simpl. split; [done|lia].
Qed.

Lemma u32_step_returns s : returns (Attrs.parse_u32_step s).
Proof.
  destruct s as [p buf]. unfold Attrs.parse_u32_step. case_decide; [|done].
  by rewrite get_u32_spec, take_or_panic_long by lia.
Qed.

Lemma u32_step_inl p buf p' buf' :
  Attrs.parse_u32_step (p, buf) = Ok (inl (p', buf')) →
  ∃ v, p' = p ++ [v] ∧ length buf = 4 + length buf' ∧ (Forall u8 buf → u32 v ∧ Forall u8 buf').
Proof.
  unfold Attrs.parse_u32_step. case_decide; [|done].
  rewrite get_u32_spec, take_or_panic_long by lia. simpl. intros [= <- <-].
  eexists. split; [done|]. rewrite length_drop. split; [lia|]. intros Hb.
  split; [|by apply Forall_drop].
  apply (of_be_uint 4); [by apply Forall_take|rewrite length_take; lia].
Qed.

Lemma u32_loop_returns p buf :
  returns (loop (S (length buf)) Attrs.parse_u32_step (p, buf)).
Proof.
  apply (loop_returns (λ _, True) (λ s, length s.2)); simpl; [..|done|lia].
  - intros. apply u32_step_returns.
  - intros [q b] [q' b'] _ (v&_&Hl&_)%u32_step_inl. simpl. split; [done|lia].
Qed.

Lemma u32_value_returns value : returns (Attrs.parse_u32_value value).
Proof.
  unfold Attrs.parse_u32_value. case_decide; [done|].
  by rewrite get_u32_spec, take_or_panic_long by lia.
Qed.

Lemma parse_value_returns a flags ty value : returns (Attrs.parse_value a flags ty value).
Proof.
  unfold Attrs.parse_value.
  destruct (decide (ty = 1)%Z) as [->|].
  { case_decide as Hv; [done|]. destruct value; [done|].
    simpl. apply returns_bind; [apply origin_returns|done]. }
  destruct (decide (ty = 7)%Z) as [->|].
  { case_decide; [done|]. rewrite get_u16_spec, take_or_panic_long by lia.
    cbn [mbind outcome_bind]. rewrite get_u32_spec, take_or_panic_long; [done|].
    rewrite length_drop. lia. }
  repeat case_match; try done; apply returns_bind; try done;
    eauto using segment_loop_returns, u32_loop_returns, u32_value_returns.
Qed.

(** The length field of an attribute header. *)
Lemma attr_step_returns s : returns (Attrs.parse_attr_step s).
Proof.
  destruct s as [a buf]. unfold Attrs.parse_attr_step. case_decide; [|done].
  destruct buf as [|f [|ty buf]]; simpl in *; [lia..|]. do 2 read_step.
  apply returns_bind.
  - case_decide; case_decide; try done; [apply get_u16_returns|apply get_u8_returns]; lia.
  - intros [n rest] _. cbv zeta. case_decide; [done|].
    rewrite copy_to_bytes_long by lia. cbn [mbind outcome_bind].
    apply returns_bind; [apply parse_value_returns|done].
Qed.

Lemma attr_step_inl a buf a' buf' :
  Attrs.parse_attr_step (a, buf) = Ok (inl (a', buf')) →
  ∃ flags ty value, Attrs.parse_value a flags ty value = Ok a' ∧
    length buf' + length value + 3 ≤ length buf ∧
    (Z.land flags FLAG_EXTENDED_LEN = 0%Z → Forall u8 buf → length value ≤ 255) ∧
    (Forall u8 buf → u8 flags ∧ u8 ty ∧ Forall u8 value ∧ Forall u8 buf').
Proof.
  unfold Attrs.parse_attr_step. case_decide; [|done].
  destruct buf as [|f [|ty buf]]; simpl in *; [lia..|]. do 2 read_step.
  intros ([n rest]&Hn&Hs)%bind_Ok_inv. cbv zeta in Hs.
  assert (Hrest : length rest < length buf ∧ (Forall u8 buf → Forall u8 rest) ∧
    (Z.land f FLAG_EXTENDED_LEN = 0%Z → Forall u8 buf → u8 n)).
  { repeat case_decide; try done.
    - apply get_u16_Ok in Hn as (?&->&->). rewrite length_drop.
      split_and!; [lia|apply Forall_drop|done].
    - apply get_u8_Ok in Hn as ->. simpl.
      split_and!; [lia|intros Hb; by inv Hb|intros _ Hb; by inv Hb]. }
  destruct Hrest as (Hlt&Hu8&Hn8). case_decide; [done|].
  rewrite copy_to_bytes_long in Hs by lia. cbn [mbind outcome_bind] in Hs.
  apply bind_Ok_inv in Hs as (a''&Ha&[= <- <-]). eexists _, _, _. split; [done|].
  rewrite length_drop, length_take. split_and!; [lia|..].
  - intros Hf Hb. inv Hb as [|? ? _ Hb']. inv Hb' as [|? ? _ Hb].
    destruct (Hn8 Hf Hb). change (2 ^ 8)%Z with 256%Z in *. lia.
  - intros Hb. inv Hb as [|? ? ? Hb']. inv Hb' as [|? ? ? Hb].
    split_and!; [done..|apply Forall_take|apply Forall_drop]; auto.
Qed.

Lemma attrs_parse_returns buf : returns (Attrs.parse buf).
Proof.
  apply (loop_returns (λ _, True) (λ s, length s.2)); simpl; [..|done|lia].
  - intros. apply attr_step_returns.
  - intros [a b] [a' b'] _ (?&?&?&_&?&_)%attr_step_inl. simpl. split; [done|lia].
Qed.
End attr_lemmas.

(* ------------------------------------------------------------------ *)
(** ** The serialiser writes one record per attribute *)

(** The wire form of one attribute. *)
Definition attr_bytes (r : RawAttribute.t) : bytes :=
  let '(RawAttribute.mk flags ty value) := r in
  (if decide (255 < length value)
   then [Z.lor flags FLAG_EXTENDED_LEN; ty] ++ be_bytes 2 (wrap 16 (Z.of_nat (length value)))
   else [flags; ty; wrap 8 (Z.of_nat (length value))]) ++ value.

(** The flags the other side reads. *)
Definition sent_flags (r : RawAttribute.t) : Z :=
  if decide (255 < length r.(RawAttribute.value))
  then Z.lor r.(RawAttribute.flags) FLAG_EXTENDED_LEN else r.(RawAttribute.flags).

(** Flags, type and value survive the wire: the value fits a 16-bit length, and
    the extended-length bit is not set on a short value. *)
Definition attr_fits (r : RawAttribute.t) : Prop :=
  (Z.of_nat (length r.(RawAttribute.value)) ≤ 65535)%Z ∧
  (length r.(RawAttribute.value) ≤ 255 → Z.land r.(RawAttribute.flags) FLAG_EXTENDED_LEN = 0%Z).

Definition segment_bytes (seg : AsPathSegment.t) : bytes :=
  [match seg with AsPathSegment.AsSet _ => 1%Z | AsPathSegment.AsSequence _ => 2%Z end;
   wrap 8 (Z.of_nat (length (AsPathSegment.as_numbers seg)))] ++
  concat (map (be_bytes 4) (AsPathSegment.as_numbers seg)).

(** The attributes of a route as records, in the order they are written. *)
Definition attr_list (a : PathAttributes) : list RawAttribute.t :=
  let raw := RawAttribute.mk in
  match a.(origin) with Some o => [raw FLAG_TRANSITIVE 1%Z [Origin.to_u8 o]] | None => [] end ++
  match a.(as_path) with [] => []
  | p => [raw FLAG_TRANSITIVE 2%Z (concat (map segment_bytes p))] end ++
  match a.(next_hop) with Some v => [raw FLAG_TRANSITIVE 3%Z (be_bytes 4 v)] | None => [] end ++
  match a.(multi_exit_disc) with Some v => [raw FLAG_OPTIONAL 4%Z (be_bytes 4 v)] | None => [] end ++
  match a.(local_pref) with Some v => [raw FLAG_TRANSITIVE 5%Z (be_bytes 4 v)] | None => [] end ++
  (if a.(atomic_aggregate) then [raw FLAG_TRANSITIVE 6%Z []] else []) ++
  match a.(aggregator) with
  | Some (asn, ip) => [raw (Z.lor FLAG_OPTIONAL FLAG_TRANSITIVE) 7%Z (be_bytes 2 asn ++ be_bytes 4 ip)]
  | None => [] end ++
  match a.(communities) with [] => []
  | cs => [raw (Z.lor FLAG_OPTIONAL FLAG_TRANSITIVE) 8%Z (concat (map (be_bytes 4) cs))] end ++
  match a.(originator_id) with Some v => [raw FLAG_OPTIONAL 9%Z (be_bytes 4 v)] | None => [] end ++
  match a.(cluster_list) with [] => []
  | ips => [raw FLAG_OPTIONAL 10%Z (concat (map (be_bytes 4) ips))] end ++
  a.(unknown).

(** Every field fits its wire encoding; an unknown attribute has a type the
    parser does not know and flags that agree with its length. *)
Definition attrs_wf (a : PathAttributes) : Prop :=
  Forall (λ seg, length (AsPathSegment.as_numbers seg) ≤ 255 ∧
                 Forall u32 (AsPathSegment.as_numbers seg)) a.(as_path) ∧
  (Z.of_nat (length (concat (map segment_bytes a.(as_path)))) ≤ 65535)%Z ∧
  (∀ v, a.(next_hop) = Some v → u32 v) ∧
  (∀ v, a.(multi_exit_disc) = Some v → u32 v) ∧
  (∀ v, a.(local_pref) = Some v → u32 v) ∧
  (∀ asn ip, a.(aggregator) = Some (asn, ip) → u16 asn ∧ u32 ip) ∧
  (Forall u32 a.(communities) ∧ (Z.of_nat (length a.(communities)) * 4 ≤ 65535)%Z) ∧
  (∀ v, a.(originator_id) = Some v → u32 v) ∧
  (Forall u32 a.(cluster_list) ∧ (Z.of_nat (length a.(cluster_list)) * 4 ≤ 65535)%Z) ∧
  Forall (λ r, attr_fits r ∧ sent_flags r = r.(RawAttribute.flags) ∧
               (r.(RawAttribute.type_code) < 1 ∨ 10 < r.(RawAttribute.type_code))%Z) a.(unknown).

(** The effect of a list of records on the attributes. *)
Fixpoint read_values {api : BytesApi} (a : PathAttributes) (rs : list RawAttribute.t) :
    outcome AttrError.t PathAttributes :=
  match rs with
  | [] => Ok a
  | r :: rs =>
      a ← Attrs.parse_value a (sent_flags r) r.(RawAttribute.type_code) r.(RawAttribute.value);
      read_values a rs
  end.

Section attr_roundtrip_lemmas.
Context {api : BytesApi} {laws : BytesLaws api}.

Lemma write_attr_eq buf flags ty value :
  Attrs.write_attr buf flags ty value = buf ++ attr_bytes (RawAttribute.mk flags ty value).
Proof.
  unfold Attrs.write_attr, attr_bytes. case_decide; autorewrite with bytes;
    by rewrite <- !app_assoc.
Qed.

Lemma put_u32s_eq buf vs : foldl put_u32 buf vs = buf ++ concat (map (be_bytes 4) vs).
Proof.
  revert buf; induction vs as [|v vs IH]; intros buf; cbn [map concat foldl]; [by rewrite app_nil_r|].
  rewrite IH. autorewrite with bytes. by rewrite <- app_assoc.
Qed.

Lemma length_u32s vs : length (concat (map (be_bytes 4) vs)) = length vs * 4.
Proof.
  induction vs as [|v vs IH]; [done|]. cbn [map concat length].
  rewrite length_app, length_be_bytes. lia.
Qed.

Lemma write_segments_eq buf segs :
  foldl Attrs.write_segment buf segs = buf ++ concat (map segment_bytes segs).
Proof.
  revert buf; induction segs as [|seg segs IH]; intros buf; cbn [map concat foldl];
    [by rewrite app_nil_r|].
  rewrite IH, app_assoc. f_equal. unfold Attrs.write_segment, segment_bytes.
  destruct seg; cbn [AsPathSegment.as_numbers]; rewrite put_u32s_eq;
    autorewrite with bytes; by rewrite <- !app_assoc.
Qed.

Lemma write_unknown_eq buf rs :
  foldl (λ buf attr, Attrs.write_attr buf attr.(RawAttribute.flags) attr.(RawAttribute.type_code)
    attr.(RawAttribute.value)) buf rs = buf ++ concat (map attr_bytes rs).
Proof.
  revert buf; induction rs as [|[f t v] rs IH]; intros buf; cbn [foldl map concat];
    [by rewrite app_nil_r|].
  rewrite IH, write_attr_eq. by rewrite <- app_assoc.
Qed.

Lemma option_piece {A} (x : option A) buf (w : A → bytes) (f : A → RawAttribute.t) :
  (∀ v, w v = buf ++ attr_bytes (f v)) →
  match x with Some v => w v | None => buf end =
    buf ++ concat (map attr_bytes (match x with Some v => [f v] | None => [] end)).
Proof. intros Hw. destruct x; simpl; by rewrite ?Hw, app_nil_r. Qed.

Lemma list_piece {A} (x : list A) buf (w : A → list A → bytes) (f : A → list A → RawAttribute.t) :
  (∀ v l, w v l = buf ++ attr_bytes (f v l)) →
  match x with v :: l => w v l | [] => buf end =
    buf ++ concat (map attr_bytes (match x with v :: l => [f v l] | [] => [] end)).
Proof. intros Hw. destruct x; simpl; by rewrite ?Hw, app_nil_r. Qed.

Lemma pair_piece {A B} (x : option (A * B)) buf (w : A → B → bytes) (f : A → B → RawAttribute.t) :
  (∀ v1 v2, w v1 v2 = buf ++ attr_bytes (f v1 v2)) →
  match x with Some (v1, v2) => w v1 v2 | None => buf end =
    buf ++ concat (map attr_bytes (match x with Some (v1, v2) => [f v1 v2] | None => [] end)).
Proof. intros Hw. destruct x as [[]|]; simpl; by rewrite ?Hw, app_nil_r. Qed.

Lemma if_piece (x : bool) buf w r :
  w = buf ++ attr_bytes r →
  (if x then w else buf) = buf ++ concat (map attr_bytes (if x then [r] else [])).
Proof. intros ->. destruct x; simpl; by rewrite app_nil_r. Qed.

Lemma attrs_serialize_eq a : Attrs.serialize a = concat (map attr_bytes (attr_list a)).
Proof.
  unfold Attrs.serialize, attr_list. cbv zeta. rewrite write_unknown_eq.
  rewrite !map_app, !concat_app, !app_assoc. f_equal.
  repeat first
    [ etrans; [apply option_piece; intros; apply write_attr_eq|f_equal]
    | etrans; [apply list_piece; intros; apply write_attr_eq|f_equal;
        [|case_match; [done|]; by rewrite ?put_u32s_eq, ?write_segments_eq]]
    | etrans; [apply pair_piece; intros; apply write_attr_eq|f_equal;
        [|destruct (aggregator a) as [[]|]; autorewrite with bytes; done]]
    | etrans; [apply if_piece; intros; apply write_attr_eq|f_equal] ].
Qed.

(** One round of the attribute loop reads back one record. *)
Lemma attr_step_one a r rest :
  attr_fits r →
  Attrs.parse_attr_step (a, attr_bytes r ++ rest) =
    a' ← Attrs.parse_value a (sent_flags r) r.(RawAttribute.type_code) r.(RawAttribute.value);
    Ok (inl (a', rest)).
Proof.
  destruct r as [f ty v]. unfold attr_fits, sent_flags, attr_bytes, Attrs.parse_attr_step.
  cbn [RawAttribute.flags RawAttribute.type_code RawAttribute.value]. intros [Hlen Hf].
  destruct (decide (255 < length v)) as [Hlong|Hshort].
  - rewrite decide_True by (rewrite !length_app, ?length_be_bytes; simpl; lia).
    rewrite <- !app_assoc. cbn [app]. do 2 read_step. rewrite decide_True.
    2: { rewrite Z.land_lor_distr_l. intros [_ ?]%Z.lor_eq_0_iff. done. }
    rewrite decide_False by (rewrite length_app, length_be_bytes; lia).
    rewrite get_u16_app by (apply wrap_uint; lia). cbn [mbind outcome_bind].
    rewrite wrap_small by (split; lia). rewrite Nat2Z.id. cbv zeta.
    rewrite decide_False by (rewrite length_app; lia). by read_step.
  - rewrite decide_True by (rewrite !length_app; simpl; lia).
    cbn [app]. do 2 read_step. rewrite decide_False by (rewrite Hf; lia).
    rewrite decide_False by (simpl; lia). read_step.
    rewrite wrap_small by (split; lia). rewrite Nat2Z.id. cbv zeta.
    rewrite decide_False by (rewrite length_app; lia). by read_step.
Qed.

Lemma attr_bytes_nonempty r : 0 < length (attr_bytes r).
Proof. destruct r as [f ty v]. unfold attr_bytes. rewrite length_app. case_decide; simpl; lia. Qed.

Lemma attr_loop_records rs a n :
  Forall attr_fits rs → length (concat (map attr_bytes rs)) < n →
  loop n Attrs.parse_attr_step (a, concat (map attr_bytes rs)) = read_values a rs.
Proof.
  intros Hrs. revert a n. induction Hrs as [|r rs Hr _ IH]; intros a n Hn.
  - destruct n as [|n]; [simpl in *; lia|]. done.
  - destruct n as [|n]; [simpl in *; lia|]. cbn [map concat] in *. rewrite length_app in Hn.
    pose proof (attr_bytes_nonempty r). rewrite loop_unfold, attr_step_one by done.
    cbn [read_values]. destruct (Attrs.parse_value _ _ _ _); simpl; [|done..].
    apply IH. lia.
Qed.

Lemma read_values_app a rs1 rs2 :
  read_values a (rs1 ++ rs2) = a' ← read_values a rs1; read_values a' rs2.
Proof.
  revert a; induction rs1 as [|r rs1 IH]; intros a; simpl; [done|].
  destruct (Attrs.parse_value _ _ _ _); simpl; [apply IH|done..].
Qed.

Lemma u32_loop_read vs out n :
  Forall u32 vs → length vs * 4 < n →
  loop n Attrs.parse_u32_step (out, concat (map (be_bytes 4) vs)) = Ok (out ++ vs).
Proof.
  intros Hvs. revert out n. induction Hvs as [|v vs Hv _ IH]; intros out n Hn.
  - destruct n as [|n]; [simpl in *; lia|]. by rewrite loop_unfold, app_nil_r.
  - destruct n as [|n]; [simpl in *; lia|]. rewrite loop_unfold. cbn [map concat length] in *.
    unfold Attrs.parse_u32_step at 2. rewrite decide_True by (rewrite length_app, length_be_bytes; lia).
    read_step. rewrite IH by lia. by rewrite <- app_assoc.
Qed.

Lemma get_asns_read vs asns rest :
  Forall u32 vs →
  Attrs.get_asns (length vs) asns (concat (map (be_bytes 4) vs) ++ rest) = Ok (asns ++ vs, rest).
Proof.
  intros Hvs. revert asns. induction Hvs as [|v vs Hv _ IH]; intros asns; [by rewrite app_nil_r|].
  cbn [map concat length Attrs.get_asns]. rewrite <- app_assoc. read_step.
  rewrite IH. by rewrite <- app_assoc.
Qed.

Lemma length_segment_bytes seg :
  length (segment_bytes seg) = 2 + length (AsPathSegment.as_numbers seg) * 4.
Proof. unfold segment_bytes. rewrite length_app, length_u32s. done. Qed.

Lemma segment_loop_read segs p n :
  Forall (λ seg, length (AsPathSegment.as_numbers seg) ≤ 255 ∧
                 Forall u32 (AsPathSegment.as_numbers seg)) segs →
  length (concat (map segment_bytes segs)) < n →
  loop n Attrs.parse_segment_step (p, concat (map segment_bytes segs)) = Ok (p ++ segs).
Proof.
  intros Hs. revert p n. induction Hs as [|seg segs [Hl Hu] _ IH]; intros p n Hn.
  - destruct n as [|n]; [simpl in *; lia|]. by rewrite loop_unfold, app_nil_r.
  - destruct n as [|n]; [simpl in *; lia|]. rewrite loop_unfold. cbn [map concat] in *.
    rewrite length_app, length_segment_bytes in Hn.
    unfold Attrs.parse_segment_step at 2.
    rewrite decide_True by (rewrite length_app, length_segment_bytes; lia).
    unfold segment_bytes at 1. rewrite <- app_assoc. cbn [app]. do 2 read_step.
    rewrite wrap_small by (split; lia). rewrite Nat2Z.id. cbv zeta.
    rewrite decide_False by (rewrite length_app, length_u32s; lia).
    rewrite get_asns_read by done. cbn [mbind outcome_bind].
    destruct seg as [v|v]; simpl in *; rewrite IH by lia; by rewrite <- app_assoc.
Qed.

Lemma u32_value_read v : u32 v → Attrs.parse_u32_value (be_bytes 4 v) = Ok v.
Proof.
  intros Hv. unfold Attrs.parse_u32_value. rewrite decide_False by (rewrite length_be_bytes; lia).
  by read_step.
Qed.

Lemma attr_list_fits a : attrs_wf a → Forall attr_fits (attr_list a).
Proof.
  intros (Hp&Hpl&_&_&_&_&[_ Hc]&_&[_ Hcl]&Hun). unfold attr_list.
  repeat (apply Forall_app; split).
  11: { eapply Forall_impl; [done|]. by intros r [? _]. }
  all: repeat case_match; try done; constructor; try done; unfold attr_fits;
    cbn [RawAttribute.value RawAttribute.flags]; rewrite ?length_app, ?length_be_bytes, ?length_u32s;
    split; simplify_eq/=; try done; try lia.
Qed.

Lemma read_values_unknown rs a :
  Forall (λ r, sent_flags r = r.(RawAttribute.flags) ∧
               (r.(RawAttribute.type_code) < 1 ∨ 10 < r.(RawAttribute.type_code))%Z) rs →
  read_values a rs = Ok (Attrs.set_unknown a (a.(unknown) ++ rs)).
Proof.
  intros Hrs. revert a. induction Hrs as [|[f ty v] rs [Hf Hty] _ IH]; intros a; simpl.
  - rewrite app_nil_r. by destruct a.
  - rewrite Hf. simpl in *.
    assert (Attrs.parse_value a f ty v =
      Ok (Attrs.set_unknown a (unknown a ++ [RawAttribute.mk f ty v]))) as ->.
    { unfold Attrs.parse_value. repeat (case_match; try done; try lia). }
    simpl. rewrite IH. simpl. rewrite <- app_assoc. by destruct a.
Qed.

(** Reading back the record of an optional field, and of a list field. *)
Lemma read_option_piece {A} (x : option A) a set f rs :
  (∀ v, x = Some v → read_values a [f v] = Ok (set a (Some v))) → set a None = a →
  read_values a (match x with Some v => [f v] | None => [] end ++ rs) = read_values (set a x) rs.
Proof.
  intros Hs Hn. rewrite read_values_app. destruct x as [v|]; [by rewrite Hs|by rewrite Hn].
Qed.

Lemma read_list_piece {A} (x : list A) a set (f : A → list A → RawAttribute.t) rs :
  (∀ v l, x = v :: l → read_values a [f v l] = Ok (set a x)) → set a [] = a →
  read_values a (match x with v :: l => [f v l] | [] => [] end ++ rs) = read_values (set a x) rs.
Proof.
  intros Hs Hn. rewrite read_values_app.
  destruct x as [|v l]; [by rewrite Hn|by rewrite (Hs v l)].
Qed.

Lemma read_as_path a f segs :
  Forall (λ seg, length (AsPathSegment.as_numbers seg) ≤ 255 ∧
                 Forall u32 (AsPathSegment.as_numbers seg)) segs →
  read_values a [RawAttribute.mk f 2 (concat (map segment_bytes segs))] =
    Ok (Attrs.set_as_path a (a.(as_path) ++ segs)).
Proof.
  intros Hs. cbn [read_values RawAttribute.type_code RawAttribute.value Attrs.parse_value].
  by rewrite segment_loop_read by (done || lia).
Qed.

Lemma read_communities a f cs :
  Forall u32 cs →
  read_values a [RawAttribute.mk f 8 (concat (map (be_bytes 4) cs))] =
    Ok (Attrs.set_communities a (a.(communities) ++ cs)).
Proof.
  intros Hs. cbn [read_values RawAttribute.type_code RawAttribute.value Attrs.parse_value].
  by rewrite u32_loop_read by (done || (rewrite length_u32s; lia)).
Qed.

Lemma read_cluster_list a f ips :
  Forall u32 ips →
  read_values a [RawAttribute.mk f 10 (concat (map (be_bytes 4) ips))] =
    Ok (Attrs.set_cluster_list a (a.(cluster_list) ++ ips)).
Proof.
  intros Hs. cbn [read_values RawAttribute.type_code RawAttribute.value Attrs.parse_value].
  by rewrite u32_loop_read by (done || (rewrite length_u32s; lia)).
Qed.

Lemma read_aggregator a f asn ip :
  u16 asn → u32 ip →
  read_values a [RawAttribute.mk f 7 (be_bytes 2 asn ++ be_bytes 4 ip)] =
    Ok (Attrs.set_aggregator a (Some (asn, ip))).
Proof.
  intros Ha Hi. cbn [read_values RawAttribute.type_code RawAttribute.value Attrs.parse_value].
  rewrite decide_False by (rewrite length_app, !length_be_bytes; lia).
  by do 2 read_step.
Qed.

(** Evaluates the reading of one known record. *)
Ltac read_known :=
  intros; cbn [read_values RawAttribute.type_code RawAttribute.value Attrs.parse_value];
  first [rewrite u32_value_read by eauto; done | done].

Lemma attr_list_read a : attrs_wf a → read_values Attrs.default (attr_list a) = Ok a.
Proof.
  destruct a as [o p nh med lp aa ag cs oi cl un].
  intros (Hp&_&Hnh&Hmed&Hlp&Hag&[Hc _]&Hoi&[Hcl _]&Hun). cbn in *.
  unfold attr_list. cbn -[read_values sent_flags map concat].
  rewrite (read_option_piece o _ Attrs.set_origin) by (done || intros v _; by destruct v).
  rewrite (read_list_piece p _ Attrs.set_as_path); [| |done].
  2: { intros v l ->. exact (read_as_path (Attrs.set_origin _ _) FLAG_TRANSITIVE (v :: l) Hp). }
  rewrite (read_option_piece nh _ Attrs.set_next_hop) by read_known.
  rewrite (read_option_piece med _ Attrs.set_multi_exit_disc) by read_known.
  rewrite (read_option_piece lp _ Attrs.set_local_pref) by read_known.
  set (a5 := Attrs.set_local_pref _ _). rewrite read_values_app.
  replace (read_values a5 (if aa then _ else _)) with
    (Ok (E:=AttrError.t) (Attrs.set_atomic_aggregate a5 aa)) by (by destruct aa).
  cbn [mbind outcome_bind]. rewrite read_values_app.
  replace (read_values _ (match ag with _ => _ end)) with
    (Ok (E:=AttrError.t) (Attrs.set_aggregator (Attrs.set_atomic_aggregate a5 aa) ag)).
  2: { destruct ag as [[asn ip]|]; [|done]. destruct (Hag asn ip eq_refl).
       symmetry. by apply read_aggregator. }
  cbn [mbind outcome_bind].
  rewrite (read_list_piece cs _ Attrs.set_communities); [| |done].
  2: { intros v l ->. exact (read_communities (Attrs.set_aggregator _ _) _ (v :: l) Hc). }
  rewrite (read_option_piece oi _ Attrs.set_originator_id) by read_known.
  rewrite (read_list_piece cl _ Attrs.set_cluster_list); [| |done].
  2: { intros v l ->. exact (read_cluster_list (Attrs.set_originator_id _ _) _ (v :: l) Hcl). }
  rewrite read_values_unknown; [done|]. eapply Forall_impl; [done|]. by intros r [_ ?].
Qed.

Lemma attrs_parse_serialize a : attrs_wf a → Attrs.parse (Attrs.serialize a) = Ok a.
Proof.
  intros Hwf. unfold Attrs.parse. rewrite attrs_serialize_eq.
  rewrite attr_loop_records; [by apply attr_list_read|by apply attr_list_fits|lia].
Qed.
End attr_roundtrip_lemmas.

(* ------------------------------------------------------------------ *)
(** ** What the parser returns fits the wire again *)

Definition segment_ok (seg : AsPathSegment.t) : Prop :=
  length (AsPathSegment.as_numbers seg) ≤ 255 ∧ Forall u32 (AsPathSegment.as_numbers seg).

(** The shape of an unknown attribute the parser stores. *)
Definition unknown_ok (n : nat) (r : RawAttribute.t) : Prop :=
  u8 r.(RawAttribute.flags) ∧ u8 r.(RawAttribute.type_code) ∧ Forall u8 r.(RawAttribute.value) ∧
  (r.(RawAttribute.type_code) < 1 ∨ 10 < r.(RawAttribute.type_code))%Z ∧
  length r.(RawAttribute.value) ≤ n ∧
  (255 < length r.(RawAttribute.value) → Z.land r.(RawAttribute.flags) FLAG_EXTENDED_LEN ≠ 0%Z).

(** The type of parsed attributes: every field has its width, and the lists are
    no longer than the [n] bytes they were read from. *)
Definition attrs_ok (n : nat) (a : PathAttributes) : Prop :=
  Forall segment_ok a.(as_path) ∧ length (concat (map segment_bytes a.(as_path))) ≤ n ∧
  (∀ v, a.(next_hop) = Some v → u32 v) ∧
  (∀ v, a.(multi_exit_disc) = Some v → u32 v) ∧
  (∀ v, a.(local_pref) = Some v → u32 v) ∧
  (∀ asn ip, a.(aggregator) = Some (asn, ip) → u16 asn ∧ u32 ip) ∧
  (Forall u32 a.(communities) ∧ length a.(communities) * 4 ≤ n) ∧
  (∀ v, a.(originator_id) = Some v → u32 v) ∧
  (Forall u32 a.(cluster_list) ∧ length a.(cluster_list) * 4 ≤ n) ∧
  Forall (unknown_ok n) a.(unknown).

Section attr_type_lemmas.
Context {api : BytesApi} {laws : BytesLaws api}.

Lemma attrs_ok_mono n m a : n ≤ m → attrs_ok n a → attrs_ok m a.
Proof.
  intros Hnm (?&?&?&?&?&?&[??]&?&[??]&Hun).
  repeat (split; [by auto || lia || (split; [done|lia])|]).
  eapply Forall_impl; [done|]. intros r (?&?&?&?&?&?). split_and!; auto; lia.
Qed.

Lemma segment_loop_ok n m p v p' :
  loop m Attrs.parse_segment_step (p, v) = Ok p' →
  Forall segment_ok p → length (concat (map segment_bytes p)) ≤ n → Forall u8 v →
  Forall segment_ok p' ∧ length (concat (map segment_bytes p')) ≤ n + length v.
Proof.
  intros Hl Hp Hn Hv.
  eapply (loop_invariant (λ s, Forall segment_ok s.1 ∧ Forall u8 s.2 ∧
    length (concat (map segment_bytes s.1)) + length s.2 ≤ n + length v)
    (λ r, Forall segment_ok r ∧ length (concat (map segment_bytes r)) ≤ n + length v));
    [| | |exact Hl].
  - intros [q b] [q' b'] (Hq&Hb&Hle) (seg&->&Hlen&Hs)%segment_step_inl.
    destruct (Hs Hb) as (H255&Hu&Hb'). cbn [fst snd] in *. split_and!; [|done|].
    + apply Forall_app. split; [done|]. by apply Forall_singleton.
    + rewrite map_app, concat_app, length_app. cbn [map concat].
      rewrite length_app, length_segment_bytes. simpl. lia.
  - intros [q b] r (Hq&Hb&Hle). unfold Attrs.parse_segment_step. case_decide.
    + intros Hs. inv_bind. case_match; [done|]. inv_bind. repeat case_match; simplify_eq/=.
    + intros [= <-]. simpl in *. split; [done|lia].
  - split_and!; [done|done|simpl; lia].
Qed.

Lemma u32_loop_ok n m l v l' :
  loop m Attrs.parse_u32_step (l, v) = Ok l' →
  Forall u32 l → length l * 4 ≤ n → Forall u8 v →
  Forall u32 l' ∧ length l' * 4 ≤ n + length v.
Proof.
  intros Hl Hp Hn Hv.
  eapply (loop_invariant (λ s, Forall u32 s.1 ∧ Forall u8 s.2 ∧
    length s.1 * 4 + length s.2 ≤ n + length v)
    (λ r, Forall u32 r ∧ length r * 4 ≤ n + length v)); [| | |exact Hl].
  - intros [q b] [q' b'] (Hq&Hb&Hle) (x&->&Hlen&Hs)%u32_step_inl.
    destruct (Hs Hb) as (Hx&Hb'). cbn [fst snd] in *. split_and!; [|done|].
    + apply Forall_app. split; [done|]. by apply Forall_singleton.
    + rewrite length_app. simpl. lia.
  - intros [q b] r (Hq&Hb&Hle). unfold Attrs.parse_u32_step. case_decide.
    + intros Hs. by inv_bind.
    + intros [= <-]. simpl in *. split; [done|lia].
  - split_and!; [done|done|simpl; lia].
Qed.

Lemma u32_value_ok v x : Attrs.parse_u32_value v = Ok x → Forall u8 v → u32 x.
Proof.
  unfold Attrs.parse_u32_value. case_decide; [done|].
  rewrite get_u32_spec, take_or_panic_long by lia. intros [= <-] Hv.
  apply (of_be_uint 4); [by apply Forall_take|rewrite length_take; lia].
Qed.

Lemma parse_value_ok n a f ty v a' :
  Attrs.parse_value a f ty v = Ok a' → attrs_ok n a → Forall u8 v → u8 f → u8 ty →
  (Z.land f FLAG_EXTENDED_LEN = 0%Z → length v ≤ 255) →
  attrs_ok (n + length v) a'.
Proof.
  intros Hpv Ha Hv Hf Hty Hext.
  pose proof (attrs_ok_mono n (n + length v) a ltac:(lia) Ha) as Ham.
  destruct Ha as (Hp&Hpn&_&_&_&_&[Hc Hcn]&_&[Hcl Hcln]&_).
  destruct Ham as (Hp'&Hpn'&Hnh&Hmed&Hlp&Hag&[Hc' Hcs]&Hoi&[Hcl' Hcls]&Hun).
  assert (Hset : ∀ x, Attrs.parse_u32_value v = Ok x → ∀ y, Some x = Some y → u32 y).
  { intros x Hx y [= <-]. by eapply u32_value_ok. }
  destruct (decide (1 ≤ ty ≤ 10)%Z) as [Hk|Hk].
  - assert (ty = 1 ∨ ty = 2 ∨ ty = 3 ∨ ty = 4 ∨ ty = 5 ∨ ty = 6 ∨ ty = 7 ∨ ty = 8 ∨ ty = 9 ∨ ty = 10)%Z
      as Hcases by lia.
    destruct Hcases as [->|[->|[->|[->|[->|[->|[->|[->|[->| ->]]]]]]]]];
      cbn [Attrs.parse_value] in Hpv; try (case_decide; [done|]).
    + inv_bind. unfold attrs_ok; by split_and!.
    + apply bind_Ok_inv in Hpv as (p'&Hl&[= <-]).
      destruct (segment_loop_ok n _ _ _ _ Hl) as [??]; [done..|]. unfold attrs_ok; by split_and!.
    + apply bind_Ok_inv in Hpv as (x&Hx&[= <-]). unfold attrs_ok; by split_and!; eauto.
    + apply bind_Ok_inv in Hpv as (x&Hx&[= <-]). unfold attrs_ok; by split_and!; eauto.
    + apply bind_Ok_inv in Hpv as (x&Hx&[= <-]). unfold attrs_ok; by split_and!; eauto.
    + injection Hpv as <-. unfold attrs_ok; by split_and!.
    + apply bind_Ok_inv in Hpv as ([asn b]&(?&->&->)%get_u16_Ok&Hpv).
      apply bind_Ok_inv in Hpv as ([ip b]&(?&->&->)%get_u32_Ok&[= <-]).
      rewrite length_drop in *.
      unfold attrs_ok; split_and!; try done. intros ? ? [= <- <-]. split.
      * apply (of_be_uint 2); [by apply Forall_take|rewrite length_take; lia].
      * apply (of_be_uint 4); [by apply Forall_take, Forall_drop|rewrite length_take, length_drop; lia].
    + apply bind_Ok_inv in Hpv as (p'&Hl&[= <-]).
      destruct (u32_loop_ok n _ _ _ _ Hl) as [??]; [done..|]. unfold attrs_ok; by split_and!.
    + apply bind_Ok_inv in Hpv as (x&Hx&[= <-]). unfold attrs_ok; by split_and!; eauto.
    + apply bind_Ok_inv in Hpv as (p'&Hl&[= <-]).
      destruct (u32_loop_ok n _ _ _ _ Hl) as [??]; [done..|]. unfold attrs_ok; by split_and!.
  - assert (a' = Attrs.set_unknown a (a.(unknown) ++ [RawAttribute.mk f ty v])) as ->.
    { unfold Attrs.parse_value in Hpv. repeat (case_match; try lia); congruence. }
    unfold attrs_ok; split_and!; try done. apply Forall_app. split; [done|].
    apply Forall_singleton. unfold unknown_ok. simpl. split_and!; try done; [lia|lia|].
    intros H255 H0. specialize (Hext H0). lia.
Qed.

Lemma attrs_parse_ok buf a :
  Attrs.parse buf = Ok a → Forall u8 buf → attrs_ok (length buf) a.
Proof.
  intros Hp Hbuf.
  eapply (loop_invariant (λ s, attrs_ok (length buf - length s.2) s.1 ∧ Forall u8 s.2 ∧
    length s.2 ≤ length buf) (attrs_ok (length buf))); [| | |exact Hp].
  - intros [a1 b] [a2 b'] (Ha&Hb&Hle) (f&ty&v&Hv&Hlen&Hext&Hu)%attr_step_inl.
    destruct (Hu Hb) as (?&?&?&?). cbn [fst snd] in *. split_and!; [|done|lia].
    eapply attrs_ok_mono; [|eapply parse_value_ok; eauto]. lia.
  - intros [a1 b] r (Ha&Hb&Hle). unfold Attrs.parse_attr_step. case_decide.
    + intros Hs. inv_bind. repeat case_match; simplify_eq/=; by inv_bind.
    + intros [= <-]. eapply attrs_ok_mono; [|done]. lia.
  - cbn [fst snd]. split_and!; [|done|lia]. unfold attrs_ok. split_and!; try done; simpl; lia.
Qed.

Lemma lor_extended f : u8 f → Z.land f FLAG_EXTENDED_LEN ≠ 0%Z → Z.lor f FLAG_EXTENDED_LEN = f.
Proof.
  intros Hf Hne. unfold FLAG_EXTENDED_LEN in *. change 16%Z with (2 ^ 4)%Z in *.
  assert (Hbit : Z.testbit f 4 = true).
  { destruct (Z.testbit f 4) eqn:Hb; [done|]. exfalso. apply Hne. apply Z.bits_inj'. intros i Hi.
    rewrite Z.land_spec, Z.bits_0, Z.pow2_bits_eqb by lia.
    destruct (Z.eqb_spec 4 i) as [<-|]; [by rewrite Hb|apply andb_false_r]. }
  apply Z.bits_inj'. intros i Hi. rewrite Z.lor_spec, Z.pow2_bits_eqb by lia.
  destruct (Z.eqb_spec 4 i) as [<-|]; [by rewrite Hbit|apply orb_false_r].
Qed.

(** Parsed attributes are well formed, unless an unknown attribute came with the
    extended-length bit on a short value. *)
Lemma attrs_ok_wf n a :
  (Z.of_nat n ≤ 65535)%Z → attrs_ok n a →
  Forall (λ r, length r.(RawAttribute.value) ≤ 255 →
               Z.land r.(RawAttribute.flags) FLAG_EXTENDED_LEN = 0%Z) a.(unknown) →
  attrs_wf a.
Proof.
  intros Hn (?&?&?&?&?&?&[??]&?&[??]&Hun) Hext. unfold attrs_wf.
  split_and!; try done; try lia.
  apply Forall_forall. intros r Hr. rewrite Forall_forall in Hun, Hext.
  destruct (Hun r Hr) as (Hf&_&_&Hty&Hlen&Hlong). specialize (Hext r Hr).
  split_and!; [split; [lia|done]| |done].
  unfold sent_flags. case_decide; [|done]. by apply lor_extended; auto.
Qed.
End attr_type_lemmas.

(* ------------------------------------------------------------------ *)
(** ** Properties *)

(** [PathAttributes::parse] neither panics nor loops, on any bytes. *)
Theorem attr_parse_total {api : BytesApi} {laws : BytesLaws api} buf :
  (∃ a, Attrs.parse buf = Ok a) ∨ (∃ e, Attrs.parse buf = Err e).
Proof. apply returns_cases, attrs_parse_returns. Qed.

(** C10: attributes whose fields fit their encoding are parsed back unchanged
    from what [serialize] writes. *)
Theorem attr_roundtrip {api : BytesApi} {laws : BytesLaws api} a :
  attrs_wf a → Attrs.parse (Attrs.serialize a) = Ok a.
Proof. apply attrs_parse_serialize. Qed.

(** C40: what the parser returns for the attributes of an UPDATE (at most 65535
    bytes) can be advertised again: it serialises to bytes that parse to the same
    attributes, provided no unknown attribute carries the extended-length bit on
    a value of at most 255 bytes. *)
Theorem attr_reparse {api : BytesApi} {laws : BytesLaws api} buf a :
  Forall u8 buf → (Z.of_nat (length buf) ≤ 65535)%Z → Attrs.parse buf = Ok a →
  Forall (λ r, length r.(RawAttribute.value) ≤ 255 →
               Z.land r.(RawAttribute.flags) FLAG_EXTENDED_LEN = 0%Z) a.(unknown) →
  Attrs.parse (Attrs.serialize a) = Ok a.
Proof.
  intros Hb Hn Hp Hext. apply attrs_parse_serialize.
  eapply attrs_ok_wf; [exact Hn|by apply attrs_parse_ok|done].
Qed.

(** An unknown attribute received with the extended-length bit on a value of
    at most 255 bytes is stored as received, but passed on with a one-byte length
    under the same flags: the next speaker finds it truncated. *)
Theorem unknown_extended_corrupted {api : BytesApi} {laws : BytesLaws api} f ty v :
  u8 f → u8 ty → Forall u8 v → (ty < 1 ∨ 10 < ty)%Z →
  Z.land f FLAG_EXTENDED_LEN ≠ 0%Z → length v ≤ 255 →
  ∃ a, Attrs.parse ([f; ty] ++ be_bytes 2 (Z.of_nat (length v)) ++ v) = Ok a ∧
       a.(unknown) = [RawAttribute.mk f ty v] ∧
       Attrs.parse (Attrs.serialize a) = Err AttrError.TooShort.
Proof.
  intros Hf Hty Hv Hk Hext Hlen.
  exists (Attrs.set_unknown Attrs.default [RawAttribute.mk f ty v]). split_and!; [|done|].
  - unfold Attrs.parse. rewrite loop_unfold. unfold Attrs.parse_attr_step at 2.
    rewrite decide_True by (rewrite !length_app, length_be_bytes; simpl; lia).
    cbn [app]. do 2 read_step. rewrite decide_True by done.
    rewrite decide_False by (rewrite length_app, length_be_bytes; lia).
    rewrite get_u16_app by (split; lia). cbn [mbind outcome_bind]. rewrite Nat2Z.id. cbv zeta.
    rewrite decide_False by lia. read_step.
    assert (Attrs.parse_value Attrs.default f ty v =
      Ok (Attrs.set_unknown Attrs.default [RawAttribute.mk f ty v])) as ->
      by (unfold Attrs.parse_value; repeat (case_match; try done; try lia)).
    done.
  - rewrite attrs_serialize_eq. cbn [attr_list Attrs.set_unknown Attrs.default origin as_path
      next_hop multi_exit_disc local_pref atomic_aggregate aggregator communities originator_id
      cluster_list unknown app map concat attr_bytes].
    rewrite decide_False by lia. rewrite app_nil_r. unfold Attrs.parse. rewrite loop_unfold.
    unfold Attrs.parse_attr_step at 2.
    rewrite decide_True by (simpl; lia). cbn [app]. do 2 read_step. rewrite decide_True by done.
    destruct v as [|x v]; cbn [app length] in *; [done|].
    rewrite decide_False by lia. rewrite get_u16_cons. cbn [mbind outcome_bind]. cbv zeta.
    rewrite wrap_small by (split; lia). inv Hv as [|? ? Hx _]. destruct Hx as [Hx _].
    by rewrite decide_True by lia.
Qed.

(** The attributes are empty, which is how End-of-RIB is recognised, exactly
    when nothing would be written for them. *)
Theorem is_empty_spec {api : BytesApi} {laws : BytesLaws api} a :
  (Attrs.is_empty a = true ↔ a = Attrs.default) ∧
  (Attrs.is_empty a = true ↔ Attrs.serialize a = []).
Proof.
  assert (H1 : Attrs.is_empty a = true ↔ a = Attrs.default).
  { unfold Attrs.is_empty. rewrite !andb_true_iff, !bool_decide_eq_true, negb_true_iff.
    split; [|by intros ->]. destruct a; simpl. by intros [[[[[[[[[[-> ->]->]->]->]->]->]->]->]->]->]. }
  split; [done|]. rewrite H1, attrs_serialize_eq. split; [by intros ->|].
  assert (Hcons : ∀ r rs, concat (map attr_bytes (r :: rs)) ≠ []).
  { intros r rs Hc. pose proof (attr_bytes_nonempty r) as Hr. cbn [map concat] in Hc.
    apply app_nil in Hc as [Hc _]. rewrite Hc in Hr. simpl in Hr. lia. }
  intros Hnil. destruct (attr_list a) as [|r rs] eqn:Hl; [|by destruct (Hcons r rs)].
  unfold attr_list in Hl. destruct a as [o p nh med lp aa ag cs oi cl un]. simpl in Hl.
  repeat (apply app_nil in Hl as [? Hl]).
  destruct o, p, nh, med, lp, aa, ag as [[]|], cs, oi, cl, un; try discriminate; done.
Qed.

Definition sample_attrs : PathAttributes :=
  {| origin := Some Origin.Egp;
     as_path := [AsPathSegment.AsSequence [65000; 65001]; AsPathSegment.AsSet [65002; 65003]]%Z;
     next_hop := Some 167772161%Z; multi_exit_disc := Some 50%Z; local_pref := Some 100%Z;
     atomic_aggregate := true; aggregator := Some (65000, 16843009)%Z;
     communities := [Community.NO_EXPORT; 65536002%Z]; originator_id := Some 1%Z;
     cluster_list := [1; 2]%Z; unknown := [RawAttribute.mk 0xC0 99 [1; 2; 3]%Z] |}.

Lemma sample_attrs_wf : attrs_wf sample_attrs.
Proof.
  unfold attrs_wf. simpl. split_and!; try (intros; simplify_eq); try by_decide.
Qed.

Lemma attr_parse_total_witness :
  (∃ a, Attrs.parse (api:=list_bytes_api) [0x40; 1; 1; 9; 0x40; 2]%Z = Ok a) ∨
  (∃ e, Attrs.parse (api:=list_bytes_api) [0x40; 1; 1; 9; 0x40; 2]%Z = Err e).
Proof. apply attr_parse_total. Defined.

Lemma attr_roundtrip_witness :
  Attrs.parse (api:=list_bytes_api) (Attrs.serialize (api:=list_bytes_api) sample_attrs)
    = Ok sample_attrs.
Proof. apply attr_roundtrip, sample_attrs_wf. Defined.

Lemma attr_reparse_witness :
  let buf := [0x40; 1; 1; 0; 0x40; 3; 4; 10; 0; 0; 1; 0xC0; 99; 1; 7]%Z in
  let a := Attrs.set_unknown (Attrs.set_next_hop (Attrs.set_origin Attrs.default
             (Some Origin.Igp)) (Some 167772161%Z)) [RawAttribute.mk 0xC0 99 [7%Z]] in
  Attrs.parse (api:=list_bytes_api) (Attrs.serialize (api:=list_bytes_api) a) = Ok a.
Proof.
  intros buf a. apply (attr_reparse buf); [by_decide|by_decide|reflexivity|].
  apply Forall_singleton. done.
Defined.

Lemma unknown_extended_corrupted_witness :
  ∃ a, Attrs.parse (api:=list_bytes_api) [0xD0; 99; 0; 3; 1; 2; 3]%Z = Ok a ∧
       a.(unknown) = [RawAttribute.mk 0xD0 99 [1; 2; 3]%Z] ∧
       Attrs.parse (api:=list_bytes_api) (Attrs.serialize (api:=list_bytes_api) a)
         = Err AttrError.TooShort.
Proof.
  apply (unknown_extended_corrupted 0xD0 99 [1; 2; 3]%Z); [by_decide..|lia|done|simpl; lia].
Defined.

Lemma is_empty_spec_witness :
  (Attrs.is_empty sample_attrs = true ↔ sample_attrs = Attrs.default) ∧
  (Attrs.is_empty sample_attrs = true ↔ Attrs.serialize (api:=list_bytes_api) sample_attrs = []).
Proof. apply is_empty_spec. Defined.
