(* ===== verification/UpdateMessage.v ===== *)
(** * The UPDATE message ([src/message/update.rs])

    Prefixes, the three-part body and its parser.  Serialising a prefix slices
    the four address octets, so it can panic: [serialize] is an [outcome]. *)

From S2P Require Import Prelude.
From S2P Require Import Bytes.
From S2P Require Import Message.
From S2P Require Import Attr.

Record Prefix := { prefix_len : Z; address : Ipv4Addr }.

#[export] Instance Prefix_eq_dec : EqDecision Prefix.
Proof. solve_decision. Defined.

Record UpdateMessage := {
  withdrawn_routes : list Prefix;
  path_attributes : PathAttributes;
  nlri : list Prefix
}.

Module Prefixes.
(** [Prefix::new] *)
Definition new (address : Ipv4Addr) (prefix_len : Z) : Prefix :=
  {| prefix_len := prefix_len; address := address |}.

Definition encoded_len (p : Prefix) : nat := div_ceil8 p.(prefix_len).

Section api.
Context {api : BytesApi}.

(** [addr_bytes.iter_mut().take(n).for_each(|b| *b = buf.get_u8())] *)
Fixpoint read_octets {E} (n : nat) (buf : bytes) : outcome E (bytes * bytes) :=
  match n with
  | O => Ok ([], buf)
  | S n =>
      '(b, buf) ← get_u8 buf;
      '(bs, buf) ← read_octets n buf;
      Ok (b :: bs, buf)
  end.

Definition parse (buf : bytes) : outcome MessageError.t (Prefix * bytes) :=
  if decide (length buf < 1) then Err (MessageError.TooShort 1 0)
  else
    '(prefix_len, buf) ← get_u8 buf;
    let byte_len := div_ceil8 prefix_len in
    if decide (length buf < byte_len) then Err (MessageError.TooShort byte_len (length buf))
    else
      '(octets, buf) ← read_octets (min byte_len 4) buf;
      let addr_bytes := octets ++ replicate (4 - length octets) 0%Z in
      Ok ({| prefix_len := prefix_len; address := of_be addr_bytes |}, buf).

Definition serialize {E} (self : Prefix) (buf : bytes) : outcome E bytes :=
  let buf := put_u8 buf self.(prefix_len) in
  let bytes := be_bytes 4 self.(address) in
  octets ← slice bytes 0 (encoded_len self);
  Ok (put_slice buf octets).

(** [while buf.remaining() > 0 { prefixes.push(Prefix::parse(&mut buf)?) }] *)
Definition parse_all (buf : bytes) : outcome MessageError.t (list Prefix) :=
  parse_many parse buf.

(** [for prefix in prefixes { prefix.serialize(&mut buf) }] *)
Fixpoint serialize_all {E} (ps : list Prefix) (buf : bytes) : outcome E bytes :=
  match ps with
  | [] => Ok buf
  | p :: ps => buf ← serialize p buf; serialize_all ps buf
  end.
End api.

(** [{address}/{prefix_len}] is written only by the command line; an octet of an
    address is a byte of its big-endian form. *)
Definition show_addr (a : Ipv4Addr) : string :=
  match be_bytes 4 a with
  | [b0; b1; b2; b3] =>
      show_uint b0 +:+ "." +:+ show_uint b1 +:+ "." +:+ show_uint b2 +:+ "." +:+ show_uint b3
  | _ => ""
  end.

Definition to_string (p : Prefix) : string :=
  show_addr p.(address) +:+ "/" +:+ show_uint p.(prefix_len).

(** A prefix as the wire carries it: at most 32 bits long, and no bits in the
    octets that are not sent. *)
Definition wf (p : Prefix) : Prop :=
  (0 ≤ p.(prefix_len) ≤ 32)%Z ∧ u32 p.(address) ∧
  drop (encoded_len p) (be_bytes 4 p.(address)) = replicate (4 - encoded_len p) 0%Z.
End Prefixes.

Module Update.
Definition new : UpdateMessage :=
  {| withdrawn_routes := []; path_attributes := Attrs.default; nlri := [] |}.

Section api.
Context {api : BytesApi}.

Definition parse (body : bytes) : outcome MessageError.t UpdateMessage :=
  if decide (length body < 4) then Err (MessageError.TooShort 4 (length body))
  else
    '(withdrawn_len, body) ← get_u16 body;
    let withdrawn_len := Z.to_nat withdrawn_len in
    if decide (length body < withdrawn_len) then
      Err (MessageError.TooShort withdrawn_len (length body))
    else
      '(withdrawn_buf, body) ← copy_to_bytes withdrawn_len body;
      withdrawn_routes ← Prefixes.parse_all withdrawn_buf;
      '(attr_len, body) ← get_u16 body;
      let attr_len := Z.to_nat attr_len in
      if decide (length body < attr_len) then
        Err (MessageError.TooShort attr_len (length body))
      else
        '(attr_bytes, body) ← copy_to_bytes attr_len body;
        path_attributes ←
          map_err (λ e, MessageError.Parse (AttrError.to_string e)) (Attrs.parse attr_bytes);
        nlri ← Prefixes.parse_all body;
        Ok {| withdrawn_routes := withdrawn_routes; path_attributes := path_attributes;
              nlri := nlri |}.

Definition serialize {E} (self : UpdateMessage) : outcome E bytes :=
  withdrawn_buf ← Prefixes.serialize_all self.(withdrawn_routes) [];
  let attr_buf := Attrs.serialize self.(path_attributes) in
  nlri_buf ← Prefixes.serialize_all self.(nlri) [];
  let body_len := 2 + length withdrawn_buf + 2 + length attr_buf + length nlri_buf in
  let hdr := Header.new MessageType.Update body_len in
  let out := Header.serialize hdr [] in
  let out := put_u16 out (wrap 16 (Z.of_nat (length withdrawn_buf))) in
  let out := put out withdrawn_buf in
  let out := put_u16 out (wrap 16 (Z.of_nat (length attr_buf))) in
  let out := put out attr_buf in
  Ok (put out nlri_buf).
End api.
End Update.

(** The wire form of a prefix the parser accepts in full. *)
Definition prefix_bytes (p : Prefix) : bytes :=
  p.(prefix_len) :: take (Prefixes.encoded_len p) (be_bytes 4 p.(address)).

(** The parts of an UPDATE are well formed and the message fits in 4096 bytes. *)
Definition update_wf {api : BytesApi} (u : UpdateMessage) : Prop :=
  Forall Prefixes.wf u.(withdrawn_routes) ∧ attrs_wf u.(path_attributes) ∧
  Forall Prefixes.wf u.(nlri) ∧
  (Z.of_nat (23 + length (concat (map prefix_bytes u.(withdrawn_routes))) +
    length (Attrs.serialize u.(path_attributes)) +
    length (concat (map prefix_bytes u.(nlri)))) ≤ MAX_MESSAGE_LEN)%Z.

(* ------------------------------------------------------------------ *)
(** ** Lemmas *)

Section update_lemmas.
Context {api : BytesApi} {laws : BytesLaws api}.

Lemma read_octets_spec {E} n buf :
  n ≤ length buf → Prefixes.read_octets (E:=E) n buf = Ok (take n buf, drop n buf).
Proof.
  revert buf; induction n as [|n IH]; intros buf Hn; simpl; [by rewrite take_0, drop_0|].
  destruct buf as [|b buf]; simpl in *; [lia|]. read_step. by rewrite IH by lia.
Qed.

Lemma prefix_parse_cons l buf :
  Prefixes.parse (l :: buf) =
    if decide (length buf < div_ceil8 l)
    then Err (MessageError.TooShort (div_ceil8 l) (length buf))
    else
      let n := min (div_ceil8 l) 4 in
      Ok (Prefixes.new (of_be (take n buf ++ replicate (4 - n) 0%Z)) l, drop n buf).
Proof.
  unfold Prefixes.parse. rewrite decide_False by (simpl; lia). read_step. cbv zeta.
  case_decide; [done|]. rewrite read_octets_spec by lia. cbn [mbind outcome_bind].
  rewrite length_take_le by lia. done.
Qed.

Lemma prefix_parse_nil : Prefixes.parse [] = Err (MessageError.TooShort 1 0).
Proof. done. Qed.

Lemma prefix_parse_returns buf : returns (Prefixes.parse buf).
Proof. destruct buf; [done|]. rewrite prefix_parse_cons. by case_decide. Qed.

Lemma prefix_parse_shorter buf p rest :
  Prefixes.parse buf = Ok (p, rest) → length rest < length buf ∧ (Forall u8 buf → Forall u8 rest).
Proof.
  destruct buf; [done|]. rewrite prefix_parse_cons. case_decide; [done|]. intros [= <- <-].
  rewrite length_drop. simpl. split; [lia|]. intros Hb. inv Hb. by apply Forall_drop.
Qed.

Lemma parse_all_returns buf : returns (Prefixes.parse_all buf).
Proof.
  apply parse_many_returns; [apply prefix_parse_returns|].
  intros b p rest Hp. by apply prefix_parse_shorter in Hp as [? _].
Qed.

(** The octets that are sent are put back in place. *)
Lemma prefix_octets p :
  Prefixes.wf p →
  of_be (take (Prefixes.encoded_len p) (be_bytes 4 p.(address)) ++
         replicate (4 - Prefixes.encoded_len p) 0%Z) = p.(address).
Proof.
  intros (_&Ha&Hd). rewrite <- Hd, take_drop. by apply (of_be_be_bytes 4).
Qed.

Lemma encoded_len_le p : Prefixes.wf p → Prefixes.encoded_len p ≤ 4.
Proof. intros [[_ Hl] _]. by apply div_ceil8_le. Qed.

Lemma prefix_serialize_eq {E} p buf :
  Prefixes.wf p → Prefixes.serialize (E:=E) p buf = Ok (buf ++ prefix_bytes p).
Proof.
  intros Hwf%encoded_len_le. unfold Prefixes.serialize, prefix_bytes.
  rewrite slice_Ok by (rewrite ?length_be_bytes; lia). cbn [mbind outcome_bind].
  rewrite drop_0, Nat.sub_0_r. autorewrite with bytes. by rewrite <- app_assoc.
Qed.

Lemma serialize_all_eq {E} ps buf :
  Forall Prefixes.wf ps →
  Prefixes.serialize_all (E:=E) ps buf = Ok (buf ++ concat (map prefix_bytes ps)).
Proof.
  intros Hps. revert buf. induction Hps as [|p ps Hp _ IH]; intros buf;
    cbn [Prefixes.serialize_all map concat]; [by rewrite app_nil_r|].
  rewrite prefix_serialize_eq by done. cbn [mbind outcome_bind]. by rewrite IH, <- app_assoc.
Qed.

Lemma prefix_parse_bytes p rest :
  Prefixes.wf p → Prefixes.parse (prefix_bytes p ++ rest) = Ok (p, rest).
Proof.
  intros Hwf. pose proof (encoded_len_le p Hwf) as Hle. unfold prefix_bytes. cbn [app].
  rewrite prefix_parse_cons. fold (Prefixes.encoded_len p).
  assert (Hl : length (take (Prefixes.encoded_len p) (be_bytes 4 (address p))) = Prefixes.encoded_len p)
    by (rewrite length_take, length_be_bytes; lia).
  rewrite decide_False by (rewrite length_app; lia). cbv zeta. rewrite Nat.min_l by done.
  rewrite take_app_length', drop_app_length' by done. rewrite prefix_octets by done. by destruct p.
Qed.

Lemma parse_all_bytes ps :
  Forall Prefixes.wf ps → Prefixes.parse_all (concat (map prefix_bytes ps)) = Ok ps.
Proof.
  apply parse_many_concat; [by apply prefix_parse_bytes|]. intros p. simpl. lia.
Qed.

(** The parse of a body, by its byte offsets. *)
Lemma update_parse_eq body :
  Update.parse body =
    if decide (length body < 4) then Err (MessageError.TooShort 4 (length body))
    else
      let w := Z.to_nat (of_be (take 2 body)) in
      if decide (length body - 2 < w) then Err (MessageError.TooShort w (length body - 2))
      else
        withdrawn ← Prefixes.parse_all (take w (drop 2 body));
        '(attr_len, rest) ← get_u16 (drop (2 + w) body);
        let attr_len := Z.to_nat attr_len in
        if decide (length rest < attr_len) then Err (MessageError.TooShort attr_len (length rest))
        else
          attrs ← map_err (λ e, MessageError.Parse (AttrError.to_string e))
                    (Attrs.parse (take attr_len rest));
          nlri ← Prefixes.parse_all (drop attr_len rest);
          Ok {| withdrawn_routes := withdrawn; path_attributes := attrs; nlri := nlri |}.
Proof.
  unfold Update.parse. case_decide; [done|].
  rewrite get_u16_spec, take_or_panic_long by lia. cbn [mbind outcome_bind]. cbv zeta.
  rewrite length_drop. case_decide; [done|].
  rewrite copy_to_bytes_long by (rewrite length_drop; lia). cbn [mbind outcome_bind].
  rewrite drop_drop. destruct (Prefixes.parse_all _) as [ps|e| |]; simpl; [|done..].
  destruct (get_u16 _) as [[al rest]|e| |]; simpl; [|done..].
  case_decide; [done|]. by rewrite copy_to_bytes_long by lia.
Qed.
End update_lemmas.

(* ------------------------------------------------------------------ *)
(** ** Properties *)

(** [UpdateMessage::parse] panics on exactly the bodies whose withdrawn
    routes parse and end less than two bytes before the end of the body, where
    the length of the attributes is read unchecked; on every other body it
    returns a message or an error. *)
Theorem update_parse_panics {api : BytesApi} {laws : BytesLaws api} body :
  (Update.parse body = Panic ↔
     4 ≤ length body ∧
     let w := Z.to_nat (of_be (take 2 body)) in
     2 + w ≤ length body < 4 + w ∧ ∃ ps, Prefixes.parse_all (take w (drop 2 body)) = Ok ps) ∧
  Update.parse body ≠ Diverge.
Proof.
  rewrite update_parse_eq. case_decide as H4; [split; [split; [done|lia]|done]|]. cbv zeta.
  set (w := Z.to_nat _). case_decide as Hw; [split; [split; [done|lia]|done]|].
  pose proof (parse_all_returns (take w (drop 2 body))) as Hr.
  destruct (Prefixes.parse_all _) as [ps|e| |]; cbn [mbind outcome_bind];
    [|split; [split; [done|by intros (_&_&?&?)]|done]|done..].
  rewrite get_u16_spec. unfold take_or_panic. rewrite length_drop.
  case_decide as H2; cbn [mbind outcome_bind].
  - assert (Hret : ∀ o : outcome MessageError.t UpdateMessage, returns o →
      (o = Panic ↔ 4 ≤ length body ∧ 2 + w ≤ length body < 4 + w ∧
        ∃ ps0, Ok (E:=MessageError.t) ps = Ok ps0) ∧ o ≠ Diverge).
    { intros o Ho. destruct o; try done; (split; [split; [done|lia]|done]). }
    apply Hret. case_decide; [done|].
    apply returns_bind; [by apply returns_map_err, attrs_parse_returns|]. intros a _.
    apply returns_bind; [apply parse_all_returns|done].
  - split; [|done]. split; [|done]. intros _. split_and!; [lia|lia|lia|by eexists].
Qed.

(** An UPDATE with well-formed parts on the wire. *)
Lemma update_encoded {api : BytesApi} {laws : BytesLaws api} u :
  update_wf u →
  ∃ msg, Update.serialize (E:=Empty_set) u = Ok (BgpMessage.encode msg) ∧ BgpMessage.wf msg ∧
    msg.(BgpMessage.header).(Header.msg_type) = MessageType.Update ∧
    Update.parse msg.(BgpMessage.body) = Ok u.
Proof.
  intros (Hw&Ha&Hn&Hlen). unfold MAX_MESSAGE_LEN in Hlen.
  set (wb := concat (map prefix_bytes (withdrawn_routes u))) in *.
  set (ab := Attrs.serialize (path_attributes u)) in *.
  set (nb := concat (map prefix_bytes (nlri u))) in *.
  set (body := be_bytes 2 (Z.of_nat (length wb)) ++ wb ++ be_bytes 2 (Z.of_nat (length ab)) ++ ab ++ nb).
  assert (Hbody : length body = 2 + length wb + 2 + length ab + length nb)
    by (unfold body; rewrite !length_app, !length_be_bytes; lia).
  set (msg := BgpMessage.mk (Header.new MessageType.Update (length body)) body).
  exists msg. split_and!; [| |done|].
  - unfold Update.serialize. rewrite !serialize_all_eq by done. cbn [mbind outcome_bind app].
    fold wb ab nb. cbv zeta. autorewrite with bytes. rewrite !wrap_small by (split; lia).
    unfold BgpMessage.encode, msg. cbn [BgpMessage.header BgpMessage.body]. rewrite Hbody.
    unfold body. by rewrite <- !app_assoc.
  - apply wire_message_wf. unfold HEADER_LEN, MAX_MESSAGE_LEN. lia.
  - cbn [BgpMessage.body msg]. unfold Update.parse.
    rewrite decide_False by lia. unfold body.
    rewrite get_u16_app by (split; lia). cbn [mbind outcome_bind]. rewrite Nat2Z.id. cbv zeta.
    rewrite decide_False by (rewrite length_app; lia).
    rewrite copy_to_bytes_app by done. cbn [mbind outcome_bind]. unfold wb at 1.
    rewrite parse_all_bytes by done. cbn [mbind outcome_bind].
    rewrite get_u16_app by (split; lia). cbn [mbind outcome_bind]. rewrite Nat2Z.id.
    rewrite decide_False by (rewrite length_app; lia).
    rewrite copy_to_bytes_app by done. cbn [mbind outcome_bind]. unfold ab.
    rewrite attrs_parse_serialize by done. cbn [map_err mbind outcome_bind]. unfold nb.
    rewrite parse_all_bytes by done. by destruct u.
Qed.

(** C11: an UPDATE with well-formed parts serialises without panicking, and is
    framed and parsed back to the same withdrawn routes, attributes and NLRI. *)
Theorem update_roundtrip {api : BytesApi} {laws : BytesLaws api} u rest :
  update_wf u →
  ∃ wire msg, Update.serialize (E:=Empty_set) u = Ok wire ∧
    BgpMessage.parse (wire ++ rest) = Ok (Some msg, rest) ∧
    msg.(BgpMessage.header).(Header.msg_type) = MessageType.Update ∧
    Update.parse msg.(BgpMessage.body) = Ok u.
Proof.
  intros Hwf. destruct (update_encoded u Hwf) as (msg&Hs&?&?&?).
  exists (BgpMessage.encode msg), msg. split_and!; [done| |done..]. by apply bgp_parse_encode.
Qed.

(** A prefix length above 32 is not rejected: the parser demands all the
    octets it announces but consumes only four of them, so that what follows is
    read out of step; and such a prefix makes [serialize] panic. *)
Theorem prefix_too_long_misread {api : BytesApi} {laws : BytesLaws api} l octets rest :
  (32 < l ≤ 255)%Z → length octets = div_ceil8 l →
  Prefixes.parse (l :: octets ++ rest) =
    Ok (Prefixes.new (of_be (take 4 octets)) l, drop 4 octets ++ rest) ∧
  drop 4 octets ≠ [] ∧
  ∀ E buf, Prefixes.serialize (E:=E) (Prefixes.new (of_be (take 4 octets)) l) buf = Panic.
Proof.
  intros Hl Ho.
  assert (H5 : 5 ≤ div_ceil8 l).
  { unfold div_ceil8. assert (5 ≤ (l + 7) / 8)%Z by (apply Z.div_le_lower_bound; lia). lia. }
  split_and!.
  - rewrite prefix_parse_cons. rewrite decide_False by (rewrite length_app; lia). cbv zeta.
    rewrite Nat.min_r by lia. rewrite take_app_le, drop_app_le by lia. by rewrite app_nil_r.
  - intros Hd. apply (f_equal length) in Hd. rewrite length_drop in Hd. simpl in Hd. lia.
  - intros E buf. unfold Prefixes.serialize, Prefixes.encoded_len, slice. cbn [prefix_len Prefixes.new].
    rewrite decide_False; [done|]. rewrite length_be_bytes. lia.
Qed.

Definition sample_update : UpdateMessage :=
  {| withdrawn_routes := [Prefixes.new 3232235776 24]; path_attributes := sample_attrs;
     nlri := [Prefixes.new 167772160 8; Prefixes.new 0 0] |}.

Lemma update_parse_panics_witness :
  Update.parse (api:=list_bytes_api) [0; 2; 0; 0]%Z = Panic.
Proof.
  apply update_parse_panics. split; [simpl; lia|]. split; [vm_compute; lia|].
  by exists [Prefixes.new 0 0; Prefixes.new 0 0].
Defined.

Lemma update_roundtrip_witness :
  ∃ wire msg, Update.serialize (api:=list_bytes_api) (E:=Empty_set) sample_update = Ok wire ∧
    BgpMessage.parse (api:=list_bytes_api) (wire ++ [9%Z]) = Ok (Some msg, [9%Z]) ∧
    msg.(BgpMessage.header).(Header.msg_type) = MessageType.Update ∧
    Update.parse (api:=list_bytes_api) msg.(BgpMessage.body) = Ok sample_update.
Proof.
  apply update_roundtrip. split_and!; [|apply sample_attrs_wf| |by_decide].
  - apply Forall_singleton. split_and!; [by_decide..|done].
  - repeat (apply Forall_cons; split); [split_and!; [by_decide..|done]..|]. by apply Forall_nil.
Defined.

Lemma prefix_too_long_misread_witness :
  Prefixes.parse (api:=list_bytes_api) [33; 10; 0; 0; 0; 128; 8; 20]%Z =
    Ok (Prefixes.new 167772160 33, [128; 8; 20]%Z) ∧
  drop 4 [10; 0; 0; 0; 128]%Z ≠ [] ∧
  ∀ E buf, Prefixes.serialize (api:=list_bytes_api) (E:=E) (Prefixes.new 167772160 33) buf = Panic.
Proof. apply (prefix_too_long_misread 33 [10; 0; 0; 0; 128]%Z [8; 20]%Z); [lia|done]. Defined.
