(* ===== verification/Fuzz.v ===== *)
(** * The fuzz targets ([fuzz/fuzz_targets/*.rs])

    Each target hands arbitrary bytes to one parser and drops the result: a run
    crashes exactly when the parser panics.  What the targets test on the inputs
    a fuzzer finds is decided here for all inputs. *)

From S2P Require Import Prelude.
From S2P Require Import Bytes.
From S2P Require Import Message.
From S2P Require Import OpenMessage.
From S2P Require Import Attr.
From S2P Require Import UpdateMessage.

(** [let _ = parse(..)]: the result, [Err] included, is dropped. *)
Definition ignore {E A} (o : outcome E A) : outcome Empty_set unit :=
  match o with
  | Ok _ | Err _ => Ok tt
  | Panic => Panic
  | Diverge => Diverge
  end.

Section targets.
Context {api : BytesApi}.

Definition fuzz_bgp_message (data : bytes) : outcome Empty_set unit :=
  ignore (BgpMessage.parse data).

Definition fuzz_open_message (data : bytes) : outcome Empty_set unit :=
  ignore (Open.parse data).

Definition fuzz_path_attrs (data : bytes) : outcome Empty_set unit :=
  ignore (Attrs.parse data).

Definition fuzz_update_message (data : bytes) : outcome Empty_set unit :=
  ignore (Update.parse data).
End targets.

Lemma ignore_returns {E A} (o : outcome E A) : returns o → ignore o = Ok tt.
Proof. by destruct o. Qed.

Lemma ignore_panic {E A} (o : outcome E A) : ignore o = Panic ↔ o = Panic.
Proof. by destruct o. Qed.

Lemma ignore_diverge {E A} (o : outcome E A) : ignore o = Diverge ↔ o = Diverge.
Proof. by destruct o. Qed.

(* ------------------------------------------------------------------ *)
(** ** Properties *)

(** C21: what the four fuzz targets look for, decided for every input: the targets
    of the framing layer, of OPEN and of the path attributes never crash and never
    hang; the target of UPDATE never hangs and crashes on exactly the bodies whose
    withdrawn routes parse and end less than two bytes before the end of the body,
    hence on none shorter than four bytes. *)
Theorem fuzz_targets {api : BytesApi} {laws : BytesLaws api} (data : bytes) :
  fuzz_bgp_message data = Ok tt ∧ fuzz_open_message data = Ok tt ∧ fuzz_path_attrs data = Ok tt ∧
  fuzz_update_message data ≠ Diverge ∧
  (fuzz_update_message data = Panic ↔
     4 ≤ length data ∧
     let w := Z.to_nat (of_be (take 2 data)) in
     2 + w ≤ length data < 4 + w ∧ ∃ ps, Prefixes.parse_all (take w (drop 2 data)) = Ok ps).
Proof.
  unfold fuzz_bgp_message, fuzz_open_message, fuzz_path_attrs, fuzz_update_message.
  rewrite ignore_panic, ignore_diverge. destruct (update_parse_panics data) as [Hiff Hdiv].
  split_and!; [apply ignore_returns, bgp_parse_total|apply ignore_returns, open_parse_returns|
    apply ignore_returns, attrs_parse_returns|done..].
Qed.

(* ------------------------------------------------------------------ *)
(** ** Witnesses *)

(** The smallest crashing input: an empty [withdrawn routes length] cannot crash,
    two bytes of withdrawn routes and nothing after them do. *)
Lemma fuzz_targets_witness :
  fuzz_update_message (api:=list_bytes_api) [0; 2; 0; 0]%Z = Panic ∧
  fuzz_update_message (api:=list_bytes_api) [0; 0; 0; 0]%Z = Ok tt.
Proof.
  split; [|reflexivity]. apply (fuzz_targets (api:=list_bytes_api) [0; 2; 0; 0]%Z).
  split; [simpl; lia|]. split; [vm_compute; lia|]. by exists [Prefixes.new 0 0; Prefixes.new 0 0].
Defined.
