(* ===== verification/Text.v ===== *)
(** * Text: the parsers and printers of the standard library

    [str::parse] for unsigned integers and for [Ipv4Addr], [split_once], and the
    proofs that they read back what [to_string] prints.  The policy engine and the
    management commands use them. *)

From S2P Require Import Prelude.
From S2P Require Import UpdateMessage.
From Stdlib Require Import Ascii.

Module Text.
(** ** Parsing *)

(** [char::to_digit(10)] *)
Definition digit (c : ascii) : option Z :=
  let n := Z.of_N (N_of_ascii c) in
  if decide (48 ≤ n ≤ 57)%Z then Some (n - 48)%Z else None.

(** The digits of an unsigned integer of at most [max], after [acc]. *)
Fixpoint parse_digits (max acc : Z) (s : string) : option Z :=
  match s with
  | EmptyString => Some acc
  | String c s =>
      d ← digit c;
      let acc := (acc * 10 + d)%Z in
      if (acc <=? max)%Z then parse_digits max acc s else None
  end.

(** [str::parse::<uW>]: digits, after an optional plus sign. *)
Definition parse_uint (w : Z) (s : string) : option Z :=
  match s with
  | EmptyString => None
  | String c s' =>
      if decide (c = "+"%char) then
        match s' with EmptyString => None | _ => parse_digits (2 ^ w - 1) 0 s' end
      else parse_digits (2 ^ w - 1) 0 s
  end.

(** [str::split_once] at a character. *)
Fixpoint split_once (sep : ascii) (s : string) : option (string * string) :=
  match s with
  | EmptyString => None
  | String c s =>
      if decide (c = sep) then Some (EmptyString, s)
      else '(a, b) ← split_once sep s; Some (String c a, b)
  end.

(** The digits at the front of a string. *)
Fixpoint read_digits (s : string) : list Z * string :=
  match s with
  | EmptyString => ([], EmptyString)
  | String c s' =>
      match digit c with
      | Some d => let '(ds, rest) := read_digits s' in (d :: ds, rest)
      | None => ([], s)
      end
  end.

Definition of_digits (ds : list Z) : Z := foldl (λ acc d, acc * 10 + d)%Z 0%Z ds.

(** One octet of an address: one to three digits, no superfluous leading zero. *)
Definition read_octet (s : string) : option (Z * string) :=
  let '(ds, rest) := read_digits s in
  if decide (ds = [] ∨ 3 < length ds ∨ (1 < length ds ∧ head ds = Some 0%Z)) then None
  else if (of_digits ds <=? 255)%Z then Some (of_digits ds, rest) else None.

Definition expect (sep : ascii) (s : string) : option string :=
  match s with
  | EmptyString => None
  | String c s => if decide (c = sep) then Some s else None
  end.

(** [str::parse::<Ipv4Addr>] *)
Definition parse_addr (s : string) : option Ipv4Addr :=
  '(a, s) ← read_octet s; s ← expect "." s;
  '(b, s) ← read_octet s; s ← expect "." s;
  '(c, s) ← read_octet s; s ← expect "." s;
  '(d, s) ← read_octet s;
  match s with EmptyString => Some (of_be [a; b; c; d]) | _ => None end.
End Text.

(* ------------------------------------------------------------------ *)
(** ** Reading back what is printed *)

Import Text.

Definition is_digit (d : Z) : Prop := (0 ≤ d ≤ 9)%Z.

Definition digit_char (d : Z) : ascii := ascii_of_N (Z.to_N (48 + d)).

(** The string of a list of digits. *)
Fixpoint digits_string (ds : list Z) : string :=
  match ds with [] => EmptyString | d :: ds => String (digit_char d) (digits_string ds) end.

Lemma digit_digit_char d : is_digit d → digit (digit_char d) = Some d.
Proof.
  intros Hd. unfold digit, digit_char. rewrite N_ascii_embedding by (unfold is_digit in Hd; lia).
  rewrite decide_True by (unfold is_digit in Hd; lia). f_equal. unfold is_digit in Hd. lia.
Qed.

Lemma string_cons_app x (a b : string) : String x a +:+ b = String x (a +:+ b).
Proof. done. Qed.

Lemma digits_string_app ds ds' : digits_string (ds ++ ds') = digits_string ds +:+ digits_string ds'.
Proof. induction ds as [|d ds IH]; simpl; [done|]. by rewrite IH, string_cons_app. Qed.

Lemma string_app_assoc (a b c : string) : (a +:+ b) +:+ c = a +:+ b +:+ c.
Proof. induction a as [|x a IH]; [done|]. by rewrite !string_cons_app, IH. Qed.

Lemma string_app_nil (a : string) : a +:+ EmptyString = a.
Proof. induction a as [|x a IH]; [done|]. by rewrite !string_cons_app, IH. Qed.

Lemma of_digits_snoc ds d : of_digits (ds ++ [d]) = (of_digits ds * 10 + d)%Z.
Proof. unfold of_digits. by rewrite foldl_app. Qed.

Lemma pretty_char_digit (n : N) : (n < 10)%N → pretty_N_char n = digit_char (Z.of_N n).
Proof.
  intros Hn. assert (n = 0 ∨ n = 1 ∨ n = 2 ∨ n = 3 ∨ n = 4 ∨ n = 5 ∨ n = 6 ∨ n = 7 ∨ n = 8 ∨ n = 9)%N
    as Hcases by lia.
  by repeat destruct Hcases as [-> | Hcases]; [..|rewrite Hcases].
Qed.

(** The digits of a positive number: the first is not 0. *)
Lemma pretty_go_digits (n : N) s :
  (0 < n)%N → ∃ ds d, pretty_N_go n s = digits_string (d :: ds) +:+ s ∧ Forall is_digit (d :: ds) ∧
    d ≠ 0%Z ∧ of_digits (d :: ds) = Z.of_N n.
Proof.
  revert s. induction (N.lt_wf_0 n) as [n _ IH]. intros s Hn.
  rewrite pretty_N_go_step by done. assert (n `mod` 10 < 10)%N as Hm by (by apply N.mod_lt).
  apply N2Z.inj_lt in Hm as HmZ.
  rewrite pretty_char_digit by done.
  set (r := Z.of_N (n `mod` 10)). assert (is_digit r) as Hr by (unfold is_digit, r; clear -HmZ; split; [apply N2Z.is_nonneg|lia]).
  assert (Z.of_N n = Z.of_N (n `div` 10) * 10 + r)%Z as Heq.
  { unfold r. rewrite (N.div_mod n 10) at 1 by done. clear. lia. }
  destruct (decide (n `div` 10 = 0)%N) as [Hq|Hq].
  - rewrite Hq, pretty_N_go_0. rewrite Hq in Heq. exists [], r. split_and!.
    + reflexivity.
    + by apply Forall_singleton.
    + lia.
    + unfold of_digits. simpl. lia.
  - destruct (IH (n `div` 10)%N (N.div_lt n 10 Hn eq_refl) (String (digit_char r) s) ltac:(lia))
      as (ds&d&->&Hds&Hd&Hval).
    exists (ds ++ [r]), d. split_and!.
    + change (d :: ds ++ [r]) with ((d :: ds) ++ [r]). rewrite digits_string_app, string_app_assoc. done.
    + change (d :: ds ++ [r]) with ((d :: ds) ++ [r]). apply Forall_app. split; [done|by apply Forall_singleton].
    + done.
    + change (d :: ds ++ [r]) with ((d :: ds) ++ [r]). rewrite of_digits_snoc, Hval. lia.
Qed.

(** What [show_uint] prints: digits, with no superfluous zero. *)
Lemma show_uint_digits n :
  (0 ≤ n)%Z → ∃ ds d, show_uint n = digits_string (d :: ds) ∧ Forall is_digit (d :: ds) ∧
    of_digits (d :: ds) = n ∧ (d = 0%Z → ds = []).
Proof.
  intros Hn. unfold show_uint, pretty, pretty_Z. destruct n as [|q|q]; [|clear Hn|lia].
  - exists [], 0%Z. split_and!; [done|by apply Forall_singleton|done|done].
  - unfold pretty, pretty_positive, pretty, pretty_N. rewrite decide_False by done.
    destruct (pretty_go_digits (N.pos q) EmptyString ltac:(done)) as (ds&d&Hp&Hds&Hd&Hval).
    exists ds, d. split_and!; [|done|done|done]. by rewrite Hp, string_app_nil.
Qed.

(** Reading digits up to the first character that is none. *)
Definition no_digit (s : string) : Prop :=
  match s with EmptyString => True | String c _ => digit c = None end.

Lemma read_digits_string ds s :
  Forall is_digit ds → no_digit s → read_digits (digits_string ds +:+ s) = (ds, s).
Proof.
  intros Hds Hs. induction Hds as [|d ds Hd Hds IH]; cbn [digits_string].
  - destruct s as [|c s]; [done|]. change (EmptyString +:+ String c s) with (String c s).
    cbn [read_digits]. by rewrite Hs.
  - rewrite string_cons_app. cbn [read_digits]. by rewrite digit_digit_char, IH.
Qed.

Lemma of_digits_cons_ge ds acc :
  Forall is_digit ds → (0 ≤ acc)%Z → (acc ≤ foldl (λ acc d, acc * 10 + d)%Z acc ds)%Z.
Proof.
  intros Hds. revert acc. induction Hds as [|d ds Hd Hds IH]; intros acc Hacc; simpl; [lia|].
  unfold is_digit in Hd. specialize (IH (acc * 10 + d)%Z). lia.
Qed.

(** A numeral within the bound is read, one beyond it is an overflow. *)
Lemma parse_digits_string max ds acc :
  Forall is_digit ds → (0 ≤ acc ≤ max)%Z →
  parse_digits max acc (digits_string ds) =
    let v := foldl (λ acc d, acc * 10 + d)%Z acc ds in if (v <=? max)%Z then Some v else None.
Proof.
  intros Hds. revert acc. induction Hds as [|d ds Hd Hds IH]; intros acc Hacc; cbn.
  - by rewrite (proj2 (Z.leb_le _ _)) by lia.
  - rewrite digit_digit_char by done. simpl. unfold is_digit in Hd.
    destruct (Z.leb_spec (acc * 10 + d) max); [apply IH; lia|].
    pose proof (of_digits_cons_ge ds (acc * 10 + d) Hds). rewrite (proj2 (Z.leb_gt _ _)); [done|lia].
Qed.

(** Numbers survive printing and parsing. *)
Lemma parse_show_uint w n : uint w n → parse_uint w (show_uint n) = Some n.
Proof.
  intros [H0 Hn]. destruct (show_uint_digits n H0) as (ds&d&->&Hds&Hval&_).
  assert (parse_digits (2 ^ w - 1) 0 (digits_string (d :: ds)) = Some n) as Hp.
  { rewrite parse_digits_string by (done || lia). unfold of_digits in Hval. cbv zeta.
    rewrite Hval. by rewrite (proj2 (Z.leb_le _ _)) by lia. }
  unfold parse_uint. cbn [digits_string] in *. rewrite decide_False; [done|].
  apply Forall_cons in Hds as [Hd _]. intros Hplus. apply digit_digit_char in Hd.
  by rewrite Hplus in Hd.
Qed.

(** [split_once] at the first separator. *)
Lemma split_once_digits sep ds s :
  Forall is_digit ds → digit sep = None →
  split_once sep (digits_string ds +:+ String sep s) = Some (digits_string ds, s).
Proof.
  intros Hds Hsep. induction Hds as [|d ds Hd Hds IH]; cbn [digits_string].
  - change (EmptyString +:+ String sep s) with (String sep s). simpl. by rewrite decide_True.
  - rewrite string_cons_app. cbn [split_once]. rewrite decide_False, IH; [done|].
    intros <-. by rewrite digit_digit_char in Hsep.
Qed.

Lemma split_once_show sep n s :
  (0 ≤ n)%Z → digit sep = None →
  split_once sep (show_uint n +:+ String sep s) = Some (show_uint n, s).
Proof.
  intros Hn Hsep. destruct (show_uint_digits n Hn) as (ds&d&->&Hds&_). by apply split_once_digits.
Qed.

(** [split_once] of a concatenation whose first part has no separator. *)
Lemma split_once_app sep a b s :
  split_once sep a = None → split_once sep b = Some s →
  split_once sep (a +:+ b) = Some (a +:+ s.1, s.2).
Proof.
  intros Ha Hb. induction a as [|c a IH].
  - change (EmptyString +:+ b) with b. by destruct s.
  - rewrite !string_cons_app. cbn [split_once] in *. case_decide; [done|].
    destruct (split_once sep a) as [[]|]; [done|]. by rewrite IH.
Qed.

(** An octet survives too. *)
Lemma read_octet_show n s : u8 n → no_digit s → read_octet (show_uint n +:+ s) = Some (n, s).
Proof.
  intros [H0 Hn] Hs. destruct (show_uint_digits n H0) as (ds&d&->&Hds&Hval&Hzero).
  unfold read_octet. rewrite read_digits_string by done. rewrite Hval.
  change (2 ^ 8)%Z with 256%Z in Hn.
  rewrite decide_False; [by rewrite (proj2 (Z.leb_le _ _)) by lia|].
  intros [?|[Hlen|[Hlen [= ->]]]]; [done| |].
  - destruct ds as [|d1 [|d2 [|d3 ds]]]; simpl in Hlen; try lia.
    apply Forall_cons in Hds as [Hd Hds]. assert (d ≠ 0%Z) as Hd0 by (intros Hd0; by apply Hzero in Hd0).
    repeat (apply Forall_cons in Hds as [? Hds]). unfold is_digit, of_digits in *. simpl in Hval.
    pose proof (of_digits_cons_ge ds ((((0 * 10 + d) * 10 + d1) * 10 + d2) * 10 + d3)%Z Hds ltac:(lia)).
    lia.
  - rewrite (Hzero eq_refl) in Hlen. simpl in Hlen. lia.
Qed.

(** An octet and the dot that follows it. *)
Lemma read_octet_dot n s {B} (f : Z * string → option B) :
  u8 n → (read_octet (show_uint n +:+ "." +:+ s) ≫= f) = f (n, "." +:+ s).
Proof. intros Hn. by rewrite read_octet_show. Qed.

Lemma expect_dot s : expect "." ("." +:+ s) = Some s.
Proof. done. Qed.

(** Addresses survive printing and parsing. *)
Lemma parse_show_addr a : u32 a → parse_addr (Prefixes.show_addr a) = Some a.
Proof.
  intros Ha. pose proof (of_be_be_bytes 4 a Ha) as Hbe.
  pose proof (be_bytes_u8 4 a) as Hu. pose proof (length_be_bytes 4 a) as Hlen.
  unfold Prefixes.show_addr, parse_addr.
  destruct (be_bytes 4 a) as [|b0 [|b1 [|b2 [|b3 [|]]]]]; try done.
  repeat (apply Forall_cons in Hu as [? Hu]).
  do 3 (rewrite read_octet_dot by done; cbv beta iota; rewrite expect_dot; cbn [mbind option_bind]).
  rewrite <- (string_app_nil (show_uint b3)), read_octet_show by done.
  cbn [mbind option_bind]. by rewrite Hbe.
Qed.

(** No separator occurs in the text of an address. *)
Lemma split_once_addr sep a s :
  digit sep = None → sep ≠ "."%char →
  split_once sep (Prefixes.show_addr a +:+ String sep s) = Some (Prefixes.show_addr a, s).
Proof.
  intros Hsep Hdot. pose proof (be_bytes_u8 4 a) as Hu. pose proof (length_be_bytes 4 a) as Hlen.
  unfold Prefixes.show_addr.
  destruct (be_bytes 4 a) as [|b0 [|b1 [|b2 [|b3 [|]]]]]; try done.
  repeat (apply Forall_cons in Hu as [[? _] Hu]).
  assert (∀ n t r, (0 ≤ n)%Z → split_once sep t = Some r →
    split_once sep (show_uint n +:+ "." +:+ t) = Some (show_uint n +:+ "." +:+ r.1, r.2)) as Hstep.
  { intros n t r Hn Ht. apply (split_once_app sep (show_uint n) ("." +:+ t) ("." +:+ r.1, r.2)).
    - destruct (show_uint_digits n Hn) as (ds&d&->&Hds&_).
      clear -Hds Hsep. revert Hds. generalize (d :: ds). intros l Hl.
      induction Hl as [|x l Hx Hl IH]; [done|]. cbn [digits_string split_once].
      rewrite decide_False; [by rewrite IH|]. intros <-. by rewrite digit_digit_char in Hsep.
    - change ("." +:+ t) with (String "." t). cbn [split_once].
      rewrite decide_False by (intros Heq; by destruct Hdot). rewrite Ht. by destruct r. }
  rewrite !string_app_assoc.
  erewrite (Hstep b0); [|done|]; [|erewrite (Hstep b1); [reflexivity|done|];
    erewrite (Hstep b2); [reflexivity|done|]; by apply split_once_show].
  done.
Qed.
