(* ===== verification/Rpki.v ===== *)
(** * RPKI origin validation ([src/rpki.rs])

    The ROA table and the validation state of a route.  Shifts and the [u8]
    subtraction of [Roa::covers] take the build profile: with overflow checks
    they panic where a release build wraps. *)

From S2P Require Import Prelude.

Module Roa.
Record t := mk { prefix : Ipv4Addr; prefix_len : Z; max_length : Z; origin_as : Z }.

Definition new (prefix : Ipv4Addr) (prefix_len max_length origin_as : Z) : t :=
  mk prefix prefix_len max_length origin_as.

Definition covers {E} (p : profile) (self : t) (addr : Ipv4Addr) (len : Z) : outcome E bool :=
  if ((len <? self.(prefix_len)) || (self.(max_length) <? len))%Z then Ok false
  else
    bits ← sub_uint p 8 32 self.(prefix_len);
    roa_net ← (x ← shr_uint p 32 self.(prefix) bits; shl_uint p 32 x bits);
    addr_net ← (x ← shr_uint p 32 addr bits; shl_uint p 32 x bits);
    Ok (roa_net =? addr_net)%Z.

(** A ROA of the widths of its fields whose prefix is between /1 and /32. *)
Definition wf (r : t) : Prop :=
  u32 r.(prefix) ∧ (1 ≤ r.(prefix_len) ≤ 32)%Z ∧ u8 r.(max_length) ∧ u32 r.(origin_as).

(** Coverage in terms of networks: the length is in range, and the address is in
    the ROA's block of [2^(32 - prefix_len)] addresses. *)
Definition covers_spec (r : t) (addr : Ipv4Addr) (len : Z) : Prop :=
  (r.(prefix_len) ≤ len ≤ r.(max_length) ∧
   addr / 2 ^ (32 - r.(prefix_len)) = r.(prefix) / 2 ^ (32 - r.(prefix_len)))%Z.

#[global] Instance covers_spec_dec r addr len : Decision (covers_spec r addr len).
Proof. unfold covers_spec. apply _. Defined.
End Roa.

Module RovState.
Inductive t := Valid | Invalid | NotFound.

#[global] Instance t_eq_dec : EqDecision t.
Proof. solve_decision. Defined.

Definition to_string (s : t) : string :=
  match s with Valid => "valid" | Invalid => "invalid" | NotFound => "not-found" end.
End RovState.

Module RpkiMode.
Inductive t := Disabled | Loose | Strict.

#[global] Instance t_eq_dec : EqDecision t.
Proof. solve_decision. Defined.

Definition to_string (m : t) : string :=
  match m with Disabled => "disabled" | Loose => "loose" | Strict => "strict" end.
End RpkiMode.

Module RpkiValidator.
Record t := mk { mode : RpkiMode.t; roas : list Roa.t }.

Definition new (mode : RpkiMode.t) : t := {| mode := mode; roas := [] |}.

(** [RpkiValidator::default()] *)
Definition default : t := new RpkiMode.Disabled.

Definition add_roa (self : t) (roa : Roa.t) : t :=
  {| mode := self.(mode); roas := self.(roas) ++ [roa] |}.

(** [roas.iter().filter(|r| r.covers(prefix, prefix_len)).collect()] *)
Fixpoint covering {E} (p : profile) (rs : list Roa.t) (addr : Ipv4Addr) (len : Z) :
    outcome E (list Roa.t) :=
  match rs with
  | [] => Ok []
  | r :: rs =>
      c ← Roa.covers p r addr len;
      rest ← covering p rs addr len;
      Ok (if (c : bool) then r :: rest else rest)
  end.

Definition validate {E} (p : profile) (self : t) (addr : Ipv4Addr) (len origin_as : Z) :
    outcome E RovState.t :=
  if decide (self.(mode) = RpkiMode.Disabled) then Ok RovState.NotFound
  else
    covering ← covering p self.(roas) addr len;
    if decide (covering = []) then Ok RovState.NotFound
    else if existsb (λ r, (r.(Roa.origin_as) =? origin_as)%Z) covering then Ok RovState.Valid
    else Ok RovState.Invalid.

Definition should_reject (self : t) (state : RovState.t) : bool :=
  bool_decide (self.(mode) = RpkiMode.Strict) && bool_decide (state = RovState.Invalid).

Definition wf (v : t) : Prop := Forall Roa.wf v.(roas).
End RpkiValidator.

(** Route origin validation as a function of the table, by networks. *)
Definition rov_spec (v : RpkiValidator.t) (addr : Ipv4Addr) (len asn : Z) : RovState.t :=
  let cov := filter (λ r, Roa.covers_spec r addr len) v.(RpkiValidator.roas) in
  if decide (v.(RpkiValidator.mode) = RpkiMode.Disabled) then RovState.NotFound
  else if decide (cov = []) then RovState.NotFound
  else if decide (Exists (λ r, r.(Roa.origin_as) = asn) cov) then RovState.Valid
  else RovState.Invalid.

(* ------------------------------------------------------------------ *)
(** ** Lemmas *)

Section rpki_lemmas.
Context {E : Type}.

(** Shifting right and left again clears the host bits. *)
Lemma shift_round p x bits :
  u32 x → (0 ≤ bits < 32)%Z →
  (y ← shr_uint (E:=E) p 32 x bits; shl_uint p 32 y bits) = Ok (x / 2 ^ bits * 2 ^ bits)%Z.
Proof.
  intros [Hx0 Hx] Hb. rewrite shr_uint_lt by lia. cbn [mbind outcome_bind].
  rewrite shl_uint_lt by lia. rewrite Z.shiftr_div_pow2, Z.shiftl_mul_pow2 by lia.
  rewrite wrap_small; [done|]. pose proof (Z.mul_div_le x (2 ^ bits)). unfold uint.
  assert (0 < 2 ^ bits)%Z by lia. pose proof (Z.div_pos x (2 ^ bits)). nia.
Qed.

Lemma covers_eq p r addr len :
  Roa.wf r → u32 addr →
  Roa.covers (E:=E) p r addr len = Ok (bool_decide (Roa.covers_spec r addr len)).
Proof.
  intros (Hp&Hl&_) Ha. unfold Roa.covers.
  destruct ((len <? _) || _)%Z eqn:Hrange.
  - rewrite bool_decide_false; [done|]. unfold Roa.covers_spec. lia.
  - rewrite sub_uint_le by lia. cbn [mbind outcome_bind].
    rewrite !shift_round by (done || lia). cbn [mbind outcome_bind]. f_equal.
    set (m := (2 ^ (32 - Roa.prefix_len r))%Z). assert (0 < m)%Z by (unfold m; lia).
    apply Bool.eq_iff_eq_true. rewrite bool_decide_eq_true, Z.eqb_eq.
    unfold Roa.covers_spec. fold m. split; [intros Hm; split; [lia|nia]|]. by intros [_ ->].
Qed.

Lemma covering_eq p rs addr len :
  Forall Roa.wf rs → u32 addr →
  RpkiValidator.covering (E:=E) p rs addr len =
    Ok (filter (λ r, Roa.covers_spec r addr len) rs).
Proof.
  intros Hrs Ha. induction Hrs as [|r rs Hr _ IH]; [done|]. cbn [RpkiValidator.covering].
  rewrite covers_eq by done. cbn [mbind outcome_bind]. rewrite IH. cbn [mbind outcome_bind].
  rewrite filter_cons. case_bool_decide; by case_decide.
Qed.

Lemma existsb_Exists {A} (f : A → bool) (P : A → Prop) l :
  (∀ x, f x = true ↔ P x) → existsb f l = true ↔ Exists P l.
Proof.
  intros Hf. rewrite existsb_exists, Exists_exists. setoid_rewrite Hf.
  split; intros (x&Hx&?); exists x; split; try done; by apply list_elem_of_In.
Qed.

Lemma validate_eq p v addr len asn :
  RpkiValidator.wf v → u32 addr →
  RpkiValidator.validate (E:=E) p v addr len asn = Ok (rov_spec v addr len asn).
Proof.
  intros Hv Ha. unfold RpkiValidator.validate, rov_spec. case_decide; [done|].
  rewrite covering_eq by done. cbn [mbind outcome_bind]. case_decide; [done|].
  set (cov := filter _ _).
  destruct (existsb _ cov) eqn:Hb; destruct (decide (Exists _ cov)) as [Hd|Hd]; try done.
  - destruct Hd. revert Hb. apply existsb_Exists. intros r. apply Z.eqb_eq.
  - exfalso. assert (existsb (λ r, (Roa.origin_as r =? asn)%Z) cov = true); [|congruence].
    revert Hd. apply existsb_Exists. intros r. apply Z.eqb_eq.
Qed.

Lemma validate_disabled p v addr len asn :
  v.(RpkiValidator.mode) = RpkiMode.Disabled →
  RpkiValidator.validate (E:=E) p v addr len asn = Ok RovState.NotFound.
Proof. intros Hm. unfold RpkiValidator.validate. by rewrite decide_True. Qed.
End rpki_lemmas.

(** A route beyond the max-length of every ROA whose network holds it. *)
Lemma rov_beyond_max_length v addr len asn :
  (∀ r, r ∈ v.(RpkiValidator.roas) →
     (addr / 2 ^ (32 - r.(Roa.prefix_len)) = r.(Roa.prefix) / 2 ^ (32 - r.(Roa.prefix_len)) →
      r.(Roa.max_length) < len)%Z) →
  rov_spec v addr len asn = RovState.NotFound.
Proof.
  intros Hall. unfold rov_spec. case_decide; [done|]. rewrite decide_True; [done|].
  apply elem_of_nil_inv. intros r [[Hlen Hnet] Hr]%list_elem_of_filter. specialize (Hall r Hr Hnet). lia.
Qed.

(* ------------------------------------------------------------------ *)
(** ** Properties *)

(** C23: on a table of ROAs between /1 and /32, validation never panics in either
    build profile, and classifies a route by the ROAs that cover it, those whose
    network holds its address and whose range, from the ROA's own length to its
    max-length, holds its length: [NotFound] when none covers it (or validation is
    off), [Valid] when one of them names its origin, [Invalid] when they all name
    others. So a route longer than the max-length of every ROA whose network holds
    it is [NotFound], where the documentation of the module and of [RovState] says
    [Invalid]. *)
Theorem validate_spec p v addr len asn :
  RpkiValidator.wf v → u32 addr →
  ∃ s, RpkiValidator.validate (E:=Empty_set) p v addr len asn = Ok s ∧
    ((∀ r, r ∈ v.(RpkiValidator.roas) →
        (addr / 2 ^ (32 - r.(Roa.prefix_len)) = r.(Roa.prefix) / 2 ^ (32 - r.(Roa.prefix_len)) →
         r.(Roa.max_length) < len)%Z) → s = RovState.NotFound) ∧
    (s = RovState.Valid ↔ v.(RpkiValidator.mode) ≠ RpkiMode.Disabled ∧
       ∃ r, r ∈ v.(RpkiValidator.roas) ∧ Roa.covers_spec r addr len ∧ r.(Roa.origin_as) = asn) ∧
    (s = RovState.NotFound ↔ v.(RpkiValidator.mode) = RpkiMode.Disabled ∨
       ∀ r, r ∈ v.(RpkiValidator.roas) → ¬ Roa.covers_spec r addr len) ∧
    (s = RovState.Invalid ↔ v.(RpkiValidator.mode) ≠ RpkiMode.Disabled ∧
       (∃ r, r ∈ v.(RpkiValidator.roas) ∧ Roa.covers_spec r addr len) ∧
       ∀ r, r ∈ v.(RpkiValidator.roas) → Roa.covers_spec r addr len → r.(Roa.origin_as) ≠ asn).
Proof.
  intros Hv Ha. exists (rov_spec v addr len asn). split; [by apply validate_eq|].
  split; [apply rov_beyond_max_length|].
  unfold rov_spec. set (cov := filter _ _).
  assert (Hin : ∀ r, r ∈ cov ↔ Roa.covers_spec r addr len ∧ r ∈ RpkiValidator.roas v)
    by (intros r; unfold cov; by rewrite list_elem_of_filter).
  destruct (decide (_ = RpkiMode.Disabled)) as [Hd|Hd].
  { split_and!; (split; [done || by left|done || by intros []]). }
  destruct (decide (cov = [])) as [Hc|Hc].
  { rewrite Hc in Hin. assert (∀ r, r ∈ RpkiValidator.roas v → ¬ Roa.covers_spec r addr len) as Hno.
    { intros r Hr Hcov. assert (r ∈ []) as Hnil by (by apply Hin). by inversion Hnil. }
    split_and!; split; try done.
    - intros (_&r&Hr&Hcov&_). by destruct (Hno r).
    - by right.
    - intros (_&(r&Hr&Hcov)&_). by destruct (Hno r). }
  assert (∃ r, r ∈ cov) as [r0 [Hr0 Hr0']%Hin] by (destruct cov as [|r ?]; [done|exists r; by left]).
  case_decide as He; rewrite Exists_exists in He.
  - destruct He as (r&[Hr1 Hr2]%Hin&Hr). split_and!; split; try done.
    + intros _. split; [done|]. by exists r.
    + intros [?|Hn]; [done|]. by destruct (Hn r).
    + intros (_&_&Hn). by destruct (Hn r).
  - assert (∀ r, r ∈ RpkiValidator.roas v → Roa.covers_spec r addr len → Roa.origin_as r ≠ asn) as Hn.
    { intros r Hr Hcov Hasn. apply He. exists r. by rewrite Hin. }
    split_and!; split; try done.
    + intros (_&r&?&?&?). by destruct (Hn r).
    + intros [?|Hno]; [done|]. by destruct (Hno r0).
    + intros _. split_and!; [done|by exists r0|done].
Qed.

(** Adding a ROA never takes a route's [Valid] state away. *)
Theorem add_roa_keeps_valid p v r addr len asn :
  RpkiValidator.wf v → Roa.wf r → u32 addr →
  RpkiValidator.validate (E:=Empty_set) p v addr len asn = Ok RovState.Valid →
  RpkiValidator.validate (E:=Empty_set) p (RpkiValidator.add_roa v r) addr len asn
    = Ok RovState.Valid.
Proof.
  intros Hv Hr Ha. rewrite !validate_eq; [|by apply Forall_app; split; [|apply Forall_singleton]|done..].
  unfold rov_spec, RpkiValidator.add_roa. cbn [RpkiValidator.mode RpkiValidator.roas].
  rewrite filter_app. set (cov := filter _ (RpkiValidator.roas v)).
  case_decide; [done|]. case_decide as Hc; [done|]. case_decide as He; [|done]. intros _.
  rewrite decide_False by (intros [? _]%app_nil; done).
  rewrite decide_True; [done|]. apply Exists_app. by left.
Qed.

(** A ROA for the default route (/0) is not usable: the shift by 32 bits
    panics in a debug build, and in a release build it compares the whole
    address, so the ROA covers only routes at its own address. *)
Theorem roa_default_route r addr len :
  u32 r.(Roa.prefix) → u32 addr → r.(Roa.prefix_len) = 0%Z → (0 ≤ len ≤ r.(Roa.max_length))%Z →
  Roa.covers (E:=Empty_set) Debug r addr len = Panic ∧
  Roa.covers (E:=Empty_set) Release r addr len = Ok (bool_decide (addr = r.(Roa.prefix))).
Proof.
  intros Hp Ha Hz Hl. unfold Roa.covers. rewrite Hz.
  replace ((len <? 0) || (_ <? len))%Z with false by lia.
  rewrite !sub_uint_le by lia. cbn [mbind outcome_bind]. change (32 - 0)%Z with 32%Z.
  split; [done|]. unfold shr_uint, shl_uint. cbn -[Z.shiftl Z.shiftr Z.eqb].
  rewrite !Z.shiftr_0_r, !Z.shiftl_0_r, !wrap_small by done. f_equal.
  apply Bool.eq_iff_eq_true. rewrite bool_decide_eq_true, Z.eqb_eq. split; congruence.
Qed.

(** A route longer than the maximum length of every ROA is [NotFound], never
    [Invalid], whatever its origin. *)
Theorem beyond_max_length_not_found p v addr len asn :
  Forall (λ r, r.(Roa.max_length) < len)%Z v.(RpkiValidator.roas) →
  RpkiValidator.validate (E:=Empty_set) p v addr len asn = Ok RovState.NotFound.
Proof.
  intros Hr. unfold RpkiValidator.validate. case_decide; [done|].
  assert (RpkiValidator.covering (E:=Empty_set) p (RpkiValidator.roas v) addr len = Ok []) as ->.
  { induction Hr as [|r rs Hr _ IH]; [done|]. cbn [RpkiValidator.covering]. unfold Roa.covers.
    replace ((len <? _) || _)%Z with true by lia. cbn [mbind outcome_bind]. by rewrite IH. }
  done.
Qed.

(** 10.0.0.0/8 up to /24 from AS 65001, 192.168.0.0/16 from AS 65002. *)
Definition sample_validator : RpkiValidator.t :=
  RpkiValidator.add_roa (RpkiValidator.add_roa (RpkiValidator.new RpkiMode.Strict)
    (Roa.new 167772160 8 24 65001)) (Roa.new 3232235520 16 16 65002).

Lemma sample_validator_wf : RpkiValidator.wf sample_validator.
Proof. repeat (apply Forall_cons; split); [by_decide..|]. by apply Forall_nil. Qed.

Lemma validate_spec_witness :
  ∃ s, RpkiValidator.validate (E:=Empty_set) Debug sample_validator 167837696 24 65099 = Ok s ∧
    s = RovState.Invalid.
Proof.
  destruct (validate_spec Debug sample_validator 167837696 24 65099 sample_validator_wf)
    as (s&Hs&_); [by_decide|]. exists s. split; [done|]. vm_compute in Hs. by injection Hs as <-.
Defined.

Lemma add_roa_keeps_valid_witness :
  RpkiValidator.validate (E:=Empty_set) Release
    (RpkiValidator.add_roa sample_validator (Roa.new 167772160 8 32 65099)) 167837696 24 65001
    = Ok RovState.Valid.
Proof. apply add_roa_keeps_valid; [apply sample_validator_wf|by_decide|by_decide|reflexivity]. Defined.

Lemma roa_default_route_witness :
  Roa.covers (E:=Empty_set) Debug (Roa.new 0 0 32 65001) 167772160 8 = Panic ∧
  Roa.covers (E:=Empty_set) Release (Roa.new 0 0 32 65001) 167772160 8 = Ok false.
Proof. apply (roa_default_route (Roa.new 0 0 32 65001)); [by_decide|by_decide|done|simpl; lia]. Defined.

Lemma beyond_max_length_not_found_witness :
  RpkiValidator.validate (E:=Empty_set) Debug sample_validator 167838208 25 65001
    = Ok RovState.NotFound.
Proof.
  apply beyond_max_length_not_found. repeat (apply Forall_cons; split); [by_decide..|].
  by apply Forall_nil.
Defined.
