(* ===== verification/Env.v ===== *)
(** * The environment of the stateful components

    What the routing code takes from outside its own state: readings of the
    monotonic clock ([Instant::now]) and the iteration order of hash maps, which
    the standard library leaves arbitrary.  Both are streams of the environment,
    consumed by the calls that ask for them, so that two calls never share a
    reading; [io] threads them.  The keys of the maps ([SocketAddr], [PrefixKey])
    are here too. *)

From S2P Require Import Prelude.
From S2P Require Import UpdateMessage.

(** ** Keys *)

(** [std::net::IpAddr], an address as the integer of its octets. *)
Inductive IpAddr := V4 (a : Ipv4Addr) | V6 (a : Z).

(** [std::net::SocketAddr] (flow label and scope of IPv6 included). *)
Record SocketAddr := { ip : IpAddr; port : Z; flowinfo : Z; scope_id : Z }.

(** [rib::PrefixKey] *)
Module PrefixKey.
Record t := mk { address : Ipv4Addr; prefix_len : Z }.

(** [PrefixKey::from(&Prefix)] *)
Definition from (p : Prefix) : t := mk p.(UpdateMessage.address) p.(UpdateMessage.prefix_len).

Definition to_string (k : t) : string :=
  Prefixes.show_addr k.(address) +:+ "/" +:+ show_uint k.(prefix_len).

#[global] Instance t_eq_dec : EqDecision t.
Proof. solve_decision. Defined.

#[global] Instance t_countable : Countable t.
Proof.
  apply (inj_countable' (λ k, (k.(address), k.(prefix_len))) (λ '(a, l), mk a l)).
  by intros [].
Defined.
End PrefixKey.

#[export] Instance IpAddr_eq_dec : EqDecision IpAddr.
Proof. solve_decision. Defined.

#[export] Instance IpAddr_countable : Countable IpAddr.
Proof.
  apply (inj_countable' (λ a, match a with V4 x => inl x | V6 x => inr x end)
    (λ s, match s with inl x => V4 x | inr x => V6 x end)).
  by intros [].
Defined.

#[export] Instance SocketAddr_eq_dec : EqDecision SocketAddr.
Proof. solve_decision. Defined.

#[export] Instance SocketAddr_countable : Countable SocketAddr.
Proof.
  apply (inj_countable' (λ s, (s.(ip), s.(port), s.(flowinfo), s.(scope_id)))
    (λ '(i, p, f, c), Build_SocketAddr i p f c)).
  by intros [].
Defined.

(** ** Clock readings and iteration orders *)

(** Nanoseconds of the monotonic clock. *)
Abbreviation Instant := Z.
(** Nanoseconds of a [std::time::Duration]. *)
Abbreviation Duration := Z.

(** [clock n] is the [n]-th reading from now on; [seeds n] decides the order of
    the [n]-th traversal of a hash map from now on. *)
Record Env := { clock : nat → Instant; seeds : nat → nat }.

(** The order in which [HashMap::iter], [values], [into_keys], ... visit the
    entries: some order of all of them, each once. *)
Class HashOrder := {
  hash_iter {K V} `{Countable K} : nat → gmap K V → list (K * V);
  hash_iter_perm {K V} `{Countable K} seed (m : gmap K V) : hash_iter seed m ≡ₚ map_to_list m
}.

(** A concrete order, for the witnesses. *)
Definition sorted_order : HashOrder := {|
  hash_iter K V _ _ _ m := map_to_list m;
  hash_iter_perm K V _ _ _ m := reflexivity _
|}.

(** Computations that read the environment and may panic. *)
Definition io (A : Type) : Type := Env → outcome Empty_set (A * Env).

#[export] Instance io_ret : MRet io := λ A a e, Ok (a, e).
#[export] Instance io_bind : MBind io := λ A B f m e, '(a, e) ← m e; f a e.

(** [Instant::now()] *)
Definition now : io Instant := λ e,
  Ok (e.(clock) 0, {| clock := λ n, e.(clock) (S n); seeds := e.(seeds) |}).

(** [t.elapsed()]: saturates at zero. *)
Definition elapsed (t : Instant) : io Duration := λ e,
  '(t', e) ← now e; Ok (Z.max 0 (t' - t), e).

(** A traversal of a hash map. *)
Definition iter `{HashOrder, Countable K} {V} (m : gmap K V) : io (list (K * V)) := λ e,
  Ok (hash_iter (e.(seeds) 0) m, {| clock := e.(clock); seeds := λ n, e.(seeds) (S n) |}).

(** A computation that does not read the environment. *)
Definition lift {A} (o : outcome Empty_set A) : io A := λ e, a ← o; Ok (a, e).

(** A [for] loop over a list, threading a state. *)
Fixpoint foldM {S A} (f : S → A → io S) (l : list A) (s : S) : io S :=
  match l with
  | [] => mret s
  | a :: l => s ← f s a; foldM f l s
  end.

(** ** Total correctness of [io] computations *)

(** In every environment [m] returns, without a panic, a result satisfying [Q]. *)
Definition runs {A} (m : io A) (Q : A → Prop) : Prop :=
  ∀ e, ∃ a e', m e = Ok (a, e') ∧ Q a.

Section runs.
Context {A B : Type}.

Lemma runs_ret (a : A) (Q : A → Prop) : Q a → runs (mret a) Q.
Proof. intros HQ e. by exists a, e. Qed.

Lemma runs_bind (m : io A) (f : A → io B) (P : A → Prop) (Q : B → Prop) :
  runs m P → (∀ a, P a → runs (f a) Q) → runs (m ≫= f) Q.
Proof.
  intros Hm Hf e. destruct (Hm e) as (a&e'&Ha&HP).
  destruct (Hf a HP e') as (b&e''&Hb&HQ). exists b, e''. split; [|done].
  unfold mbind, io_bind. by rewrite Ha.
Qed.

(** One step of a run in a given environment. *)
Lemma io_bind_Ok (m : io A) (f : A → io B) e a e' :
  m e = Ok (a, e') → (m ≫= f) e = f a e'.
Proof. intros Hm. unfold mbind, io_bind. by rewrite Hm. Qed.

Lemma runs_mono (m : io A) (P Q : A → Prop) : runs m P → (∀ a, P a → Q a) → runs m Q.
Proof. intros Hm HPQ e. destruct (Hm e) as (a&e'&?&?). eauto. Qed.

Lemma runs_and (m : io A) (P Q : A → Prop) : runs m P → runs m Q → runs m (λ a, P a ∧ Q a).
Proof.
  intros HP HQ e. destruct (HP e) as (a&e'&Ha&?), (HQ e) as (a'&e''&Ha'&?).
  rewrite Ha in Ha'. simplify_eq. eauto.
Qed.

(** What a run returned satisfies what was proved of the run. *)
Lemma runs_Ok (m : io A) (Q : A → Prop) e a e' : runs m Q → m e = Ok (a, e') → Q a.
Proof. intros Hm Ha. destruct (Hm e) as (a'&e''&Ha'&?). rewrite Ha in Ha'. by simplify_eq. Qed.
End runs.

Lemma runs_now (Q : Instant → Prop) : (∀ t, Q t) → runs now Q.
Proof. intros HQ e. eexists _, _. by split. Qed.

Lemma runs_elapsed t (Q : Duration → Prop) : (∀ d, (0 ≤ d)%Z → Q d) → runs (elapsed t) Q.
Proof. intros HQ e. eexists _, _. split; [done|]. apply HQ. lia. Qed.

Lemma runs_iter `{HashOrder, Countable K} {V} (m : gmap K V) (Q : list (K * V) → Prop) :
  (∀ l, l ≡ₚ map_to_list m → Q l) → runs (iter m) Q.
Proof. intros HQ e. eexists _, _. split; [done|]. apply HQ, hash_iter_perm. Qed.

Lemma runs_lift {A} (o : outcome Empty_set A) a (Q : A → Prop) : o = Ok a → Q a → runs (lift o) Q.
Proof. intros -> HQ e. by exists a, e. Qed.

(** A loop whose invariant speaks of the elements done and still to come. *)
Lemma runs_foldM {S A} (f : S → A → io S) (I : list A → list A → S → Prop) l s :
  I [] l s →
  (∀ done a rest s, l = done ++ a :: rest → I done (a :: rest) s →
     runs (f s a) (I (done ++ [a]) rest)) →
  runs (foldM f l s) (I l []).
Proof.
  intros H0 Hstep.
  assert (∀ rest done s, l = done ++ rest → I done rest s →
    runs (foldM f rest s) (I l [])) as Hgen; [|by apply (Hgen l [])].
  clear s H0. intros rest; induction rest as [|a rest IH]; intros done s Hl HI; simpl.
  - apply runs_ret. by rewrite Hl, app_nil_r in *.
  - eapply runs_bind; [by apply (Hstep done)|]. intros s' HI'.
    apply (IH (done ++ [a])); [|done]. by rewrite <- app_assoc.
Qed.

(** ** Readings used up *)

(** Readings taken from the clock: the [k]-th from now is the first of the rest. *)
Definition later (e e' : Env) : Prop := ∃ k, ∀ n, clock e' n = clock e (k + n).

Lemma later_refl e : later e e.
Proof. by exists 0. Qed.

Lemma later_trans e1 e2 e3 : later e1 e2 → later e2 e3 → later e1 e3.
Proof.
  intros [k1 H1] [k2 H2]. exists (k1 + k2). intros n. rewrite H2, H1. f_equal. lia.
Qed.

(** [m] does nothing to the environment but read it. *)
Definition advances {A} (m : io A) : Prop := ∀ e a e', m e = Ok (a, e') → later e e'.

Create HintDb advances discriminated.

Lemma advances_ret {A} (a : A) : advances (mret a).
Proof. intros e a' e' [= _ <-]. apply later_refl. Qed.

Lemma advances_lift {A} (o : outcome Empty_set A) : advances (lift o).
Proof. intros e a e'. unfold lift. destruct o; [|done..]. intros [= _ <-]. apply later_refl. Qed.

Lemma advances_bind {A B} (m : io A) (f : A → io B) :
  advances m → (∀ a, advances (f a)) → advances (m ≫= f).
Proof.
  intros Hm Hf e b e'. unfold mbind, io_bind. destruct (m e) as [[a e1]| | |] eqn:Ha; [|done..].
  intros Hb. eapply later_trans; [by eapply Hm|by eapply Hf].
Qed.

Lemma advances_foldM {A B} (f : B → A → io B) l s : (∀ s a, advances (f s a)) → advances (foldM f l s).
Proof.
  intros Hf. revert s. induction l as [|a l IH]; intros s; simpl; [apply advances_ret|].
  intros e b e'. unfold mbind, io_bind. destruct (f s a e) as [[s1 e1]| | |] eqn:Hs; [|done..].
  intros Hb. eapply later_trans; [by eapply Hf|by eapply IH].
Qed.
Lemma advances_now : advances now.
Proof. intros e t e' [= _ <-]. by exists 1. Qed.

Lemma advances_elapsed t : advances (elapsed t).
Proof. intros e d e' [= _ <-]. by exists 1. Qed.

Lemma advances_iter `{HashOrder, Countable K} {V} (m : gmap K V) : advances (iter m).
Proof. intros e l e' [= _ <-]. by exists 0. Qed.

#[export] Hint Resolve advances_ret advances_lift advances_bind advances_foldM advances_now
  advances_elapsed advances_iter : advances.

(** A computation that returns, and only reads the environment. *)
Lemma runs_advances {A} (m : io A) (Q : A → Prop) e :
  runs m Q → advances m → ∃ a e', m e = Ok (a, e') ∧ Q a ∧ later e e'.
Proof. intros Hm Ha. destruct (Hm e) as (a&e'&He&?). exists a, e'. split_and!; [done..|by eapply Ha]. Qed.
