(* ===== verification/Dampening.v ===== *)
(** * Route flap dampening ([src/dampening.rs])

    The penalty arithmetic is binary64 ([SpecFloat] with 53 bits of precision);
    only [f64::powf], whose result the standard library leaves to the platform, is
    a parameter ([Libm]).  Clock readings come from the environment of [Env.v]. *)

From Stdlib Require Import Floats.SpecFloat.
From S2P Require Import Prelude.
From S2P Require Import Env.

Abbreviation f64 := spec_float.

Module F64.
Definition add : f64 → f64 → f64 := SFadd 53 1024.
Definition mul : f64 → f64 → f64 := SFmul 53 1024.
Definition div : f64 → f64 → f64 := SFdiv 53 1024.
Definition ltb : f64 → f64 → bool := SFltb.
Definition leb : f64 → f64 → bool := SFleb.

(** [z as f64] *)
Definition of_Z (z : Z) : f64 := binary_normalize 53 1024 z 0 false.

Definition half : f64 := div (of_Z 1) (of_Z 2).
End F64.

(** [f64::powf] *)
Class Libm := { powf : f64 → f64 → f64 }.

(** [Duration::as_secs_f64] *)
Definition as_secs_f64 (d : Duration) : f64 :=
  F64.add (F64.of_Z (d / 1000000000)) (F64.div (F64.of_Z (d mod 1000000000)) (F64.of_Z 1000000000)).

Module PrefixDampening.
Record t := mk {
  penalty : f64;
  suppressed : bool;
  suppressed_at : option Instant;
  last_decay : Instant;
  suppress_count : Z
}.

Definition new : io t :=
  t ← now;
  mret {| penalty := F64.of_Z 0; suppressed := false; suppressed_at := None;
          last_decay := t; suppress_count := 0 |}.

Definition decay {libm : Libm} (self : t) (half_life_secs : f64) : io t :=
  d ← elapsed self.(last_decay);
  let elapsed := as_secs_f64 d in
  if F64.ltb (F64.of_Z 0) elapsed then
    let decay_factor := powf F64.half (F64.div elapsed half_life_secs) in
    t ← now;
    mret {| penalty := F64.mul self.(penalty) decay_factor; suppressed := self.(suppressed);
            suppressed_at := self.(suppressed_at); last_decay := t;
            suppress_count := self.(suppress_count) |}
  else mret self.

(** [entry.suppressed = false; entry.suppressed_at = None] *)
Definition release (self : t) : t :=
  {| penalty := self.(penalty); suppressed := false; suppressed_at := None;
     last_decay := self.(last_decay); suppress_count := self.(suppress_count) |}.

(** [suppressed_at] is set exactly while the prefix is suppressed. *)
Definition wf (e : t) : Prop :=
  (e.(suppressed) = true ↔ is_Some e.(suppressed_at)) ∧ u32 e.(suppress_count).
End PrefixDampening.

Module DampeningConfig.
Record t := mk {
  penalty_per_flap : f64;
  suppress_limit : f64;
  reuse_limit : f64;
  half_life_secs : f64;
  max_suppress_time : Duration
}.

Definition default : t :=
  {| penalty_per_flap := F64.of_Z 1000; suppress_limit := F64.of_Z 2000;
     reuse_limit := F64.of_Z 750; half_life_secs := F64.of_Z 900;
     max_suppress_time := 3600 * 1000000000 |}.
End DampeningConfig.

Module DampeningTable.
Record t := mk {
  state : gmap (SocketAddr * PrefixKey.t) PrefixDampening.t;
  config : DampeningConfig.t
}.

Definition new (config : DampeningConfig.t) : t := {| state := ∅; config := config |}.

(** The table after a write through [entry]. *)
Definition set_entry (self : t) k e : t :=
  {| state := <[k := e]> self.(state); config := self.(config) |}.

Section ops.
Context {libm : Libm} (p : profile).

(** [state.entry(k).or_insert_with(PrefixDampening::new)] *)
Definition entry_or_new (self : t) k : io PrefixDampening.t :=
  match self.(state) !! k with
  | Some e => mret e
  | None => PrefixDampening.new
  end.

Definition record_withdrawal (self : t) (peer : SocketAddr) (prefix : PrefixKey.t) :
    io (bool * t) :=
  let cfg := self.(config) in
  entry ← entry_or_new self (peer, prefix);
  entry ← PrefixDampening.decay entry cfg.(DampeningConfig.half_life_secs);
  let penalty := F64.add entry.(PrefixDampening.penalty) cfg.(DampeningConfig.penalty_per_flap) in
  if negb entry.(PrefixDampening.suppressed) && F64.leb cfg.(DampeningConfig.suppress_limit) penalty
  then
    t ← now;
    suppress_count ← lift (add_uint p 32 entry.(PrefixDampening.suppress_count) 1);
    mret (true, set_entry self (peer, prefix)
      {| PrefixDampening.penalty := penalty; PrefixDampening.suppressed := true;
         PrefixDampening.suppressed_at := Some t;
         PrefixDampening.last_decay := entry.(PrefixDampening.last_decay);
         PrefixDampening.suppress_count := suppress_count |})
  else
    mret (entry.(PrefixDampening.suppressed), set_entry self (peer, prefix)
      {| PrefixDampening.penalty := penalty;
         PrefixDampening.suppressed := entry.(PrefixDampening.suppressed);
         PrefixDampening.suppressed_at := entry.(PrefixDampening.suppressed_at);
         PrefixDampening.last_decay := entry.(PrefixDampening.last_decay);
         PrefixDampening.suppress_count := entry.(PrefixDampening.suppress_count) |}).

Definition check_advertisement (self : t) (peer : SocketAddr) (prefix : PrefixKey.t) :
    io (bool * t) :=
  let cfg := self.(config) in
  match self.(state) !! (peer, prefix) with
  | None => mret (false, self)
  | Some entry =>
      entry ← PrefixDampening.decay entry cfg.(DampeningConfig.half_life_secs);
      expired ←
        match entry.(PrefixDampening.suppressed_at) with
        | Some suppressed_at =>
            d ← elapsed suppressed_at;
            mret (cfg.(DampeningConfig.max_suppress_time) <=? d)%Z
        | None => mret false
        end;
      if (expired : bool) then
        mret (false, set_entry self (peer, prefix) (PrefixDampening.release entry))
      else
        let entry :=
          if entry.(PrefixDampening.suppressed) &&
             F64.ltb entry.(PrefixDampening.penalty) cfg.(DampeningConfig.reuse_limit)
          then PrefixDampening.release entry else entry in
        mret (entry.(PrefixDampening.suppressed), set_entry self (peer, prefix) entry)
  end.

Definition current_penalty (self : t) (peer : SocketAddr) (prefix : PrefixKey.t) :
    io (f64 * t) :=
  entry ← entry_or_new self (peer, prefix);
  entry ← PrefixDampening.decay entry self.(config).(DampeningConfig.half_life_secs);
  mret (entry.(PrefixDampening.penalty), set_entry self (peer, prefix) entry).
End ops.

Definition is_suppressed (self : t) (peer : SocketAddr) (prefix : PrefixKey.t) : bool :=
  match self.(state) !! (peer, prefix) with
  | Some e => e.(PrefixDampening.suppressed)
  | None => false
  end.

Definition suppressed_count (self : t) : nat :=
  size (filter (λ '(_, e), e.(PrefixDampening.suppressed) = true) self.(state)).

(** [state.retain(|(p, _), _| *p != peer)] *)
Definition remove_peer (self : t) (peer : SocketAddr) : t :=
  {| state := filter (λ '((p, _), _), p ≠ peer) self.(state); config := self.(config) |}.

(** The table's invariant: every entry is well formed. *)
Definition wf (d : t) : Prop := map_Forall (λ _, PrefixDampening.wf) d.(state).

(** No entry's suppression counter overflows in the next [n] withdrawals (in a
    release build it may: the counter wraps). *)
Definition room (p : profile) (n : nat) (d : t) : Prop :=
  p = Release ∨
  (Z.of_nat n < 2 ^ 32)%Z ∧
  map_Forall (λ _ e, e.(PrefixDampening.suppress_count) + Z.of_nat n < 2 ^ 32)%Z d.(state).
End DampeningTable.

(* ------------------------------------------------------------------ *)
(** ** Lemmas *)

Section dampening_lemmas.
Context {libm : Libm}.
Import PrefixDampening DampeningTable.

(** Decay only touches the penalty and the decay time. *)
Lemma runs_decay e half :
  runs (decay e half) (λ e', suppressed e' = suppressed e ∧ suppressed_at e' = suppressed_at e ∧
                             suppress_count e' = suppress_count e).
Proof.
  unfold decay. eapply runs_bind; [by apply (runs_elapsed _ (λ _, True))|]. intros d _. simpl.
  case_match; [|by apply runs_ret].
  eapply runs_bind; [by apply (runs_now (λ _, True))|]. intros t _. by apply runs_ret.
Qed.

Lemma runs_new : runs PrefixDampening.new (λ e,
  suppressed e = false ∧ suppressed_at e = None ∧ suppress_count e = 0%Z ∧ penalty e = F64.of_Z 0).
Proof. eapply runs_bind; [by apply (runs_now (λ _, True))|]. intros t _. by apply runs_ret. Qed.

(** The entry of a key, a fresh one when there is none. *)
Lemma runs_entry_or_new d k :
  runs (entry_or_new d k) (λ e,
    match state d !! k with
    | Some e' => e = e'
    | None => suppressed e = false ∧ suppressed_at e = None ∧ suppress_count e = 0%Z
    end).
Proof.
  unfold entry_or_new. destruct (state d !! k); [by apply runs_ret|].
  eapply runs_mono; [apply runs_new|]. naive_solver.
Qed.

Definition old_count (d : DampeningTable.t) k : Z :=
  match state d !! k with Some e => suppress_count e | None => 0 end.

Lemma old_count_u32 d k : wf d → u32 (old_count d k).
Proof.
  intros Hwf. unfold old_count. destruct (state d !! k) as [e|] eqn:Hk; [|by_decide].
  by apply (Hwf _ _ Hk).
Qed.

(** The increment of an entry's counter. *)
Lemma count_up p n d k :
  room p (S n) d → wf d →
  ∃ c, add_uint (E:=Empty_set) p 32 (old_count d k) 1 = Ok c ∧ c = wrap 32 (old_count d k + 1) ∧
       (p = Release ∨ c + Z.of_nat n < 2 ^ 32)%Z.
Proof.
  intros Hroom Hwf. pose proof (old_count_u32 d k Hwf) as Hu.
  destruct Hroom as [->|[Hn Hroom]].
  - unfold add_uint. case_match; (eexists; split_and!; [done| |by left]); [|done].
    symmetry. apply wrap_small. unfold uint in *. lia.
  - assert (old_count d k + Z.of_nat (S n) < 2 ^ 32)%Z as Hlt.
    { unfold old_count in *. destruct (state d !! k) as [e|] eqn:Hk; [by apply (Hroom _ _ Hk)|lia]. }
    rewrite add_uint_lt by lia. eexists. split_and!; [done| |right; lia].
    symmetry. apply wrap_small. unfold uint in *. lia.
Qed.

Lemma set_entry_wf d k e : wf d → PrefixDampening.wf e → wf (set_entry d k e).
Proof. intros. by apply map_Forall_insert_2. Qed.

Lemma set_entry_room p n d k e :
  room p n d → (p = Release ∨ suppress_count e + Z.of_nat n < 2 ^ 32)%Z →
  room p n (set_entry d k e).
Proof.
  intros [?|[? Hroom]] [?|?]; [by left..|right]. split; [done|]. by apply map_Forall_insert_2.
Qed.

Lemma room_mono p n m d : n ≤ m → room p m d → room p n d.
Proof.
  intros Hle [?|[? Hroom]]; [by left|right]. split; [lia|].
  eapply map_Forall_impl; [exact Hroom|]. simpl. lia.
Qed.

Lemma old_count_room p n d k :
  room p n d → (p = Release ∨ old_count d k + Z.of_nat n < 2 ^ 32)%Z.
Proof.
  intros [?|[? Hroom]]; [by left|right]. unfold old_count.
  destruct (state d !! k) eqn:Hk; [by apply (Hroom _ _ Hk)|lia].
Qed.

(** The decayed entry that an operation starts from. *)
Lemma runs_decayed d peer k half :
  wf d →
  runs (e ← entry_or_new d (peer, k); decay e half) (λ e,
    suppressed e = is_suppressed d peer k ∧ suppress_count e = old_count d (peer, k) ∧
    PrefixDampening.wf e).
Proof.
  intros Hwf. eapply runs_bind; [apply runs_entry_or_new|]. intros e0 He0.
  eapply runs_mono; [apply runs_decay|]. intros e1 (Hs&Ha&Hc).
  unfold is_suppressed, old_count, PrefixDampening.wf. rewrite Hs, Ha, Hc.
  destruct (state d !! _) as [e|] eqn:Hk.
  - subst. split; [done|]. split; [done|]. by apply (Hwf _ _ Hk).
  - destruct He0 as (->&->&->). split; [done|]. split; [done|]. split; [|by_decide].
    split; [done|by intros [? ?]].
Qed.

Lemma io_bind_assoc {A B C} (m : io A) (f : A → io B) (g : B → io C) e :
  ((m ≫= f) ≫= g) e = (m ≫= (λ a, f a ≫= g)) e.
Proof. unfold mbind, io_bind. by destruct (m e) as [[]|? | |]. Qed.

Lemma runs_assoc {A B C} (m : io A) (f : A → io B) (g : B → io C) Q :
  runs ((m ≫= f) ≫= g) Q → runs (m ≫= (λ a, f a ≫= g)) Q.
Proof. intros Hm e. destruct (Hm e) as (a&e'&Ha&?). rewrite io_bind_assoc in Ha. eauto. Qed.

(** What recording a withdrawal does to the table. *)
Lemma runs_record p n d peer k :
  room p (S n) d → wf d →
  runs (record_withdrawal p d peer k) (λ '(b, d'), ∃ e',
    d' = set_entry d (peer, k) e' ∧ b = suppressed e' ∧
    suppressed e' =
      is_suppressed d peer k || F64.leb d.(config).(DampeningConfig.suppress_limit) (penalty e') ∧
    suppress_count e' =
      (if suppressed e' && negb (is_suppressed d peer k)
       then wrap 32 (old_count d (peer, k) + 1) else old_count d (peer, k)) ∧
    wf d' ∧ room p n d').
Proof.
  intros Hroom Hwf. unfold record_withdrawal. apply runs_assoc.
  eapply runs_bind; [by apply runs_decayed|]. intros e (Hs&Hc&He).
  rewrite Hs, Hc. destruct (negb _ && _) eqn:Hnew.
  - apply andb_prop in Hnew as [Hneg Hle].
    eapply runs_bind; [by apply (runs_now (λ _, True))|]. intros t _.
    destruct (count_up p n d (peer, k)) as (c&Hadd&Hw&Hn); [done..|].
    eapply runs_bind; [by apply (runs_lift _ c (λ x, x = c))|]. intros ? ->. apply runs_ret.
    eexists. split; [done|]. cbn [suppressed penalty suppress_count]. rewrite Hneg, Hle, orb_true_r.
    split_and!; try done.
    + apply set_entry_wf; [done|]. split; [by split|]. simpl. rewrite Hw. by apply wrap_uint.
    + apply set_entry_room; [|done]. by eapply room_mono; [|done]; lia.
  - apply runs_ret. eexists. split; [done|]. cbn [suppressed penalty suppress_count].
    split_and!; try done.
    + destruct (is_suppressed d peer k); [done|]. simpl in *. by rewrite Hnew.
    + by destruct (is_suppressed d peer k).
    + apply set_entry_wf; [done|]. rewrite <- Hs, <- Hc. by destruct e.
    + assert (room p n d) by (by eapply room_mono; [|done]; lia).
      apply set_entry_room; [done|]. simpl. by apply old_count_room.
Qed.

(** What checking an advertisement does to the table. *)
Lemma runs_check p n d peer k :
  room p n d → wf d →
  runs (check_advertisement d peer k) (λ '(b, d'),
    b = is_suppressed d' peer k ∧ (b = true → is_suppressed d peer k = true) ∧
    (state d !! (peer, k) = None → d' = d) ∧
    (∀ k', k' ≠ (peer, k) → state d' !! k' = state d !! k') ∧ config d' = config d ∧
    wf d' ∧ room p n d').
Proof.
  intros Hroom Hwf. unfold check_advertisement.
  destruct (state d !! (peer, k)) as [e0|] eqn:Hk.
  2: { apply runs_ret. unfold is_suppressed. rewrite Hk. by split_and!. }
  pose proof (Hwf _ _ Hk) as [Hat Hu]. simpl in Hat, Hu.
  pose proof (old_count_room p n d (peer, k) Hroom) as Hcount. unfold old_count in Hcount.
  rewrite Hk in Hcount.
  assert (Hset : ∀ e', (suppressed e' = true → suppressed e0 = true) → PrefixDampening.wf e' →
    suppress_count e' = suppress_count e0 →
    (λ '(b, d'), b = is_suppressed d' peer k ∧ (b = true → is_suppressed d peer k = true) ∧
      (Some e0 = None → d' = d) ∧ (∀ k', k' ≠ (peer, k) → state d' !! k' = state d !! k') ∧
      config d' = config d ∧ wf d' ∧ room p n d')
    (suppressed e', set_entry d (peer, k) e')).
  { intros e' Hse Hwe Hce. unfold is_suppressed. simpl. rewrite lookup_insert_eq, Hk.
    split_and!; try done.
    - intros k' Hk'. by rewrite lookup_insert_ne.
    - by apply set_entry_wf.
    - apply set_entry_room; [done|]. by rewrite Hce. }
  eapply runs_bind; [apply runs_decay|]. intros e (Hs&Ha&Hc).
  assert (Hwe : PrefixDampening.wf e) by (unfold PrefixDampening.wf; by rewrite Hs, Ha, Hc).
  assert (Hrel : PrefixDampening.wf (release e)).
  { split; [split; [done|by intros [? ?]]|]. simpl. by rewrite Hc. }
  eapply (runs_bind _ _ (λ _, True)).
  { destruct (suppressed_at e); [|by apply runs_ret].
    eapply runs_bind; [by apply (runs_elapsed _ (λ _, True))|]. intros. by apply runs_ret. }
  intros expired _. destruct expired.
  - apply runs_ret. by apply (Hset (release e)).
  - apply runs_ret. apply Hset.
    + destruct (_ && _); [done|]. by rewrite Hs.
    + by destruct (_ && _).
    + by destruct (_ && _).
Qed.

Lemma lookup_remove_peer d peer peer' k :
  state (remove_peer d peer) !! (peer', k) =
    if decide (peer' = peer) then None else state d !! (peer', k).
Proof.
  unfold remove_peer. simpl. case_decide as Hp.
  - apply map_lookup_filter_None_2. right. intros e _. simpl. tauto.
  - destruct (state d !! (peer', k)) as [e|] eqn:Hk.
    + by apply map_lookup_filter_Some_2.
    + apply map_lookup_filter_None_2. by left.
Qed.

Lemma remove_peer_wf d peer : wf d → wf (remove_peer d peer).
Proof.
  intros Hwf [peer' k] e Hk. rewrite lookup_remove_peer in Hk. case_decide; [done|].
  by apply (Hwf _ _ Hk).
Qed.
End dampening_lemmas.

(* ------------------------------------------------------------------ *)
(** ** Properties *)

(** The penalty after [age]: halved once per half-life. *)
Definition decayed {libm : Libm} (penalty : f64) (age : Duration) (half_life : f64) : f64 :=
  if F64.ltb (F64.of_Z 0) (as_secs_f64 age)
  then F64.mul penalty (powf F64.half (F64.div (as_secs_f64 age) half_life))
  else penalty.

(** The entry a flap starts from, the prefix's own or a new one without a penalty,
    and the time at which its age is measured. *)
Definition flap_start (d : DampeningTable.t) key (e : Env) : PrefixDampening.t * Instant :=
  match d.(DampeningTable.state) !! key with
  | Some entry => (entry, e.(clock) 0)
  | None =>
      ({| PrefixDampening.penalty := F64.of_Z 0; PrefixDampening.suppressed := false;
          PrefixDampening.suppressed_at := None; PrefixDampening.last_decay := e.(clock) 0;
          PrefixDampening.suppress_count := 0 |}, e.(clock) 1)
  end.

Lemma decay_eval {libm : Libm} entry half_life e :
  ∃ e', PrefixDampening.decay entry half_life e =
    Ok ({| PrefixDampening.penalty := decayed entry.(PrefixDampening.penalty)
             (Z.max 0 (e.(clock) 0 - entry.(PrefixDampening.last_decay))) half_life;
           PrefixDampening.suppressed := entry.(PrefixDampening.suppressed);
           PrefixDampening.suppressed_at := entry.(PrefixDampening.suppressed_at);
           PrefixDampening.last_decay :=
             if F64.ltb (F64.of_Z 0)
                  (as_secs_f64 (Z.max 0 (e.(clock) 0 - entry.(PrefixDampening.last_decay))))
             then e.(clock) 1 else entry.(PrefixDampening.last_decay);
           PrefixDampening.suppress_count := entry.(PrefixDampening.suppress_count) |}, e') ∧
    ∃ n, ∀ m, e'.(clock) m = e.(clock) (n + m).
Proof.
  unfold PrefixDampening.decay, decayed, elapsed, now, mbind, io_bind, mret, io_ret.
  cbn [mbind outcome_bind clock seeds]. destruct (F64.ltb _ _).
  - eexists. split; [reflexivity|]. by exists 2.
  - destruct entry. eexists. split; [reflexivity|]. by exists 1.
Qed.

Lemma flap_start_eval d key e :
  ∃ e', DampeningTable.entry_or_new d key e = Ok ((flap_start d key e).1, e') ∧
    e'.(clock) 0 = (flap_start d key e).2 ∧ (∃ n, ∀ m, e'.(clock) m = e.(clock) (n + m)) ∧
    old_count d key = (flap_start d key e).1.(PrefixDampening.suppress_count).
Proof.
  unfold DampeningTable.entry_or_new, flap_start, old_count.
  destruct (DampeningTable.state d !! key) as [entry|].
  - exists e. split_and!; [done|done|by exists 0|done].
  - eexists. split_and!; [reflexivity|done|by exists 1|done].
Qed.

(** C34: recording a withdrawal decays the prefix's penalty by the time since its
    last decay and adds one flap's penalty to it; it returns whether the prefix is
    suppressed, which holds when it already was or when the new penalty has reached
    the limit (equality included, where the module comment asks for more than the
    limit); when suppression starts the prefix's counter goes up and the time is
    recorded; other prefixes are untouched, and the table stays well formed. *)
Theorem record_withdrawal_spec {libm : Libm} p d peer k e :
  DampeningTable.wf d → DampeningTable.room p 1 d →
  let cfg := d.(DampeningTable.config) in
  let old := (flap_start d (peer, k) e).1 in
  let age := Z.max 0 ((flap_start d (peer, k) e).2 - old.(PrefixDampening.last_decay)) in
  ∃ entry d' e',
    DampeningTable.record_withdrawal p d peer k e = Ok ((entry.(PrefixDampening.suppressed), d'), e') ∧
    d' = DampeningTable.set_entry d (peer, k) entry ∧
    entry.(PrefixDampening.penalty) =
      F64.add (decayed old.(PrefixDampening.penalty) age cfg.(DampeningConfig.half_life_secs))
        cfg.(DampeningConfig.penalty_per_flap) ∧
    (entry.(PrefixDampening.suppressed) = true ↔ old.(PrefixDampening.suppressed) = true ∨
       F64.leb cfg.(DampeningConfig.suppress_limit) entry.(PrefixDampening.penalty) = true) ∧
    (if entry.(PrefixDampening.suppressed) && negb old.(PrefixDampening.suppressed)
     then entry.(PrefixDampening.suppress_count) = wrap 32 (old.(PrefixDampening.suppress_count) + 1) ∧
          ∃ n, entry.(PrefixDampening.suppressed_at) = Some (e.(clock) n)
     else entry.(PrefixDampening.suppress_count) = old.(PrefixDampening.suppress_count) ∧
          entry.(PrefixDampening.suppressed_at) = old.(PrefixDampening.suppressed_at)) ∧
    (∃ n, entry.(PrefixDampening.last_decay) =
       if F64.ltb (F64.of_Z 0) (as_secs_f64 age) then e.(clock) n else old.(PrefixDampening.last_decay)) ∧
    DampeningTable.wf d'.
Proof.
  intros Hwf Hroom cfg old age.
  destruct (count_up p 0 d (peer, k) Hroom Hwf) as (c&Hadd&Hc&_).
  destruct (flap_start_eval d (peer, k) e) as (e0&Hstart&Ht&[n0 He0]&Hcount).
  destruct (decay_eval old cfg.(DampeningConfig.half_life_secs) e0) as (e1&Hdecay&[n1 He1]).
  fold old in Hstart, Hcount. rewrite Ht in Hdecay. fold age in Hdecay. rewrite Hcount in Hadd, Hc.
  match goal with |- ∃ entry d' e', ?run = _ ∧ _ => assert (∀ b d' e', run = Ok ((b, d'), e') →
    DampeningTable.wf d') as Hwf' end.
  { intros b d' e' Hrun. by destruct (runs_Ok _ _ _ _ _ (runs_record p 0 d peer k Hroom Hwf) Hrun)
      as (?&_&_&_&_&?&_). }
  unfold DampeningTable.record_withdrawal in *. cbv zeta in *. revert Hwf'.
  rewrite (io_bind_Ok _ _ _ _ _ Hstart), (io_bind_Ok _ _ _ _ _ Hdecay).
  cbn [PrefixDampening.penalty PrefixDampening.suppressed PrefixDampening.suppressed_at
       PrefixDampening.last_decay PrefixDampening.suppress_count]. fold cfg.
  set (penalty := F64.add _ _). set (last := if F64.ltb _ _ then clock e0 1 else _).
  assert (∃ n, last = if F64.ltb (F64.of_Z 0) (as_secs_f64 age) then e.(clock) n
                      else PrefixDampening.last_decay old) as Hlast.
  { exists (n0 + 1). unfold last. by rewrite He0. }
  destruct (negb (PrefixDampening.suppressed old) && _) eqn:Hstarts.
  - apply andb_prop in Hstarts as [Hnew Hle]. apply negb_true_iff in Hnew.
    erewrite (io_bind_Ok now) by reflexivity.
    erewrite (io_bind_Ok (lift _)) by (unfold lift; rewrite Hadd; reflexivity).
    intros Hwf'. eexists {| PrefixDampening.suppressed := true |}, _, _.
    split; [reflexivity|]. split; [reflexivity|]. cbn. rewrite Hnew, Hle. cbn [negb].
    split_and!; [done|tauto|exact Hc| |exact Hlast|by eapply Hwf'].
    exists (n0 + (n1 + 0)). by rewrite He1, He0.
  - intros Hwf'. eexists {| PrefixDampening.suppressed := PrefixDampening.suppressed old |}, _, _.
    split; [reflexivity|]. split; [reflexivity|]. cbn.
    rewrite andb_negb_r. cbn [negb]. split_and!; [done| |done|done|exact Hlast|by eapply Hwf'].
    destruct (PrefixDampening.suppressed old); [tauto|]. simpl in Hstarts. rewrite Hstarts. naive_solver.
Qed.

(** Checking an advertisement returns whether the prefix is suppressed, never
    starts a suppression, changes no other prefix, creates no entry, and keeps
    the table well formed; it cannot panic. *)
Theorem check_advertisement_spec {libm : Libm} d peer k e :
  DampeningTable.wf d →
  ∃ b d' e', DampeningTable.check_advertisement d peer k e = Ok ((b, d'), e') ∧
    b = DampeningTable.is_suppressed d' peer k ∧
    (b = true → DampeningTable.is_suppressed d peer k = true) ∧
    (d.(DampeningTable.state) !! (peer, k) = None → d' = d) ∧
    (∀ k', k' ≠ (peer, k) → d'.(DampeningTable.state) !! k' = d.(DampeningTable.state) !! k') ∧
    DampeningTable.wf d'.
Proof.
  intros Hwf. destruct (runs_check Release 0 d peer k (or_introl eq_refl) Hwf e)
    as ([b d']&e'&He&?&?&?&?&_&?&_).
  by exists b, d', e'.
Qed.

(** C35: no suppression outlives [max_suppress_time]: once that much time has
    passed since the prefix was suppressed, the next advertisement is accepted. *)
Theorem suppression_bounded {libm : Libm} d peer k e entry :
  DampeningTable.wf d → d.(DampeningTable.state) !! (peer, k) = Some entry →
  (∀ s n, entry.(PrefixDampening.suppressed_at) = Some s →
     s + d.(DampeningTable.config).(DampeningConfig.max_suppress_time) ≤ e.(clock) n)%Z →
  ∃ d' e', DampeningTable.check_advertisement d peer k e = Ok ((false, d'), e') ∧
    DampeningTable.is_suppressed d' peer k = false.
Proof.
  intros Hwf Hk Htime. unfold DampeningTable.check_advertisement. rewrite Hk.
  set (half := DampeningConfig.half_life_secs _). set (I := λ e : Env, ∀ s n,
    PrefixDampening.suppressed_at entry = Some s →
    (s + DampeningConfig.max_suppress_time (DampeningTable.config d) ≤ clock e n)%Z).
  assert (∃ entry' e', PrefixDampening.decay entry half e = Ok (entry', e') ∧ I e' ∧
    PrefixDampening.suppressed entry' = PrefixDampening.suppressed entry ∧
    PrefixDampening.suppressed_at entry' = PrefixDampening.suppressed_at entry) as (e1&env1&He1&HI&Hs&Ha).
  { unfold PrefixDampening.decay, elapsed, now, mbind, io_bind. cbn [outcome_bind mbind].
    case_match; (eexists _, _; split; [done|]); (split; [|done]); intros s n Hn; by apply Htime. }
  rewrite (io_bind_Ok _ _ _ _ _ He1), Ha.
  pose proof (Hwf _ _ Hk) as [Hat _]. destruct (PrefixDampening.suppressed_at entry) as [s|] eqn:Hse.
  - erewrite io_bind_Ok; [|erewrite io_bind_Ok; done]. cbv beta.
    rewrite (proj2 (Z.leb_le _ _)).
    2: { specialize (HI s 0 eq_refl). lia. }
    eexists _, _. split; [done|]. unfold DampeningTable.is_suppressed. simpl. by rewrite lookup_insert_eq.
  - assert (PrefixDampening.suppressed e1 = false) as Hf.
    { rewrite Hs. destruct (PrefixDampening.suppressed entry); [|done].
      by destruct (proj1 Hat eq_refl). }
    erewrite io_bind_Ok by done. cbv beta. rewrite Hf. cbn [andb]. rewrite Hf.
    eexists _, _. split; [done|].
    unfold DampeningTable.is_suppressed. simpl. by rewrite lookup_insert_eq.
Qed.

(** Evaluates the comparisons of closed floats in the goal. *)
Ltac eval_f64 :=
  repeat match goal with
  | |- context [F64.ltb ?a ?b] =>
      let v := eval vm_compute in (F64.ltb a b) in change (F64.ltb a b) with v
  | |- context [F64.leb ?a ?b] =>
      let v := eval vm_compute in (F64.leb a b) in change (F64.leb a b) with v
  end; cbn [negb andb].

(** With the default configuration one flap does not suppress a prefix, and a
    second one at the same clock reading does, with the penalty exactly at the
    limit of 2000. *)
Theorem two_flaps_suppress {libm : Libm} p peer k e :
  (∀ n, e.(clock) n = e.(clock) 0) →
  ∃ d1 e1 d2 e2 entry,
    DampeningTable.record_withdrawal p (DampeningTable.new DampeningConfig.default) peer k e
      = Ok ((false, d1), e1) ∧
    DampeningTable.record_withdrawal p d1 peer k e1 = Ok ((true, d2), e2) ∧
    d2.(DampeningTable.state) !! (peer, k) = Some entry ∧
    entry.(PrefixDampening.penalty) = DampeningConfig.default.(DampeningConfig.suppress_limit).
Proof.
  destruct e as [c sd]. cbn [clock]. intros Hc.
  unfold DampeningTable.record_withdrawal at 1, DampeningTable.entry_or_new, DampeningTable.new.
  cbn [DampeningTable.state DampeningTable.config]. rewrite lookup_empty.
  unfold PrefixDampening.new, PrefixDampening.decay, elapsed, now.
  unfold mbind, io_bind, mret, io_ret. cbn [mbind outcome_bind clock seeds].
  cbn [PrefixDampening.last_decay]. rewrite Hc, Z.sub_diag.
  eval_f64.
  cbn [mbind outcome_bind PrefixDampening.penalty PrefixDampening.suppressed].
  eval_f64.
  eexists _, _, _, _, _. split; [reflexivity|].
  unfold DampeningTable.record_withdrawal, DampeningTable.entry_or_new, DampeningTable.set_entry.
  cbn [DampeningTable.state DampeningTable.config]. rewrite lookup_insert_eq.
  unfold PrefixDampening.decay, elapsed, now, mbind, io_bind, mret, io_ret.
  cbn [mbind outcome_bind clock seeds PrefixDampening.last_decay].
  rewrite (Hc 2), Z.sub_diag. eval_f64.
  cbn [mbind outcome_bind PrefixDampening.penalty PrefixDampening.suppressed].
  eval_f64. unfold lift.
  cbn [outcome_bind PrefixDampening.suppress_count].
  rewrite add_uint_lt by done. cbn [mbind outcome_bind]. split; [reflexivity|].
  cbn [DampeningTable.state]. rewrite lookup_insert_eq. split; reflexivity.
Qed.

(** Forgetting a peer removes its dampening history and nobody else's. *)
Theorem dampening_remove_peer_spec d peer peer' k :
  (DampeningTable.remove_peer d peer).(DampeningTable.state) !! (peer', k) =
    (if decide (peer' = peer) then None else d.(DampeningTable.state) !! (peer', k)).
Proof. apply lookup_remove_peer. Qed.

Definition sample_peer : SocketAddr :=
  {| ip := V4 167772161; port := 179; flowinfo := 0; scope_id := 0 |}.

Definition sample_env : Env := {| clock := λ _, 5000000000%Z; seeds := λ n, n |}.

Definition no_libm : Libm := {| powf x _ := x |}.

Definition sample_table : DampeningTable.t :=
  DampeningTable.set_entry (DampeningTable.new DampeningConfig.default)
    (sample_peer, PrefixKey.mk 167772160 8)
    {| PrefixDampening.penalty := F64.of_Z 2000; PrefixDampening.suppressed := true;
       PrefixDampening.suppressed_at := Some 1000000000%Z;
       PrefixDampening.last_decay := 5000000000; PrefixDampening.suppress_count := 1 |}.

Lemma sample_table_wf : DampeningTable.wf sample_table.
Proof.
  apply set_entry_wf; [apply map_Forall_empty|]. split; [|by_decide]. by split; [eexists|].
Qed.

Lemma record_withdrawal_spec_witness :
  ∃ entry d' e', DampeningTable.record_withdrawal (libm:=no_libm) Release sample_table
      sample_peer (PrefixKey.mk 167772160 8) sample_env = Ok ((true, d'), e') ∧
    d' = DampeningTable.set_entry sample_table (sample_peer, PrefixKey.mk 167772160 8) entry.
Proof.
  destruct (record_withdrawal_spec (libm:=no_libm) Release sample_table sample_peer
    (PrefixKey.mk 167772160 8) sample_env sample_table_wf (or_introl eq_refl))
    as (entry&d'&e'&Hr&Hd&_&Hb&_). exists entry, d', e'.
  rewrite (proj2 Hb) in Hr by (left; reflexivity). by split.
Defined.

Lemma check_advertisement_spec_witness :
  ∃ b d' e', DampeningTable.check_advertisement (libm:=no_libm) sample_table sample_peer
      (PrefixKey.mk 167772160 8) sample_env = Ok ((b, d'), e') ∧
    b = DampeningTable.is_suppressed d' sample_peer (PrefixKey.mk 167772160 8).
Proof.
  destruct (check_advertisement_spec (libm:=no_libm) sample_table sample_peer
    (PrefixKey.mk 167772160 8) sample_env sample_table_wf) as (b&d'&e'&Hc&Hb&_).
  by exists b, d', e'.
Defined.

Lemma suppression_bounded_witness :
  ∃ d' e', DampeningTable.check_advertisement (libm:=no_libm) sample_table sample_peer
      (PrefixKey.mk 167772160 8)
      {| clock := λ _, 3601000000000%Z; seeds := λ n, n |} = Ok ((false, d'), e') ∧
    DampeningTable.is_suppressed d' sample_peer (PrefixKey.mk 167772160 8) = false.
Proof.
  eapply suppression_bounded; [apply sample_table_wf|reflexivity|]. intros s n [= <-]. done.
Defined.

Lemma two_flaps_suppress_witness :
  ∃ d1 e1 d2 e2 entry,
    DampeningTable.record_withdrawal (libm:=no_libm) Debug
      (DampeningTable.new DampeningConfig.default) sample_peer (PrefixKey.mk 0 0) sample_env
      = Ok ((false, d1), e1) ∧
    DampeningTable.record_withdrawal (libm:=no_libm) Debug d1 sample_peer (PrefixKey.mk 0 0) e1
      = Ok ((true, d2), e2) ∧
    d2.(DampeningTable.state) !! (sample_peer, PrefixKey.mk 0 0) = Some entry ∧
    entry.(PrefixDampening.penalty) = DampeningConfig.default.(DampeningConfig.suppress_limit).
Proof. by apply two_flaps_suppress. Defined.
