(* ===== verification/Rib.v ===== *)
(** * The routing information base ([src/rib.rs])

    Adj-RIB-In per peer, Loc-RIB, and the operations that keep the second the
    result of the decision process on the first.  Hash maps are [gmap]s whose
    traversals take their order from the environment; the clock stamps routes. *)

From S2P Require Import Prelude.
From S2P Require Import Attr.
From S2P Require Import UpdateMessage.
From S2P Require Import Rpki.
From S2P Require Import Env.
From S2P Require Import Dampening.

Module Route.
Record t := mk {
  prefix : Prefix;
  attrs : PathAttributes;
  peer_addr : SocketAddr;
  peer_as : Z;
  received_at : Instant;
  stale : bool;
  rov_state : RovState.t
}.

#[global] Instance t_eq_dec : EqDecision t.
Proof. solve_decision. Defined.

Definition new (prefix : Prefix) (attrs : PathAttributes) (peer_addr : SocketAddr) (peer_as : Z) :
    io t :=
  received_at ← now;
  mret {| prefix := prefix; attrs := attrs; peer_addr := peer_addr; peer_as := peer_as;
          received_at := received_at; stale := false; rov_state := RovState.NotFound |}.

Definition set_stale (r : t) (b : bool) : t :=
  {| prefix := prefix r; attrs := attrs r; peer_addr := peer_addr r; peer_as := peer_as r;
     received_at := received_at r; stale := b; rov_state := rov_state r |}.

Definition set_rov_state (r : t) (s : RovState.t) : t :=
  {| prefix := prefix r; attrs := attrs r; peer_addr := peer_addr r; peer_as := peer_as r;
     received_at := received_at r; stale := stale r; rov_state := s |}.
End Route.

Abbreviation AdjRibIn := (gmap PrefixKey.t Route.t).
Abbreviation LocRib := (gmap PrefixKey.t Route.t).
Abbreviation AdjRibOut := (gmap PrefixKey.t Route.t).

(** [Ordering::then] *)
Definition cmp_then (c d : comparison) : comparison := match c with Eq => d | _ => c end.

(** The comparator of the decision process: [Lt] is preferred. *)
Definition route_cmp (a b : Route.t) : comparison :=
  let lp r := default 100%Z r.(Route.attrs).(local_pref) in
  let origin r := match r.(Route.attrs).(origin) with Some o => Origin.to_u8 o | None => 2%Z end in
  let med r := default 0%Z r.(Route.attrs).(multi_exit_disc) in
  cmp_then (lp b ?= lp a)%Z
  (cmp_then (Nat.compare (Attrs.as_path_len a.(Route.attrs)) (Attrs.as_path_len b.(Route.attrs)))
  (cmp_then (origin a ?= origin b)%Z
  (cmp_then (med a ?= med b)%Z
            (a.(Route.received_at) ?= b.(Route.received_at))%Z))).

(** [slice::sort_by]: a stable sort. *)
Fixpoint insert_by {A} (cmp : A → A → comparison) (x : A) (l : list A) : list A :=
  match l with
  | [] => [x]
  | y :: l => match cmp y x with Gt => x :: y :: l | _ => y :: insert_by cmp x l end
  end.

Definition sort_by {A} (cmp : A → A → comparison) (l : list A) : list A :=
  foldl (λ acc x, insert_by cmp x acc) [] l.

Module Rib.
Record t := mk {
  adj_rib_in : gmap SocketAddr AdjRibIn;
  loc_rib : LocRib;
  adj_rib_out : gmap SocketAddr AdjRibOut;
  dampening : DampeningTable.t;
  rpki : RpkiValidator.t
}.

Definition new : t :=
  {| adj_rib_in := ∅; loc_rib := ∅; adj_rib_out := ∅;
     dampening := DampeningTable.new DampeningConfig.default; rpki := RpkiValidator.default |}.

Definition set_loc_rib (self : t) v : t :=
  {| adj_rib_in := adj_rib_in self; loc_rib := v; adj_rib_out := adj_rib_out self;
     dampening := dampening self; rpki := rpki self |}.

Definition set_adj_rib_in (self : t) v : t :=
  {| adj_rib_in := v; loc_rib := loc_rib self; adj_rib_out := adj_rib_out self;
     dampening := dampening self; rpki := rpki self |}.

Definition set_dampening (self : t) v : t :=
  {| adj_rib_in := adj_rib_in self; loc_rib := loc_rib self; adj_rib_out := adj_rib_out self;
     dampening := v; rpki := rpki self |}.

Section ops.
Context {ord : HashOrder} {libm : Libm} (p : profile).

Definition run_decision_process (self : t) (key : PrefixKey.t) : io t :=
  ribs ← iter self.(adj_rib_in);
  let candidates := omap (λ '(_, rib), (rib : AdjRibIn) !! key) ribs in
  match candidates with
  | [] => mret (set_loc_rib self (delete key self.(loc_rib)))
  | _ =>
      best ← lift (index (sort_by route_cmp candidates) 0);
      mret (set_loc_rib self (<[key := best]> self.(loc_rib)))
  end.

(** One round of the loop over [nlri]: dampening, origin validation, insertion. *)
Definition process_prefix (rpki : RpkiValidator.t) (peer_addr : SocketAddr) (peer_as : Z)
    (attrs : PathAttributes) (s : DampeningTable.t * AdjRibIn * list PrefixKey.t) (prefix : Prefix) :
    io (DampeningTable.t * AdjRibIn * list PrefixKey.t) :=
  let '(dampening, adj_in, affected_nlri) := s in
  let key := PrefixKey.from prefix in
  '(suppressed, dampening) ← DampeningTable.check_advertisement dampening peer_addr key;
  rov ← lift (RpkiValidator.validate p rpki prefix.(address) prefix.(prefix_len) peer_as);
  if (suppressed || RpkiValidator.should_reject rpki rov)%bool then
    mret (dampening, adj_in, affected_nlri)
  else
    route ← Route.new prefix attrs peer_addr peer_as;
    let route := Route.set_rov_state route rov in
    mret (dampening, <[key := route]> adj_in, affected_nlri ++ [key]).

Definition process_update (self : t) (peer_addr : SocketAddr) (peer_as : Z)
    (nlri : list Prefix) (attrs : PathAttributes) (withdrawn : list Prefix) : io t :=
  dampening ← foldM (λ d prefix,
      '(_, d) ← DampeningTable.record_withdrawal p d peer_addr (PrefixKey.from prefix); mret d)
    withdrawn self.(dampening);
  let adj_in := default ∅ (self.(adj_rib_in) !! peer_addr) in
  '(dampening, adj_in, affected_nlri) ←
    foldM (process_prefix self.(rpki) peer_addr peer_as attrs) nlri (dampening, adj_in, []);
  let adj_in := foldl (λ m prefix, delete (PrefixKey.from prefix) m) adj_in withdrawn in
  let self := set_adj_rib_in (set_dampening self dampening)
                (<[peer_addr := adj_in]> self.(adj_rib_in)) in
  let affected := affected_nlri ++ map PrefixKey.from withdrawn in
  foldM run_decision_process affected self.

Definition remove_peer (self : t) (peer_addr : SocketAddr) : io (t * list PrefixKey.t) :=
  removed_keys ←
    match self.(adj_rib_in) !! peer_addr with
    | Some rib => l ← iter rib; mret (map fst l)
    | None => mret []
    end;
  let self := set_adj_rib_in self (delete peer_addr self.(adj_rib_in)) in
  self ← foldM run_decision_process removed_keys self;
  mret (set_dampening self (DampeningTable.remove_peer self.(dampening) peer_addr), removed_keys).

Definition mark_peer_stale (self : t) (peer_addr : SocketAddr) : t :=
  match self.(adj_rib_in) !! peer_addr with
  | Some rib =>
      set_adj_rib_in self
        (<[peer_addr := (λ r, Route.set_stale r true) <$> rib]> self.(adj_rib_in))
  | None => self
  end.

Definition remove_stale_for_peer (self : t) (peer_addr : SocketAddr) :
    io (t * list PrefixKey.t) :=
  stale_keys ←
    match self.(adj_rib_in) !! peer_addr with
    | Some rib =>
        l ← iter rib;
        mret (map fst (filter (λ '(_, r), r.(Route.stale) = true) l))
    | None => mret []
    end;
  let self :=
    match self.(adj_rib_in) !! peer_addr with
    | Some rib =>
        let rib := foldl (λ (m : AdjRibIn) key, delete key m) rib stale_keys in
        set_adj_rib_in self
          (if decide (rib = ∅) then delete peer_addr self.(adj_rib_in)
           else <[peer_addr := rib]> self.(adj_rib_in))
    | None => self
    end in
  self ← foldM run_decision_process stale_keys self;
  mret (self, stale_keys).

(** One entry of the Loc-RIB against an address, as the filter of
    [longest_match] tests it. *)
Definition key_covers (key : PrefixKey.t) (addr : Ipv4Addr) : outcome Empty_set bool :=
  if (key.(PrefixKey.prefix_len) =? 0)%Z then Ok true
  else
    shift ← sub_uint p 32 32 key.(PrefixKey.prefix_len);
    a ← shr_uint p 32 addr shift;
    b ← shr_uint p 32 key.(PrefixKey.address) shift;
    Ok (a =? b)%Z.

(** [filter(..).max_by_key(|(key, _)| key.prefix_len)]: the last of the longest. *)
Fixpoint best_match (addr : Ipv4Addr) (l : list (PrefixKey.t * Route.t))
    (best : option (PrefixKey.t * Route.t)) : outcome Empty_set (option (PrefixKey.t * Route.t)) :=
  match l with
  | [] => Ok best
  | kr :: l =>
      c ← key_covers kr.1 addr;
      best_match addr l
        (if (c : bool) then
           match best with
           | Some b => if (kr.1.(PrefixKey.prefix_len) <? b.1.(PrefixKey.prefix_len))%Z
                       then Some b else Some kr
           | None => Some kr
           end
         else best)
  end.

Definition longest_match (self : t) (addr : Ipv4Addr) : io (option (PrefixKey.t * Route.t)) :=
  l ← iter self.(loc_rib);
  lift (best_match addr l None).
End ops.

Definition stale_route_count (self : t) : nat :=
  sum_list (map (λ rib : SocketAddr * AdjRibIn, size (filter (λ '(_, r), r.(Route.stale) = true) rib.2))
    (map_to_list self.(adj_rib_in))).

(** (peers, Adj-RIB-In routes, Loc-RIB routes) *)
Definition summary (self : t) : nat * nat * nat :=
  (size self.(adj_rib_in),
   sum_list (map (λ rib : SocketAddr * AdjRibIn, size rib.2) (map_to_list self.(adj_rib_in))),
   size self.(loc_rib)).

Definition prefix_count (self : t) : nat := size self.(loc_rib).
End Rib.

(* ------------------------------------------------------------------ *)
(** ** The preference order *)

(** The criteria of the decision process, as numbers of which the lower is the
    better: a route is preferred when its tuple is lexicographically smaller. *)
Definition rank (r : Route.t) : list Z :=
  let a := r.(Route.attrs) in
  [(- default 100 a.(local_pref))%Z;
   Z.of_nat (Attrs.as_path_len a);
   match a.(origin) with Some o => Origin.to_u8 o | None => 2%Z end;
   default 0%Z a.(multi_exit_disc);
   r.(Route.received_at)].

Fixpoint lex (a b : list Z) : comparison :=
  match a, b with
  | [], [] => Eq
  | [], _ => Lt
  | _, [] => Gt
  | x :: a, y :: b => cmp_then (x ?= y)%Z (lex a b)
  end.

Definition lex_le (a b : list Z) : Prop := lex a b ≠ Gt.

Lemma lex_opp a b : lex b a = CompOpp (lex a b).
Proof.
  revert b; induction a as [|x a IH]; intros [|y b]; simpl; try done.
  rewrite (Z.compare_antisym x y), IH. by destruct (x ?= y)%Z.
Qed.

Lemma lex_refl a : lex a a = Eq.
Proof. induction a as [|x a IH]; simpl; [done|]. by rewrite Z.compare_refl. Qed.

Lemma lex_eq a b : lex a b = Eq → a = b.
Proof.
  revert b; induction a as [|x a IH]; intros [|y b]; simpl; try done.
  destruct (Z.compare_spec x y) as [->|?|?]; simpl; try done. intros ?. f_equal. by apply IH.
Qed.

#[export] Instance lex_le_preorder : PreOrder lex_le.
Proof.
  split.
  - intros a. unfold lex_le. by rewrite lex_refl.
  - intros a. induction a as [|x a IH]; intros [|y b] [|z c]; unfold lex_le in *; simpl; try done.
    destruct (Z.compare_spec x y), (Z.compare_spec y z); simpl; try done; intros ? Hbc; subst.
    + rewrite Z.compare_refl. simpl. by apply (IH b).
    + by rewrite (proj2 (Z.compare_lt_iff _ _)).
    + by rewrite (proj2 (Z.compare_lt_iff _ _)).
    + by rewrite (proj2 (Z.compare_lt_iff _ _)) by lia.
Qed.

#[export] Instance lex_le_total : Total lex_le.
Proof. intros a b. unfold lex_le. rewrite (lex_opp a b). destruct (lex a b); naive_solver. Qed.

#[export] Instance lex_le_antisymm : AntiSymm (=) lex_le.
Proof.
  intros a b. unfold lex_le. rewrite (lex_opp a b). intros H1 H2. apply lex_eq.
  by destruct (lex a b).
Qed.

Lemma route_cmp_rank a b : route_cmp a b = lex (rank a) (rank b).
Proof.
  unfold route_cmp, rank. simpl. rewrite Z.compare_opp, Nat2Z.inj_compare.
  repeat match goal with |- context [cmp_then ?c _] => destruct c; [|done..]; simpl end.
  done.
Qed.

(** [a] is at least as preferred as [b]. *)
Definition preferred (a b : Route.t) : Prop := lex_le (rank a) (rank b).

Section sort_lemmas.
Context {A : Type} (key : A → list Z) (cmp : A → A → comparison).
Hypothesis cmp_key : ∀ a b, cmp a b = lex (key a) (key b).
Let le a b := lex_le (key a) (key b).

Lemma insert_by_perm x l : insert_by cmp x l ≡ₚ x :: l.
Proof using.
  induction l as [|y l IH]; simpl; [done|].
  destruct (cmp y x); try done; rewrite IH; apply Permutation_swap.
Qed.

Lemma insert_by_sorted x l : StronglySorted le l → StronglySorted le (insert_by cmp x l).
Proof using cmp_key.
  induction 1 as [|y l Hl IH Hy]; simpl; [by repeat constructor|].
  assert (Hins : le y x → StronglySorted le (y :: insert_by cmp x l)).
  { intros Hyx. constructor; [done|]. rewrite insert_by_perm. by constructor. }
  destruct (cmp y x) eqn:Hc; rewrite cmp_key in Hc.
  - apply Hins. unfold le, lex_le. by rewrite Hc.
  - apply Hins. unfold le, lex_le. by rewrite Hc.
  - assert (le x y) as Hxy by (unfold le, lex_le; by rewrite lex_opp, Hc).
    constructor; [by constructor|]. constructor; [done|].
    eapply Forall_impl; [done|]. intros z Hz. unfold le in *. by etrans.
Qed.

Lemma sort_by_perm l : sort_by cmp l ≡ₚ l.
Proof using.
  unfold sort_by. change l with ([] ++ l) at 2. generalize (@nil A) as acc.
  induction l as [|x l IH]; intros acc; simpl; [by rewrite app_nil_r|].
  rewrite IH, insert_by_perm. apply Permutation_middle.
Qed.

Lemma sort_by_sorted l : StronglySorted le (sort_by cmp l).
Proof using cmp_key.
  unfold sort_by. assert (StronglySorted le []) as H by constructor. revert H.
  generalize (@nil A) as acc. induction l as [|x l IH]; intros acc Hacc; simpl; [done|].
  by apply IH, insert_by_sorted.
Qed.

(** The head of the sorted list is one of the elements, preferred to all. *)
Lemma sort_by_head l : l ≠ [] →
  ∃ x, sort_by cmp l !! 0 = Some x ∧ x ∈ l ∧ ∀ y, y ∈ l → le x y.
Proof using cmp_key.
  intros Hl. pose proof (sort_by_perm l) as Hp. pose proof (sort_by_sorted l) as Hs.
  destruct (sort_by cmp l) as [|x l'] eqn:Hsort.
  - by apply Permutation_nil_l in Hp.
  - exists x. split; [done|]. split; [rewrite <- Hp; by left|].
    intros y Hy. rewrite <- Hp in Hy. inv Hs as [|? ? _ Hx].
    apply elem_of_cons in Hy as [->|Hy]; [unfold le; done|].
    rewrite Forall_forall in Hx. by apply Hx.
Qed.
End sort_lemmas.

(* ------------------------------------------------------------------ *)
(** ** Consistency of Loc-RIB with Adj-RIB-In *)

(** Routes that differ only in the stale mark, which [mark_peer_stale] sets in
    Adj-RIB-In alone. *)
Definition fresh (r : Route.t) : Route.t := Route.set_stale r false.

#[export] Instance route_equiv : Equiv Route.t := λ r r', fresh r = fresh r'.

#[export] Instance route_equivalence : Equivalence (≡@{Route.t}).
Proof.
  split; unfold equiv, route_equiv.
  - by intros r.
  - by intros r r'.
  - intros r1 r2 r3 H1 H2. by etrans.
Qed.

Lemma rank_fresh r : rank (fresh r) = rank r.
Proof. done. Qed.

#[export] Instance rank_proper : Proper ((≡) ==> (=)) rank.
Proof. intros r r' Hr. by rewrite <- (rank_fresh r), <- (rank_fresh r'), Hr. Qed.

#[export] Instance preferred_proper : Proper ((≡) ==> (≡) ==> iff) preferred.
Proof. intros a a' Ha b b' Hb. unfold preferred. by rewrite Ha, Hb. Qed.

Lemma set_stale_equiv r b : Route.set_stale r b ≡ r.
Proof. done. Qed.

Abbreviation Adj := (gmap SocketAddr AdjRibIn).

(** [r] is what some peer advertises for [key]. *)
Definition candidate (adj : Adj) (key : PrefixKey.t) (r : Route.t) : Prop :=
  ∃ peer rib, adj !! peer = Some rib ∧ rib !! key = Some r.

Definition adj_lookup (adj : Adj) (peer : SocketAddr) (key : PrefixKey.t) : option Route.t :=
  adj !! peer ≫= λ rib, rib !! key.

Lemma candidate_lookup adj key r : candidate adj key r ↔ ∃ peer, adj_lookup adj peer key = Some r.
Proof. unfold candidate, adj_lookup. setoid_rewrite bind_Some. done. Qed.

(** The Loc-RIB entry of [key] is decided by Adj-RIB-In: absent when nobody
    advertises the prefix, and otherwise one of the advertised routes, preferred
    to all of them. *)
Definition decided (adj : Adj) (loc : LocRib) (key : PrefixKey.t) : Prop :=
  match loc !! key with
  | Some r => ∃ r', candidate adj key r' ∧ r ≡ r' ∧ ∀ r'', candidate adj key r'' → preferred r r''
  | None => ∀ r, ¬ candidate adj key r
  end.

(** The invariant of the RIB. *)
Record rib_wf (self : Rib.t) : Prop := {
  wf_decided key : decided self.(Rib.adj_rib_in) self.(Rib.loc_rib) key;
  wf_source peer key r : adj_lookup self.(Rib.adj_rib_in) peer key = Some r →
    r.(Route.peer_addr) = peer ∧ PrefixKey.from r.(Route.prefix) = key;
  wf_dampening : DampeningTable.wf self.(Rib.dampening)
}.

Section rib_lemmas.
Context {ord : HashOrder} {libm : Libm}.

Lemma candidates_of_values (adj : Adj) (l : list (SocketAddr * AdjRibIn)) key r :
  l ≡ₚ map_to_list adj →
  r ∈ omap (λ '(_, rib), (rib : AdjRibIn) !! key) l ↔ candidate adj key r.
Proof.
  intros Hl. rewrite list_elem_of_omap. unfold candidate. split.
  - intros ([peer rib]&Hin&Hr). rewrite Hl in Hin. apply elem_of_map_to_list in Hin. eauto.
  - intros (peer&rib&Hp&Hr). exists (peer, rib). split; [|done].
    rewrite Hl. by apply elem_of_map_to_list.
Qed.

(** The decision process decides its key and leaves the rest alone. *)
Lemma runs_decision self key :
  runs (Rib.run_decision_process self key) (λ self',
    ∃ loc, self' = Rib.set_loc_rib self loc ∧ decided self.(Rib.adj_rib_in) loc key ∧
      ∀ key', key' ≠ key → loc !! key' = self.(Rib.loc_rib) !! key').
Proof.
  unfold Rib.run_decision_process.
  eapply runs_bind; [by apply (runs_iter _ (λ l, l ≡ₚ map_to_list (Rib.adj_rib_in self)))|].
  intros l Hl. set (cands := omap _ l).
  assert (Hc : ∀ r, r ∈ cands ↔ candidate (Rib.adj_rib_in self) key r)
    by (intros r; by apply candidates_of_values).
  destruct cands as [|c cands'] eqn:Hcands.
  - apply runs_ret. eexists. split; [done|]. split.
    + unfold decided. rewrite lookup_delete_eq. intros r Hr. apply Hc in Hr. by inversion Hr.
    + intros key' Hk. by rewrite lookup_delete_ne.
  - rewrite <- Hcands in *.
    destruct (sort_by_head rank route_cmp route_cmp_rank cands) as (best&Hb&Hin&Hbest);
      [by rewrite Hcands|].
    eapply runs_bind; [by apply (runs_lift _ best (λ b, b = best)); [apply index_Ok|]|].
    intros ? ->. apply runs_ret. eexists. split; [done|]. split.
    + unfold decided. rewrite lookup_insert_eq. exists best. split_and!; [by apply Hc|done|].
      intros r Hr. by apply Hbest, Hc.
    + intros key' Hk. by rewrite lookup_insert_ne.
Qed.

(** Deciding a list of keys. *)
Lemma runs_decisions self keys :
  (∀ key, key ∉ keys → decided self.(Rib.adj_rib_in) self.(Rib.loc_rib) key) →
  runs (foldM Rib.run_decision_process keys self) (λ self',
    ∃ loc, self' = Rib.set_loc_rib self loc ∧ ∀ key, decided self.(Rib.adj_rib_in) loc key).
Proof.
  intros H0. eapply runs_mono; [apply (runs_foldM _ (λ done rest s,
    ∃ loc, s = Rib.set_loc_rib self loc ∧
      ∀ key, key ∉ rest → decided self.(Rib.adj_rib_in) loc key))|].
  - exists (Rib.loc_rib self). split; [by destruct self|done].
  - intros done a rest s _ (loc&->&Hdec). eapply runs_mono; [apply runs_decision|].
    intros s' (loc'&->&Ha&Hne). exists loc'. split; [done|]. intros key Hkey.
    destruct (decide (key = a)) as [->|Hka]; [done|].
    unfold decided. rewrite Hne by done. simpl. apply Hdec. set_solver.
  - intros s' (loc&->&Hdec). exists loc. split; [done|]. intros key. apply Hdec. set_solver.
Qed.

Lemma decided_ext (adj adj' : Adj) loc key :
  (∀ peer, adj_lookup adj' peer key ≡@{option Route.t} adj_lookup adj peer key) →
  decided adj loc key → decided adj' loc key.
Proof.
  intros Hadj. assert (Hc : ∀ r, candidate adj' key r → ∃ r', candidate adj key r' ∧ r ≡ r').
  { intros r (peer&Hr)%candidate_lookup. specialize (Hadj peer). rewrite Hr in Hadj.
    inversion Hadj as [? r' Heq Heq' Hr'|]; subst. exists r'. split; [|done].
    apply candidate_lookup. by exists peer. }
  assert (Hc' : ∀ r, candidate adj key r → ∃ r', candidate adj' key r' ∧ r ≡ r').
  { intros r (peer&Hr)%candidate_lookup. specialize (Hadj peer). rewrite Hr in Hadj.
    inversion Hadj as [r' ? Heq Hr' Heq'|]; subst. exists r'. split; [|by symmetry].
    apply candidate_lookup. by exists peer. }
  unfold decided. destruct (loc !! key) as [r|].
  - intros (r1&Hr1&Hr&Hbest). destruct (Hc' r1 Hr1) as (r2&Hr2&Heq). exists r2.
    split_and!; [done|by etrans|]. intros r3 (r4&Hr4&Heq4)%Hc. rewrite Heq4. by apply Hbest.
  - intros Hno r (r'&Hr'&_)%Hc. by destruct (Hno r').
Qed.
End rib_lemmas.

(* ------------------------------------------------------------------ *)
(** ** What an UPDATE does *)

(** Origin validation can be run on the prefixes: it is off, or the ROA table is
    usable and the addresses are 32-bit values. *)
Definition rov_ready (v : RpkiValidator.t) (nlri : list Prefix) : Prop :=
  v.(RpkiValidator.mode) = RpkiMode.Disabled ∨
  RpkiValidator.wf v ∧ Forall (λ q, u32 q.(address)) nlri.

Definition prefix_rov (v : RpkiValidator.t) (peer_as : Z) (q : Prefix) : RovState.t :=
  rov_spec v q.(address) q.(prefix_len) peer_as.

(** A prefix is installed unless dampening suppresses it or strict validation
    rejects it. *)
Definition accepted (d : DampeningTable.t) (v : RpkiValidator.t) (peer : SocketAddr)
    (peer_as : Z) (q : Prefix) : Prop :=
  DampeningTable.is_suppressed d peer (PrefixKey.from q) = false ∧
  RpkiValidator.should_reject v (prefix_rov v peer_as q) = false.

#[export] Instance accepted_dec d v peer peer_as q : Decision (accepted d v peer peer_as q).
Proof. unfold accepted. apply _. Defined.

(** The route an accepted prefix is installed as. *)
Definition accepted_route (v : RpkiValidator.t) (peer : SocketAddr) (peer_as : Z)
    (attrs : PathAttributes) (q : Prefix) (t : Instant) : Route.t :=
  {| Route.prefix := q; Route.attrs := attrs; Route.peer_addr := peer; Route.peer_as := peer_as;
     Route.received_at := t; Route.stale := false; Route.rov_state := prefix_rov v peer_as q |}.

#[export] Instance from_inj : Inj (=) (=) PrefixKey.from.
Proof. intros [l a] [l' a'] [=]. by subst. Qed.

Section update_lemmas.
Context {ord : HashOrder} {libm : Libm} (p : profile).

Lemma validate_ready v nlri peer_as q :
  rov_ready v nlri → q ∈ nlri →
  RpkiValidator.validate (E:=Empty_set) p v q.(address) q.(prefix_len) peer_as
    = Ok (prefix_rov v peer_as q).
Proof.
  intros [Hd|[Hwf Hu]] Hq.
  - rewrite validate_disabled by done. unfold prefix_rov, rov_spec. by rewrite decide_True.
  - apply validate_eq; [done|]. rewrite Forall_forall in Hu. by apply Hu.
Qed.

Lemma runs_withdrawals n d peer withdrawn :
  DampeningTable.wf d → DampeningTable.room p (length withdrawn + n) d →
  runs (foldM (λ d q, '(_, d) ← DampeningTable.record_withdrawal p d peer (PrefixKey.from q); mret d)
    withdrawn d) (λ d', DampeningTable.wf d' ∧ DampeningTable.room p n d').
Proof.
  intros Hwf Hroom. apply (runs_foldM _ (λ done rest d,
    DampeningTable.wf d ∧ DampeningTable.room p (length rest + n) d)); [done|].
  intros done q rest d' _ [Hwf' Hroom'].
  eapply runs_bind; [by apply (runs_record p (length rest + n))|].
  intros [b d''] (e&_&_&_&_&?&?). by apply runs_ret.
Qed.

(** The loop over the NLRI. *)
Lemma runs_nlri n v peer peer_as attrs nlri d (m : AdjRibIn) :
  DampeningTable.wf d → DampeningTable.room p n d → rov_ready v nlri →
  runs (foldM (Rib.process_prefix p v peer peer_as attrs) nlri (d, m, [])) (λ '(d', m', aff),
    (DampeningTable.wf d' ∧ DampeningTable.room p n d') ∧
    (∀ q, PrefixKey.from q ∈ aff ↔ q ∈ nlri ∧ accepted d' v peer peer_as q) ∧
    (∀ q, PrefixKey.from q ∈ aff →
       ∃ t, m' !! PrefixKey.from q = Some (accepted_route v peer peer_as attrs q t)) ∧
    (∀ key, key ∉ aff → m' !! key = m !! key)).
Proof.
  intros Hwf Hroom Hready. apply (runs_foldM _ (λ done rest '(d', m', aff),
    (DampeningTable.wf d' ∧ DampeningTable.room p n d') ∧
    (∀ q, PrefixKey.from q ∈ aff ↔ q ∈ done ∧ accepted d' v peer peer_as q) ∧
    (∀ q, PrefixKey.from q ∈ aff →
       ∃ t, m' !! PrefixKey.from q = Some (accepted_route v peer peer_as attrs q t)) ∧
    (∀ key, key ∉ aff → m' !! key = m !! key))).
  { split; [done|]. split_and!; [set_solver|set_solver|done]. }
  intros done a rest [[d1 m1] aff] Hl ([Hwf1 Hroom1]&Haff&Hin&Hout). unfold Rib.process_prefix.
  eapply runs_bind; [by apply (runs_check p n)|].
  intros [b d2] (Hb&Hmono&_&Hother&_&Hwf2&Hroom2).
  assert (Hsame : ∀ q, q ≠ a → accepted d2 v peer peer_as q ↔ accepted d1 v peer peer_as q).
  { intros q Hq. unfold accepted, DampeningTable.is_suppressed. rewrite Hother; [done|].
    intros Heq%(f_equal snd). by apply Hq, (inj PrefixKey.from). }
  assert (Ha : a ∈ nlri) by (rewrite Hl; set_solver).
  eapply runs_bind; [by apply (runs_lift _ (prefix_rov v peer_as a) (λ s, s = prefix_rov v peer_as a));
    [by eapply validate_ready|]|]. intros ? ->.
  assert (Hacc : accepted d2 v peer peer_as a ↔
    (b || RpkiValidator.should_reject v (prefix_rov v peer_as a))%bool = false)
    by (unfold accepted; by rewrite <- Hb, orb_false_iff).
  destruct (b || _)%bool eqn:Hskip.
  - apply runs_ret. split; [done|]. split_and!; [|done|done]. intros q. rewrite Haff.
    destruct (decide (q = a)) as [->|Hq]; [|rewrite Hsame by done; set_solver].
    split; [|naive_solver]. intros [_ [Hs Hr]]. exfalso.
    apply orb_prop in Hskip as [->|Hskip]; [by rewrite Hmono in Hs|congruence].
  - unfold Route.new. eapply runs_bind.
    { eapply runs_bind; [by apply (runs_now (λ _, True))|]. intros t _.
      by apply (runs_ret _ (λ r, ∃ t, r = Route.mk a attrs peer peer_as t false RovState.NotFound));
        exists t. }
    intros ? (t&->). apply runs_ret. split; [done|]. split_and!.
    + intros q. rewrite elem_of_app, Haff. destruct (decide (q = a)) as [->|Hq].
      * split; [|set_solver]. intros _. split; [set_solver|]. by apply Hacc.
      * rewrite Hsame by done. rewrite list_elem_of_singleton. split.
        -- intros [[??]|Hq'%(inj PrefixKey.from)]; [set_solver|done].
        -- intros [Hd ?]. left. set_solver.
    + intros q. rewrite elem_of_app, list_elem_of_singleton.
      destruct (decide (q = a)) as [->|Hq].
      * intros _. exists t. by rewrite lookup_insert_eq.
      * intros [Hq'|Hq'%(inj PrefixKey.from)]; [|done].
        rewrite lookup_insert_ne by (intros ?%(inj PrefixKey.from); congruence). by apply Hin.
    + intros key Hkey. rewrite lookup_insert_ne by set_solver. apply Hout. set_solver.
Qed.
End update_lemmas.

(** Adj-RIB-In after an UPDATE: withdrawn prefixes are gone (also those the same
    UPDATE announces), accepted ones are installed, everything else is as it was. *)
Definition adj_updated (adj adj' : Adj) (d' : DampeningTable.t) (v : RpkiValidator.t)
    (peer : SocketAddr) (peer_as : Z) (nlri : list Prefix) (attrs : PathAttributes)
    (withdrawn : list Prefix) : Prop :=
  (∀ peer' key, peer' ≠ peer → adj_lookup adj' peer' key = adj_lookup adj peer' key) ∧
  ∀ q, let key := PrefixKey.from q in
    if decide (q ∈ withdrawn) then adj_lookup adj' peer key = None
    else if decide (q ∈ nlri ∧ accepted d' v peer peer_as q)
    then ∃ t, adj_lookup adj' peer key = Some (accepted_route v peer peer_as attrs q t)
    else adj_lookup adj' peer key = adj_lookup adj peer key.

Lemma from_surj key : ∃ q, PrefixKey.from q = key.
Proof. destruct key as [a l]. by exists (Prefixes.new a l). Qed.

Lemma delete_all_lookup (m : AdjRibIn) (ps : list Prefix) q :
  foldl (λ m prefix, delete (PrefixKey.from prefix) m) m ps !! PrefixKey.from q =
    if decide (q ∈ ps) then None else m !! PrefixKey.from q.
Proof.
  revert m. induction ps as [|q' ps IH]; intros m; cbn [foldl].
  - rewrite decide_False by set_solver. done.
  - rewrite IH. destruct (decide (q = q')) as [->|Hq].
    + rewrite lookup_delete_eq, (decide_True (P:=_ ∈ _ :: _)) by set_solver. by case_decide.
    + rewrite lookup_delete_ne by (intros ?%(inj PrefixKey.from); congruence).
      destruct (decide (q ∈ ps)).
      * by rewrite decide_True by set_solver.
      * by rewrite decide_False by set_solver.
Qed.

Lemma adj_lookup_insert (adj : Adj) peer m peer' key :
  adj_lookup (<[peer := m]> adj) peer' key =
    if decide (peer' = peer) then m !! key else adj_lookup adj peer' key.
Proof.
  unfold adj_lookup. case_decide as Hp; [subst; by rewrite lookup_insert_eq|].
  by rewrite lookup_insert_ne.
Qed.

Lemma adj_lookup_delete (adj : Adj) peer peer' key :
  adj_lookup (delete peer adj) peer' key =
    if decide (peer' = peer) then None else adj_lookup adj peer' key.
Proof.
  unfold adj_lookup. case_decide as Hp; [subst; by rewrite lookup_delete_eq|].
  by rewrite lookup_delete_ne.
Qed.

Lemma adj_lookup_default (adj : Adj) peer key :
  default ∅ (adj !! peer) !! key = adj_lookup adj peer key.
Proof. unfold adj_lookup. by destruct (adj !! peer). Qed.

Section operation_lemmas.
Context {ord : HashOrder} {libm : Libm} (p : profile).

(** Only withdrawals start a suppression. *)
Definition suppresses_only (peer : SocketAddr) (withdrawn : list Prefix) (d d' : DampeningTable.t) : Prop :=
  ∀ q, DampeningTable.is_suppressed d' peer (PrefixKey.from q) = true →
    DampeningTable.is_suppressed d peer (PrefixKey.from q) = true ∨ q ∈ withdrawn.

Lemma runs_withdrawals_suppress n d peer withdrawn :
  DampeningTable.wf d → DampeningTable.room p (length withdrawn + n) d →
  runs (foldM (λ d q, '(_, d) ← DampeningTable.record_withdrawal p d peer (PrefixKey.from q); mret d)
    withdrawn d) (suppresses_only peer withdrawn d).
Proof.
  intros Hwf Hroom. eapply runs_mono; [apply (runs_foldM _ (λ done rest d',
    (DampeningTable.wf d' ∧ DampeningTable.room p (length rest + n) d') ∧
    suppresses_only peer done d d'))|by intros d' [_ ?]].
  { split; [done|]. intros q. by left. }
  intros done q rest d1 _ [[Hwf1 Hroom1] Hs1].
  eapply runs_bind; [by apply (runs_record p (length rest + n))|].
  intros [b d2] (e&->&_&_&_&?&?). apply runs_ret. split; [done|]. intros q' Hq'.
  destruct (decide (q' = q)) as [->|Hne]; [right; set_solver|].
  destruct (Hs1 q') as [?|?]; [|by left|right; set_solver].
  revert Hq'. unfold DampeningTable.is_suppressed. simpl. rewrite lookup_insert_ne; [done|].
  intros [= Heq]. apply Hne. by destruct q, q'; simpl in *; subst.
Qed.

Lemma runs_nlri_suppress n v peer peer_as attrs nlri d m aff :
  DampeningTable.wf d → DampeningTable.room p n d → rov_ready v nlri →
  runs (foldM (Rib.process_prefix p v peer peer_as attrs) nlri (d, m, aff)) (λ '(d', _, _),
    suppresses_only peer [] d d').
Proof.
  intros Hwf Hroom Hready.
  eapply runs_mono; [apply (runs_foldM _ (λ _ _ '(d', _, _),
    (DampeningTable.wf d' ∧ DampeningTable.room p n d') ∧
    suppresses_only peer [] d d'))|by intros [[d' m'] aff'] [_ ?]]; [by split; [|intros q; left]|].
  intros done q rest [[d1 m1] aff1] Hl [[Hwf1 Hroom1] Hd1]. unfold Rib.process_prefix.
  eapply runs_bind; [by apply (runs_check p n)|].
  intros [b d2] (Hb&Hmono&_&Hother&_&?&?).
  assert (suppresses_only peer [] d d2) as Hd2.
  { intros q' Hq'. apply Hd1. destruct (decide (PrefixKey.from q' = PrefixKey.from q)) as [Heq|Hne].
    - rewrite Heq in *. rewrite <- Hb in Hq'. by apply Hmono.
    - revert Hq'. unfold DampeningTable.is_suppressed. by rewrite Hother by congruence. }
  assert (q ∈ nlri) by (rewrite Hl; set_solver).
  eapply runs_bind; [apply (runs_lift _ (prefix_rov v peer_as q) (λ _, True));
    [by eapply validate_ready|done]|]. intros rov _.
  destruct (b || _)%bool; [by apply runs_ret|]. unfold Route.new.
  eapply runs_bind; [eapply runs_bind; [by apply (runs_now (λ _, True))|];
    intros; by apply (runs_ret _ (λ _, True))|]. intros route _. by apply runs_ret.
Qed.

Lemma runs_update_suppress n self peer peer_as nlri attrs withdrawn :
  rib_wf self → rov_ready self.(Rib.rpki) nlri →
  DampeningTable.room p (length withdrawn + n) self.(Rib.dampening) →
  runs (Rib.process_update p self peer peer_as nlri attrs withdrawn) (λ self',
    suppresses_only peer withdrawn self.(Rib.dampening) self'.(Rib.dampening)).
Proof.
  intros [Hdec Hsrc Hwf] Hready Hroom. unfold Rib.process_update.
  eapply runs_bind; [apply runs_and; [by apply (runs_withdrawals p n)|by apply (runs_withdrawals_suppress n)]|].
  intros d1 [[Hwf1 Hroom1] Hs1]. cbv zeta.
  eapply runs_bind; [by apply (runs_nlri_suppress n)|]. intros [[d2 m] aff] Hs2. cbv zeta.
  apply (runs_foldM _ (λ _ _ s, suppresses_only peer withdrawn self.(Rib.dampening) s.(Rib.dampening))).
  - intros q Hq. apply Hs1. by destruct (Hs2 q Hq) as [?|?%elem_of_nil].
  - intros done key rest s _ Hs. eapply runs_mono; [apply runs_decision|]. by intros s' (loc&->&_).
Qed.

Lemma runs_process_update n self peer peer_as nlri attrs withdrawn :
  rib_wf self → rov_ready self.(Rib.rpki) nlri →
  DampeningTable.room p (length withdrawn + n) self.(Rib.dampening) →
  runs (Rib.process_update p self peer peer_as nlri attrs withdrawn) (λ self',
    rib_wf self' ∧ self'.(Rib.rpki) = self.(Rib.rpki) ∧
    DampeningTable.room p n self'.(Rib.dampening) ∧
    adj_updated self.(Rib.adj_rib_in) self'.(Rib.adj_rib_in) self'.(Rib.dampening)
      self.(Rib.rpki) peer peer_as nlri attrs withdrawn).
Proof.
  intros [Hdec Hsrc Hdamp] Hready Hroom. unfold Rib.process_update.
  eapply runs_bind; [by apply (runs_withdrawals p n)|]. intros d1 [Hd1 Hn1].
  eapply runs_bind; [by apply (runs_nlri p n)|]. intros [[d2 m] aff] ([Hd2 Hn2]&Haff&Hin&Hout).
  set (m' := foldl _ m withdrawn). set (adj' := <[peer := m']> (Rib.adj_rib_in self)).
  assert (Hupd : adj_updated (Rib.adj_rib_in self) adj' d2 (Rib.rpki self) peer peer_as nlri attrs withdrawn).
  { split; [intros peer' key Hp; unfold adj'; by rewrite adj_lookup_insert, decide_False|].
    intros q key. unfold adj'. rewrite adj_lookup_insert, (decide_True (P:=peer = peer)) by done.
    unfold m', key. rewrite delete_all_lookup. destruct (decide (q ∈ withdrawn)); [done|].
    case_decide as Hacc; [by apply Hin, Haff|].
    rewrite Hout by (by rewrite Haff). apply adj_lookup_default. }
  eapply runs_mono; [apply runs_decisions|]; cbn [Rib.adj_rib_in Rib.loc_rib Rib.set_adj_rib_in Rib.set_dampening].
  - intros key Hkey. apply not_elem_of_app in Hkey as [Hk1 Hk2].
    destruct (from_surj key) as [q <-].
    eapply decided_ext; [|apply Hdec]. intros peer'. destruct Hupd as [Hother Hsame].
    destruct (decide (peer' = peer)) as [->|Hp]; [|by rewrite Hother].
    specialize (Hsame q). simpl in Hsame. rewrite decide_False in Hsame.
    2: { intros Hq. apply Hk2. apply list_elem_of_fmap. by exists q. }
    rewrite decide_False in Hsame; [by rewrite Hsame|]. by rewrite <- Haff.
  - intros self' (loc&->&Hall). cbn. split_and!; [|done..].
    split; cbn; [done| |done].
    intros peer' key r Hr. destruct Hupd as [Hother Hsame].
    destruct (decide (peer' = peer)) as [->|Hp]; [|rewrite Hother in Hr by done; by apply Hsrc].
    destruct (from_surj key) as [q <-]. specialize (Hsame q). simpl in Hsame.
    case_decide; [congruence|]. case_decide.
    + destruct Hsame as [t Ht]. rewrite Ht in Hr. by injection Hr as <-.
    + rewrite Hsame in Hr. by apply Hsrc.
Qed.

Lemma map_fst_perm {V} (m : gmap PrefixKey.t V) (l : list (PrefixKey.t * V)) key :
  l ≡ₚ map_to_list m → key ∈ map fst l ↔ is_Some (m !! key).
Proof.
  intros Hl. rewrite list_elem_of_fmap. split.
  - intros ([k v]&->&Hin). rewrite Hl in Hin. apply elem_of_map_to_list in Hin. by exists v.
  - intros [v Hv]. exists (key, v). split; [done|]. rewrite Hl. by apply elem_of_map_to_list.
Qed.

Lemma runs_remove_peer self peer :
  rib_wf self →
  runs (Rib.remove_peer self peer) (λ '(self', keys),
    rib_wf self' ∧ self'.(Rib.rpki) = self.(Rib.rpki) ∧
    self'.(Rib.adj_rib_in) = delete peer self.(Rib.adj_rib_in) ∧
    self'.(Rib.dampening) = DampeningTable.remove_peer self.(Rib.dampening) peer ∧
    ∀ key, key ∈ keys ↔ is_Some (adj_lookup self.(Rib.adj_rib_in) peer key)).
Proof.
  intros [Hdec Hsrc Hdamp]. unfold Rib.remove_peer.
  eapply (runs_bind _ _ (λ keys, ∀ key,
    key ∈ keys ↔ is_Some (adj_lookup (Rib.adj_rib_in self) peer key))).
  { unfold adj_lookup. destruct (Rib.adj_rib_in self !! peer) as [rib|]; simpl.
    - eapply runs_bind; [by apply (runs_iter rib (λ l, l ≡ₚ map_to_list rib))|]. intros l Hl.
      apply runs_ret. intros key. by apply map_fst_perm.
    - apply runs_ret. intros key. split; [set_solver|by intros [? ?]]. }
  intros keys Hkeys. eapply runs_bind; [apply runs_decisions|]; cbn.
  { intros key Hkey. eapply decided_ext; [|apply Hdec]. intros peer'.
    rewrite adj_lookup_delete. case_decide as Hp; [|done]. subst.
    rewrite Hkeys in Hkey. by apply eq_None_not_Some in Hkey as ->. }
  intros self' (loc&->&Hall). apply runs_ret. cbn. split_and!; try done.
  split; cbn; [done| |by apply remove_peer_wf].
  intros peer' key r. rewrite adj_lookup_delete. case_decide; [done|]. apply Hsrc.
Qed.

Lemma mark_peer_stale_lookup self peer peer' key :
  adj_lookup (Rib.mark_peer_stale self peer).(Rib.adj_rib_in) peer' key =
    if decide (peer' = peer)
    then (λ r, Route.set_stale r true) <$> adj_lookup self.(Rib.adj_rib_in) peer' key
    else adj_lookup self.(Rib.adj_rib_in) peer' key.
Proof.
  unfold Rib.mark_peer_stale. destruct (Rib.adj_rib_in self !! peer) as [rib|] eqn:Hp; cbn.
  - rewrite adj_lookup_insert. case_decide as Heq; [|done]. subst.
    unfold adj_lookup. rewrite Hp. simpl. by rewrite lookup_fmap.
  - case_decide as Heq; [|done]. subst. unfold adj_lookup. by rewrite Hp.
Qed.

Lemma mark_peer_stale_wf self peer : rib_wf self → rib_wf (Rib.mark_peer_stale self peer).
Proof.
  intros [Hdec Hsrc Hdamp].
  assert (Hloc : (Rib.mark_peer_stale self peer).(Rib.loc_rib) = self.(Rib.loc_rib) ∧
    (Rib.mark_peer_stale self peer).(Rib.dampening) = self.(Rib.dampening))
    by (unfold Rib.mark_peer_stale; by case_match).
  destruct Hloc as [Hloc Hd]. split; rewrite ?Hloc, ?Hd; [| |done].
  - intros key. eapply decided_ext; [|apply Hdec]. intros peer'. rewrite mark_peer_stale_lookup.
    case_decide; [|done]. by destruct (adj_lookup _ _ _); constructor.
  - intros peer' key r. rewrite mark_peer_stale_lookup. case_decide; [|apply Hsrc].
    intros (r0&Hr0&->)%fmap_Some. exact (Hsrc peer' key r0 Hr0).
Qed.

Lemma delete_keys_lookup {V} (m : gmap PrefixKey.t V) (keys : list PrefixKey.t) key :
  foldl (λ m k, delete k m) m keys !! key = if decide (key ∈ keys) then None else m !! key.
Proof.
  revert m. induction keys as [|k keys IH]; intros m; cbn [foldl].
  - by rewrite decide_False by set_solver.
  - rewrite IH. destruct (decide (key = k)) as [->|Hk].
    + rewrite lookup_delete_eq, (decide_True (P:=_ ∈ _ :: _)) by set_solver. by case_decide.
    + rewrite lookup_delete_ne by done. destruct (decide (key ∈ keys)).
      * by rewrite decide_True by set_solver.
      * by rewrite decide_False by set_solver.
Qed.

Lemma runs_remove_stale self peer :
  rib_wf self →
  runs (Rib.remove_stale_for_peer self peer) (λ '(self', keys),
    rib_wf self' ∧ self'.(Rib.rpki) = self.(Rib.rpki) ∧ self'.(Rib.dampening) = self.(Rib.dampening) ∧
    (∀ key, key ∈ keys ↔
       ∃ r, adj_lookup self.(Rib.adj_rib_in) peer key = Some r ∧ r.(Route.stale) = true) ∧
    ∀ peer' key, adj_lookup self'.(Rib.adj_rib_in) peer' key =
      if decide (peer' = peer ∧ key ∈ keys) then None
      else adj_lookup self.(Rib.adj_rib_in) peer' key).
Proof.
  intros [Hdec Hsrc Hdamp]. unfold Rib.remove_stale_for_peer.
  eapply (runs_bind _ _ (λ keys, ∀ key, key ∈ keys ↔
    ∃ r, adj_lookup (Rib.adj_rib_in self) peer key = Some r ∧ Route.stale r = true)).
  { unfold adj_lookup. destruct (Rib.adj_rib_in self !! peer) as [rib|]; simpl.
    - eapply runs_bind; [by apply (runs_iter rib (λ l, l ≡ₚ map_to_list rib))|]. intros l Hl.
      apply runs_ret. intros key. rewrite list_elem_of_fmap. split.
      + intros ([k r]&->&[Hs Hin]%list_elem_of_filter). rewrite Hl in Hin.
        apply elem_of_map_to_list in Hin. by exists r.
      + intros (r&Hr&Hs). exists (key, r). split; [done|]. apply list_elem_of_filter.
        split; [done|]. rewrite Hl. by apply elem_of_map_to_list.
    - apply runs_ret. intros key. split; [set_solver|by intros (?&?&?)]. }
  intros keys Hkeys. set (self1 := (match _ with Some _ => _ | None => self end : Rib.t)).
  assert (Hself1 : Rib.loc_rib self1 = Rib.loc_rib self ∧ Rib.dampening self1 = Rib.dampening self ∧
    Rib.rpki self1 = Rib.rpki self) by (unfold self1; by case_match).
  destruct Hself1 as (Hl1&Hd1&Hr1).
  assert (Hlook : ∀ peer' key, adj_lookup (Rib.adj_rib_in self1) peer' key =
    if decide (peer' = peer ∧ key ∈ keys) then None
    else adj_lookup (Rib.adj_rib_in self) peer' key).
  { intros peer' key. unfold self1. destruct (Rib.adj_rib_in self !! peer) as [rib|] eqn:Hp; cbn.
    - assert (Hrib : ∀ key, (foldl (λ (m : AdjRibIn) key, delete key m) rib keys) !! key =
        if decide (key ∈ keys) then None else adj_lookup (Rib.adj_rib_in self) peer key).
      { intros k. rewrite delete_keys_lookup. unfold adj_lookup. by rewrite Hp. }
      specialize (Hrib key). destruct (decide (foldl _ rib keys = ∅)) as [Hempty|Hempty].
      + rewrite Hempty, lookup_empty in Hrib. rewrite adj_lookup_delete.
        destruct (decide (peer' = peer)) as [->|Hne].
        * destruct (decide (key ∈ keys)); [by rewrite decide_True by done|].
          by rewrite decide_False by tauto.
        * by rewrite decide_False by tauto.
      + rewrite adj_lookup_insert. destruct (decide (peer' = peer)) as [->|Hne].
        * rewrite Hrib. destruct (decide (key ∈ keys)); [by rewrite decide_True by done|].
          by rewrite decide_False by tauto.
        * by rewrite decide_False by tauto.
    - case_decide as Hk; [|done]. destruct Hk as [-> _]. unfold adj_lookup. by rewrite Hp. }
  eapply runs_bind; [apply runs_decisions|].
  { intros key Hkey. rewrite Hl1. eapply decided_ext; [|apply Hdec]. intros peer'. rewrite Hlook.
    by rewrite decide_False by tauto. }
  intros self' (loc&->&Hall). apply runs_ret. cbn. split_and!; try done.
  split; cbn; [done| |by rewrite Hd1].
  intros peer' key r. rewrite Hlook. case_decide; [done|]. apply Hsrc.
Qed.
End operation_lemmas.
