(* ===== verification/RibSpec.v ===== *)
(** * Properties of the RIB

    The theorems about [Rib.v]: the invariant along every sequence of operations,
    what each operation does to Adj-RIB-In, the decision process and longest-prefix
    match. *)

From S2P Require Import Prelude.
From S2P Require Import Attr.
From S2P Require Import UpdateMessage.
From S2P Require Import Rpki.
From S2P Require Import Env.
From S2P Require Import Dampening.
From S2P Require Import Rib.

(** The calls the sessions make on the shared RIB. *)
Inductive rib_op :=
| OpUpdate (peer : SocketAddr) (peer_as : Z) (nlri : list Prefix) (attrs : PathAttributes)
    (withdrawn : list Prefix)
| OpRemovePeer (peer : SocketAddr)
| OpMarkStale (peer : SocketAddr)
| OpRemoveStale (peer : SocketAddr).

Definition apply_op `{HashOrder, Libm} (p : profile) (self : Rib.t) (op : rib_op) : io Rib.t :=
  match op with
  | OpUpdate peer peer_as nlri attrs withdrawn =>
      Rib.process_update p self peer peer_as nlri attrs withdrawn
  | OpRemovePeer peer => '(self, _) ← Rib.remove_peer self peer; mret self
  | OpMarkStale peer => mret (Rib.mark_peer_stale self peer)
  | OpRemoveStale peer => '(self, _) ← Rib.remove_stale_for_peer self peer; mret self
  end.

(** The withdrawals an operation records. *)
Definition op_withdrawals (op : rib_op) : nat :=
  match op with OpUpdate _ _ _ _ withdrawn => length withdrawn | _ => 0 end.

Section lemmas.
Context {ord : HashOrder} {libm : Libm} (p : profile).

Lemma room_remove_peer n d peer :
  DampeningTable.room p n d → DampeningTable.room p n (DampeningTable.remove_peer d peer).
Proof.
  intros [?|[? Hroom]]; [by left|right]. split; [done|]. intros [peer' k] e Hk.
  rewrite lookup_remove_peer in Hk. case_decide; [done|]. by apply (Hroom _ _ Hk).
Qed.

Lemma mark_stale_other self peer :
  (Rib.mark_peer_stale self peer).(Rib.dampening) = self.(Rib.dampening) ∧
  (Rib.mark_peer_stale self peer).(Rib.rpki) = self.(Rib.rpki) ∧
  (Rib.mark_peer_stale self peer).(Rib.loc_rib) = self.(Rib.loc_rib).
Proof. unfold Rib.mark_peer_stale. by case_match. Qed.

(** One operation keeps the invariant. *)
Lemma runs_apply_op n self op :
  rib_wf self → self.(Rib.rpki).(RpkiValidator.mode) = RpkiMode.Disabled →
  DampeningTable.room p (op_withdrawals op + n) self.(Rib.dampening) →
  runs (apply_op p self op) (λ self', rib_wf self' ∧
    self'.(Rib.rpki).(RpkiValidator.mode) = RpkiMode.Disabled ∧
    DampeningTable.room p n self'.(Rib.dampening)).
Proof.
  intros Hwf Hmode Hroom. destruct op as [peer peer_as nlri attrs wd|peer|peer|peer]; simpl in *.
  - eapply runs_mono; [apply (runs_process_update p n); [done|by left|done]|].
    intros self' (?&->&?&_). done.
  - eapply runs_bind; [by apply runs_remove_peer|]. intros [self' keys] (?&Hr&_&Hd&_).
    apply runs_ret. rewrite Hr, Hd. split_and!; [done|done|]. by apply room_remove_peer.
  - apply runs_ret. destruct (mark_stale_other self peer) as (->&->&_).
    split_and!; [by apply mark_peer_stale_wf|done|done].
  - eapply runs_bind; [by apply runs_remove_stale|]. intros [self' keys] (?&Hr&Hd&_).
    apply runs_ret. by rewrite Hr, Hd.
Qed.

Lemma rib_new_wf : rib_wf Rib.new.
Proof.
  split; [|done|apply map_Forall_empty]. intros key. unfold decided. simpl.
  rewrite lookup_empty. intros r (peer&rib&Hp&_). by rewrite lookup_empty in Hp.
Qed.

(** The source of a Loc-RIB route: the peer's route for that prefix, up to the
    stale mark. *)
Lemma loc_rib_source self key r :
  rib_wf self → self.(Rib.loc_rib) !! key = Some r →
  ∃ r', adj_lookup self.(Rib.adj_rib_in) r.(Route.peer_addr) key = Some r' ∧ r ≡ r'.
Proof.
  intros [Hdec Hsrc _] Hr. specialize (Hdec key). unfold decided in Hdec. rewrite Hr in Hdec.
  destruct Hdec as (r'&(peer&Hr')%candidate_lookup&Heq&_). exists r'. split; [|done].
  destruct (Hsrc _ _ _ Hr') as [Hp _]. pose proof (f_equal Route.peer_addr Heq) as Hp'.
  simpl in Hp'. by rewrite Hp', Hp.
Qed.

(** Coverage of an address by a key, as networks. *)
Definition covers (key : PrefixKey.t) (addr : Ipv4Addr) : Prop :=
  (addr / 2 ^ (32 - key.(PrefixKey.prefix_len)) =
   key.(PrefixKey.address) / 2 ^ (32 - key.(PrefixKey.prefix_len)))%Z.

Definition key_wf (key : PrefixKey.t) : Prop :=
  (0 ≤ key.(PrefixKey.prefix_len) ≤ 32)%Z ∧ u32 key.(PrefixKey.address).

Lemma key_covers_eq key addr :
  key_wf key → u32 addr →
  ∃ b, Rib.key_covers p key addr = Ok b ∧ (b = true ↔ covers key addr).
Proof.
  intros [Hl Ha] Haddr. unfold Rib.key_covers, covers.
  destruct (Z.eqb_spec (PrefixKey.prefix_len key) 0) as [->|Hne].
  - exists true. split; [done|]. split; [|done]. intros _. unfold uint in *.
    change (32 - 0)%Z with 32%Z. by rewrite !Z.div_small by lia.
  - rewrite sub_uint_le by lia. cbn [mbind outcome_bind]. rewrite !shr_uint_lt by lia.
    cbn [mbind outcome_bind]. eexists. split; [done|].
    rewrite !Z.shiftr_div_pow2 by lia. by rewrite Z.eqb_eq.
Qed.

Lemma key_covers_debug key addr :
  Rib.key_covers Debug key addr = Panic ∨ ∃ b, Rib.key_covers Debug key addr = Ok b.
Proof.
  unfold Rib.key_covers, sub_uint, shr_uint.
  destruct (_ =? 0)%Z; [by right; eexists|].
  destruct (_ <=? 32)%Z; simpl; [|by left].
  destruct (_ <? 32)%Z; simpl; [by right; eexists|by left].
Qed.

(** The fold of [max_by_key]: the result is a longest covering entry. *)
Definition longest (addr : Ipv4Addr) (l : list (PrefixKey.t * Route.t))
    (best : option (PrefixKey.t * Route.t)) : Prop :=
  match best with
  | Some b => b ∈ l ∧ covers b.1 addr ∧ ∀ kr, kr ∈ l → covers kr.1 addr →
                (kr.1.(PrefixKey.prefix_len) ≤ b.1.(PrefixKey.prefix_len))%Z
  | None => ∀ kr, kr ∈ l → ¬ covers kr.1 addr
  end.

Lemma best_match_longest addr l :
  u32 addr → Forall (λ kr : PrefixKey.t * Route.t, key_wf kr.1) l →
  ∃ best, Rib.best_match p addr l None = Ok best ∧ longest addr l best.
Proof.
  intros Haddr Hl.
  assert (∀ done best, longest addr done best →
    ∃ best', Rib.best_match p addr l best = Ok best' ∧ longest addr (done ++ l) best') as Hgen.
  { induction Hl as [|kr l Hkr _ IH]; intros done best Hb; cbn [Rib.best_match].
    { exists best. by rewrite app_nil_r. }
    destruct (key_covers_eq kr.1 addr Hkr Haddr) as (b&->&Hcov). cbn [mbind outcome_bind].
    replace (done ++ kr :: l) with ((done ++ [kr]) ++ l) by (by rewrite <- app_assoc). apply IH.
    destruct b.
    - assert (covers kr.1 addr) by (by apply Hcov). destruct best as [b|]; simpl in *.
      + destruct Hb as (Hin&Hc&Hmax). case_match eqn:Hlt; simpl.
        * split_and!; [set_solver|done|]. intros kr' [Hk|Hk%list_elem_of_singleton]%elem_of_app ?;
            [by apply Hmax|subst; lia].
        * split_and!; [set_solver|done|]. intros kr' [Hk|Hk%list_elem_of_singleton]%elem_of_app ?;
            [specialize (Hmax _ Hk ltac:(done)); lia|subst; lia].
      + split_and!; [set_solver|done|]. intros kr' [Hk|Hk%list_elem_of_singleton]%elem_of_app ?;
          [by destruct (Hb _ Hk)|subst; lia].
    - assert (¬ covers kr.1 addr) by (by rewrite <- Hcov). destruct best as [b|]; simpl in *.
      + destruct Hb as (Hin&Hc&Hmax). split_and!; [set_solver|done|].
        intros kr' [Hk|Hk%list_elem_of_singleton]%elem_of_app ?; [by apply Hmax|by subst].
      + intros kr' [Hk|Hk%list_elem_of_singleton]%elem_of_app; [by apply Hb|by subst]. }
  apply (Hgen [] None). intros kr Hk. by inversion Hk.
Qed.
End lemmas.

(* ------------------------------------------------------------------ *)
(** ** Properties *)

(** C1: from the empty RIB, whatever updates, disconnections, stale marks and
    purges the sessions perform, in either build profile (a debug build below
    2^32 withdrawals), no operation panics, and every Loc-RIB entry is decided by
    Adj-RIB-In: present exactly for the advertised prefixes, and a route preferred
    to all those advertised, up to the stale mark. *)
Theorem rib_consistent {ord : HashOrder} {libm : Libm} p ops e :
  p = Release ∨ (Z.of_nat (sum_list (map op_withdrawals ops)) < 2 ^ 32)%Z →
  ∃ self' e', foldM (apply_op p) ops Rib.new e = Ok (self', e') ∧ rib_wf self'.
Proof.
  intros Hroom.
  assert (runs (foldM (apply_op p) ops Rib.new) rib_wf) as Hruns.
  { eapply runs_mono; [apply (runs_foldM _ (λ done rest self, rib_wf self ∧
      self.(Rib.rpki).(RpkiValidator.mode) = RpkiMode.Disabled ∧
      DampeningTable.room p (sum_list (map op_withdrawals rest)) self.(Rib.dampening)))
      |by intros self' [? _]].
    - split; [apply rib_new_wf|]. split; [done|]. destruct Hroom as [?|?]; [by left|right].
      split; [done|apply map_Forall_empty].
    - intros done op rest self _ (?&?&?). by apply runs_apply_op. }
  destruct (Hruns e) as (self'&e'&?&?). eauto.
Qed.

(** C4: what an UPDATE does to Adj-RIB-In: the prefixes it withdraws are gone
    (even those it also announces), the announced prefixes that are neither
    suppressed by dampening nor rejected by strict origin validation carry the new
    attributes, unmarked as stale, and every other entry, in particular the old
    route of a rejected announcement, is as before. *)
Theorem process_update_spec {ord : HashOrder} {libm : Libm} p self peer peer_as nlri attrs withdrawn e :
  rib_wf self → rov_ready self.(Rib.rpki) nlri →
  DampeningTable.room p (length withdrawn) self.(Rib.dampening) →
  ∃ self' e', Rib.process_update p self peer peer_as nlri attrs withdrawn e = Ok (self', e') ∧
    rib_wf self' ∧
    (∀ peer' key, peer' ≠ peer →
       adj_lookup self'.(Rib.adj_rib_in) peer' key = adj_lookup self.(Rib.adj_rib_in) peer' key) ∧
    ∀ q, let key := PrefixKey.from q in
      if decide (q ∈ withdrawn) then adj_lookup self'.(Rib.adj_rib_in) peer key = None
      else if decide (q ∈ nlri ∧ accepted self'.(Rib.dampening) self.(Rib.rpki) peer peer_as q)
      then ∃ t, adj_lookup self'.(Rib.adj_rib_in) peer key =
                  Some (accepted_route self.(Rib.rpki) peer peer_as attrs q t)
      else adj_lookup self'.(Rib.adj_rib_in) peer key = adj_lookup self.(Rib.adj_rib_in) peer key.
Proof.
  intros Hwf Hready Hroom. rewrite <- (Nat.add_0_r (length withdrawn)) in Hroom.
  destruct (runs_process_update p 0 self peer peer_as nlri attrs withdrawn Hwf Hready Hroom e)
    as (self'&e'&Hrun&?&_&_&Hadj&?).
  by exists self', e'.
Qed.

(** C3: the decision process prefers a higher LOCAL_PREF (100 when absent), then
    a shorter AS_PATH, then a lower ORIGIN (incomplete when absent), then a lower
    MED (0 when absent), then the older route; the comparator of the sort is that
    order, which is total and transitive. *)
Theorem decision_criteria a b :
  (route_cmp a b ≠ Gt ↔
    let lp r := default 100%Z r.(Route.attrs).(local_pref) in
    let len r := Z.of_nat (Attrs.as_path_len r.(Route.attrs)) in
    let org r := match r.(Route.attrs).(origin) with Some o => Origin.to_u8 o | None => 2%Z end in
    let med r := default 0%Z r.(Route.attrs).(multi_exit_disc) in
    (lp b < lp a ∨ lp a = lp b ∧
      (len a < len b ∨ len a = len b ∧
        (org a < org b ∨ org a = org b ∧
          (med a < med b ∨ med a = med b ∧
            a.(Route.received_at) ≤ b.(Route.received_at)))))%Z) ∧
  (route_cmp a b ≠ Gt ∨ route_cmp b a ≠ Gt) ∧
  ∀ c, route_cmp a b ≠ Gt → route_cmp b c ≠ Gt → route_cmp a c ≠ Gt.
Proof.
  split_and!.
  - unfold route_cmp, cmp_then. cbv zeta.
    destruct (Z.compare_spec (default 100%Z (local_pref (Route.attrs b)))
                             (default 100%Z (local_pref (Route.attrs a)))); [|split; [lia|done]|split; [done|lia]].
    destruct (Nat.compare_spec (Attrs.as_path_len (Route.attrs a)) (Attrs.as_path_len (Route.attrs b)));
      [|split; [lia|done]|split; [done|lia]].
    match goal with |- context [(?x ?= ?y)%Z] => destruct (Z.compare_spec x y) end;
      [|split; [lia|done]|split; [done|lia]].
    match goal with |- context [(?x ?= ?y)%Z] => destruct (Z.compare_spec x y) end;
      [|split; [lia|done]|split; [done|lia]].
    match goal with |- context [(?x ?= ?y)%Z] => destruct (Z.compare_spec x y) end;
      split; done || lia.
  - rewrite !route_cmp_rank. apply lex_le_total.
  - intros c. rewrite !route_cmp_rank. apply lex_le_preorder.
Qed.

(** C38: the order in which the hash map yields the candidates does not matter:
    in any two environments the decision process picks routes that are equal on
    all the criteria, or none in both. *)
Theorem decision_order_independent {ord : HashOrder} {libm : Libm} self key e1 e2 s1 s2 e1' e2' :
  Rib.run_decision_process self key e1 = Ok (s1, e1') →
  Rib.run_decision_process self key e2 = Ok (s2, e2') →
  rank <$> s1.(Rib.loc_rib) !! key = rank <$> s2.(Rib.loc_rib) !! key.
Proof.
  intros H1 H2.
  destruct (runs_Ok _ _ _ _ _ (runs_decision self key) H1) as (loc1&->&D1&_).
  destruct (runs_Ok _ _ _ _ _ (runs_decision self key) H2) as (loc2&->&D2&_).
  unfold decided in *. cbn. destruct (loc1 !! key) as [r1|], (loc2 !! key) as [r2|]; simpl; [| | |done].
  - destruct D1 as (r1'&Hc1&Heq1&Hp1), D2 as (r2'&Hc2&Heq2&Hp2). f_equal.
    specialize (Hp1 _ Hc2). specialize (Hp2 _ Hc1). rewrite <- Heq2 in Hp1. rewrite <- Heq1 in Hp2.
    by apply (anti_symm lex_le).
  - destruct D1 as (r1'&Hc1&_). by destruct (D2 _ Hc1).
  - destruct D2 as (r2'&Hc2&_). by destruct (D1 _ Hc2).
Qed.

(** C26: removing a peer removes its routes from Adj-RIB-In and from Loc-RIB,
    leaves the other peers' routes and dampening history, and returns exactly the
    prefixes the peer had advertised. *)
Theorem remove_peer_spec {ord : HashOrder} {libm : Libm} self peer e :
  rib_wf self →
  ∃ self' keys e', Rib.remove_peer self peer e = Ok ((self', keys), e') ∧ rib_wf self' ∧
    self'.(Rib.adj_rib_in) = delete peer self.(Rib.adj_rib_in) ∧
    (∀ key r, self'.(Rib.loc_rib) !! key = Some r → r.(Route.peer_addr) ≠ peer) ∧
    (∀ key, key ∈ keys ↔ is_Some (adj_lookup self.(Rib.adj_rib_in) peer key)) ∧
    ∀ peer' key, DampeningTable.is_suppressed self'.(Rib.dampening) peer' key =
      (negb (bool_decide (peer' = peer)) && DampeningTable.is_suppressed self.(Rib.dampening) peer' key)%bool.
Proof.
  intros Hwf. destruct (runs_remove_peer self peer Hwf e) as ([self' keys]&e'&Hrun&Hwf'&_&Hadj&Hd&Hk).
  exists self', keys, e'. split_and!; try done.
  - intros key r Hr Hp. destruct (loc_rib_source _ _ _ Hwf' Hr) as (r'&Hr'&_).
    rewrite Hadj, adj_lookup_delete, Hp in Hr'. by rewrite decide_True in Hr'.
  - intros peer' key. rewrite Hd. unfold DampeningTable.is_suppressed. rewrite lookup_remove_peer.
    case_bool_decide as Hp; [by rewrite decide_True|by rewrite decide_False].
Qed.


(** Under strict origin validation no update installs an [Invalid] route: if
    Adj-RIB-In had none, neither it nor Loc-RIB has one afterwards. *)
Theorem strict_rejects_invalid {ord : HashOrder} {libm : Libm} p self peer peer_as nlri attrs withdrawn e :
  rib_wf self → rov_ready self.(Rib.rpki) nlri →
  DampeningTable.room p (length withdrawn) self.(Rib.dampening) →
  self.(Rib.rpki).(RpkiValidator.mode) = RpkiMode.Strict →
  (∀ peer' key r, adj_lookup self.(Rib.adj_rib_in) peer' key = Some r →
     r.(Route.rov_state) ≠ RovState.Invalid) →
  ∃ self' e', Rib.process_update p self peer peer_as nlri attrs withdrawn e = Ok (self', e') ∧
    (∀ peer' key r, adj_lookup self'.(Rib.adj_rib_in) peer' key = Some r →
       r.(Route.rov_state) ≠ RovState.Invalid) ∧
    ∀ key r, self'.(Rib.loc_rib) !! key = Some r → r.(Route.rov_state) ≠ RovState.Invalid.
Proof.
  intros Hwf Hready Hroom Hmode Hinv. rewrite <- (Nat.add_0_r (length withdrawn)) in Hroom.
  destruct (runs_process_update p 0 self peer peer_as nlri attrs withdrawn Hwf Hready Hroom e)
    as (self'&e'&Hrun&Hwf'&_&_&Hother&Hsame).
  exists self', e'. split; [done|].
  assert (Hadj : ∀ peer' key r, adj_lookup self'.(Rib.adj_rib_in) peer' key = Some r →
     r.(Route.rov_state) ≠ RovState.Invalid).
  { intros peer' key r Hr. destruct (decide (peer' = peer)) as [->|Hp];
      [|rewrite Hother in Hr by done; by eapply Hinv].
    destruct (from_surj key) as [q <-]. specialize (Hsame q). cbv zeta in Hsame.
    case_decide; [congruence|]. case_decide as Hacc.
    - destruct Hsame as [t Ht]. rewrite Ht in Hr. injection Hr as <-. simpl.
      destruct Hacc as [_ [_ Hrej]]. unfold RpkiValidator.should_reject in Hrej.
      rewrite Hmode in Hrej. simpl in Hrej. by apply bool_decide_eq_false in Hrej.
    - rewrite Hsame in Hr. by eapply Hinv. }
  split; [done|]. intros key r Hr. destruct (loc_rib_source _ _ _ Hwf' Hr) as (r'&Hr'&Heq).
  pose proof (f_equal Route.rov_state Heq) as Hs. simpl in Hs. rewrite Hs. by eapply Hadj.
Qed.

(** C28: longest-prefix match returns an entry of Loc-RIB whose network holds the
    address and that no longer entry does, and nothing exactly when no network
    holds it, provided no prefix is longer than 32 bits. *)
Theorem longest_match_spec {ord : HashOrder} p self addr e :
  u32 addr → (∀ key r, self.(Rib.loc_rib) !! key = Some r → key_wf key) →
  ∃ res e', Rib.longest_match p self addr e = Ok (res, e') ∧
    match res with
    | Some (key, r) => self.(Rib.loc_rib) !! key = Some r ∧ covers key addr ∧
        ∀ key' r', self.(Rib.loc_rib) !! key' = Some r' → covers key' addr →
          (key'.(PrefixKey.prefix_len) ≤ key.(PrefixKey.prefix_len))%Z
    | None => ∀ key r, self.(Rib.loc_rib) !! key = Some r → ¬ covers key addr
    end.
Proof.
  intros Haddr Hkeys. unfold Rib.longest_match.
  set (l := hash_iter (seeds e 0) (Rib.loc_rib self)).
  assert (Hl : ∀ key r, (key, r) ∈ l ↔ Rib.loc_rib self !! key = Some r).
  { intros key r. unfold l. rewrite hash_iter_perm. apply elem_of_map_to_list. }
  destruct (best_match_longest p addr l Haddr) as (best&Hb&Hlong).
  { apply Forall_forall. intros [key r] Hin. by eapply Hkeys, Hl. }
  exists best. eexists. split; [unfold lift; erewrite io_bind_Ok by done; fold l; by rewrite Hb|].
  destruct best as [[key r]|]; simpl in Hlong.
  - destruct Hlong as (Hin&Hc&Hmax). split_and!; [by apply Hl|done|].
    intros key' r' Hr' Hc'. by apply (Hmax (key', r')); [apply Hl|].
  - intros key r Hr. by apply (Hlong (key, r)), Hl.
Qed.

(** A Loc-RIB entry longer than 32 bits, which [Prefix::parse] lets through,
    makes every longest-prefix match panic in a build with overflow checks. *)
Theorem longest_match_panics {ord : HashOrder} self addr e key r :
  self.(Rib.loc_rib) !! key = Some r → (32 < key.(PrefixKey.prefix_len))%Z →
  Rib.longest_match Debug self addr e = Panic.
Proof.
  intros Hr Hlen. unfold Rib.longest_match. erewrite io_bind_Ok by done.
  assert (Hin : (key, r) ∈ hash_iter (seeds e 0) (Rib.loc_rib self)).
  { rewrite hash_iter_perm. by apply elem_of_map_to_list. }
  unfold lift.
  assert (Rib.best_match Debug addr (hash_iter (seeds e 0) (Rib.loc_rib self)) None = Panic) as ->;
    [|done].
  generalize (@None (PrefixKey.t * Route.t)) as best. revert Hin.
  generalize (hash_iter (seeds e 0) (Rib.loc_rib self)) as l.
  induction l as [|kr l IH]; intros Hin best; [by inversion Hin|]. cbn [Rib.best_match].
  apply elem_of_cons in Hin as [<-|Hin].
  - unfold Rib.key_covers, sub_uint. simpl.
    rewrite (proj2 (Z.eqb_neq _ _)) by lia. by rewrite (proj2 (Z.leb_gt _ _)) by lia.
  - destruct (key_covers_debug kr.1 addr) as [->|[b ->]]; [done|].
    cbn [mbind outcome_bind]. by apply IH.
Qed.

(* ------------------------------------------------------------------ *)
(** ** Witnesses *)

#[local] Existing Instances sorted_order no_libm.

Definition sample_prefix : Prefix := Prefixes.new 167772160 8.

Definition sample_route : Route.t :=
  accepted_route RpkiValidator.default sample_peer 65001 sample_attrs sample_prefix 0.

(** One route for 10.0.0.0/8, from one peer. *)
Definition sample_rib : Rib.t :=
  {| Rib.adj_rib_in := {[sample_peer := {[PrefixKey.from sample_prefix := sample_route]}]};
     Rib.loc_rib := {[PrefixKey.from sample_prefix := sample_route]}; Rib.adj_rib_out := ∅;
     Rib.dampening := sample_table; Rib.rpki := RpkiValidator.default |}.

Lemma sample_adj_lookup peer key r :
  adj_lookup sample_rib.(Rib.adj_rib_in) peer key = Some r ↔
  peer = sample_peer ∧ key = PrefixKey.from sample_prefix ∧ r = sample_route.
Proof.
  unfold adj_lookup. simpl. rewrite bind_Some. split.
  - intros (m&Hm&Hr). apply lookup_singleton_Some in Hm as [<- <-].
    by apply lookup_singleton_Some in Hr as [<- <-].
  - intros (->&->&->). exists {[PrefixKey.from sample_prefix := sample_route]}.
    by rewrite !lookup_singleton_eq.
Qed.

Lemma sample_loc_lookup key r :
  sample_rib.(Rib.loc_rib) !! key = Some r ↔ key = PrefixKey.from sample_prefix ∧ r = sample_route.
Proof. simpl. rewrite lookup_singleton_Some. naive_solver. Qed.

Lemma sample_adj_found :
  adj_lookup sample_rib.(Rib.adj_rib_in) sample_peer (PrefixKey.from sample_prefix) = Some sample_route.
Proof. by apply sample_adj_lookup. Qed.

Lemma sample_rib_wf : rib_wf sample_rib.
Proof.
  split; [| |apply sample_table_wf].
  - intros key. unfold decided.
    destruct (Rib.loc_rib sample_rib !! key) as [r|] eqn:Hr; simpl in Hr.
    + apply lookup_singleton_Some in Hr as [<- <-]. exists sample_route. split_and!; [|done|].
      * apply candidate_lookup. exists sample_peer. by apply sample_adj_lookup.
      * intros r (peer&Hr)%candidate_lookup. apply sample_adj_lookup in Hr as (_&_&->).
        unfold preferred. done.
    + intros r (peer&Hc)%candidate_lookup. apply sample_adj_lookup in Hc as (_&->&_).
      by rewrite lookup_singleton_eq in Hr.
  - intros peer key r (->&->&->)%sample_adj_lookup. done.
Qed.

Lemma rib_consistent_witness :
  ∃ self' e', foldM (apply_op Debug)
    [OpUpdate sample_peer 65001 [sample_prefix] sample_attrs []; OpMarkStale sample_peer;
     OpUpdate sample_peer 65001 [] sample_attrs [sample_prefix]; OpRemovePeer sample_peer]
    Rib.new sample_env = Ok (self', e') ∧ rib_wf self'.
Proof. apply rib_consistent. right. done. Defined.

Lemma process_update_spec_witness :
  ∃ self' e', Rib.process_update Release sample_rib sample_peer 65001 [sample_prefix] sample_attrs
      [sample_prefix] sample_env = Ok (self', e') ∧
    adj_lookup self'.(Rib.adj_rib_in) sample_peer (PrefixKey.from sample_prefix) = None.
Proof.
  destruct (process_update_spec Release sample_rib sample_peer 65001 [sample_prefix] sample_attrs
    [sample_prefix] sample_env sample_rib_wf (or_introl eq_refl) (or_introl eq_refl))
    as (self'&e'&Hrun&_&_&Hq).
  exists self', e'. split; [done|]. specialize (Hq sample_prefix). cbv zeta in Hq.
  by rewrite decide_True in Hq by (by left).
Defined.

Lemma decision_criteria_witness : route_cmp sample_route sample_route ≠ Gt.
Proof. apply decision_criteria. cbv zeta. lia. Defined.

Lemma decision_order_independent_witness :
  ∃ s1 s2 e1 e2,
    Rib.run_decision_process sample_rib (PrefixKey.from sample_prefix) sample_env = Ok (s1, e1) ∧
    Rib.run_decision_process sample_rib (PrefixKey.from sample_prefix)
      {| clock := λ _, 0%Z; seeds := λ _, 3 |} = Ok (s2, e2) ∧
    rank <$> s1.(Rib.loc_rib) !! PrefixKey.from sample_prefix =
      rank <$> s2.(Rib.loc_rib) !! PrefixKey.from sample_prefix.
Proof.
  destruct (runs_decision sample_rib (PrefixKey.from sample_prefix) sample_env) as (s1&e1&H1&_).
  destruct (runs_decision sample_rib (PrefixKey.from sample_prefix)
    {| clock := λ _, 0%Z; seeds := λ _, 3 |}) as (s2&e2&H2&_).
  exists s1, s2, e1, e2. split; [done|]. split; [done|].
  by apply (decision_order_independent _ _ _ _ _ _ _ _ H1 H2).
Defined.

Lemma remove_peer_spec_witness :
  ∃ self' keys e', Rib.remove_peer sample_rib sample_peer sample_env = Ok ((self', keys), e') ∧
    (∀ key r, self'.(Rib.loc_rib) !! key = Some r → r.(Route.peer_addr) ≠ sample_peer) ∧
    PrefixKey.from sample_prefix ∈ keys.
Proof.
  destruct (remove_peer_spec sample_rib sample_peer sample_env sample_rib_wf)
    as (self'&keys&e'&Hrun&_&_&Hloc&Hkeys&_).
  exists self', keys, e'. split_and!; [done|done|]. apply Hkeys. exists sample_route.
  exact sample_adj_found.
Defined.


(** Strict validation, with a route that was valid. *)
Definition strict_rib : Rib.t :=
  {| Rib.adj_rib_in := sample_rib.(Rib.adj_rib_in); Rib.loc_rib := sample_rib.(Rib.loc_rib);
     Rib.adj_rib_out := ∅; Rib.dampening := sample_table; Rib.rpki := sample_validator |}.

Lemma strict_rejects_invalid_witness :
  ∃ self' e', Rib.process_update Release strict_rib sample_peer 65099 [sample_prefix] sample_attrs
      [] sample_env = Ok (self', e') ∧
    ∀ key r, self'.(Rib.loc_rib) !! key = Some r → r.(Route.rov_state) ≠ RovState.Invalid.
Proof.
  destruct (strict_rejects_invalid Release strict_rib sample_peer 65099 [sample_prefix]
    sample_attrs [] sample_env) as (self'&e'&Hrun&_&Hloc).
  - destruct sample_rib_wf as [Hd Hs Hw]. split; [exact Hd|exact Hs|exact Hw].
  - right. split; [apply sample_validator_wf|]. apply Forall_singleton. by_decide.
  - by left.
  - done.
  - intros peer key r (_&_&->)%sample_adj_lookup. done.
  - by exists self', e'.
Defined.

Lemma longest_match_spec_witness :
  ∃ res e', Rib.longest_match Debug sample_rib 167837698 sample_env = Ok (res, e') ∧
    res = Some (PrefixKey.from sample_prefix, sample_route).
Proof.
  destruct (longest_match_spec Debug sample_rib 167837698 sample_env) as (res&e'&Hrun&Hres).
  - by_decide.
  - intros key r [-> _]%sample_loc_lookup. split; [by vm_compute|by_decide].
  - exists res, e'. split; [done|]. destruct res as [[key r]|].
    + destruct Hres as [[-> ->]%sample_loc_lookup _]. reflexivity.
    + exfalso. apply (Hres (PrefixKey.from sample_prefix) sample_route);
        [exact (proj2 (sample_loc_lookup _ _) (conj eq_refl eq_refl))|reflexivity].
Defined.

Lemma longest_match_panics_witness :
  Rib.longest_match Debug (Rib.set_loc_rib sample_rib
    (<[PrefixKey.mk 167772160 33 := sample_route]> sample_rib.(Rib.loc_rib))) 0 sample_env = Panic.
Proof.
  apply (longest_match_panics _ _ _ (PrefixKey.mk 167772160 33) sample_route); [|done].
  by apply lookup_insert_eq.
Defined.
