(* ===== verification/RibRefine.v ===== *)
(** * The RIB as an abstract machine

    What the RIB promises to its clients: each peer owns a table of routes, which
    only its own operations change, and Loc-RIB is a preferred choice among the
    tables.  [spec_step] is that promise, an operation at a time, on the tables as a
    function; the operations of [Rib.v] refine it. *)

From S2P Require Import Prelude.
From S2P Require Import Attr.
From S2P Require Import UpdateMessage.
From S2P Require Import Rpki.
From S2P Require Import Env.
From S2P Require Import Dampening.
From S2P Require Import Rib.
From S2P Require Import RibSpec.

(** The tables: the route each peer has for each prefix. *)
Abbreviation AdjView := (SocketAddr → PrefixKey.t → option Route.t).

Definition view (r : Rib.t) : AdjView := adj_lookup r.(Rib.adj_rib_in).

(** The peer an operation is for. *)
Definition op_peer (op : rib_op) : SocketAddr :=
  match op with
  | OpUpdate peer _ _ _ _ | OpRemovePeer peer | OpMarkStale peer | OpRemoveStale peer => peer
  end.

(** A route as an UPDATE announces it. *)
Definition announced (peer : SocketAddr) (peer_as : Z) (attrs : PathAttributes) (q : Prefix)
    (r : Route.t) : Prop :=
  r.(Route.prefix) = q ∧ r.(Route.attrs) = attrs ∧ r.(Route.peer_addr) = peer ∧
  r.(Route.peer_as) = peer_as ∧ r.(Route.stale) = false.

(** What an operation may do to its own peer's table. *)
Definition table_step (op : rib_op) (t t' : PrefixKey.t → option Route.t) : Prop :=
  match op with
  | OpUpdate peer peer_as nlri attrs withdrawn => ∀ q, let key := PrefixKey.from q in
      if decide (q ∈ withdrawn) then t' key = None
      else t' key = t key ∨ (q ∈ nlri ∧ ∃ r, t' key = Some r ∧ announced peer peer_as attrs q r)
  | OpRemovePeer _ => ∀ key, t' key = None
  | OpMarkStale _ => ∀ key, t' key = (λ r, Route.set_stale r true) <$> t key
  | OpRemoveStale _ => ∀ key,
      t' key = (r ← t key; if r.(Route.stale) then None else Some r)
  end.

Definition spec_step (op : rib_op) (v v' : AdjView) : Prop :=
  (∀ peer' key, peer' ≠ op_peer op → v' peer' key = v peer' key) ∧
  table_step op (v (op_peer op)) (v' (op_peer op)).

(** Loc-RIB as the machine promises it. *)
Definition chosen (v : AdjView) (loc : LocRib) : Prop := ∀ key,
  match loc !! key with
  | Some best => (∃ peer r, v peer key = Some r ∧ best ≡ r) ∧
                 ∀ peer r, v peer key = Some r → preferred best r
  | None => ∀ peer, v peer key = None
  end.

Section refinement.
Context {ord : HashOrder} {libm : Libm}.

Lemma rib_wf_chosen self : rib_wf self → chosen (view self) self.(Rib.loc_rib).
Proof.
  intros [Hdec _ _] key. specialize (Hdec key). unfold decided in Hdec. unfold view.
  destruct (Rib.loc_rib self !! key) as [best|].
  - destruct Hdec as (r&Hr&Heq&Hbest). split.
    + apply candidate_lookup in Hr as [peer Hr]. by exists peer, r.
    + intros peer r' Hr'. apply Hbest, candidate_lookup. by exists peer.
  - intros peer. destruct (adj_lookup _ peer key) as [r|] eqn:Hr; [|done].
    destruct (Hdec r). apply candidate_lookup. by exists peer.
Qed.

Lemma remove_stale_table (self self' : Rib.t) peer (keys : list PrefixKey.t) :
  (∀ key, key ∈ keys ↔
     ∃ r, adj_lookup self.(Rib.adj_rib_in) peer key = Some r ∧ r.(Route.stale) = true) →
  (∀ peer' key, adj_lookup self'.(Rib.adj_rib_in) peer' key =
     if decide (peer' = peer ∧ key ∈ keys) then None
     else adj_lookup self.(Rib.adj_rib_in) peer' key) →
  spec_step (OpRemoveStale peer) (view self) (view self').
Proof.
  intros Hkeys Hlook. split; simpl; unfold view.
  - intros peer' key Hne. rewrite Hlook, decide_False; [done|]. tauto.
  - intros key. rewrite Hlook. specialize (Hkeys key).
    destruct (adj_lookup (Rib.adj_rib_in self) peer key) as [r|] eqn:Hr; simpl.
    + destruct (Route.stale r) eqn:Hst.
      * rewrite decide_True; [done|]. split; [done|]. apply Hkeys. eauto.
      * rewrite decide_False; [done|]. intros [_ (?&[= <-]&?)%Hkeys]. congruence.
    + by case_decide.
Qed.

Lemma update_table self self' d v peer peer_as nlri attrs withdrawn :
  adj_updated self.(Rib.adj_rib_in) self'.(Rib.adj_rib_in) d v peer peer_as nlri attrs withdrawn →
  spec_step (OpUpdate peer peer_as nlri attrs withdrawn) (view self) (view self').
Proof.
  intros [Hother Hq]. split; [done|]. intros q. specialize (Hq q). simpl in *. unfold view.
  case_decide; [done|]. case_decide as Hacc; [|by left]. right. destruct Hacc as [Hin _].
  split; [done|]. destruct Hq as [t ->]. by eexists.
Qed.

(** The operations, started from a consistent RIB, as steps of the machine. *)
Lemma runs_update_step p n self peer peer_as nlri attrs withdrawn :
  rib_wf self → self.(Rib.rpki).(RpkiValidator.mode) = RpkiMode.Disabled →
  DampeningTable.room p (length withdrawn + n) self.(Rib.dampening) →
  runs (Rib.process_update p self peer peer_as nlri attrs withdrawn) (λ self',
    rib_wf self' ∧ self'.(Rib.rpki) = self.(Rib.rpki) ∧
    DampeningTable.room p n self'.(Rib.dampening) ∧
    spec_step (OpUpdate peer peer_as nlri attrs withdrawn) (view self) (view self')).
Proof.
  intros Hwf Hmode Hroom.
  eapply runs_mono; [by apply (runs_process_update p n); [done|left|]|].
  intros self' (?&?&?&?). split_and!; [done..|]. by eapply update_table.
Qed.

Lemma runs_remove_peer_step self peer :
  rib_wf self →
  runs (Rib.remove_peer self peer) (λ '(self', _),
    rib_wf self' ∧ self'.(Rib.rpki) = self.(Rib.rpki) ∧
    self'.(Rib.dampening) = DampeningTable.remove_peer self.(Rib.dampening) peer ∧
    spec_step (OpRemovePeer peer) (view self) (view self')).
Proof.
  intros Hwf. eapply runs_mono; [by apply runs_remove_peer|].
  intros [self' keys] (?&?&Hadj&?&_). split_and!; [done..|]. split; simpl; unfold view; rewrite Hadj.
  - intros peer' key Hne. by rewrite adj_lookup_delete, decide_False.
  - intros key. by rewrite adj_lookup_delete, decide_True.
Qed.

Lemma mark_stale_step self peer :
  spec_step (OpMarkStale peer) (view self) (view (Rib.mark_peer_stale self peer)).
Proof.
  split; simpl; unfold view.
  - intros peer' key Hne. by rewrite mark_peer_stale_lookup, decide_False.
  - intros key. by rewrite mark_peer_stale_lookup, decide_True.
Qed.

Lemma runs_remove_stale_step self peer :
  rib_wf self →
  runs (Rib.remove_stale_for_peer self peer) (λ '(self', _),
    rib_wf self' ∧ self'.(Rib.rpki) = self.(Rib.rpki) ∧
    self'.(Rib.dampening) = self.(Rib.dampening) ∧
    spec_step (OpRemoveStale peer) (view self) (view self')).
Proof.
  intros Hwf. eapply runs_mono; [by apply runs_remove_stale|].
  intros [self' keys] (?&?&?&Hkeys&Hlook). split_and!; [done..|]. by eapply remove_stale_table.
Qed.

Lemma runs_op_refines n self op :
  rib_wf self → self.(Rib.rpki).(RpkiValidator.mode) = RpkiMode.Disabled →
  ∀ p, DampeningTable.room p (op_withdrawals op + n) self.(Rib.dampening) →
  runs (apply_op p self op) (λ self', rib_wf self' ∧
    self'.(Rib.rpki).(RpkiValidator.mode) = RpkiMode.Disabled ∧
    DampeningTable.room p n self'.(Rib.dampening) ∧ spec_step op (view self) (view self')).
Proof.
  intros Hwf Hmode p Hroom. destruct op as [peer peer_as nlri attrs wd|peer|peer|peer]; simpl in *.
  - eapply runs_mono; [by apply (runs_update_step p n)|]. intros self' (?&->&?&?). done.
  - eapply runs_bind; [by apply runs_remove_peer_step|].
    intros [self' keys] (?&Hr&Hd&?). apply runs_ret. rewrite Hr, Hd.
    split_and!; [done|done|by apply room_remove_peer|done].
  - destruct (mark_stale_other self peer) as (Hd&Hr&_). apply runs_ret. rewrite Hr, Hd.
    split_and!; [by apply mark_peer_stale_wf|done|done|apply mark_stale_step].
  - eapply runs_bind; [by apply runs_remove_stale_step|].
    intros [self' keys] (?&Hr&Hd&?). apply runs_ret. by rewrite Hr, Hd.
Qed.

(** A sequence of operations is a sequence of steps of the machine. *)
Inductive spec_steps : list rib_op → AdjView → AdjView → Prop :=
| spec_done v : spec_steps [] v v
| spec_next op ops v v1 v' :
    spec_step op v v1 → spec_steps ops v1 v' → spec_steps (op :: ops) v v'.

Lemma runs_ops_refine p ops : ∀ self,
  rib_wf self → self.(Rib.rpki).(RpkiValidator.mode) = RpkiMode.Disabled →
  DampeningTable.room p (sum_list (map op_withdrawals ops)) self.(Rib.dampening) →
  runs (foldM (apply_op p) ops self) (λ self', rib_wf self' ∧ spec_steps ops (view self) (view self')).
Proof.
  induction ops as [|op ops IH]; intros self Hwf Hmode Hroom; simpl.
  - apply runs_ret. split; [done|constructor].
  - eapply runs_bind; [by apply (runs_op_refines (sum_list (map op_withdrawals ops)))|]. intros self1 (?&?&?&?).
    eapply runs_mono; [by apply IH|]. intros self' [??]. split; [done|]. by econstructor.
Qed.
End refinement.

(* ------------------------------------------------------------------ *)
(** ** Invariants of the machine *)

(** A property of the tables that the operations of peer [a] keep. *)
Class Closed (a : SocketAddr) (R : AdjView → Prop) :=
  closed_step op v v' : op_peer op = a → spec_step op v v' → R v → R v'.

(** The tables of the other peers are those of [v0]. *)
Definition others_as (a : SocketAddr) (v0 v : AdjView) : Prop :=
  ∀ peer' key, peer' ≠ a → v peer' key = v0 peer' key.

#[export] Instance closed_others a v0 : Closed a (others_as a v0).
Proof. intros op v v' Ha [Hother _] Hv peer' key Hne. rewrite Hother; [by apply Hv|congruence]. Qed.

(** The tables are what operations of [a] have made of [v0]. *)
Definition worked (a : SocketAddr) (v0 v : AdjView) : Prop :=
  ∃ ops, Forall (λ op, op_peer op = a) ops ∧ spec_steps ops v0 v.

Lemma spec_steps_app ops1 ops2 v v1 v' :
  spec_steps ops1 v v1 → spec_steps ops2 v1 v' → spec_steps (ops1 ++ ops2) v v'.
Proof. induction 1; [done|]. intros. simpl. econstructor; eauto. Qed.

#[export] Instance closed_worked a v0 : Closed a (worked a v0).
Proof.
  intros op v v' Ha Hstep (ops&Hops&Hs). exists (ops ++ [op]). split.
  - apply Forall_app_2; [done|]. by apply Forall_singleton.
  - eapply spec_steps_app; [done|]. econstructor; [done|constructor].
Qed.

#[export] Instance closed_true a : Closed a (λ _, True).
Proof. by intros op v v'. Qed.

(* ------------------------------------------------------------------ *)
(** ** Properties *)

(** C2: the RIB implements the abstract machine: from a consistent RIB, any sequence
    of the sessions' calls returns (in a debug build, below 2^32 withdrawals of a
    prefix), each call being a step of the machine, in which only the peer it is for
    has its table changed, and Loc-RIB ends as a preferred choice among the tables,
    with an entry exactly for the prefixes some peer has. *)
Theorem rib_refines {ord : HashOrder} {libm : Libm} p ops self e :
  rib_wf self → self.(Rib.rpki).(RpkiValidator.mode) = RpkiMode.Disabled →
  DampeningTable.room p (sum_list (map op_withdrawals ops)) self.(Rib.dampening) →
  ∃ self' e', foldM (apply_op p) ops self e = Ok (self', e') ∧
    spec_steps ops (view self) (view self') ∧ chosen (view self') self'.(Rib.loc_rib).
Proof.
  intros Hwf Hmode Hroom.
  destruct (runs_ops_refine p ops self Hwf Hmode Hroom e) as (self'&e'&Hrun&?&?).
  exists self', e'. split_and!; [done..|]. by apply rib_wf_chosen.
Qed.

(** ** Witnesses *)

#[local] Existing Instances sorted_order no_libm.

Lemma rib_refines_witness :
  ∃ self' e', foldM (apply_op Release)
    [OpMarkStale sample_peer; OpUpdate sample_peer 65001 [Prefixes.new 0 0] sample_attrs [];
     OpRemoveStale sample_peer] sample_rib sample_env = Ok (self', e') ∧
    chosen (view self') self'.(Rib.loc_rib).
Proof.
  destruct (rib_refines Release
    [OpMarkStale sample_peer; OpUpdate sample_peer 65001 [Prefixes.new 0 0] sample_attrs [];
     OpRemoveStale sample_peer] sample_rib sample_env sample_rib_wf eq_refl (or_introl eq_refl))
    as (self'&e'&Hrun&_&Hch).
  exists self', e'. split; [exact Hrun|exact Hch].
Defined.
