(* ===== verification/Metrics.v ===== *)
(** * Metrics ([src/metrics.rs])

    The counters are [AtomicU64]s: additions wrap.  A [Metrics] value is the
    assignment of a value to every field of the struct. *)

From S2P Require Import Prelude.

Inductive counter :=
| sessions_established | sessions_failed | sessions_active
| messages_rx_open | messages_rx_keepalive | messages_rx_update | messages_rx_notification
| messages_tx_open | messages_tx_keepalive | messages_tx_update | messages_tx_notification
| routes_received | routes_withdrawn | routes_loc_rib | routes_advertised
| hold_timer_expirations | parse_errors | fsm_errors.

#[export] Instance counter_eq_dec : EqDecision counter.
Proof. solve_decision. Defined.

Module Metrics.
Definition t : Type := counter → Z.

Definition new : t := λ _, 0%Z.

(** [counter.store(value)] *)
Definition set (self : t) (c : counter) (value : Z) : t :=
  λ c', if decide (c' = c) then value else self c'.

(** [counter.load()] *)
Definition get (self : t) (c : counter) : Z := self c.

(** [counter.fetch_add(n)] *)
Definition fetch_add (self : t) (c : counter) (n : Z) : t := set self c (wrap 64 (self c + n)).

Definition inc (self : t) (c : counter) : t := fetch_add self c 1.

(** The quotation mark and the line feed. *)
Definition quote : string := String (Ascii.ascii_of_nat 34) EmptyString.
Definition newline : string := String (Ascii.ascii_of_nat 10) EmptyString.

Definition labelled (name label : string) : string :=
  name +:+ "{type=" +:+ quote +:+ label +:+ quote +:+ "}".

(** The [gauge!] and [counter!] macros: the text of one metric. *)
Definition metric (kind name help : string) (value : Z) : string :=
  "# HELP " +:+ name +:+ " " +:+ help +:+ newline +:+
  "# TYPE " +:+ name +:+ " " +:+ kind +:+ newline +:+
  name +:+ " " +:+ show_uint value +:+ newline.

(** The metrics in the order they are rendered. *)
Definition catalogue : list (string * string * string * counter) := [
  ("gauge", "bgp_sessions_active", "Currently active BGP sessions", sessions_active);
  ("counter", "bgp_sessions_established_total", "Total BGP sessions ever established", sessions_established);
  ("counter", "bgp_sessions_failed_total", "Total BGP session failures", sessions_failed);
  ("counter", labelled "bgp_messages_received_total" "open", "OPEN messages received", messages_rx_open);
  ("counter", labelled "bgp_messages_received_total" "keepalive", "KEEPALIVE messages received", messages_rx_keepalive);
  ("counter", labelled "bgp_messages_received_total" "update", "UPDATE messages received", messages_rx_update);
  ("counter", labelled "bgp_messages_received_total" "notification", "NOTIFICATION messages received", messages_rx_notification);
  ("counter", labelled "bgp_messages_sent_total" "open", "OPEN messages sent", messages_tx_open);
  ("counter", labelled "bgp_messages_sent_total" "keepalive", "KEEPALIVE messages sent", messages_tx_keepalive);
  ("counter", labelled "bgp_messages_sent_total" "update", "UPDATE messages sent", messages_tx_update);
  ("counter", labelled "bgp_messages_sent_total" "notification", "NOTIFICATION messages sent", messages_tx_notification);
  ("counter", "bgp_routes_received_total", "Total routes received (NLRI)", routes_received);
  ("counter", "bgp_routes_withdrawn_total", "Total routes withdrawn", routes_withdrawn);
  ("gauge", "bgp_routes_loc_rib", "Current routes in Loc-RIB", routes_loc_rib);
  ("counter", "bgp_routes_advertised_total", "Total routes advertised to peers", routes_advertised);
  ("counter", "bgp_hold_timer_expirations_total", "Hold timer expiration events", hold_timer_expirations);
  ("counter", "bgp_parse_errors_total", "BGP message parse errors", parse_errors);
  ("counter", "bgp_fsm_errors_total", "BGP FSM state errors", fsm_errors)
].

Definition prometheus_text (self : t) : string :=
  foldl (λ out '(kind, name, help, c), out +:+ metric kind name help (get self c)) EmptyString catalogue.

(** The lines of the human-readable summary: a heading, or a label, a counter and
    what follows it.  A [\] at the end of a line of the format string skips the
    indentation of the next, so no line is indented. *)
Definition summary_lines : list (string * option (counter * string)) := [
  ("PathForge BGP Metrics", None);
  ("=====================", None);
  ("Sessions:", None);
  ("active:      ", Some (sessions_active, EmptyString));
  ("established: ", Some (sessions_established, " (total)"));
  ("failed:      ", Some (sessions_failed, " (total)"));
  ("Messages received:", None);
  ("OPEN:         ", Some (messages_rx_open, EmptyString));
  ("KEEPALIVE:    ", Some (messages_rx_keepalive, EmptyString));
  ("UPDATE:       ", Some (messages_rx_update, EmptyString));
  ("NOTIFICATION: ", Some (messages_rx_notification, EmptyString));
  ("Messages sent:", None);
  ("OPEN:         ", Some (messages_tx_open, EmptyString));
  ("KEEPALIVE:    ", Some (messages_tx_keepalive, EmptyString));
  ("UPDATE:       ", Some (messages_tx_update, EmptyString));
  ("NOTIFICATION: ", Some (messages_tx_notification, EmptyString));
  ("Routes:", None);
  ("Loc-RIB:    ", Some (routes_loc_rib, EmptyString));
  ("received:   ", Some (routes_received, " (total)"));
  ("withdrawn:  ", Some (routes_withdrawn, " (total)"));
  ("advertised: ", Some (routes_advertised, " (total)"));
  ("Errors:", None);
  ("hold timer:  ", Some (hold_timer_expirations, EmptyString));
  ("parse:       ", Some (parse_errors, EmptyString));
  ("fsm:         ", Some (fsm_errors, EmptyString))
].

Definition text_summary (self : t) : string :=
  foldl (λ out '(label, value), out +:+ label +:+
    match value with
    | Some (c, suffix) => show_uint (get self c) +:+ suffix
    | None => EmptyString
    end +:+ newline) EmptyString summary_lines.

(** Every counter is a 64-bit value. *)
Definition wf (self : t) : Prop := ∀ c, u64 (self c).
End Metrics.

Lemma get_set m c v c' :
  Metrics.get (Metrics.set m c v) c' = if decide (c' = c) then v else Metrics.get m c'.
Proof. done. Qed.

Lemma get_inc m c c' :
  Metrics.get (Metrics.inc m c) c' =
    if decide (c' = c) then wrap 64 (Metrics.get m c + 1) else Metrics.get m c'.
Proof. done. Qed.

Lemma metrics_fetch_add_wf m c n : Metrics.wf m → Metrics.wf (Metrics.fetch_add m c n).
Proof.
  intros Hm c'. unfold Metrics.fetch_add, Metrics.set. case_decide; [by apply wrap_uint|apply Hm].
Qed.

Lemma metrics_set_wf m c v : Metrics.wf m → u64 v → Metrics.wf (Metrics.set m c v).
Proof. intros Hm Hv c'. unfold Metrics.set. by case_decide. Qed.

(** Every counter of the struct is rendered, once. *)
Lemma catalogue_complete :
  NoDup (map snd Metrics.catalogue) ∧ ∀ c, c ∈ map snd Metrics.catalogue.
Proof. split; [by_decide|]. intros []; by_decide. Qed.
