(* ===== verification/MetricsSpec.v ===== *)
(** * What the metrics say

    The two texts of [Metrics.v] as sequences of a fixed label and a counter's
    value, and what can be read back from them. *)

From S2P Require Import Prelude.
From S2P Require Import Text.
From S2P Require Import Metrics.

(** A label, and possibly a counter with what follows its value. *)
Abbreviation item := (string * option (counter * string))%type.

Definition item_text (m : Metrics.t) (i : item) : string :=
  i.1 +:+ match i.2 with
    | Some (c, suffix) => show_uint (Metrics.get m c) +:+ suffix
    | None => EmptyString
    end +:+ Metrics.newline.

Definition items_text (m : Metrics.t) (items : list item) : string :=
  foldr (λ i rest, item_text m i +:+ rest) EmptyString items.

(** The metrics of the Prometheus text as items. *)
Definition catalogue_item (entry : string * string * string * counter) : item :=
  let '(kind, name, help, c) := entry in
  ("# HELP " +:+ name +:+ " " +:+ help +:+ Metrics.newline +:+
   "# TYPE " +:+ name +:+ " " +:+ kind +:+ Metrics.newline +:+ name +:+ " ",
   Some (c, EmptyString)).

Lemma foldl_append {A} (f : A → string) l s :
  foldl (λ out a, out +:+ f a) s l = s +:+ foldr (λ a rest, f a +:+ rest) EmptyString l.
Proof.
  revert s; induction l as [|a l IH]; intros s; simpl; [by rewrite string_app_nil|].
  by rewrite IH, string_app_assoc.
Qed.

Lemma foldl_ext_fun {A B} (f g : B → A → B) l b :
  (∀ b a, f b a = g b a) → foldl f b l = foldl g b l.
Proof. intros Hfg. revert b; induction l as [|a l IH]; intros b; simpl; [done|]. by rewrite Hfg, IH. Qed.

Lemma summary_items m : Metrics.text_summary m = items_text m Metrics.summary_lines.
Proof.
  unfold Metrics.text_summary. rewrite (foldl_ext_fun _ (λ out i, out +:+ item_text m i)).
  - by rewrite foldl_append.
  - by intros out [label [[c suffix]|]].
Qed.

Lemma metric_item m kind name help c :
  Metrics.metric kind name help (Metrics.get m c) = item_text m (catalogue_item (kind, name, help, c)).
Proof. unfold Metrics.metric, item_text. simpl. by rewrite string_app_nil, !string_app_assoc. Qed.

Lemma prometheus_items m :
  Metrics.prometheus_text m = items_text m (map catalogue_item Metrics.catalogue).
Proof.
  unfold Metrics.prometheus_text.
  rewrite (foldl_ext_fun _ (λ out a, out +:+ item_text m (catalogue_item a))).
  - rewrite foldl_append. unfold items_text. induction Metrics.catalogue as [|a l IH]; [done|].
    cbn [map foldr]. by rewrite <- IH.
  - intros out [[[kind name] help] c]. by rewrite metric_item.
Qed.

(** A numeral ends where its digits do. *)
Lemma show_uint_inj n n' s s' :
  (0 ≤ n)%Z → (0 ≤ n')%Z → no_digit s → no_digit s' →
  show_uint n +:+ s = show_uint n' +:+ s' → n = n' ∧ s = s'.
Proof.
  intros Hn Hn' Hs Hs' Heq.
  destruct (show_uint_digits n Hn) as (ds&d&Hd&Hds&<-&_).
  destruct (show_uint_digits n' Hn') as (ds'&d'&Hd'&Hds'&<-&_).
  rewrite Hd, Hd' in Heq. apply (f_equal Text.read_digits) in Heq.
  rewrite !read_digits_string in Heq by done. by injection Heq as -> -> ->.
Qed.

(** What follows a value starts with no digit. *)
Definition item_ok (i : item) : Prop :=
  match i.2 with Some (_, suffix) => no_digit (suffix +:+ Metrics.newline) | None => True end.

Lemma catalogue_items_ok : Forall item_ok (map catalogue_item Metrics.catalogue).
Proof. repeat (apply Forall_cons; split; [done|]). by apply Forall_nil. Qed.

Lemma summary_lines_ok : Forall item_ok Metrics.summary_lines.
Proof. repeat (apply Forall_cons; split; [done|]). by apply Forall_nil. Qed.

Lemma no_digit_app a b rest : no_digit (a +:+ String b EmptyString) → no_digit ((a +:+ String b EmptyString) +:+ rest).
Proof. by destruct a. Qed.

Lemma items_text_inj m m' items :
  Metrics.wf m → Metrics.wf m' → Forall item_ok items →
  items_text m items = items_text m' items →
  ∀ label c suffix, (label, Some (c, suffix)) ∈ items → Metrics.get m c = Metrics.get m' c.
Proof.
  intros Hm Hm' Hok. induction Hok as [|[label o] items Hi _ IH]; intros Heq l c suffix Hin;
    [by apply elem_of_nil in Hin|].
  cbn [items_text foldr] in Heq. unfold item_text in Heq. cbn [fst snd] in Heq.
  rewrite !string_app_assoc in Heq. apply (inj (String.append label)) in Heq.
  destruct o as [[c0 suffix0]|].
  - rewrite !string_app_assoc in Heq.
    apply show_uint_inj in Heq as [Hc Heq]; [|apply Hm|apply Hm'|..];
      [|unfold item_ok in Hi; rewrite <- string_app_assoc; by apply no_digit_app..].
    apply (inj (String.append suffix0)), (inj (String.append Metrics.newline)) in Heq.
    apply elem_of_cons in Hin as [[= _ -> _]|Hin]; [done|by eapply IH].
  - apply (inj (String.append EmptyString)), (inj (String.append Metrics.newline)) in Heq.
    apply elem_of_cons in Hin as [?|Hin]; [done|by eapply IH].
Qed.

(** The counters a list of items shows. *)
Definition shown (items : list item) : list counter := omap (λ i : item, fst <$> i.2) items.

Lemma items_text_determines m m' items :
  Metrics.wf m → Metrics.wf m' → Forall item_ok items → (∀ c, c ∈ shown items) →
  items_text m items = items_text m' items → ∀ c, Metrics.get m c = Metrics.get m' c.
Proof.
  intros Hm Hm' Hok Hall Heq c.
  destruct (proj1 (list_elem_of_omap _ _ _) (Hall c)) as ([label o]&Hin&Ho).
  destruct o as [[c' suffix]|]; simplify_eq/=. by eapply items_text_inj.
Qed.

(* ------------------------------------------------------------------ *)
(** ** Properties *)

(** C32: each of the two texts the management interface serves, the Prometheus
    exposition and the summary, determines all eighteen counters: two states with
    the same text have the same counters. *)
Theorem metrics_exposed m m' :
  Metrics.wf m → Metrics.wf m' →
  Metrics.prometheus_text m = Metrics.prometheus_text m' ∨
    Metrics.text_summary m = Metrics.text_summary m' →
  ∀ c, Metrics.get m c = Metrics.get m' c.
Proof.
  intros Hm Hm'. rewrite !prometheus_items, !summary_items.
  intros [Heq|Heq]; (eapply items_text_determines; [exact Hm|exact Hm'| | |exact Heq]);
    (apply catalogue_items_ok || apply summary_lines_ok || (intros []; by_decide)).
Qed.

(* ------------------------------------------------------------------ *)
(** ** Witnesses *)

(** A state whose counters are the new ones with [routes_received] stored. *)
Lemma metrics_exposed_witness :
  Metrics.prometheus_text (Metrics.inc Metrics.new routes_received) ≠ Metrics.prometheus_text Metrics.new ∧
  Metrics.text_summary (Metrics.inc Metrics.new routes_received) ≠ Metrics.text_summary Metrics.new.
Proof.
  assert (Metrics.wf Metrics.new) as Hnew by (intros c; by_decide).
  pose proof (metrics_fetch_add_wf Metrics.new routes_received 1 Hnew) as Hinc.
  split; intros Heq.
  - discriminate (metrics_exposed _ _ Hinc Hnew (or_introl Heq) routes_received).
  - discriminate (metrics_exposed _ _ Hinc Hnew (or_intror Heq) routes_received).
Defined.
