(* ===== verification/Fsm.v ===== *)
(** * The state machine and the timers ([src/fsm.rs], [src/timer.rs], and
    [Peer::transition] of [src/peer.rs]) *)

From S2P Require Import Prelude.
From S2P Require Import Env.

Module BgpState.
Inductive t := Idle | Connect | Active | OpenSent | OpenConfirm | Established.

#[global] Instance t_eq_dec : EqDecision t.
Proof. solve_decision. Defined.

Definition to_string (s : t) : string :=
  match s with
  | Idle => "Idle" | Connect => "Connect" | Active => "Active"
  | OpenSent => "OpenSent" | OpenConfirm => "OpenConfirm" | Established => "Established"
  end.
End BgpState.

Module BgpEvent.
Inductive t :=
| ManualStart | ManualStop | TcpConnectionConfirmed | TcpConnectionFail
| BgpOpen | KeepAliveMsg | UpdateMsg | NotifMsg
| HoldTimerExpired | KeepaliveTimerExpired.

#[global] Instance t_eq_dec : EqDecision t.
Proof. solve_decision. Defined.
End BgpEvent.

(** The [match] of [Peer::transition]. *)
Definition next_state (s : BgpState.t) (event : BgpEvent.t) : BgpState.t :=
  match s, event with
  | BgpState.Idle, BgpEvent.ManualStart => BgpState.Connect
  | BgpState.Connect, BgpEvent.TcpConnectionConfirmed => BgpState.OpenSent
  | BgpState.Connect, BgpEvent.TcpConnectionFail => BgpState.Active
  | BgpState.Active, BgpEvent.TcpConnectionConfirmed => BgpState.OpenSent
  | BgpState.OpenSent, BgpEvent.BgpOpen => BgpState.OpenConfirm
  | BgpState.OpenConfirm, BgpEvent.KeepAliveMsg => BgpState.Established
  | BgpState.Established, BgpEvent.NotifMsg => BgpState.Idle
  | BgpState.Established, BgpEvent.TcpConnectionFail => BgpState.Idle
  | _, BgpEvent.ManualStop => BgpState.Idle
  | _, BgpEvent.HoldTimerExpired => BgpState.Idle
  | _, _ => s
  end.

(** [Duration::from_secs] *)
Definition from_secs (s : Z) : Duration := (s * 1000000000)%Z.

Module BgpTimers.
Record t := mk {
  hold_time : Z;
  keepalive_interval : Z;
  hold_timer_start : option Instant;
  keepalive_timer_start : option Instant
}.

Definition new (hold_time : Z) : t :=
  {| hold_time := hold_time;
     keepalive_interval := if (0 <? hold_time)%Z then (hold_time / 3)%Z else 0%Z;
     hold_timer_start := None; keepalive_timer_start := None |}.

Definition reset_hold_timer (self : t) : io t :=
  if (0 <? self.(hold_time))%Z then
    n ← now;
    mret {| hold_time := hold_time self; keepalive_interval := keepalive_interval self;
            hold_timer_start := Some n; keepalive_timer_start := keepalive_timer_start self |}
  else mret self.

Definition reset_keepalive_timer (self : t) : io t :=
  if (0 <? self.(keepalive_interval))%Z then
    n ← now;
    mret {| hold_time := hold_time self; keepalive_interval := keepalive_interval self;
            hold_timer_start := hold_timer_start self; keepalive_timer_start := Some n |}
  else mret self.

Definition hold_timer_expired (self : t) : io bool :=
  if (self.(hold_time) =? 0)%Z then mret false
  else
    match self.(hold_timer_start) with
    | Some s => d ← elapsed s; mret (from_secs self.(hold_time) <=? d)%Z
    | None => mret false
    end.

Definition keepalive_due (self : t) : io bool :=
  if (self.(keepalive_interval) =? 0)%Z then mret false
  else
    match self.(keepalive_timer_start) with
    | Some s => d ← elapsed s; mret (from_secs self.(keepalive_interval) <=? d)%Z
    | None => mret true
    end.
End BgpTimers.

Module LocalConfig.
Record t := mk { local_as : Z; router_id : Ipv4Addr; hold_time : Z }.

Definition new (local_as : Z) (router_id : Ipv4Addr) : t :=
  {| local_as := local_as; router_id := router_id; hold_time := 90 |}.
End LocalConfig.
