(* ===== verification/Peer.v ===== *)
(** * Peer sessions ([src/peer.rs])

    A session owns its [Peer] and its TCP stream, and shares the RIB (behind an
    [RwLock]) and the metrics with the other sessions.  Its code runs in the monad
    [M]: a computation changes the session's view of that state and returns,
    fails with an error, or panics; the state reached is kept in every case, since
    the shared part outlives the task.  A write to the stream succeeds or fails as
    the environment decides. *)

From S2P Require Import Prelude.
From S2P Require Import Bytes.
From S2P Require Import Message.
From S2P Require Import ControlMessages.
From S2P Require Import Capabilities.
From S2P Require Import OpenMessage.
From S2P Require Import Attr.
From S2P Require Import UpdateMessage.
From S2P Require Import Env.
From S2P Require Import Dampening.
From S2P Require Import Rib.
From S2P Require Import Metrics.
From S2P Require Import Fsm.

Module Peer.
Record t := mk {
  addr : SocketAddr;
  remote_as : Z;
  local : LocalConfig.t;
  state : BgpState.t;
  timers : BgpTimers.t;
  negotiated_hold_time : Z;
  peer_router_id : option Ipv4Addr;
  peer_capabilities : list Capability.t
}.

Definition new (addr : SocketAddr) (remote_as : Z) (local : LocalConfig.t) : t :=
  {| addr := addr; remote_as := remote_as; local := local; state := BgpState.Idle;
     timers := BgpTimers.new local.(LocalConfig.hold_time); negotiated_hold_time := 90;
     peer_router_id := None; peer_capabilities := [] |}.

Definition set_state (self : t) s : t :=
  {| addr := addr self; remote_as := remote_as self; local := local self; state := s;
     timers := timers self; negotiated_hold_time := negotiated_hold_time self;
     peer_router_id := peer_router_id self; peer_capabilities := peer_capabilities self |}.

Definition set_timers (self : t) v : t :=
  {| addr := addr self; remote_as := remote_as self; local := local self; state := state self;
     timers := v; negotiated_hold_time := negotiated_hold_time self;
     peer_router_id := peer_router_id self; peer_capabilities := peer_capabilities self |}.

Definition set_capabilities (self : t) v : t :=
  {| addr := addr self; remote_as := remote_as self; local := local self; state := state self;
     timers := timers self; negotiated_hold_time := negotiated_hold_time self;
     peer_router_id := peer_router_id self; peer_capabilities := v |}.

(** The assignments of the OPEN handler, up to the new timers. *)
Definition negotiate (self : t) (open : OpenMessage) : t :=
  let hold := Z.min self.(local).(LocalConfig.hold_time) open.(hold_time) in
  {| addr := addr self; remote_as := open.(my_as); local := local self; state := state self;
     timers := BgpTimers.new hold; negotiated_hold_time := hold;
     peer_router_id := Some open.(bgp_id); peer_capabilities := peer_capabilities self |}.
End Peer.

(** [RwLock<Rib>]: a panic under the write lock poisons it, and the sessions,
    which go on only [if let Ok(..)], never reach the RIB again. *)
Inductive RibLock := Unlocked (rib : Rib.t) | Poisoned.

Inductive SessionError := MessageErr (e : MessageError.t) | IoErr.

Record Session := {
  peer : Peer.t;
  rib : RibLock;
  metrics : Metrics.t;
  (** what was written to the stream *)
  sent : list bytes;
  (** the purge tasks handed to [tokio::spawn]: delay and peer *)
  spawned : list (Duration * SocketAddr);
  env : Env;
  (** whether the next writes to the stream succeed *)
  writes : nat → bool
}.

Definition set_peer (s : Session) v : Session :=
  {| peer := v; rib := rib s; metrics := metrics s; sent := sent s; spawned := spawned s;
     env := env s; writes := writes s |}.
Definition set_rib (s : Session) v : Session :=
  {| peer := peer s; rib := v; metrics := metrics s; sent := sent s; spawned := spawned s;
     env := env s; writes := writes s |}.
Definition set_metrics (s : Session) v : Session :=
  {| peer := peer s; rib := rib s; metrics := v; sent := sent s; spawned := spawned s;
     env := env s; writes := writes s |}.
Definition set_env (s : Session) v : Session :=
  {| peer := peer s; rib := rib s; metrics := metrics s; sent := sent s; spawned := spawned s;
     env := v; writes := writes s |}.

(** ** The monad of a session task *)

Definition M (A : Type) : Type := Session → outcome SessionError A * Session.

#[export] Instance M_ret : MRet M := λ A a s, (Ok a, s).
#[export] Instance M_bind : MBind M := λ A B f m s,
  match m s with
  | (Ok a, s) => f a s
  | (Err e, s) => (Err e, s)
  | (Panic, s) => (Panic, s)
  | (Diverge, s) => (Diverge, s)
  end.

(** [return Err(e)] *)
Definition fail {A} (e : SessionError) : M A := λ s, (Err e, s).

Definition gets {A} (f : Session → A) : M A := λ s, (Ok (f s), s).
Definition modify (f : Session → Session) : M unit := λ s, (Ok tt, f s).
Definition modify_peer (f : Peer.t → Peer.t) : M unit := modify (λ s, set_peer s (f (peer s))).

(** [self.metrics.inc(..)], [set(..)], and [fetch_add]. *)
Definition inc (c : counter) : M unit := modify (λ s, set_metrics s (Metrics.inc (metrics s) c)).
Definition set_counter (c : counter) (v : Z) : M unit :=
  modify (λ s, set_metrics s (Metrics.set (metrics s) c v)).
Definition fetch_add (c : counter) (n : nat) : M unit :=
  modify (λ s, set_metrics s (Metrics.fetch_add (metrics s) c (Z.of_nat n))).

(** The [?] on a parser's result. *)
Definition try_parse {A} (o : outcome MessageError.t A) : M A := λ s, (map_err MessageErr o, s).

(** A call that cannot fail with an error. *)
Definition pure_call {A} (o : outcome Empty_set A) : M A := λ s,
  (match o with Ok a => Ok a | Err e => match e with end | Panic => Panic | Diverge => Diverge end, s).

(** A computation of the environment (clock readings). *)
Definition with_env {A} (m : io A) : M A := λ s,
  match m (env s) with
  | Ok (a, e) => (Ok a, set_env s e)
  | Err e => match e with end
  | Panic => (Panic, s)
  | Diverge => (Diverge, s)
  end.

(** [if let Ok(mut rib) = self.rib.write() { .. }]: a panic of the body poisons
    the lock. *)
Definition with_rib {A} (body : Rib.t → io (A * Rib.t)) : M (option A) := λ s,
  match rib s with
  | Poisoned => (Ok None, s)
  | Unlocked r =>
      match body r (env s) with
      | Ok ((a, r), e) => (Ok (Some a), set_env (set_rib s (Unlocked r)) e)
      | Err e => match e with end
      | Panic => (Panic, set_rib s Poisoned)
      | Diverge => (Diverge, s)
      end
  end.

(** [stream.write_all(data).await?] *)
Definition write_all (data : bytes) : M unit := λ s,
  let ok := writes s 0 in
  let s' := {| peer := peer s; rib := rib s; metrics := metrics s;
               sent := if ok then sent s ++ [data] else sent s;
               spawned := spawned s; env := env s; writes := λ n, writes s (S n) |} in
  (if ok then Ok tt else Err IoErr, s').

(** [let _ = stream.write_all(data).await] *)
Definition write_ignored (data : bytes) : M unit := λ s, (Ok tt, (write_all data s).2).

(** [tokio::spawn] of the purge task. *)
Definition spawn_purge (delay : Duration) (addr : SocketAddr) : M unit := modify (λ s,
  {| peer := peer s; rib := rib s; metrics := metrics s; sent := sent s;
     spawned := spawned s ++ [(delay, addr)]; env := env s; writes := writes s |}).

Definition transition (event : BgpEvent.t) : M unit :=
  modify_peer (λ p, Peer.set_state p (next_state p.(Peer.state) event)).

(** [self.timers.reset_*()] *)
Definition reset_hold_timer : M unit :=
  p ← gets peer;
  t ← with_env (BgpTimers.reset_hold_timer p.(Peer.timers));
  modify_peer (λ p, Peer.set_timers p t).

Definition reset_keepalive_timer : M unit :=
  p ← gets peer;
  t ← with_env (BgpTimers.reset_keepalive_timer p.(Peer.timers));
  modify_peer (λ p, Peer.set_timers p t).

(** [any(|c| matches!(c, Capability::GracefulRestart { .. }))] and the [find_map]
    over the same list. *)
Definition restart_time_of (c : Capability.t) : option Z :=
  match c with Capability.GracefulRestart restart_time _ => Some restart_time | _ => None end.

Fixpoint find_restart_time (caps : list Capability.t) : option Z :=
  match caps with
  | [] => None
  | c :: caps =>
      match restart_time_of c with Some t => Some t | None => find_restart_time caps end
  end.

Section session.
Context {api : BytesApi} {ord : HashOrder} {libm : Libm} (prof : profile).

Definition handle_disconnect : M unit :=
  p ← gets peer;
  let peer_supports_gr :=
    existsb (λ c, bool_decide (is_Some (restart_time_of c))) p.(Peer.peer_capabilities) in
  let restart_time := default 120%Z (find_restart_time p.(Peer.peer_capabilities)) in
  if (peer_supports_gr && bool_decide (p.(Peer.state) = BgpState.Established))%bool then
    _ ← with_rib (λ r, mret (tt, Rib.mark_peer_stale r p.(Peer.addr)));
    spawn_purge (from_secs restart_time) p.(Peer.addr)
  else
    _ ← with_rib (λ r, '(r, keys) ← Rib.remove_peer r p.(Peer.addr); mret (keys, r));
    mret tt.

(** The body of the spawned task, after its delay. *)
Definition purge_task (addr : SocketAddr) : M unit :=
  _ ← with_rib (λ r, '(r, keys) ← Rib.remove_stale_for_peer r addr; mret (keys, r));
  mret tt.

Definition handle_open (body : bytes) : M unit :=
  _ ← inc messages_rx_open;
  open ← try_parse (Open.parse body);
  caps ← pure_call (Capability.parse_from_open_params open.(optional_params));
  _ ← modify_peer (λ p, Peer.set_capabilities p caps);
  _ ← modify_peer (λ p, Peer.negotiate p open);
  _ ← reset_hold_timer;
  _ ← transition BgpEvent.BgpOpen;
  _ ← write_all KeepaliveMessage.serialize;
  inc messages_tx_keepalive.

Definition handle_keepalive : M unit :=
  _ ← inc messages_rx_keepalive;
  _ ← reset_hold_timer;
  p ← gets peer;
  if decide (p.(Peer.state) = BgpState.OpenConfirm) then
    _ ← transition BgpEvent.KeepAliveMsg;
    _ ← reset_keepalive_timer;
    inc sessions_established
  else mret tt.

(** The RIB calls of the UPDATE handler, under one write lock; the result is the
    size of Loc-RIB. *)
Definition update_rib (p : Peer.t) (update : UpdateMessage) (is_end_of_rib : bool) (r : Rib.t) :
    io (nat * Rib.t) :=
  r ← Rib.process_update prof r p.(Peer.addr) p.(Peer.remote_as) update.(nlri)
        update.(path_attributes) update.(withdrawn_routes);
  r ← (if is_end_of_rib
       then '(r, _) ← Rib.remove_stale_for_peer r p.(Peer.addr); mret r
       else mret r);
  let '(_, _, loc_count) := Rib.summary r in
  mret (loc_count, r).

(** RFC 4724: empty withdrawn, empty NLRI, empty attributes. *)
Definition end_of_rib (update : UpdateMessage) : bool :=
  (length update.(nlri) =? 0) && (length update.(withdrawn_routes) =? 0) &&
  Attrs.is_empty update.(path_attributes).

Definition handle_update (body : bytes) : M unit :=
  _ ← inc messages_rx_update;
  update ← try_parse (Update.parse body);
  _ ← reset_hold_timer;
  _ ← transition BgpEvent.UpdateMsg;
  let nlri_count := length update.(nlri) in
  let withdrawn_count := length update.(withdrawn_routes) in
  _ ← fetch_add routes_received nlri_count;
  _ ← fetch_add routes_withdrawn withdrawn_count;
  p ← gets peer;
  loc_count ← with_rib (update_rib p update (end_of_rib update));
  match loc_count with
  | Some n => set_counter routes_loc_rib (Z.of_nat n)
  | None => mret tt
  end.

Definition handle_notification (body : bytes) : M unit :=
  _ ← inc messages_rx_notification;
  _ ← try_parse (NotificationMessage.parse body);
  _ ← transition BgpEvent.NotifMsg;
  _ ← inc sessions_failed;
  _ ← set_counter sessions_active 0;
  p ← gets peer;
  _ ← with_rib (λ r, '(r, keys) ← Rib.remove_peer r p.(Peer.addr); mret (keys, r));
  mret tt.

Definition handle_message (msg : BgpMessage.t) : M unit :=
  match msg.(BgpMessage.header).(Header.msg_type) with
  | MessageType.Open => handle_open msg.(BgpMessage.body)
  | MessageType.Keepalive => handle_keepalive
  | MessageType.Update => handle_update msg.(BgpMessage.body)
  | MessageType.Notification => handle_notification msg.(BgpMessage.body)
  | MessageType.RouteRefresh => mret tt
  end.

(** [while let Some(msg) = BgpMessage::parse(&mut buf)? { self.handle_message(..)?; }] *)
Fixpoint handle_buffer (fuel : nat) (buf : bytes) : M bytes :=
  match fuel with
  | O => λ s, (Diverge, s)
  | S fuel =>
      '(msg, buf) ← try_parse (BgpMessage.parse buf);
      match msg with
      | Some msg => _ ← handle_message msg; handle_buffer fuel buf
      | None => mret buf
      end
  end.

(** What the [select!] of one round comes back with. *)
Inductive ReadEvent :=
| ReadClosed                (* Ok(0) *)
| ReadData (data : bytes)   (* Ok(n) *)
| ReadError                 (* Err(e) *)
| Tick.                     (* the 100 ms sleep *)

(** One round of the session loop; the result is the receive buffer when the
    session goes on, [None] when [run_session] returns [Ok(())]. *)
Definition session_round (buf : bytes) (event : ReadEvent) : M (option bytes) :=
  p ← gets peer;
  expired ← with_env (BgpTimers.hold_timer_expired p.(Peer.timers));
  if (expired : bool) then
    _ ← inc hold_timer_expirations;
    _ ← write_ignored (NotificationMessage.serialize NotificationMessage.hold_timer_expired);
    _ ← inc messages_tx_notification;
    _ ← transition BgpEvent.HoldTimerExpired;
    _ ← inc sessions_failed;
    _ ← set_counter sessions_active 0;
    _ ← handle_disconnect;
    mret None
  else
    due ← (if decide (p.(Peer.state) = BgpState.Established)
           then with_env (BgpTimers.keepalive_due p.(Peer.timers)) else mret false);
    _ ← (if (due : bool) then
           _ ← write_all KeepaliveMessage.serialize;
           _ ← reset_keepalive_timer;
           inc messages_tx_keepalive
         else mret tt);
    match event with
    | ReadClosed =>
        _ ← transition BgpEvent.TcpConnectionFail;
        _ ← set_counter sessions_active 0;
        _ ← handle_disconnect;
        mret None
    | ReadError => _ ← transition BgpEvent.TcpConnectionFail; fail IoErr
    | Tick => mret (Some buf)
    | ReadData data =>
        buf ← handle_buffer (S (length (buf ++ data))) (buf ++ data);
        mret (Some buf)
    end.

(** The loop of [run_session] on the reads its stream delivers, one per round. *)
Fixpoint session_loop (events : list ReadEvent) (buf : bytes) : M (option bytes) :=
  match events with
  | [] => mret (Some buf)
  | event :: events =>
      next ← session_round buf event;
      match next with
      | Some buf => session_loop events buf
      | None => mret None
      end
  end.

Definition local_caps (local : LocalConfig.t) : list Capability.t :=
  [Capability.FourOctetAsn local.(LocalConfig.local_as); Capability.RouteRefresh;
   Capability.MultiProtocol 1 1; Capability.GracefulRestart 120 0].

Definition local_open (local : LocalConfig.t) : OpenMessage :=
  Open.new_with_capabilities (Z.min local.(LocalConfig.local_as) 65535)
    local.(LocalConfig.hold_time) local.(LocalConfig.router_id) (local_caps local).

Definition run_session (events : list ReadEvent) : M (option bytes) :=
  _ ← inc messages_tx_open;
  p ← gets peer;
  _ ← write_all (Open.serialize (local_open p.(Peer.local)));
  session_loop events [].

(** [Peer::handle_incoming]; the session starts with a fresh [Peer]. *)
Definition handle_incoming (peer_addr : SocketAddr) (local : LocalConfig.t)
    (events : list ReadEvent) : M (option bytes) :=
  _ ← inc sessions_active;
  _ ← modify_peer (λ _, Peer.new peer_addr 0 local);
  _ ← transition BgpEvent.ManualStart;
  _ ← transition BgpEvent.TcpConnectionConfirmed;
  run_session events.
End session.
