(* ===== verification/SessionLogic.v ===== *)
(** * Reasoning about peer sessions

    Invariants of [M] computations that hold however they end, what a session does
    to the RIB it shares, the relation of its loop to the framing layer, when its
    computations return, and how its FSM state evolves. *)

From S2P Require Import Prelude.
From S2P Require Import Bytes.
From S2P Require Import Message.
From S2P Require Import ControlMessages.
From S2P Require Import Capabilities.
From S2P Require Import OpenMessage.
From S2P Require Import Attr.
From S2P Require Import UpdateMessage.
From S2P Require Import Rpki.
From S2P Require Import Env.
From S2P Require Import Dampening.
From S2P Require Import Rib.
From S2P Require Import RibSpec.
From S2P Require Import RibRefine.
From S2P Require Import Metrics.
From S2P Require Import Fsm.
From S2P Require Import Peer.

(* ------------------------------------------------------------------ *)
(** ** Reasoning about [M] *)

(** [m] keeps [I], whether it returns, fails or panics. *)
Definition keeps {A} (I : Session → Prop) (m : M A) : Prop := ∀ s, I s → I (m s).2.

Create HintDb keeps discriminated.

Section keeps.
Context (I : Session → Prop).

Lemma keeps_ret {A} (a : A) : keeps I (mret a).
Proof. by intros s. Qed.

Lemma keeps_fail {A} e : keeps I (fail (A:=A) e).
Proof. by intros s. Qed.

Lemma keeps_bind {A B} (m : M A) (f : A → M B) :
  keeps I m → (∀ a, keeps I (f a)) → keeps I (m ≫= f).
Proof.
  intros Hm Hf s HI. specialize (Hm s HI). unfold mbind, M_bind.
  destruct (m s) as [[a|e| |] s']; simpl in *; [by apply Hf|done..].
Qed.

Lemma keeps_gets {A} (f : Session → A) : keeps I (gets f).
Proof. by intros s. Qed.

Lemma keeps_try_parse {A} (o : outcome MessageError.t A) : keeps I (try_parse o).
Proof. by intros s. Qed.

Lemma keeps_pure_call {A} (o : outcome Empty_set A) : keeps I (pure_call o).
Proof. by intros s. Qed.

Lemma keeps_if {A} (b : bool) (m m' : M A) :
  keeps I m → keeps I m' → keeps I (if b then m else m').
Proof. by destruct b. Qed.
End keeps.

#[export] Hint Resolve keeps_ret keeps_fail keeps_bind keeps_gets keeps_try_parse keeps_pure_call
  keeps_if : keeps.

(** What an invariant must be insensitive to, for the primitives that touch only
    the task's own state to keep it. *)
Record ignores_io (I : Session → Prop) : Prop := {
  ig_env s e : I s → I (set_env s e);
  ig_write s d : I s → I (write_all d s).2
}.

Definition ignores_counter (I : Session → Prop) (c : counter) : Prop :=
  ∀ s v, I s → I (set_metrics s (Metrics.set (metrics s) c v)).

Section own.
Context (I : Session → Prop).

Lemma keeps_with_env {A} (m : io A) : ignores_io I → keeps I (with_env m).
Proof.
  intros HI s Hs. unfold with_env. destruct (m (env s)) as [[a e]|[]| |]; simpl; [|done..].
  by apply (ig_env _ HI).
Qed.

Lemma keeps_inc c : ignores_counter I c → keeps I (inc c).
Proof. intros HI s Hs. by apply HI. Qed.

Lemma keeps_set_counter c v : ignores_counter I c → keeps I (set_counter c v).
Proof. intros HI s Hs. by apply HI. Qed.

Lemma keeps_fetch_add c n : ignores_counter I c → keeps I (fetch_add c n).
Proof. intros HI s Hs. by apply HI. Qed.

Lemma keeps_write d : ignores_io I → keeps I (write_all d).
Proof. intros HI s Hs. by apply (ig_write _ HI). Qed.

Lemma keeps_write_ignored d : ignores_io I → keeps I (write_ignored d).
Proof. intros HI s Hs. by apply (ig_write _ HI). Qed.
End own.

#[export] Hint Resolve keeps_with_env keeps_inc keeps_set_counter keeps_fetch_add keeps_write
  keeps_write_ignored : keeps.

(** Passes the steps of a sequence that are known to keep the invariant. *)
Ltac keep_steps := repeat (apply keeps_bind; [solve [auto with keeps]|intros ?]).

(** One step of a computation in a given state. *)
Lemma M_bind_Ok {A B} (m : M A) (f : A → M B) s a s' :
  m s = (Ok a, s') → (m ≫= f) s = f a s'.
Proof. intros Hm. unfold mbind, M_bind. by rewrite Hm. Qed.

Lemma M_bind_inv {A B} (m : M A) (f : A → M B) s b s' :
  (m ≫= f) s = (Ok b, s') → ∃ a s1, m s = (Ok a, s1) ∧ f a s1 = (Ok b, s').
Proof. unfold mbind, M_bind. destruct (m s) as [[a|e| |] s1]; naive_solver. Qed.

Lemma M_bind_assoc {A B C} (m : M A) (f : A → M B) (g : B → M C) s :
  ((m ≫= f) ≫= g) s = (m ≫= (λ a, f a ≫= g)) s.
Proof. unfold mbind, M_bind. by destruct (m s) as [[a|e| |] s1]. Qed.

Lemma M_bind_ext {A B} (m : M A) (f g : A → M B) s :
  (∀ a s', f a s' = g a s') → (m ≫= f) s = (m ≫= g) s.
Proof. intros Hfg. unfold mbind, M_bind. by destruct (m s) as [[a|e| |] s1]. Qed.

(** A call that always returns. *)
Lemma with_env_runs {A} (m : io A) (Q : A → Prop) s :
  runs m Q → ∃ a e, with_env m s = (Ok a, set_env s e) ∧ Q a.
Proof.
  intros Hm. destruct (Hm (env s)) as (a&e&Ha&HQ). exists a, e. unfold with_env. by rewrite Ha.
Qed.

(* ------------------------------------------------------------------ *)
(** ** The RIB behind the lock *)

(** A RIB that is consistent and whose tables satisfy [R].  Nothing in the program
    gives the RIB's validator a mode other than its default, [Disabled]. *)
Definition rib_frame (R : AdjView → Prop) (r : Rib.t) : Prop :=
  rib_wf r ∧ r.(Rib.rpki).(RpkiValidator.mode) = RpkiMode.Disabled ∧ R (view r).

(** The session is that of peer [a], and the lock guards such a RIB. *)
Definition session_frame (a : SocketAddr) (R : AdjView → Prop) (s : Session) : Prop :=
  (peer s).(Peer.addr) = a ∧
  match rib s with Unlocked r => rib_frame R r | Poisoned => False end.

(** The lock is not poisoned and guards a consistent RIB. *)
Definition lock_ok (s : Session) : Prop :=
  match rib s with
  | Unlocked r => rib_wf r ∧ r.(Rib.rpki).(RpkiValidator.mode) = RpkiMode.Disabled
  | Poisoned => False
  end.

Lemma lock_ok_frame s : lock_ok s ↔ session_frame (peer s).(Peer.addr) (λ _, True) s.
Proof. unfold lock_ok, session_frame, rib_frame. destruct (rib s) as [r|]; naive_solver. Qed.

(** The frame of a session as it starts. *)
Lemma session_frame_start (R : AdjView → Prop) s r :
  rib s = Unlocked r → lock_ok s → R (view r) → session_frame (peer s).(Peer.addr) R s.
Proof. unfold lock_ok, session_frame, rib_frame. intros -> [??] ?. done. Qed.

Section rib_invariant.
Context {api : BytesApi} {laws : BytesLaws api} {ord : HashOrder} {libm : Libm}.
Context (a : SocketAddr) (R : AdjView → Prop) `{!Closed a R}.

#[local] Abbreviation framed := (session_frame a R).

Lemma framed_own : ignores_io framed.
Proof. by split. Qed.

Lemma framed_counter c : ignores_counter framed c.
Proof. by intros s v. Qed.

Lemma framed_peer f : (∀ p, (f p).(Peer.addr) = p.(Peer.addr)) → keeps framed (modify_peer f).
Proof. intros Hf s [Ha Hr]. split; [|done]. simpl. by rewrite Hf. Qed.

Lemma framed_bind_peer {A} (f : Peer.t → M A) :
  (∀ p, p.(Peer.addr) = a → keeps framed (f p)) → keeps framed (gets peer ≫= f).
Proof. intros Hf s Hs. apply (Hf (peer s)); [apply Hs|done]. Qed.

(** A body that keeps the RIB's invariant and cannot panic keeps the lock. *)
Lemma framed_with_rib {A} (body : Rib.t → io (A * Rib.t)) :
  (∀ r, rib_frame R r → runs (body r) (λ '(_, r'), rib_frame R r')) →
  keeps framed (with_rib body).
Proof.
  intros Hbody s [Ha Hs]. unfold session_frame, with_rib in *.
  destruct (rib s) as [r|] eqn:Hr; [|done].
  destruct (Hbody r Hs (env s)) as ([x r']&e&->&?). done.
Qed.

(** A step of the peer's own. *)
Lemma frame_step op r r' :
  op_peer op = a → spec_step op (view r) (view r') → rib_frame R r →
  rib_wf r' → r'.(Rib.rpki) = r.(Rib.rpki) → rib_frame R r'.
Proof.
  intros Ha Hstep (_&Hmode&HR) Hwf Hr. split_and!; [done|by rewrite Hr|]. by eapply closed_step.
Qed.

Lemma runs_remove_stale_frame r :
  rib_frame R r → runs (Rib.remove_stale_for_peer r a) (λ '(r', _), rib_frame R r').
Proof.
  intros Hr. eapply runs_mono; [apply runs_remove_stale_step, Hr|].
  intros [r' keys] (?&?&_&?). by eapply (frame_step (OpRemoveStale a)).
Qed.

Lemma runs_update_rib p update eor r :
  p.(Peer.addr) = a → rib_frame R r →
  runs (update_rib Release p update eor r) (λ '(_, r'), rib_frame R r').
Proof.
  intros Hp Hr. pose proof Hr as (Hwf&Hmode&_). unfold update_rib. rewrite Hp.
  eapply runs_bind; [apply (runs_update_step Release 0); [done|done|by left]|].
  intros r1 (Hwf1&Hr1&_&Hstep).
  assert (rib_frame R r1) as Hf1 by (by eapply (frame_step (OpUpdate a _ _ _ _))).
  eapply (runs_bind _ _ (rib_frame R)).
  - destruct eor; [|by apply runs_ret].
    eapply runs_bind; [by apply runs_remove_stale_frame|]. intros [r2 keys] ?. by apply runs_ret.
  - intros r2 ?. by apply runs_ret.
Qed.

Lemma runs_remove_body r :
  rib_frame R r →
  runs ('(r, keys) ← Rib.remove_peer r a; mret (keys, r)) (λ '(_, r'), rib_frame R r').
Proof.
  intros Hr. eapply runs_bind; [apply runs_remove_peer_step, Hr|].
  intros [r' keys] (?&?&_&?). apply runs_ret. by eapply (frame_step (OpRemovePeer a)).
Qed.

Lemma runs_remove_stale_body r :
  rib_frame R r →
  runs ('(r, keys) ← Rib.remove_stale_for_peer r a; mret (keys, r)) (λ '(_, r'), rib_frame R r').
Proof.
  intros Hr. eapply runs_bind; [by apply runs_remove_stale_frame|].
  intros [r' keys] ?. by apply runs_ret.
Qed.

Lemma mark_stale_frame r : rib_frame R r → rib_frame R (Rib.mark_peer_stale r a).
Proof.
  intros Hr. pose proof (mark_stale_other r a) as (_&?&_).
  eapply (frame_step (OpMarkStale a)); [done|apply mark_stale_step|done|apply mark_peer_stale_wf, Hr|done].
Qed.

Lemma framed_remove_peer :
  keeps framed (with_rib (λ r, '(r, keys) ← Rib.remove_peer r a; mret (keys, r))).
Proof. apply framed_with_rib. intros r Hr. by apply runs_remove_body. Qed.

Lemma framed_transition e : keeps framed (transition e).
Proof. by apply framed_peer. Qed.

#[local] Hint Resolve framed_own framed_counter framed_peer framed_remove_peer framed_transition : keeps.

Lemma framed_handle_disconnect : keeps framed handle_disconnect.
Proof.
  unfold handle_disconnect. apply framed_bind_peer. intros p ->. cbv zeta.
  apply keeps_if.
  - apply keeps_bind; [|by intros ? s].
    apply framed_with_rib. intros r Hr. by apply runs_ret, mark_stale_frame.
  - keep_steps. auto with keeps.
Qed.

Lemma framed_purge_task : keeps framed (purge_task a).
Proof.
  unfold purge_task. apply keeps_bind; [|auto with keeps].
  apply framed_with_rib. intros r Hr. by apply runs_remove_stale_body.
Qed.

Lemma framed_reset_hold : keeps framed reset_hold_timer.
Proof. unfold reset_hold_timer. eauto 10 with keeps. Qed.

Lemma framed_reset_keepalive : keeps framed reset_keepalive_timer.
Proof. unfold reset_keepalive_timer. eauto 10 with keeps. Qed.

#[local] Hint Resolve framed_reset_hold framed_reset_keepalive framed_handle_disconnect : keeps.

(** No message handler breaks the RIB or touches another peer's routes. *)
Lemma framed_handle_message msg : keeps framed (handle_message Release msg).
Proof.
  unfold handle_message. destruct (Header.msg_type _).
  - unfold handle_open. keep_steps. auto with keeps.
  - unfold handle_update.
    do 6 (apply keeps_bind; [solve [auto with keeps]|intros ?]).
    apply framed_bind_peer. intros p Hp. apply keeps_bind.
    + apply framed_with_rib. intros r Hr. by apply runs_update_rib.
    + intros [n|]; auto with keeps.
  - unfold handle_notification.
    do 5 (apply keeps_bind; [solve [auto with keeps]|intros ?]).
    apply framed_bind_peer. intros p ->. keep_steps. auto with keeps.
  - unfold handle_keepalive. keep_steps. case_decide; [|auto with keeps].
    keep_steps. auto with keeps.
  - auto with keeps.
Qed.

Lemma framed_handle_buffer fuel buf : keeps framed (handle_buffer Release fuel buf).
Proof.
  revert buf; induction fuel as [|fuel IH]; intros buf; simpl; [by intros s|].
  apply keeps_bind; [auto with keeps|]. intros [[msg|] rest]; [|auto with keeps].
  apply keeps_bind; [apply framed_handle_message|]. auto.
Qed.

Lemma framed_session_round buf event : keeps framed (session_round Release buf event).
Proof.
  unfold session_round. apply keeps_bind; [auto with keeps|intros p].
  apply keeps_bind; [auto with keeps|intros expired]. destruct expired.
  - keep_steps. auto with keeps.
  - apply keeps_bind; [case_decide; auto with keeps|intros due].
    apply keeps_bind.
    { destruct due; [|auto with keeps]. keep_steps. auto with keeps. }
    intros _. destruct event.
    + keep_steps. auto with keeps.
    + apply keeps_bind; [apply framed_handle_buffer|]. auto with keeps.
    + apply keeps_bind; auto with keeps.
    + auto with keeps.
Qed.

Lemma framed_session_loop events buf : keeps framed (session_loop Release events buf).
Proof.
  revert buf; induction events as [|event events IH]; intros buf; simpl; [auto with keeps|].
  apply keeps_bind; [apply framed_session_round|]. intros [buf'|]; [apply IH|auto with keeps].
Qed.

Lemma framed_run_session events : keeps framed (run_session Release events).
Proof. unfold run_session. keep_steps. apply framed_session_loop. Qed.

(** A new session, whatever ran before. *)
Lemma framed_handle_incoming local events s r :
  rib s = Unlocked r → rib_frame R r →
  session_frame a R (handle_incoming Release a local events s).2.
Proof.
  intros Hr Hf. unfold handle_incoming. do 2 (erewrite M_bind_Ok by reflexivity).
  apply keeps_bind; [apply framed_transition|intros _|].
  - apply keeps_bind; [apply framed_transition|intros _]. apply framed_run_session.
  - split; [done|]. simpl. by rewrite Hr.
Qed.
End rib_invariant.

(** What keeps every frame keeps the lock. *)
Lemma framed_lock_ok {A} (m : M A) :
  (∀ a, keeps (session_frame a (λ _, True)) m) → keeps lock_ok m.
Proof.
  intros Hm s Hs%lock_ok_frame. specialize (Hm _ _ Hs). apply lock_ok_frame.
  destruct Hm as [Ha Hm]. split; [done|exact Hm].
Qed.

(* ------------------------------------------------------------------ *)
(** ** The session loop and the framing layer *)

(** Handling a list of messages, in order, up to the first failure. *)
Fixpoint handle_messages `{BytesApi, HashOrder, Libm} (prof : profile) (ms : list BgpMessage.t) :
    M unit :=
  match ms with
  | [] => mret tt
  | m :: ms => _ ← handle_message prof m; handle_messages prof ms
  end.

Section loop_lemmas.
Context {api : BytesApi} {laws : BytesLaws api} {ord : HashOrder} {libm : Libm} (prof : profile).

(** The message loop handles the messages the framing layer finds, in order. *)
Lemma handle_buffer_drain buf s ms rest :
  BgpMessage.drain buf = Ok (ms, rest) →
  handle_buffer prof (S (length buf)) buf s = (_ ← handle_messages prof ms; mret rest) s.
Proof.
  assert (∀ fuel, length buf < fuel → ∀ ms rest, BgpMessage.drain buf = Ok (ms, rest) →
    ∀ s, handle_buffer prof fuel buf s = (_ ← handle_messages prof ms; mret rest) s) as Hgen.
  { induction buf as [buf IH] using bytes_length_ind. intros fuel Hfuel ms' rest' Hd s0.
    destruct fuel as [|fuel]; [lia|]. cbn [handle_buffer]. rewrite drain_unfold in Hd.
    apply bind_Ok_inv in Hd as ([[m|] r]&Hp&Hd).
    - apply bind_Ok_inv in Hd as ([ms1 r']&Hd&[= <- <-]).
      erewrite M_bind_Ok by (unfold try_parse; by rewrite Hp).
      apply bgp_parse_shorter in Hp as Hlt. cbn [handle_messages]. rewrite M_bind_assoc.
      apply M_bind_ext. intros _ s1. apply IH; [done|lia|done].
    - injection Hd as <- <-. by erewrite M_bind_Ok by (unfold try_parse; by rewrite Hp). }
  intros Hd. apply Hgen; [lia|done].
Qed.
End loop_lemmas.

(* ------------------------------------------------------------------ *)
(** ** Sessions that return *)

(** From a session of peer [a] with a sound RIB, [m] returns or fails, without a
    panic, and leaves it sound. *)
Definition safe {A} (a : SocketAddr) (R : AdjView → Prop) (m : M A) : Prop :=
  ∀ s, session_frame a R s → session_frame a R (m s).2 ∧ returns (m s).1.

Section safe.
Context {api : BytesApi} {laws : BytesLaws api} {ord : HashOrder} {libm : Libm}.
Context (a : SocketAddr) (R : AdjView → Prop) `{!Closed a R}.

#[local] Abbreviation framed := (session_frame a R).
#[local] Abbreviation safe := (safe a R).

Lemma safe_intro {A} (m : M A) :
  keeps framed m → (∀ s, framed s → returns (m s).1) → safe m.
Proof. intros Hk Hr s Hs. auto. Qed.

Lemma safe_bind {A B} (m : M A) (f : A → M B) : safe m → (∀ a, safe (f a)) → safe (m ≫= f).
Proof.
  intros Hm Hf s Hs. destruct (Hm s Hs) as [Hl Hr]. unfold mbind, M_bind.
  destruct (m s) as [[x|e| |] s']; simpl in *; [by apply Hf|done..].
Qed.

Ltac safe_steps := repeat (apply safe_bind; [solve [auto with keeps]|intros ?]).

(** A step that always returns. *)
Lemma safe_total {A} (m : M A) : keeps framed m → (∀ s, returns (m s).1) → safe m.
Proof. intros Hk Hr. by apply safe_intro. Qed.

#[local] Hint Resolve framed_own framed_counter : keeps.

Lemma safe_ret {A} (x : A) : safe (mret x).
Proof. apply safe_total; [auto with keeps|by intros s]. Qed.

Lemma safe_fail {A} e : safe (fail (A:=A) e).
Proof. apply safe_total; [auto with keeps|by intros s]. Qed.

Lemma safe_gets {A} (f : Session → A) : safe (gets f).
Proof. apply safe_total; [auto with keeps|by intros s]. Qed.

Lemma safe_bind_peer {A} (f : Peer.t → M A) :
  (∀ p, p.(Peer.addr) = a → safe (f p)) → safe (gets peer ≫= f).
Proof. intros Hf s Hs. apply (Hf (peer s)); [apply Hs|done]. Qed.

Lemma safe_peer f : (∀ p, (f p).(Peer.addr) = p.(Peer.addr)) → safe (modify_peer f).
Proof. intros Hf. apply safe_total; [by apply framed_peer|by intros s]. Qed.

Lemma safe_transition e : safe (transition e).
Proof. by apply safe_peer. Qed.

Lemma safe_inc c : safe (inc c).
Proof. apply safe_total; [auto with keeps|by intros s]. Qed.

Lemma safe_set_counter c v : safe (set_counter c v).
Proof. apply safe_total; [auto with keeps|by intros s]. Qed.

Lemma safe_fetch_add c n : safe (fetch_add c n).
Proof. apply safe_total; [auto with keeps|by intros s]. Qed.

Lemma safe_write d : safe (write_all d).
Proof.
  apply safe_total; [apply keeps_write, framed_own|]. intros s. unfold write_all. simpl.
  by destruct (writes s 0).
Qed.

Lemma safe_write_ignored d : safe (write_ignored d).
Proof. apply safe_total; [apply keeps_write_ignored, framed_own|by intros s]. Qed.

Lemma safe_try {A} (o : outcome MessageError.t A) : returns o → safe (try_parse o).
Proof. intros Ho s Hs. split; [done|]. by apply returns_map_err. Qed.

Lemma safe_pure {A} (o : outcome Empty_set A) : returns o → safe (pure_call o).
Proof. intros Ho s Hs. split; [done|]. by destruct o. Qed.

Lemma safe_env {A} (m : io A) : runs m (λ _, True) → safe (with_env m).
Proof.
  intros Hm s Hs. destruct (with_env_runs m _ s Hm) as (x&e&->&_). done.
Qed.

Lemma safe_with_rib {A} (body : Rib.t → io (A * Rib.t)) :
  (∀ r, rib_frame R r → runs (body r) (λ '(_, r'), rib_frame R r')) →
  safe (with_rib body).
Proof.
  intros Hbody. apply safe_intro; [by apply framed_with_rib|]. intros s [_ Hs].
  unfold with_rib. destruct (rib s) as [r|]; [|done].
  by destruct (Hbody r Hs (env s)) as ([x r']&e&->&_).
Qed.

Lemma runs_reset_hold t : runs (BgpTimers.reset_hold_timer t) (λ _, True).
Proof.
  unfold BgpTimers.reset_hold_timer. case_match; [|by apply runs_ret].
  eapply runs_bind; [by apply (runs_now (λ _, True))|]. intros. by apply runs_ret.
Qed.

Lemma runs_reset_keepalive t : runs (BgpTimers.reset_keepalive_timer t) (λ _, True).
Proof.
  unfold BgpTimers.reset_keepalive_timer. case_match; [|by apply runs_ret].
  eapply runs_bind; [by apply (runs_now (λ _, True))|]. intros. by apply runs_ret.
Qed.

Lemma runs_hold_expired t : runs (BgpTimers.hold_timer_expired t) (λ _, True).
Proof.
  unfold BgpTimers.hold_timer_expired. case_match; [by apply runs_ret|].
  case_match; [|by apply runs_ret].
  eapply runs_bind; [by apply (runs_elapsed _ (λ _, True))|]. intros. by apply runs_ret.
Qed.

Lemma runs_keepalive_due t : runs (BgpTimers.keepalive_due t) (λ _, True).
Proof.
  unfold BgpTimers.keepalive_due. case_match; [by apply runs_ret|].
  case_match; [|by apply runs_ret].
  eapply runs_bind; [by apply (runs_elapsed _ (λ _, True))|]. intros. by apply runs_ret.
Qed.

Lemma safe_reset_hold : safe reset_hold_timer.
Proof.
  apply safe_bind; [apply safe_gets|]. intros p. apply safe_bind; [|intros; by apply safe_peer].
  apply safe_env, runs_reset_hold.
Qed.

Lemma safe_reset_keepalive : safe reset_keepalive_timer.
Proof.
  apply safe_bind; [apply safe_gets|]. intros p. apply safe_bind; [|intros; by apply safe_peer].
  apply safe_env, runs_reset_keepalive.
Qed.

Lemma parse_from_open_params_returns {E} ps :
  returns (E:=E) (Capability.parse_from_open_params ps).
Proof. apply parse_optional_params_returns. Qed.

Lemma safe_remove_peer :
  safe (with_rib (λ r, '(r, keys) ← Rib.remove_peer r a; mret (keys, r))).
Proof. apply safe_with_rib. intros r Hr. by apply runs_remove_body. Qed.

Lemma safe_handle_disconnect : safe handle_disconnect.
Proof.
  apply safe_bind_peer. intros p ->. cbv zeta. destruct (_ && _)%bool.
  - apply safe_bind; [|intros; by apply safe_total; intros s].
    apply safe_with_rib. intros r Hr. by apply runs_ret, mark_stale_frame.
  - apply safe_bind; [apply safe_remove_peer|]. intros. apply safe_ret.
Qed.

#[local] Hint Resolve safe_transition safe_remove_peer parse_from_open_params_returns safe_ret
  safe_fail safe_gets safe_peer safe_inc safe_set_counter safe_fetch_add safe_env
  runs_hold_expired runs_keepalive_due safe_write_ignored safe_handle_disconnect
  safe_write safe_try safe_pure safe_reset_hold safe_reset_keepalive open_parse_returns
  notification_parse_returns : keeps.

(** A handler can only panic in the parser of an UPDATE. *)
Lemma safe_handle_message msg :
  (msg.(BgpMessage.header).(Header.msg_type) = MessageType.Update →
   returns (Update.parse msg.(BgpMessage.body))) →
  safe (handle_message Release msg).
Proof.
  intros Hupd. unfold handle_message. destruct (Header.msg_type _).
  - unfold handle_open. safe_steps. auto with keeps.
  - unfold handle_update. apply safe_bind; [auto with keeps|intros _].
    apply safe_bind; [by apply safe_try, Hupd|intros update].
    do 4 (apply safe_bind; [solve [auto with keeps]|intros ?]).
    apply safe_bind_peer. intros p Hp. apply safe_bind.
    + apply safe_with_rib. intros r Hr. apply (runs_update_rib a R); [exact Hp|exact Hr].
    + intros [n|]; auto with keeps.
  - unfold handle_notification. do 5 (apply safe_bind; [solve [auto with keeps]|intros ?]).
    apply safe_bind_peer. intros p ->. safe_steps. auto with keeps.
  - unfold handle_keepalive. safe_steps. case_decide; [|auto with keeps]. safe_steps. auto with keeps.
  - auto with keeps.
Qed.

(** The messages the loop takes from a buffer, up to a framing error. *)
Inductive framed_in : bytes → BgpMessage.t → Prop :=
| framed_here buf m rest : BgpMessage.parse buf = Ok (Some m, rest) → framed_in buf m
| framed_later buf m' rest m :
    BgpMessage.parse buf = Ok (Some m', rest) → framed_in rest m → framed_in buf m.

Lemma safe_handle_buffer buf :
  (∀ m, framed_in buf m → m.(BgpMessage.header).(Header.msg_type) = MessageType.Update →
    returns (Update.parse m.(BgpMessage.body))) →
  safe (handle_buffer Release (S (length buf)) buf).
Proof.
  intros Hupd.
  assert (∀ fuel, length buf < fuel → safe (handle_buffer Release fuel buf)) as Hgen; [|by apply Hgen; lia].
  induction buf as [buf IH] using bytes_length_ind. intros fuel Hfuel.
  destruct fuel as [|fuel]; [lia|]. cbn [handle_buffer].
  assert (returns (BgpMessage.parse buf)) as Hret by apply bgp_parse_total.
  destruct (BgpMessage.parse buf) as [[[m|] rest]|e| |] eqn:Hp; [..|done|done].
  - apply bgp_parse_shorter in Hp as Hlt.
    intros s Hs. erewrite M_bind_Ok by (unfold try_parse; reflexivity). revert s Hs.
    apply safe_bind; [apply safe_handle_message; intros; apply Hupd; [by eapply framed_here|done]|].
    intros _. apply IH; [done| |lia]. intros m' Hm'. apply Hupd. by eapply framed_later.
  - intros s Hs. done.
  - intros s Hs. done.
Qed.

Lemma safe_session_round buf event :
  (∀ data m, event = ReadData data → framed_in (buf ++ data) m →
     m.(BgpMessage.header).(Header.msg_type) = MessageType.Update →
     returns (Update.parse m.(BgpMessage.body))) →
  safe (session_round Release buf event).
Proof.
  intros Hupd. unfold session_round. apply safe_bind; [auto with keeps|intros p].
  apply safe_bind; [auto with keeps|intros expired]. destruct expired.
  - safe_steps. auto with keeps.
  - apply safe_bind; [case_decide; auto with keeps|intros due].
    apply safe_bind; [destruct due; [|auto with keeps]; safe_steps; auto with keeps|intros _].
    destruct event as [|data| |]; [safe_steps; auto with keeps| |safe_steps; auto with keeps|auto with keeps].
    apply safe_bind; [|auto with keeps]. apply safe_handle_buffer. intros m. by apply Hupd.
Qed.
End safe.

(* ------------------------------------------------------------------ *)
(** ** Where a computation leads *)

(** When [m] returns, it leads from [I] to [Q]. *)
Definition leads {A} (I Q : Session → Prop) (m : M A) : Prop :=
  ∀ s a s', I s → m s = (Ok a, s') → Q s'.

(** When [m] fails, [I] still holds. *)
Definition on_fail {A} (I : Session → Prop) (m : M A) : Prop :=
  ∀ s e s', I s → m s = (Err e, s') → I s'.

Definition ignores_rib (I : Session → Prop) : Prop := ∀ s l, I s → I (set_rib s l).

Section leads.
Context (I Q : Session → Prop).

Lemma keeps_with_rib {A} (body : Rib.t → io (A * Rib.t)) :
  ignores_io I → ignores_rib I → keeps I (with_rib body).
Proof.
  intros Hio Hrib s Hs. unfold with_rib. destruct (rib s) as [r|]; [|done].
  destruct (body r (env s)) as [[[x r'] e]|[]| |]; simpl; [|by apply Hrib|done].
  by apply (ig_env _ Hio), Hrib.
Qed.

Lemma leads_keeps {A} (m : M A) : keeps I m → leads I I m.
Proof. intros Hm s a s' HI Hr. specialize (Hm s HI). by rewrite Hr in Hm. Qed.

Lemma leads_step {A B} (m : M A) (f : A → M B) :
  keeps I m → (∀ a, leads I Q (f a)) → leads I Q (m ≫= f).
Proof.
  intros Hm Hf s b s' HI (a&s1&Ha&Hb)%M_bind_inv. specialize (Hm s HI). rewrite Ha in Hm.
  exact (Hf a s1 b s' Hm Hb).
Qed.

Lemma leads_bind {A B} (P : Session → Prop) (m : M A) (f : A → M B) :
  leads I P m → (∀ a, leads P Q (f a)) → leads I Q (m ≫= f).
Proof.
  intros Hm Hf s b s' HI (a&s1&Ha&Hb)%M_bind_inv. exact (Hf a s1 b s' (Hm s a s1 HI Ha) Hb).
Qed.

Lemma on_fail_keeps {A} (m : M A) : keeps I m → on_fail I m.
Proof. intros Hm s e s' HI Hr. specialize (Hm s HI). by rewrite Hr in Hm. Qed.

Lemma on_fail_step {A B} (m : M A) (f : A → M B) :
  keeps I m → (∀ a, on_fail I (f a)) → on_fail I (m ≫= f).
Proof.
  intros Hm Hf s e s' HI. specialize (Hm s HI). unfold mbind, M_bind.
  destruct (m s) as [[a|e1| |] s1]; simpl in *; [by apply Hf| |done..]. by intros [= <- <-].
Qed.

(** After the steps that can fail come steps that cannot. *)
Lemma on_fail_never {A} (m : M A) : (∀ s e, (m s).1 ≠ Err e) → on_fail I m.
Proof. intros Hm s e s' _ Hr. destruct (Hm s e). by rewrite Hr. Qed.
End leads.

Lemma never_fails_bind {A B} (m : M A) (f : A → M B) :
  (∀ s e, (m s).1 ≠ Err e) → (∀ a s e, (f a s).1 ≠ Err e) → ∀ s e, ((m ≫= f) s).1 ≠ Err e.
Proof.
  intros Hm Hf s e. specialize (Hm s). unfold mbind, M_bind.
  destruct (m s) as [[a|e1| |] s1]; [apply Hf| |done..]. by intros [= ->]; destruct (Hm e).
Qed.

Lemma with_rib_never_fails {A} (body : Rib.t → io (A * Rib.t)) s e : (with_rib body s).1 ≠ Err e.
Proof.
  unfold with_rib. destruct (rib s) as [r|]; [|done].
  by destruct (body r (env s)) as [[[x r'] e']|[]| |].
Qed.

(** The FSM state of the session. *)
Definition in_state (x : BgpState.t) (s : Session) : Prop := (peer s).(Peer.state) = x.

Lemma in_state_io x : ignores_io (in_state x).
Proof. by split. Qed.

Lemma in_state_counter x c : ignores_counter (in_state x) c.
Proof. by intros s v. Qed.

Lemma in_state_rib x : ignores_rib (in_state x).
Proof. by intros s l. Qed.

Lemma in_state_peer x f :
  (∀ p, (f p).(Peer.state) = p.(Peer.state)) → keeps (in_state x) (modify_peer f).
Proof. intros Hf s Hs. unfold in_state in *. simpl. by rewrite Hf. Qed.

#[export] Hint Resolve keeps_with_rib in_state_io in_state_counter in_state_rib in_state_peer : keeps.

Lemma in_state_reset_hold x : keeps (in_state x) reset_hold_timer.
Proof. unfold reset_hold_timer. eauto 10 with keeps. Qed.

Lemma in_state_reset_keepalive x : keeps (in_state x) reset_keepalive_timer.
Proof. unfold reset_keepalive_timer. eauto 10 with keeps. Qed.

#[export] Hint Resolve in_state_reset_hold in_state_reset_keepalive : keeps.

Lemma leads_transition x event :
  leads (in_state x) (in_state (next_state x event)) (transition event).
Proof. intros s a s' Hs [= _ <-]. unfold in_state in *. simpl. by rewrite Hs. Qed.

(** The event a message is to the FSM. *)
Definition msg_event (t : MessageType.t) : option BgpEvent.t :=
  match t with
  | MessageType.Open => Some BgpEvent.BgpOpen
  | MessageType.Update => Some BgpEvent.UpdateMsg
  | MessageType.Notification => Some BgpEvent.NotifMsg
  | MessageType.Keepalive => Some BgpEvent.KeepAliveMsg
  | MessageType.RouteRefresh => None
  end.

Definition msg_state (x : BgpState.t) (m : BgpMessage.t) : BgpState.t :=
  match msg_event m.(BgpMessage.header).(Header.msg_type) with
  | Some event => next_state x event
  | None => x
  end.

Section state_lemmas.
Context {api : BytesApi} {ord : HashOrder} {libm : Libm} (prof : profile).

Ltac lead_steps := repeat (apply leads_step; [solve [auto with keeps]|intros ?]).

(** A handled message moves the FSM by its event. *)
Lemma leads_handle_message x m : leads (in_state x) (in_state (msg_state x m)) (handle_message prof m).
Proof.
  unfold msg_state, handle_message. destruct (Header.msg_type _); simpl.
  - unfold handle_open. lead_steps. eapply leads_bind; [apply leads_transition|intros _].
    apply leads_keeps. keep_steps. auto with keeps.
  - unfold handle_update. lead_steps. eapply leads_bind; [apply leads_transition|intros _].
    apply leads_keeps. keep_steps. case_match; auto with keeps.
  - unfold handle_notification. lead_steps. eapply leads_bind; [apply leads_transition|intros _].
    apply leads_keeps. keep_steps. auto with keeps.
  - unfold handle_keepalive. do 2 (apply leads_step; [solve [auto with keeps]|intros ?]).
    intros s u s' Hs (p&s1&[= <- <-]&Hr)%M_bind_inv.
    revert s u s' Hs Hr. intros s u s' Hs. rewrite Hs.
    case_decide as Hx.
    + subst x. revert s u s' Hs. change (leads (in_state BgpState.OpenConfirm) (in_state BgpState.Established)
        (_ ← transition BgpEvent.KeepAliveMsg; _ ← reset_keepalive_timer; inc sessions_established)).
      eapply leads_bind; [apply leads_transition|intros _]. apply leads_keeps. keep_steps. auto with keeps.
    + intros [= _ <-]. by destruct x.
  - apply leads_keeps. auto with keeps.
Qed.

Lemma leads_handle_messages x ms :
  leads (in_state x) (in_state (foldl msg_state x ms)) (handle_messages prof ms).
Proof.
  revert x; induction ms as [|m ms IH]; intros x; simpl.
  - apply leads_keeps. auto with keeps.
  - eapply leads_bind; [apply leads_handle_message|intros _]. apply IH.
Qed.
End state_lemmas.

(** ** Evaluating steps *)

Section evaluation.
Context {api : BytesApi} {ord : HashOrder} {libm : Libm}.

Lemma with_rib_runs {A} (body : Rib.t → io (A * Rib.t)) (Q : A * Rib.t → Prop) s r :
  rib s = Unlocked r → runs (body r) Q →
  ∃ a r' e, with_rib body s = (Ok (Some a), set_env (set_rib s (Unlocked r')) e) ∧ Q (a, r').
Proof.
  intros Hr Hb. destruct (Hb (env s)) as ([a r']&e&Ha&HQ). exists a, r', e.
  unfold with_rib. by rewrite Hr, Ha.
Qed.

(** The timers once the hold timer has been restarted at [n]: one that is off (a
    hold time of 0) stays as it is, and so does the keepalive timer. *)
Definition hold_restarted (n : Instant) (t : BgpTimers.t) : BgpTimers.t :=
  {| BgpTimers.hold_time := t.(BgpTimers.hold_time);
     BgpTimers.keepalive_interval := t.(BgpTimers.keepalive_interval);
     BgpTimers.hold_timer_start :=
       if (0 <? t.(BgpTimers.hold_time))%Z then Some n else t.(BgpTimers.hold_timer_start);
     BgpTimers.keepalive_timer_start := t.(BgpTimers.keepalive_timer_start) |}.

Lemma reset_hold_eval s :
  ∃ t e, reset_hold_timer s = (Ok tt, set_peer (set_env s e) (Peer.set_timers (peer s) t)) ∧
    t = hold_restarted (clock (env s) 0) (peer s).(Peer.timers).
Proof.
  unfold reset_hold_timer, BgpTimers.reset_hold_timer, hold_restarted, gets, modify_peer, modify.
  unfold mbind, M_bind, with_env. destruct (_ <? _)%Z; simpl; (eexists _, _; split; [reflexivity|]).
  - done.
  - by destruct (Peer.timers (peer s)).
Qed.

(** Withdrawing the peer's routes. *)
Lemma remove_peer_eval s r :
  rib s = Unlocked r → rib_wf r →
  ∃ keys r' e,
    with_rib (λ r, '(r, keys) ← Rib.remove_peer r (peer s).(Peer.addr); mret (keys, r)) s =
      (Ok (Some keys), set_env (set_rib s (Unlocked r')) e) ∧
    rib_wf r' ∧ r'.(Rib.adj_rib_in) = delete (peer s).(Peer.addr) r.(Rib.adj_rib_in).
Proof.
  intros Hr Hwf.
  destruct (with_rib_runs (λ r, '(r, keys) ← Rib.remove_peer r (peer s).(Peer.addr); mret (keys, r))
    (λ '(_, r'), rib_wf r' ∧ r'.(Rib.adj_rib_in) = delete (peer s).(Peer.addr) r.(Rib.adj_rib_in)) s r Hr)
    as (keys&r'&e&?&?&?); [|by eauto 10].
  eapply runs_bind; [by apply runs_remove_peer|]. intros [r' keys] (?&_&?&_). by apply runs_ret.
Qed.

(** Outside [Established] a disconnect withdraws the peer's routes. *)
Lemma handle_disconnect_eval s r :
  rib s = Unlocked r → rib_wf r → (peer s).(Peer.state) ≠ BgpState.Established →
  ∃ r' e, handle_disconnect s = (Ok tt, set_env (set_rib s (Unlocked r')) e) ∧
    rib_wf r' ∧ r'.(Rib.adj_rib_in) = delete (peer s).(Peer.addr) r.(Rib.adj_rib_in).
Proof.
  intros Hr Hwf Hst. destruct (remove_peer_eval s r Hr Hwf) as (keys&r'&e&Hrm&?&?).
  exists r', e. split; [|done]. unfold handle_disconnect.
  erewrite M_bind_Ok by reflexivity. cbv zeta.
  rewrite bool_decide_eq_false_2, andb_false_r by done.
  by erewrite M_bind_Ok by exact Hrm.
Qed.
End evaluation.

(** ** The clock, and rounds in which nothing is read *)

Lemma keepalive_due_runs t e : ∃ due e', BgpTimers.keepalive_due t e = Ok (due, e') ∧ later e e'.
Proof.
  unfold BgpTimers.keepalive_due. case_match; [eexists _, _; split; [done|apply later_refl]|].
  case_match; [|eexists _, _; split; [done|apply later_refl]].
  eexists _, _. split; [done|]. by exists 1.
Qed.

(** Sending the KEEPALIVE that is due. *)
Lemma keepalive_eval {api : BytesApi} s : (∀ n, writes s n = true) →
  ∃ s', (_ ← write_all KeepaliveMessage.serialize; _ ← reset_keepalive_timer;
         inc messages_tx_keepalive) s = (Ok tt, s') ∧
    rib s' = rib s ∧ later (env s) (env s') ∧ (∀ n, writes s' n = true) ∧
    ∃ t, peer s' = Peer.set_timers (peer s) t ∧
      t.(BgpTimers.hold_time) = (peer s).(Peer.timers).(BgpTimers.hold_time) ∧
      t.(BgpTimers.hold_timer_start) = (peer s).(Peer.timers).(BgpTimers.hold_timer_start).
Proof.
  intros Hw. erewrite M_bind_Ok by (unfold write_all; rewrite Hw; reflexivity).
  unfold reset_keepalive_timer, BgpTimers.reset_keepalive_timer, gets, modify_peer, modify, with_env.
  unfold mbind, M_bind. simpl. destruct (0 <? _)%Z; (eexists; split; [reflexivity|]); simpl;
    (split_and!; [done| |intros n; apply Hw|by eexists]); [by exists 1|apply later_refl].
Qed.

Lemma set_timers_same p : p = Peer.set_timers p p.(Peer.timers).
Proof. by destruct p. Qed.

(** A round in which the hold timer runs and nothing is read. *)
Lemma tick_continues {api : BytesApi} {ord : HashOrder} {libm : Libm} prof buf s e :
  BgpTimers.hold_timer_expired (peer s).(Peer.timers) (env s) = Ok (false, e) →
  (∀ n, writes s n = true) →
  ∃ s', session_round prof buf Tick s = (Ok (Some buf), s') ∧
    rib s' = rib s ∧ later e (env s') ∧ (∀ n, writes s' n = true) ∧
    ∃ t, peer s' = Peer.set_timers (peer s) t ∧
      t.(BgpTimers.hold_time) = (peer s).(Peer.timers).(BgpTimers.hold_time) ∧
      t.(BgpTimers.hold_timer_start) = (peer s).(Peer.timers).(BgpTimers.hold_timer_start).
Proof.
  intros Hexp Hw. unfold session_round. erewrite M_bind_Ok by reflexivity.
  erewrite M_bind_Ok by (unfold with_env; rewrite Hexp; reflexivity). cbv iota.
  destruct (keepalive_due_runs (peer s).(Peer.timers) e) as (due&e1&Hdue&He1).
  assert (∃ b e2, (if decide ((peer s).(Peer.state) = BgpState.Established)
      then with_env (BgpTimers.keepalive_due (peer s).(Peer.timers)) else mret false)
      (set_env s e) = (Ok b, set_env s e2) ∧ later e e2) as (b&e2&Hb&He2).
  { case_decide; [|exists false, e; split; [done|apply later_refl]].
    exists due, e1. split; [|done]. unfold with_env. simpl. by rewrite Hdue. }
  erewrite M_bind_Ok by exact Hb. destruct b.
  - destruct (keepalive_eval (set_env s e2) Hw) as (s'&Hk&Hr&He'&Hw'&?).
    erewrite M_bind_Ok by exact Hk. eexists. split; [reflexivity|].
    split_and!; [done|by eapply later_trans|done|done].
  - erewrite M_bind_Ok by reflexivity. eexists. split; [reflexivity|]. split_and!; [done..|].
    exists (peer s).(Peer.timers). split; [|done]. apply set_timers_same.
Qed.

(** ** Tasks spawned *)

Definition spawned_are (l : list (Duration * SocketAddr)) (s : Session) : Prop := spawned s = l.

Lemma spawned_io l : ignores_io (spawned_are l).
Proof. by split. Qed.

Lemma spawned_counter l c : ignores_counter (spawned_are l) c.
Proof. by intros s v. Qed.

Lemma spawned_rib l : ignores_rib (spawned_are l).
Proof. by intros s x. Qed.

Lemma spawned_peer l f : keeps (spawned_are l) (modify_peer f).
Proof. by intros s Hs. Qed.

#[export] Hint Resolve spawned_io spawned_counter spawned_rib spawned_peer : keeps.

Lemma spawned_reset_hold l : keeps (spawned_are l) reset_hold_timer.
Proof. unfold reset_hold_timer. eauto 10 with keeps. Qed.

Lemma spawned_reset_keepalive l : keeps (spawned_are l) reset_keepalive_timer.
Proof. unfold reset_keepalive_timer. eauto 10 with keeps. Qed.

Lemma spawned_transition l e : keeps (spawned_are l) (transition e).
Proof. apply spawned_peer. Qed.

#[export] Hint Resolve spawned_reset_hold spawned_reset_keepalive spawned_transition : keeps.

Section spawned.
Context {api : BytesApi} {ord : HashOrder} {libm : Libm} (prof : profile) (l : list (Duration * SocketAddr)).

Lemma spawned_handle_message msg : keeps (spawned_are l) (handle_message prof msg).
Proof.
  unfold handle_message, handle_open, handle_update, handle_notification, handle_keepalive.
  destruct (Header.msg_type _); keep_steps; repeat case_match; keep_steps; auto with keeps.
Qed.

(** The event that ends a session leads out of [Established] before
    [handle_disconnect] looks at the state. *)
Definition down (s : Session) : Prop := spawned_are l s ∧ (peer s).(Peer.state) ≠ BgpState.Established.

Lemma down_io : ignores_io down.
Proof. by split. Qed.

Lemma down_counter c : ignores_counter down c.
Proof. by intros s v. Qed.

Lemma down_rib : ignores_rib down.
Proof. by intros s x. Qed.

#[local] Hint Resolve down_io down_counter down_rib : keeps.

Lemma down_disconnect : keeps down handle_disconnect.
Proof.
  intros s Hs. unfold handle_disconnect. erewrite M_bind_Ok by reflexivity. cbv zeta.
  rewrite bool_decide_eq_false_2, andb_false_r by apply Hs. eapply (keeps_bind down); [auto with keeps|auto with keeps|done].
Qed.

Lemma spawned_session_end {B} event (m : M B) :
  event = BgpEvent.HoldTimerExpired ∨ event = BgpEvent.TcpConnectionFail →
  keeps down m → keeps (spawned_are l) (_ ← transition event; m).
Proof.
  intros Hev Hm s Hs. apply Hm. split; [done|]. simpl.
  by destruct Hev as [-> | ->], (Peer.state (peer s)).
Qed.

#[local] Hint Resolve down_disconnect : keeps.

Lemma spawned_handle_buffer fuel buf : keeps (spawned_are l) (handle_buffer prof fuel buf).
Proof.
  revert buf; induction fuel as [|fuel IH]; intros buf; simpl; [by intros s|].
  apply keeps_bind; [auto with keeps|]. intros [[msg|] rest]; [|auto with keeps].
  apply keeps_bind; [apply spawned_handle_message|]. auto.
Qed.

Lemma spawned_session_round buf event : keeps (spawned_are l) (session_round prof buf event).
Proof.
  unfold session_round. apply keeps_bind; [auto with keeps|intros p].
  apply keeps_bind; [auto with keeps|intros expired]. destruct expired.
  - do 3 (apply keeps_bind; [solve [auto with keeps]|intros ?]).
    apply spawned_session_end; [by left|]. keep_steps. auto with keeps.
  - apply keeps_bind; [case_decide; auto with keeps|intros due].
    apply keeps_bind.
    { destruct due; [|auto with keeps]. keep_steps. auto with keeps. }
    intros _. destruct event.
    + apply spawned_session_end; [by right|]. keep_steps. auto with keeps.
    + apply keeps_bind; [apply spawned_handle_buffer|]. auto with keeps.
    + apply keeps_bind; auto with keeps.
    + auto with keeps.
Qed.

Lemma spawned_session_loop events buf : keeps (spawned_are l) (session_loop prof events buf).
Proof.
  revert buf; induction events as [|event events IH]; intros buf; simpl; [auto with keeps|].
  apply keeps_bind; [apply spawned_session_round|]. intros [buf'|]; [apply IH|auto with keeps].
Qed.
End spawned.

(** ** Sessions that end *)

Section ending.
Context {api : BytesApi} {laws : BytesLaws api} {ord : HashOrder} {libm : Libm}.
Context (a : SocketAddr) (R : AdjView → Prop) `{!Closed a R}.

(** What the normal end of a session leaves behind. *)
Definition ended (s : Session) : Prop :=
  Metrics.get (metrics s) sessions_active = 0%Z ∧
  ∃ r, rib s = Unlocked r ∧ rib_frame R r ∧ r.(Rib.adj_rib_in) !! a = None.

Definition ending (s : Session) : Prop :=
  session_frame a R s ∧ (peer s).(Peer.state) ≠ BgpState.Established.

Lemma leads_ending event :
  event = BgpEvent.HoldTimerExpired ∨ event = BgpEvent.TcpConnectionFail →
  leads (session_frame a R) ending (transition event).
Proof.
  intros Hev s u s' Hs [= _ <-]. split; [done|]. simpl.
  by destruct Hev as [-> | ->], (Peer.state (peer s)).
Qed.

Lemma ending_counter c : ignores_counter ending c.
Proof. by intros s v. Qed.

Lemma leads_ended {A} (x : A) :
  leads ending ended (_ ← set_counter sessions_active 0; _ ← handle_disconnect; mret x).
Proof.
  intros s y s' [[Ha Hs] Hst] Hr. destruct (rib s) as [r|] eqn:Hrib; [|done].
  pose proof Hs as (Hwf&Hmode&Hview). erewrite M_bind_Ok in Hr by reflexivity.
  destruct (handle_disconnect_eval (set_metrics s (Metrics.set (metrics s) sessions_active 0))
    r Hrib Hwf Hst) as (r'&e&Hd&Hwf'&Hadj).
  assert (keeps (session_frame a R) handle_disconnect) as Hk by apply (framed_handle_disconnect a R).
  specialize (Hk (set_metrics s (Metrics.set (metrics s) sessions_active 0))).
  rewrite Hd in Hk. destruct Hk as [_ Hk]; [split; simpl; by rewrite ?Hrib|].
  erewrite M_bind_Ok in Hr by exact Hd. injection Hr as _ <-. split; [done|].
  exists r'. split_and!; [done|exact Hk|]. rewrite Hadj. simpl. by rewrite Ha, lookup_delete_eq.
Qed.

(** A round that ends the session. *)
Lemma round_ended buf event s s' :
  session_frame a R s → session_round Release buf event s = (Ok None, s') → ended s'.
Proof.
  intros Hs (p&s1&[= <- <-]&Hr)%M_bind_inv.
  apply M_bind_inv in Hr as (expired&s1&He&Hr).
  assert (session_frame a R s1) as Hs1.
  { eapply leads_keeps; [|exact Hs|exact He]. apply keeps_with_env, framed_own. }
  destruct expired.
  - assert (leads (session_frame a R) ended (
      _ ← inc hold_timer_expirations;
      _ ← write_ignored (NotificationMessage.serialize NotificationMessage.hold_timer_expired);
      _ ← inc messages_tx_notification;
      _ ← transition BgpEvent.HoldTimerExpired;
      _ ← inc sessions_failed;
      _ ← set_counter sessions_active 0;
      _ ← handle_disconnect;
      mret (M:=M) (@None bytes))) as Hend; [|exact (Hend _ _ _ Hs1 Hr)].
    apply leads_step; [apply keeps_inc, framed_counter|intros _].
    apply leads_step; [apply keeps_write_ignored, framed_own|intros _].
    apply leads_step; [apply keeps_inc, framed_counter|intros _].
    eapply leads_bind; [apply leads_ending; by left|intros _].
    apply leads_step; [apply keeps_inc, ending_counter|intros _]. apply leads_ended.
  - apply M_bind_inv in Hr as (due&s2&Hd&Hr). apply M_bind_inv in Hr as (u&s3&Hk&Hr).
    assert (session_frame a R s3) as Hs3.
    { eapply leads_keeps; [|eapply leads_keeps; [|exact Hs1|exact Hd]|exact Hk].
      - pose proof (framed_own a R). pose proof (framed_counter a R).
        destruct due; [|auto with keeps].
        apply keeps_bind; [auto with keeps|intros _].
        apply keeps_bind; [apply framed_reset_keepalive|auto with keeps].
      - case_decide; [apply keeps_with_env, framed_own|auto with keeps]. }
    destruct event as [|data| |]; [|by apply M_bind_inv in Hr as (?&?&?&?)|by apply M_bind_inv in Hr as (?&?&?&?)|done].
    assert (leads (session_frame a R) ended (_ ← transition BgpEvent.TcpConnectionFail;
      _ ← set_counter sessions_active 0; _ ← handle_disconnect; mret (M:=M) (@None bytes))) as Hend;
      [|exact (Hend _ _ _ Hs3 Hr)].
    eapply leads_bind; [apply leads_ending; by right|intros _]. apply leads_ended.
Qed.

Lemma loop_ended events buf s s' :
  session_frame a R s → session_loop Release events buf s = (Ok None, s') → ended s'.
Proof.
  revert buf s; induction events as [|event events IH]; intros buf s Hs Hr; [done|].
  apply M_bind_inv in Hr as ([buf'|]&s1&Hround&Hr).
  - eapply IH; [|exact Hr]. eapply leads_keeps; [|exact Hs|exact Hround]. apply (framed_session_round a R).
  - injection Hr as <-. by eapply round_ended.
Qed.
End ending.

(** ** Sessions that fail *)

(** The RIB, the active-session count and the spawned tasks of a session. *)
Definition shared_are (l : RibLock) (n : Z) (t : list (Duration * SocketAddr)) (s : Session) : Prop :=
  rib s = l ∧ Metrics.get (metrics s) sessions_active = n ∧ spawned s = t.

Section failing.
Context {api : BytesApi} {ord : HashOrder} {libm : Libm} (prof : profile).
Context (l : RibLock) (n : Z) (t : list (Duration * SocketAddr)).

#[local] Abbreviation shared := (shared_are l n t).

Lemma shared_io : ignores_io shared.
Proof. by split. Qed.

Lemma shared_counter c : c ≠ sessions_active → ignores_counter shared c.
Proof.
  intros Hc s v (?&?&?). split_and!; [done| |done]. simpl. by rewrite get_set, decide_False.
Qed.

Lemma shared_peer f : keeps shared (modify_peer f).
Proof. by intros s Hs. Qed.

#[local] Hint Extern 1 (_ ≠ sessions_active) => discriminate : keeps.
#[local] Hint Resolve shared_io shared_counter shared_peer : keeps.

Lemma shared_reset_hold : keeps shared reset_hold_timer.
Proof. unfold reset_hold_timer. eauto 10 with keeps. Qed.

Lemma shared_reset_keepalive : keeps shared reset_keepalive_timer.
Proof. unfold reset_keepalive_timer. eauto 10 with keeps. Qed.

Lemma shared_transition e : keeps shared (transition e).
Proof. apply shared_peer. Qed.

#[local] Hint Resolve shared_reset_hold shared_reset_keepalive shared_transition : keeps.

Ltac fail_steps := repeat (apply on_fail_step; [solve [auto with keeps]|intros ?]).

(** A handler that fails has not touched what the session shares. *)
Lemma handler_fails msg : on_fail shared (handle_message prof msg).
Proof.
  unfold handle_message. destruct (Header.msg_type _).
  - unfold handle_open. fail_steps. apply on_fail_keeps. auto with keeps.
  - unfold handle_update. fail_steps. apply on_fail_never.
    apply never_fails_bind; [apply with_rib_never_fails|]. by intros [k|].
  - unfold handle_notification. do 4 (apply on_fail_step; [solve [auto with keeps]|intros ?]).
    apply on_fail_never. apply never_fails_bind; [done|]. intros _.
    apply never_fails_bind; [done|]. intros p.
    apply never_fails_bind; [apply with_rib_never_fails|done].
  - unfold handle_keepalive. fail_steps. apply on_fail_keeps.
    case_decide; [|auto with keeps]. keep_steps. auto with keeps.
  - apply on_fail_keeps. auto with keeps.
Qed.

(** Neither does a round that ends in a read error. *)
Lemma read_error_fails buf s e :
  shared s → BgpTimers.hold_timer_expired (peer s).(Peer.timers) (env s) = Ok (false, e) →
  shared (session_round prof buf ReadError s).2.
Proof.
  intros Hs Hexp. unfold session_round. erewrite M_bind_Ok by reflexivity.
  erewrite M_bind_Ok by (unfold with_env; rewrite Hexp; reflexivity). cbv iota.
  generalize (peer s). intros p.
  assert (shared (set_env s e)) as Hs1 by done. revert Hs1. generalize (set_env s e). clear s e Hs Hexp.
  apply keeps_bind; [case_decide; auto with keeps|intros due].
  apply keeps_bind; [destruct due; [keep_steps|]; auto with keeps|intros _]. keep_steps. auto with keeps.
Qed.
End failing.
