(* ===== verification/Profiles.v ===== *)
(** * The two build profiles

    A debug build checks its arithmetic and panics where a release build wraps.
    [m ⊑ m'] says that [m] either panics or does exactly what [m'] does; every
    operation that takes the profile is related in this way to itself, and so are
    the sessions and the server that call it.  In a session the panic happens under
    the RIB's lock, which it poisons. *)

From S2P Require Import Prelude.
From S2P Require Import Bytes.
From S2P Require Import Message.
From S2P Require Import Attr.
From S2P Require Import UpdateMessage.
From S2P Require Import Rpki.
From S2P Require Import Env.
From S2P Require Import Dampening.
From S2P Require Import Rib.
From S2P Require Import Metrics.
From S2P Require Import Fsm.
From S2P Require Import Peer.
From S2P Require Import SessionLogic.

(* ------------------------------------------------------------------ *)
(** ** Panicking more *)

#[export] Instance outcome_sqsubseteq {E A} : SqSubsetEq (outcome E A) :=
  λ o o', o = o' ∨ o = Panic.

#[export] Instance io_sqsubseteq {A} : SqSubsetEq (io A) := λ m m', ∀ e, m e ⊑ m' e.

Create HintDb profiles discriminated.
#[export] Hint Constants Opaque : profiles.

Lemma outcome_le_refl {E A} (o : outcome E A) : o ⊑ o.
Proof. by left. Qed.

Lemma outcome_le_bind {E A B} (o o' : outcome E A) (f f' : A → outcome E B) :
  o ⊑ o' → (∀ a, f a ⊑ f' a) → o ≫= f ⊑ o' ≫= f'.
Proof. intros [->| ->] Hf; [destruct o'; [apply Hf|by left..]|by right]. Qed.

Lemma io_le_refl {A} (m : io A) : m ⊑ m.
Proof. intros e. by left. Qed.

Lemma io_le_bind {A B} (m m' : io A) (f f' : A → io B) :
  m ⊑ m' → (∀ a, f a ⊑ f' a) → m ≫= f ⊑ m' ≫= f'.
Proof.
  intros Hm Hf e. apply (outcome_le_bind (m e) (m' e)); [apply Hm|]. intros [a e']. apply Hf.
Qed.

Lemma io_le_lift {A} (o o' : outcome Empty_set A) : o ⊑ o' → lift o ⊑ lift o'.
Proof. intros [->| ->] e; [by left|by right]. Qed.

Lemma io_le_foldM {S A} (f f' : S → A → io S) l s :
  (∀ s a, f s a ⊑ f' s a) → foldM f l s ⊑ foldM f' l s.
Proof.
  intros Hf. revert s; induction l as [|a l IH]; intros s; [apply io_le_refl|].
  apply io_le_bind; [apply Hf|apply IH].
Qed.

(** A session's computation may only panic more in a critical section. *)
Definition poisons {A} (result : outcome SessionError A * Session) : Prop :=
  result.1 = Panic ∧ rib result.2 = Poisoned.

#[export] Instance M_sqsubseteq {A} : SqSubsetEq (M A) :=
  λ m m', ∀ s, m s = m' s ∨ poisons (m s).

Lemma M_le_refl {A} (m : M A) : m ⊑ m.
Proof. intros s. by left. Qed.

Lemma M_le_bind {A B} (m m' : M A) (f f' : A → M B) :
  m ⊑ m' → (∀ a, f a ⊑ f' a) → m ≫= f ⊑ m' ≫= f'.
Proof.
  intros Hm Hf s. unfold mbind, M_bind. destruct (Hm s) as [->|[Hp Hr]].
  - destruct (m' s) as [[a|e| |] s']; [apply Hf|by left..].
  - right. destruct (m s) as [o s']. simpl in *. by subst o.
Qed.

Lemma M_le_with_rib {A} (body body' : Rib.t → io (A * Rib.t)) :
  (∀ r, body r ⊑ body' r) → with_rib body ⊑ with_rib body'.
Proof.
  intros Hb s. unfold with_rib. destruct (rib s) as [r|]; [|by left].
  destruct (Hb r (env s)) as [->| ->]; [by left|by right].
Qed.

(** Compares two computations of the same shape. *)
Ltac compare := repeat (cbn beta iota;
  match goal with
  | |- ∀ _, _ => intro
  | |- ?m ⊑ ?m => first [apply outcome_le_refl | apply io_le_refl | apply M_le_refl]
  | |- @sqsubseteq (outcome _ _) _ (_ ≫= _) (_ ≫= _) => apply outcome_le_bind
  | |- @sqsubseteq (io _) _ (_ ≫= _) (_ ≫= _) => apply io_le_bind
  | |- @sqsubseteq (M _) _ (_ ≫= _) (_ ≫= _) => apply M_le_bind
  | |- foldM _ _ _ ⊑ foldM _ _ _ => apply io_le_foldM
  | |- lift _ ⊑ lift _ => apply io_le_lift
  | |- with_rib _ ⊑ with_rib _ => apply M_le_with_rib
  | |- match ?x with _ => _ end ⊑ _ => destruct x
  | |- (let _ := _ in _) ⊑ _ => cbv zeta
  end || solve [auto with profiles]).

(* ------------------------------------------------------------------ *)
(** ** The operations that take the profile *)

Section operations.
Context {E : Type}.

Lemma sub_uint_profile_le w a b : sub_uint (E:=E) Debug w a b ⊑ sub_uint Release w a b.
Proof. unfold sub_uint. case_match; [by left|by right]. Qed.

Lemma add_uint_le w a b : add_uint (E:=E) Debug w a b ⊑ add_uint Release w a b.
Proof. unfold add_uint. case_match; [by left|by right]. Qed.

Lemma shr_uint_le w a b : shr_uint (E:=E) Debug w a b ⊑ shr_uint Release w a b.
Proof. unfold shr_uint. case_match; [by left|by right]. Qed.

Lemma shl_uint_le w a b : shl_uint (E:=E) Debug w a b ⊑ shl_uint Release w a b.
Proof. unfold shl_uint. case_match; [by left|by right]. Qed.

#[local] Hint Resolve sub_uint_profile_le add_uint_le shr_uint_le shl_uint_le : profiles.

Lemma covers_le r addr len : Roa.covers (E:=E) Debug r addr len ⊑ Roa.covers Release r addr len.
Proof. unfold Roa.covers. compare. Qed.

#[local] Hint Resolve covers_le : profiles.

Lemma covering_le rs addr len :
  RpkiValidator.covering (E:=E) Debug rs addr len ⊑ RpkiValidator.covering Release rs addr len.
Proof. induction rs as [|r rs IH]; simpl; compare. Qed.

#[local] Hint Resolve covering_le : profiles.

Lemma validate_le v addr len asn :
  RpkiValidator.validate (E:=E) Debug v addr len asn ⊑ RpkiValidator.validate Release v addr len asn.
Proof. unfold RpkiValidator.validate. compare. Qed.
End operations.

#[export] Hint Resolve sub_uint_profile_le add_uint_le shr_uint_le shl_uint_le validate_le : profiles.

Section rib_operations.
Context {ord : HashOrder} {libm : Libm}.

Lemma record_withdrawal_le d peer key :
  DampeningTable.record_withdrawal Debug d peer key ⊑ DampeningTable.record_withdrawal Release d peer key.
Proof. unfold DampeningTable.record_withdrawal. compare. Qed.

#[local] Hint Resolve record_withdrawal_le : profiles.

Lemma process_prefix_le v peer asn attrs s q :
  Rib.process_prefix Debug v peer asn attrs s q ⊑ Rib.process_prefix Release v peer asn attrs s q.
Proof. unfold Rib.process_prefix. compare. Qed.

#[local] Hint Resolve process_prefix_le : profiles.

Lemma process_update_le r peer asn nlri attrs withdrawn :
  Rib.process_update Debug r peer asn nlri attrs withdrawn ⊑
  Rib.process_update Release r peer asn nlri attrs withdrawn.
Proof. unfold Rib.process_update. compare. Qed.

Lemma key_covers_le key addr : Rib.key_covers Debug key addr ⊑ Rib.key_covers Release key addr.
Proof. unfold Rib.key_covers. compare. Qed.

#[local] Hint Resolve key_covers_le : profiles.

Lemma best_match_le addr l best : Rib.best_match Debug addr l best ⊑ Rib.best_match Release addr l best.
Proof. revert best; induction l as [|kr l IH]; intros best; simpl; compare. Qed.

#[local] Hint Resolve best_match_le : profiles.

Lemma longest_match_le r addr : Rib.longest_match Debug r addr ⊑ Rib.longest_match Release r addr.
Proof. unfold Rib.longest_match. compare. Qed.
End rib_operations.

#[export] Hint Resolve process_update_le longest_match_le : profiles.

(* ------------------------------------------------------------------ *)
(** ** Sessions *)

Section sessions.
Context {api : BytesApi} {ord : HashOrder} {libm : Libm}.

Lemma update_rib_le p u eor r : update_rib Debug p u eor r ⊑ update_rib Release p u eor r.
Proof. unfold update_rib. compare. Qed.

#[local] Hint Resolve update_rib_le : profiles.

Lemma handle_message_le msg : handle_message Debug msg ⊑ handle_message Release msg.
Proof. unfold handle_message, handle_update. compare. Qed.

#[local] Hint Resolve handle_message_le : profiles.

Lemma handle_buffer_le fuel buf : handle_buffer Debug fuel buf ⊑ handle_buffer Release fuel buf.
Proof. revert buf; induction fuel as [|fuel IH]; intros buf; simpl; compare. Qed.

#[local] Hint Resolve handle_buffer_le : profiles.

Lemma session_round_le buf event : session_round Debug buf event ⊑ session_round Release buf event.
Proof. unfold session_round. compare. Qed.

#[local] Hint Resolve session_round_le : profiles.

Lemma session_loop_le events buf : session_loop Debug events buf ⊑ session_loop Release events buf.
Proof. revert buf; induction events as [|event events IH]; intros buf; simpl; compare. Qed.

#[local] Hint Resolve session_loop_le : profiles.

Lemma handle_incoming_le a local events :
  handle_incoming Debug a local events ⊑ handle_incoming Release a local events.
Proof. unfold handle_incoming, run_session. compare. Qed.
End sessions.

#[export] Hint Resolve handle_message_le session_round_le session_loop_le handle_incoming_le : profiles.

(** What a build does is what a release build does, or it is a debug build and
    poisons the lock. *)
Lemma profile_cases {A} (m : profile → M A) prof s :
  m Debug ⊑ m Release → m prof s = m Release s ∨ (prof = Debug ∧ poisons (m prof s)).
Proof. intros Hm. destruct prof; [|by left]. destruct (Hm s); [by left|by right]. Qed.

(* ------------------------------------------------------------------ *)
(** ** A poisoned lock stays poisoned *)

Definition poisoned (s : Session) : Prop := rib s = Poisoned.

Lemma poisoned_io : ignores_io poisoned.
Proof. by split. Qed.

Lemma poisoned_counter c : ignores_counter poisoned c.
Proof. by intros s v. Qed.

Lemma poisoned_peer f : keeps poisoned (modify_peer f).
Proof. by intros s Hs. Qed.

Lemma poisoned_with_rib {A} (body : Rib.t → io (A * Rib.t)) : keeps poisoned (with_rib body).
Proof. intros s Hs. unfold with_rib, poisoned in *. by rewrite Hs. Qed.

Lemma poisoned_spawn d a : keeps poisoned (spawn_purge d a).
Proof. by intros s Hs. Qed.

Section poisoned.
Context {api : BytesApi} {ord : HashOrder} {libm : Libm} (prof : profile).

#[local] Hint Resolve poisoned_io poisoned_counter poisoned_peer poisoned_with_rib poisoned_spawn : keeps.

Lemma poisoned_transition e : keeps poisoned (transition e).
Proof. apply poisoned_peer. Qed.

Lemma poisoned_reset_hold : keeps poisoned reset_hold_timer.
Proof. unfold reset_hold_timer. eauto 10 with keeps. Qed.

Lemma poisoned_reset_keepalive : keeps poisoned reset_keepalive_timer.
Proof. unfold reset_keepalive_timer. eauto 10 with keeps. Qed.

#[local] Hint Resolve poisoned_transition poisoned_reset_hold poisoned_reset_keepalive : keeps.

Lemma poisoned_disconnect : keeps poisoned handle_disconnect.
Proof. unfold handle_disconnect. keep_steps. case_match; keep_steps; auto with keeps. Qed.

Lemma poisoned_handle_message msg : keeps poisoned (handle_message prof msg).
Proof.
  unfold handle_message, handle_open, handle_update, handle_notification, handle_keepalive.
  destruct (Header.msg_type _); keep_steps; repeat case_match; keep_steps; auto with keeps.
Qed.

#[local] Hint Resolve poisoned_disconnect poisoned_handle_message : keeps.

Lemma poisoned_handle_buffer fuel buf : keeps poisoned (handle_buffer prof fuel buf).
Proof.
  revert buf; induction fuel as [|fuel IH]; intros buf; simpl; [by intros s|].
  apply keeps_bind; [auto with keeps|]. intros [[msg|] rest]; auto with keeps.
Qed.

#[local] Hint Resolve poisoned_handle_buffer : keeps.

Lemma poisoned_session_round buf event : keeps poisoned (session_round prof buf event).
Proof.
  unfold session_round. keep_steps. case_match; [keep_steps; auto with keeps|].
  apply keeps_bind; [case_decide; auto with keeps|intros due].
  apply keeps_bind; [destruct due; [keep_steps|]; auto with keeps|intros _].
  destruct event; keep_steps; auto with keeps.
Qed.

Lemma poisoned_session_loop events buf : keeps poisoned (session_loop prof events buf).
Proof.
  revert buf; induction events as [|event events IH]; intros buf; simpl; [auto with keeps|].
  apply keeps_bind; [apply poisoned_session_round|]. intros [buf'|]; [apply IH|auto with keeps].
Qed.

Lemma poisoned_handle_incoming a local events : keeps poisoned (handle_incoming prof a local events).
Proof. unfold handle_incoming, run_session. keep_steps. apply poisoned_session_loop. Qed.

Lemma poisoned_purge_task a : keeps poisoned (purge_task a).
Proof. unfold purge_task. keep_steps. auto with keeps. Qed.
End poisoned.
