(* ===== verification/PeerSpec.v ===== *)
(** * Properties of peer sessions

    What a session does to the RIB, how it follows the message stream and the FSM,
    its handlers branch by branch, and how it ends. *)

From S2P Require Import Prelude.
From S2P Require Import Bytes.
From S2P Require Import Message.
From S2P Require Import ControlMessages.
From S2P Require Import Capabilities.
From S2P Require Import OpenMessage.
From S2P Require Import Attr.
From S2P Require Import UpdateMessage.
From S2P Require Import Rpki.
From S2P Require Import Env.
From S2P Require Import Dampening.
From S2P Require Import Rib.
From S2P Require Import RibSpec.
From S2P Require Import RibRefine.
From S2P Require Import Metrics.
From S2P Require Import Fsm.
From S2P Require Import Peer.
From S2P Require Import SessionLogic.
From S2P Require Import Profiles.

(** ** Auxiliary facts *)

(** From [Idle] no message leads anywhere. *)
Lemma idle_stays ms : foldl msg_state BgpState.Idle ms = BgpState.Idle.
Proof.
  induction ms as [|m ms IH]; simpl; [done|]. unfold msg_state at 2. by destruct (Header.msg_type _).
Qed.

Definition is_type (t : MessageType.t) (m : BgpMessage.t) : Prop :=
  m.(BgpMessage.header).(Header.msg_type) = t.

#[export] Instance message_type_eq_dec : EqDecision MessageType.t.
Proof. solve_decision. Defined.

#[export] Instance is_type_dec t m : Decision (is_type t m).
Proof. unfold is_type. apply _. Defined.

Lemma established_stays ms :
  foldl msg_state BgpState.Established ms = BgpState.Established ↔
  Forall (λ m, ¬ is_type MessageType.Notification m) ms.
Proof.
  induction ms as [|m ms IH]; simpl; [done|]. rewrite Forall_cons. unfold is_type, msg_state at 2.
  destruct (Header.msg_type _) eqn:Ht; simpl; rewrite ?idle_stays, ?IH; naive_solver.
Qed.

(** Waiting for the first message of a type, while the others change nothing. *)
Lemma await_first (x y : BgpState.t) (t : MessageType.t) (P : list BgpMessage.t → Prop) ms :
  (∀ m, msg_state x m = if decide (is_type t m) then y else x) → x ≠ BgpState.Established →
  (∀ ms', foldl msg_state y ms' = BgpState.Established ↔ P ms') →
  foldl msg_state x ms = BgpState.Established ↔
  ∃ a m c, ms = a ++ m :: c ∧ is_type t m ∧ Forall (λ m, ¬ is_type t m) a ∧ P c.
Proof.
  intros Hstep Hx Hy. induction ms as [|m ms IH]; cbn [foldl].
  - split; [done|]. intros (a&m&c&Hms&_). by destruct a.
  - rewrite Hstep. case_decide as Hm.
    + rewrite Hy. split; [intros HP; by exists [], m, ms|].
      intros ([|m' a]&m1&c&Hms&Hm1&Ha&HP); simplify_eq/=; [done|].
      by apply Forall_cons in Ha as [??].
    + rewrite IH. split.
      * intros (a&m1&c&->&?&?&?). exists (m :: a), m1, c. split_and!; [done..| |done].
        by apply Forall_cons.
      * intros ([|m' a]&m1&c&Hms&Hm1&Ha&HP); simplify_eq/=.
        apply Forall_cons in Ha as [_ Ha]. by exists a, m1, c.
Qed.

(** What is left of an entry of peer [a] once its stale routes are removed. *)
Definition purged (eor : bool) (a peer' : SocketAddr) (o : option Route.t) : option Route.t :=
  if eor && bool_decide (peer' = a)
  then route ← o; if route.(Route.stale) then None else Some route
  else o.

(** The RIB calls of the UPDATE handler. *)
Lemma runs_update_handler {ord : HashOrder} {libm : Libm} prof p update eor r :
  rib_wf r → r.(Rib.rpki).(RpkiValidator.mode) = RpkiMode.Disabled →
  DampeningTable.room prof (length update.(withdrawn_routes)) r.(Rib.dampening) →
  runs (update_rib prof p update eor r) (λ '(n, r'), ∃ r1,
    rib_wf r' ∧ n = size r'.(Rib.loc_rib) ∧
    suppresses_only p.(Peer.addr) update.(withdrawn_routes) r.(Rib.dampening) r'.(Rib.dampening) ∧
    adj_updated r.(Rib.adj_rib_in) r1.(Rib.adj_rib_in) r'.(Rib.dampening) r.(Rib.rpki)
      p.(Peer.addr) p.(Peer.remote_as) update.(nlri) update.(path_attributes) update.(withdrawn_routes) ∧
    (∀ peer' key, adj_lookup r'.(Rib.adj_rib_in) peer' key =
       purged eor p.(Peer.addr) peer' (adj_lookup r1.(Rib.adj_rib_in) peer' key))).
Proof.
  intros Hwf Hmode Hroom. unfold update_rib.
  rewrite <- (Nat.add_0_r (length _)) in Hroom.
  eapply runs_bind; [apply runs_and; [apply (runs_process_update prof 0); [done|by left|done]|
    apply (runs_update_suppress prof 0); [done|by left|done]]|].
  intros r1 [(Hwf1&_&_&Hadj) Hsup].
  eapply (runs_bind _ _ (λ r', rib_wf r' ∧ r'.(Rib.dampening) = r1.(Rib.dampening) ∧ ∀ peer' key, adj_lookup r'.(Rib.adj_rib_in) peer' key =
       purged eor p.(Peer.addr) peer' (adj_lookup r1.(Rib.adj_rib_in) peer' key))).
  - unfold purged. destruct eor; [|by apply runs_ret].
    eapply runs_bind; [by apply runs_remove_stale|].
    intros [r2 keys] (?&_&Hdamp&Hkeys&Hlook). apply runs_ret. split; [done|]. split; [done|]. intros peer' key.
    rewrite Hlook. simpl. destruct (decide (peer' = Peer.addr p)) as [->|Hne].
    + rewrite bool_decide_eq_true_2 by done. specialize (Hkeys key).
      destruct (adj_lookup (Rib.adj_rib_in r1) _ key) as [route|] eqn:Hroute; simpl.
      * destruct (Route.stale route) eqn:Hst.
        -- rewrite decide_True; [done|]. split; [done|]. apply Hkeys. eauto.
        -- rewrite decide_False; [done|]. intros [_ (?&[= <-]&?)%Hkeys]. congruence.
      * by case_decide.
    + by rewrite decide_False, bool_decide_eq_false_2 by tauto.
  - intros r2 (?&Hdamp&?). apply runs_ret. exists r1. by rewrite Hdamp.
Qed.

(** ** The RIB *)

(** Whatever a peer sends, and however its session ends (normally, with an
    error, or by a panic of its parser), the session leaves the shared RIB unlocked
    and consistent, with the Adj-RIB-In entries of every other peer as they were;
    so does the purge task of a graceful restart. *)
Theorem session_isolation {api : BytesApi} {laws : BytesLaws api} {ord : HashOrder} {libm : Libm}
    addr local events s r :
  rib s = Unlocked r → rib_wf r → r.(Rib.rpki).(RpkiValidator.mode) = RpkiMode.Disabled →
  let isolated (s' : Session) := ∃ r', rib s' = Unlocked r' ∧ rib_wf r' ∧
    ∀ peer' key, peer' ≠ addr →
      adj_lookup r'.(Rib.adj_rib_in) peer' key = adj_lookup r.(Rib.adj_rib_in) peer' key in
  isolated (handle_incoming Release addr local events s).2 ∧ isolated (purge_task addr s).2.
Proof.
  intros Hr Hwf Hmode isolated.
  assert (rib_frame (others_as addr (view r)) r) as Hf by done.
  split.
  - pose proof (framed_handle_incoming addr _ local events s r Hr Hf) as [_ Hs'].
    unfold isolated. destruct (rib (handle_incoming Release addr local events s).2) as [r'|]; [|done]. destruct Hs' as (?&_&?). by exists r'.
  - destruct (with_rib_runs (λ r, '(r, keys) ← Rib.remove_stale_for_peer r addr; mret (keys, r))
      _ s r Hr (runs_remove_stale_body addr _ r Hf)) as (k&r'&e&Hrun&Hf').
    unfold purge_task. erewrite M_bind_Ok by exact Hrun. exists r'. split; [done|].
    by destruct Hf' as (?&_&?).
Qed.

(** C6: a session refines the abstract RIB: whatever its peer sends and however it
    ends, the tables it leaves are reached from those it found by a sequence of the
    machine's operations for that peer (updates, purges of stale routes, removals),
    and Loc-RIB is a preferred choice among them, unless a debug build panics in a
    critical section and poisons the lock. *)
Theorem session_refines {api : BytesApi} {laws : BytesLaws api} {ord : HashOrder} {libm : Libm}
    prof addr local events s r :
  rib s = Unlocked r → rib_wf r → r.(Rib.rpki).(RpkiValidator.mode) = RpkiMode.Disabled →
  (∃ r' ops, rib (handle_incoming prof addr local events s).2 = Unlocked r' ∧
     Forall (λ op, op_peer op = addr) ops ∧ spec_steps ops (view r) (view r') ∧
     chosen (view r') r'.(Rib.loc_rib)) ∨
  (prof = Debug ∧ poisons (handle_incoming prof addr local events s)).
Proof.
  intros Hr Hwf Hmode.
  destruct (profile_cases (λ prof, handle_incoming prof addr local events) prof s
    (handle_incoming_le _ _ _)) as [Hprof|?]; [left; rewrite Hprof; clear Hprof|by right].
  assert (rib_frame (worked addr (view r)) r) as Hf.
  { split_and!; [done..|]. exists []. split; [by apply Forall_nil|constructor]. }
  pose proof (framed_handle_incoming addr _ local events s r Hr Hf) as [_ Hs'].
  destruct (rib (handle_incoming Release addr local events s).2) as [r'|]; [|done]. destruct Hs' as (?&_&ops&?&?).
  exists r', ops. split_and!; [done..|]. by apply rib_wf_chosen.
Qed.

(** C17: a session of a release build panics only in the parser of an UPDATE, and one
    of a debug build there or in a critical section: as long as the UPDATE bodies
    among the messages the loop takes from its buffer do not make
    [UpdateMessage::parse] panic, a round returns, whatever the rest of the input,
    and leaves the RIB consistent, or the build is a debug one and poisons the lock. *)
Theorem session_round_safe {api : BytesApi} {laws : BytesLaws api} {ord : HashOrder} {libm : Libm}
    prof buf event s :
  lock_ok s →
  (∀ data m, event = ReadData data → framed_in (buf ++ data) m → is_type MessageType.Update m →
     returns (Update.parse m.(BgpMessage.body))) →
  (lock_ok (session_round prof buf event s).2 ∧ returns (session_round prof buf event s).1) ∨
  (prof = Debug ∧ poisons (session_round prof buf event s)).
Proof.
  intros Hs%lock_ok_frame Hupd.
  destruct (profile_cases (λ prof, session_round prof buf event) prof s (session_round_le _ _))
    as [Hprof|?]; [left; rewrite Hprof|by right].
  enough (safe (peer s).(Peer.addr) (λ _, True) (session_round Release buf event)) as Hsafe.
  { destruct (Hsafe s Hs) as [[Ha Hf] ?]. split; [|done]. apply lock_ok_frame. split; [done|exact Hf]. }
  apply (safe_session_round _ (λ _, True)), Hupd.
Qed.

(** When the framing layer splits the buffer into messages, the loop handles
    exactly these, in order, stopping at the first handler that fails, and keeps
    the unread bytes for the next round. *)
Theorem session_follows_framing {api : BytesApi} {laws : BytesLaws api} {ord : HashOrder} {libm : Libm}
    prof buf ms rest s :
  BgpMessage.drain buf = Ok (ms, rest) →
  handle_buffer prof (S (length buf)) buf s = (_ ← handle_messages prof ms; mret rest) s.
Proof. apply handle_buffer_drain. Qed.

(** ** The state machine *)

(** C8: a session that has sent its OPEN is established by a list of messages
    exactly when these contain an OPEN, the first KEEPALIVE after the first OPEN,
    and no NOTIFICATION after that; UPDATEs and ROUTE-REFRESHes never matter, and
    a NOTIFICATION before establishment is ignored. *)
Theorem session_established {api : BytesApi} {ord : HashOrder} {libm : Libm} prof ms s u s' :
  in_state BgpState.OpenSent s → handle_messages prof ms s = (Ok u, s') →
  in_state BgpState.Established s' ↔
  ∃ a open b keepalive c, ms = a ++ open :: b ++ keepalive :: c ∧
    is_type MessageType.Open open ∧ Forall (λ m, ¬ is_type MessageType.Open m) a ∧
    is_type MessageType.Keepalive keepalive ∧ Forall (λ m, ¬ is_type MessageType.Keepalive m) b ∧
    Forall (λ m, ¬ is_type MessageType.Notification m) c.
Proof.
  intros Hs Hr. pose proof (leads_handle_messages prof _ ms s u s' Hs Hr) as Hfold.
  assert (in_state BgpState.Established s' ↔ foldl msg_state BgpState.OpenSent ms = BgpState.Established)
    as -> by (unfold in_state in *; by rewrite Hfold).
  assert (∀ x y t m, (x, y, t) = (BgpState.OpenSent, BgpState.OpenConfirm, MessageType.Open) ∨
    (x, y, t) = (BgpState.OpenConfirm, BgpState.Established, MessageType.Keepalive) →
    msg_state x m = if decide (is_type t m) then y else x) as Hstep.
  { intros x y t m Hxyt. unfold msg_state.
    case_decide as Ht; unfold is_type in Ht;
      destruct Hxyt as [[= -> -> ->] | [= -> -> ->]], (Header.msg_type _); done. }
  pose proof (λ ms', await_first _ _ MessageType.Keepalive _ ms'
    (λ m, Hstep _ _ _ m (or_intror eq_refl)) ltac:(done) established_stays) as Hconfirm.
  rewrite (await_first _ _ MessageType.Open _ ms (λ m, Hstep _ _ _ m (or_introl eq_refl)) ltac:(done) Hconfirm).
  split.
  - intros (a&o&c&->&?&?&b&k&d&->&?&?&?). by exists a, o, b, k, d.
  - intros (a&o&b&k&c&->&?&?&?&?&?). exists a, o, (b ++ k :: c). split_and!; [done..|].
    by exists b, k, c.
Qed.

(** ** The handlers *)

(** C14: an OPEN that parses sets the peer's AS, router id and capabilities,
    negotiates the smaller hold time (whatever it is, 1 and 2 seconds included),
    replaces the timers by new ones with a third of it as keepalive interval, of
    which the hold timer runs from the time of the OPEN (unless the hold time is 0)
    and the keepalive timer has not started, moves the FSM by [BgpOpen] and answers
    with one KEEPALIVE; the handler fails exactly when that write does. *)
Theorem open_handler_spec {api : BytesApi} {laws : BytesLaws api} body open s :
  Open.parse body = Ok open →
  ∃ caps s', Capability.parse_from_open_params (E:=Empty_set) open.(optional_params) = Ok caps ∧
    handle_open body s = (if writes s 0 then Ok tt else Err IoErr, s') ∧
    let p := peer s' in let hold := Z.min (peer s).(Peer.local).(LocalConfig.hold_time) open.(hold_time) in
    p.(Peer.remote_as) = open.(my_as) ∧ p.(Peer.peer_router_id) = Some open.(bgp_id) ∧
    p.(Peer.peer_capabilities) = caps ∧ p.(Peer.negotiated_hold_time) = hold ∧
    p.(Peer.timers) =
      {| BgpTimers.hold_time := hold;
         BgpTimers.keepalive_interval := (if (0 <? hold)%Z then hold / 3 else 0)%Z;
         BgpTimers.hold_timer_start := (if (0 <? hold)%Z then Some (clock (env s) 0) else None);
         BgpTimers.keepalive_timer_start := None |} ∧
    p.(Peer.state) = next_state (peer s).(Peer.state) BgpEvent.BgpOpen ∧
    rib s' = rib s ∧
    sent s' = if writes s 0 then sent s ++ [KeepaliveMessage.serialize] else sent s.
Proof.
  intros Hp.
  pose proof (parse_from_open_params_returns (E:=Empty_set) open.(optional_params)) as Hc.
  destruct (Capability.parse_from_open_params _) as [caps|[]| |] eqn:Hcaps; [|done..].
  exists caps.
  set (s1 := set_peer (set_metrics s (Metrics.inc (metrics s) messages_rx_open))
    (Peer.negotiate (Peer.set_capabilities (peer s) caps) open)).
  destruct (reset_hold_eval s1) as (t&e&Ht&Hrestart).
  assert (handle_open body s = (_ ← write_all KeepaliveMessage.serialize; inc messages_tx_keepalive)
    (set_peer (set_env s1 e) (Peer.set_state (Peer.set_timers (peer s1) t)
      (next_state (peer s).(Peer.state) BgpEvent.BgpOpen)))) as Heval.
  { unfold handle_open. erewrite M_bind_Ok by reflexivity.
    erewrite M_bind_Ok by (unfold try_parse; rewrite Hp; reflexivity).
    erewrite M_bind_Ok by (unfold pure_call; rewrite Hcaps; reflexivity).
    do 2 (erewrite M_bind_Ok by reflexivity). by erewrite M_bind_Ok by exact Ht. }
  rewrite Heval. clear Heval Ht. subst t.
  unfold mbind, M_bind, write_all. cbn.
  destruct (writes s 0) eqn:Hw; cbn; by (eexists; split_and!).
Qed.

(** End-of-RIB is the UPDATE with nothing in it. *)
Lemma attrs_is_empty_iff a : Attrs.is_empty a = true ↔ a = Attrs.default.
Proof.
  unfold Attrs.is_empty. rewrite !andb_true_iff, negb_true_iff, !bool_decide_eq_true.
  destruct a; simpl. split; [|by intros [= -> -> -> -> -> -> -> -> -> -> ->]].
  intros ((((((((((->&->)&->)&->)&->)&->)&->)&->)&->)&->)&->). done.
Qed.

Lemma end_of_rib_iff update :
  end_of_rib update = true ↔
  update.(nlri) = [] ∧ update.(withdrawn_routes) = [] ∧ update.(path_attributes) = Attrs.default.
Proof.
  unfold end_of_rib. rewrite !andb_true_iff, !Nat.eqb_eq, !length_zero_iff_nil, attrs_is_empty_iff. tauto.
Qed.

(** C13: an UPDATE that parses is processed whatever the state of the FSM (before
    the OPEN too), on an unpoisoned RIB with origin validation off, as the program
    leaves it, and in a debug build as long as no suppression counter can overflow:
    in the peer's Adj-RIB-In the withdrawn prefixes are gone (announced or not), and
    each other announced one that the resulting dampening state does not suppress is
    a route with the UPDATE's
    attributes and the AS the session recorded; a prefix is suppressed only if it was
    before or this UPDATE withdraws it; an End-of-RIB (an UPDATE with nothing in it)
    then removes the peer's stale routes; the other peers' tables stay; the route
    counters grow by the numbers of prefixes and [routes_loc_rib] is the size
    of Loc-RIB. *)
Theorem update_handler_spec {api : BytesApi} {laws : BytesLaws api} {ord : HashOrder} {libm : Libm}
    prof body update s r :
  Update.parse body = Ok update → rib s = Unlocked r →
  rib_wf r → r.(Rib.rpki).(RpkiValidator.mode) = RpkiMode.Disabled →
  DampeningTable.room prof (length update.(withdrawn_routes)) r.(Rib.dampening) →
  let p := peer s in let a := p.(Peer.addr) in
  ∃ s' r1 r' eor, handle_update prof body s = (Ok tt, s') ∧ rib s' = Unlocked r' ∧ rib_wf r' ∧
    (eor = true ↔ update.(nlri) = [] ∧ update.(withdrawn_routes) = [] ∧
                  update.(path_attributes) = Attrs.default) ∧
    suppresses_only a update.(withdrawn_routes) r.(Rib.dampening) r'.(Rib.dampening) ∧
    adj_updated r.(Rib.adj_rib_in) r1.(Rib.adj_rib_in) r'.(Rib.dampening) r.(Rib.rpki)
      a p.(Peer.remote_as) update.(nlri) update.(path_attributes) update.(withdrawn_routes) ∧
    (∀ peer' key, adj_lookup r'.(Rib.adj_rib_in) peer' key =
       purged eor a peer' (adj_lookup r1.(Rib.adj_rib_in) peer' key)) ∧
    Metrics.get (metrics s') routes_received =
      wrap 64 (Metrics.get (metrics s) routes_received + Z.of_nat (length update.(nlri))) ∧
    Metrics.get (metrics s') routes_withdrawn =
      wrap 64 (Metrics.get (metrics s) routes_withdrawn + Z.of_nat (length update.(withdrawn_routes))) ∧
    Metrics.get (metrics s') routes_loc_rib = Z.of_nat (Rib.prefix_count r').
Proof.
  intros Hp Hr Hwf Hmode Hroom p a.
  set (s1 := set_metrics s (Metrics.inc (metrics s) messages_rx_update)).
  destruct (reset_hold_eval s1) as (t&e&Ht&_).
  set (m2 := Metrics.fetch_add (Metrics.fetch_add (Metrics.inc (metrics s) messages_rx_update)
    routes_received (Z.of_nat (length update.(nlri))))
    routes_withdrawn (Z.of_nat (length update.(withdrawn_routes)))).
  set (p2 := Peer.set_state (Peer.set_timers p t) (next_state p.(Peer.state) BgpEvent.UpdateMsg)).
  set (s2 := set_metrics (set_peer (set_env s1 e) p2) m2).
  destruct (with_rib_runs _ _ s2 r Hr (runs_update_handler prof p2 update (end_of_rib update) r Hwf Hmode Hroom))
    as (n&r'&e'&Hrun&r1&Hwf'&Hn&Hsup&Hadj&Hlook).
  exists (set_metrics (set_env (set_rib s2 (Unlocked r')) e')
    (Metrics.set m2 routes_loc_rib (Z.of_nat n))), r1, r', (end_of_rib update).
  split.
  { unfold handle_update. erewrite M_bind_Ok by reflexivity.
    erewrite M_bind_Ok by (unfold try_parse; rewrite Hp; reflexivity).
    erewrite M_bind_Ok by exact Ht. do 4 (erewrite M_bind_Ok by reflexivity).
    by erewrite M_bind_Ok by exact Hrun. }
  split_and!; try done; [apply end_of_rib_iff|by rewrite Hn].
Qed.

(** C36: a NOTIFICATION that parses withdraws the peer's routes, counts a failed
    session and no active one, and moves the FSM by [NotifMsg]; the handler
    returns, so the session loop goes on. *)
Theorem notification_handler_spec {api : BytesApi} {ord : HashOrder} {libm : Libm} body n s r :
  NotificationMessage.parse body = Ok n → rib s = Unlocked r → rib_wf r →
  ∃ s' r', handle_notification body s = (Ok tt, s') ∧ rib s' = Unlocked r' ∧ rib_wf r' ∧
    r'.(Rib.adj_rib_in) = delete (peer s).(Peer.addr) r.(Rib.adj_rib_in) ∧
    (peer s').(Peer.state) = next_state (peer s).(Peer.state) BgpEvent.NotifMsg ∧
    Metrics.get (metrics s') sessions_failed = wrap 64 (Metrics.get (metrics s) sessions_failed + 1) ∧
    Metrics.get (metrics s') sessions_active = 0%Z ∧ sent s' = sent s.
Proof.
  intros Hp Hr Hwf.
  set (s1 := set_peer (set_metrics s (Metrics.set (Metrics.inc (Metrics.inc (metrics s)
    messages_rx_notification) sessions_failed) sessions_active 0))
    (Peer.set_state (peer s) (next_state (peer s).(Peer.state) BgpEvent.NotifMsg))).
  destruct (remove_peer_eval s1 r Hr Hwf) as (keys&r'&e&Hrun&Hwf'&Hadj).
  eexists _, r'. split.
  { unfold handle_notification. erewrite M_bind_Ok by reflexivity.
    erewrite M_bind_Ok by (unfold try_parse; rewrite Hp; reflexivity).
    do 4 (erewrite M_bind_Ok by reflexivity). erewrite M_bind_Ok by exact Hrun. reflexivity. }
  by split_and!.
Qed.

(** ** The end of a session *)

(** The round of an expired hold timer. *)
Lemma round_expired {api : BytesApi} {ord : HashOrder} {libm : Libm} prof buf event s r e :
  BgpTimers.hold_timer_expired (peer s).(Peer.timers) (env s) = Ok (true, e) →
  rib s = Unlocked r → rib_wf r →
  ∃ s' r', session_round prof buf event s = (Ok None, s') ∧ rib s' = Unlocked r' ∧ rib_wf r' ∧
    r'.(Rib.adj_rib_in) = delete (peer s).(Peer.addr) r.(Rib.adj_rib_in) ∧
    (peer s').(Peer.state) = BgpState.Idle ∧
    sent s' = sent s ++ (if writes s 0
      then [NotificationMessage.serialize (NotificationMessage.new ErrorCode.HoldTimerExpired 0)] else []) ∧
    Metrics.get (metrics s') hold_timer_expirations =
      wrap 64 (Metrics.get (metrics s) hold_timer_expirations + 1) ∧
    Metrics.get (metrics s') sessions_failed = wrap 64 (Metrics.get (metrics s) sessions_failed + 1) ∧
    Metrics.get (metrics s') sessions_active = 0%Z.
Proof.
  intros Hexp Hr Hwf.
  set (s1 := (write_all (NotificationMessage.serialize NotificationMessage.hold_timer_expired)
    (set_metrics (set_env s e) (Metrics.inc (metrics s) hold_timer_expirations))).2).
  set (s2 := set_peer (set_metrics s1 (Metrics.set (Metrics.inc (Metrics.inc (Metrics.inc (metrics s)
    hold_timer_expirations) messages_tx_notification) sessions_failed) sessions_active 0))
    (Peer.set_state (peer s) (next_state (peer s).(Peer.state) BgpEvent.HoldTimerExpired))).
  assert (in_state BgpState.Idle s2) as Hidle by (unfold in_state; simpl; by destruct (Peer.state (peer s))).
  assert ((peer s2).(Peer.state) ≠ BgpState.Established) as Hst by (unfold in_state in Hidle; congruence).
  destruct (handle_disconnect_eval s2 r Hr Hwf Hst) as (r'&e'&Hrun&Hwf'&Hadj).
  eexists _, r'. split.
  { unfold session_round. erewrite M_bind_Ok by reflexivity.
    erewrite M_bind_Ok by (unfold with_env; rewrite Hexp; reflexivity). cbv iota.
    do 2 (erewrite M_bind_Ok by reflexivity). erewrite M_bind_Ok by reflexivity.
    erewrite (M_bind_Ok (transition _)) by reflexivity.
    do 2 (erewrite M_bind_Ok by reflexivity).
    by erewrite M_bind_Ok by exact Hrun. }
  split_and!; try done. unfold s2, s1. simpl.
  destruct (writes s 0); [done|by rewrite app_nil_r].
Qed.

(** When the hold timer has expired, the round sends the NOTIFICATION "hold
    timer expired" (4/0), moves to [Idle], counts the expiration, the failure and
    no active session, withdraws exactly the peer's routes, and ends the session,
    whatever the stream holds. *)
Theorem hold_timer_expiry {api : BytesApi} {ord : HashOrder} {libm : Libm} prof buf event s r e :
  BgpTimers.hold_timer_expired (peer s).(Peer.timers) (env s) = Ok (true, e) →
  rib s = Unlocked r → rib_wf r →
  ∃ s' r', session_round prof buf event s = (Ok None, s') ∧ rib s' = Unlocked r' ∧ rib_wf r' ∧
    r'.(Rib.adj_rib_in) = delete (peer s).(Peer.addr) r.(Rib.adj_rib_in) ∧
    (peer s').(Peer.state) = BgpState.Idle ∧
    sent s' = sent s ++ (if writes s 0
      then [NotificationMessage.serialize (NotificationMessage.new ErrorCode.HoldTimerExpired 0)] else []) ∧
    Metrics.get (metrics s') hold_timer_expirations =
      wrap 64 (Metrics.get (metrics s) hold_timer_expirations + 1) ∧
    Metrics.get (metrics s') sessions_failed = wrap 64 (Metrics.get (metrics s) sessions_failed + 1) ∧
    Metrics.get (metrics s') sessions_active = 0%Z.
Proof. apply round_expired. Qed.

(** C15: a peer that falls silent is dropped: once its hold timer runs with a hold
    time [h > 0], however the session stands, if nothing is read any more, the
    writes succeed, and the clock has passed the deadline from the [n]-th reading
    on, then within [n + 1] rounds the session returns and all the peer's routes
    are withdrawn. *)
Theorem silent_session_ends {api : BytesApi} {ord : HashOrder} {libm : Libm} prof (n : nat) buf s r start :
  let timers := (peer s).(Peer.timers) in
  rib s = Unlocked r → rib_wf r → (∀ k, writes s k = true) →
  (0 < timers.(BgpTimers.hold_time))%Z → timers.(BgpTimers.hold_timer_start) = Some start →
  (∀ k, n ≤ k → (start + from_secs timers.(BgpTimers.hold_time) ≤ clock (env s) k)%Z) →
  ∃ s' r', session_loop prof (replicate (S n) Tick) buf s = (Ok None, s') ∧
    rib s' = Unlocked r' ∧ rib_wf r' ∧
    r'.(Rib.adj_rib_in) = delete (peer s).(Peer.addr) r.(Rib.adj_rib_in).
Proof.
  intros timers. subst timers. revert s. induction n as [|n IH]; intros s Hr Hwf Hw Hh Hstart Hclock.
  all: assert (∃ b e, BgpTimers.hold_timer_expired (peer s).(Peer.timers) (env s) = Ok (b, e) ∧
      (∀ k, clock e k = clock (env s) (S k)) ∧
      (b = false → clock (env s) 0 < start + from_secs (peer s).(Peer.timers).(BgpTimers.hold_time))%Z)
    as (b&e&Hexp&He&Hb).
  1, 3: unfold BgpTimers.hold_timer_expired; rewrite (proj2 (Z.eqb_neq _ 0)) by lia; rewrite Hstart;
    eexists _, _; split; [reflexivity|]; split; [done|]; intros ?%Z.leb_gt; unfold from_secs in *; lia.
  all: destruct b;
    [destruct (round_expired prof buf Tick s r e Hexp Hr Hwf) as (s'&r'&Hrun&?&?&?&_);
     exists s', r'; split; [cbn [replicate session_loop]; by erewrite M_bind_Ok by exact Hrun|done]|].
  - specialize (Hb eq_refl). specialize (Hclock 0 ltac:(lia)). lia.
  - destruct (tick_continues prof buf s e Hexp Hw) as (s1&Hrun&Hr1&[j Hj]&Hw1&t1&Hp1&Hh1&Hst1).
    destruct (IH s1) as (s'&r'&Hloop&?&?&?).
    + congruence.
    + done.
    + done.
    + by rewrite Hp1; simpl; rewrite Hh1.
    + by rewrite Hp1; simpl; rewrite Hst1.
    + intros k Hk. rewrite Hp1. simpl. rewrite Hh1, Hj, He. apply Hclock. lia.
    + exists s', r'. rewrite Hp1 in *. split; [|done].
      change (replicate (S (S n)) Tick) with (Tick :: replicate (S n) Tick). cbn [session_loop].
      by erewrite M_bind_Ok by exact Hrun.
Qed.

(** C16: a session that ends normally (hold timer, or the peer closing) leaves none
    of its peer's routes in Adj-RIB-In or Loc-RIB, and sets [sessions_active] to 0
    (whatever other sessions run). *)
Theorem session_end_withdraws {api : BytesApi} {laws : BytesLaws api} {ord : HashOrder} {libm : Libm}
    prof events buf s s' :
  lock_ok s → session_loop prof events buf s = (Ok None, s') →
  Metrics.get (metrics s') sessions_active = 0%Z ∧
  ∃ r', rib s' = Unlocked r' ∧ rib_wf r' ∧
    r'.(Rib.adj_rib_in) !! (peer s).(Peer.addr) = None ∧
    ∀ key route, r'.(Rib.loc_rib) !! key = Some route → route.(Route.peer_addr) ≠ (peer s).(Peer.addr).
Proof.
  intros Hs Hr. set (a := (peer s).(Peer.addr)).
  destruct (profile_cases (λ prof, session_loop prof events buf) prof s (session_loop_le _ _))
    as [Hprof|(_&Hp&_)]; [rewrite Hprof in Hr|by rewrite Hr in Hp].
  apply lock_ok_frame in Hs.
  destruct (loop_ended a _ events buf s s' Hs Hr) as (?&r'&Hr'&(Hwf&_)&Hadj).
  split; [done|]. exists r'. split_and!; [done..|]. intros key route Hroute Hp.
  destruct (loc_rib_source _ _ _ Hwf Hroute) as (route'&Hsrc&_).
  unfold adj_lookup in Hsrc. by rewrite Hp, Hadj in Hsrc.
Qed.

(** Graceful restart never happens: the events that end a session take the FSM
    out of [Established] before [handle_disconnect] tests for it, so no session
    ever spawns a purge task, whatever capabilities were negotiated. *)
Theorem graceful_restart_never_used {api : BytesApi} {ord : HashOrder} {libm : Libm} prof events buf s :
  spawned (session_loop prof events buf s).2 = spawned s.
Proof. by apply (spawned_session_loop prof (spawned s) events buf). Qed.

(** C37: a session that ends with an error (a handler failing, or a read error)
    withdraws nothing: the step that ends it leaves the RIB, the count of active
    sessions and the purge tasks as they were. *)
Theorem error_exits_keep_routes {api : BytesApi} {ord : HashOrder} {libm : Libm} prof s :
  let unchanged s' := rib s' = rib s ∧
    Metrics.get (metrics s') sessions_active = Metrics.get (metrics s) sessions_active ∧
    spawned s' = spawned s in
  (∀ msg e s', handle_message prof msg s = (Err e, s') → unchanged s') ∧
  (∀ buf e, BgpTimers.hold_timer_expired (peer s).(Peer.timers) (env s) = Ok (false, e) →
     unchanged (session_round prof buf ReadError s).2).
Proof.
  intros unchanged. split.
  - intros msg e s' Hr. by eapply handler_fails in Hr.
  - intros buf e He. by eapply read_error_fails.
Qed.

(** ** The timers *)

(** A comparison with the time elapsed. *)
Lemma elapsed_ge start secs e (P : Prop) `{Decision P} :
  (secs ≤ Z.max 0 (clock e 0 - start) ↔ P)%Z →
  ∃ e', (d ← elapsed start; mret (M:=io) (secs <=? d)%Z) e = Ok (bool_decide P, e').
Proof.
  intros HP. eexists. unfold mbind, io_bind, elapsed, now, mret, io_ret. simpl. do 2 f_equal.
  apply Bool.eq_iff_eq_true. by rewrite Z.leb_le, bool_decide_eq_true.
Qed.

(** A timer that is off. *)
Lemma bool_decide_off (P : Prop) `{Decision P} (e : Env) :
  ¬ P → ∃ e', mret (M:=io) false e = Ok (bool_decide P, e').
Proof. intros HP. exists e. by rewrite bool_decide_eq_false_2. Qed.

(** The timers of a session with hold time [h]: once the hold timer is reset,
    it expires after [h] seconds, never if [h] is 0; a KEEPALIVE is due at once, and
    then [h / 3] seconds after the last one, but never if [h] is below 3. *)
Theorem timers_schedule h e t e1 t' e2 e3 :
  (0 ≤ h)%Z → BgpTimers.reset_hold_timer (BgpTimers.new h) e = Ok (t, e1) →
  BgpTimers.reset_keepalive_timer t e1 = Ok (t', e2) →
  let since (start : Env) := (clock e3 0 - clock start 0)%Z in
  (∃ e', BgpTimers.hold_timer_expired t e3 =
     Ok (bool_decide (0 < h ∧ h * 1000000000 ≤ since e)%Z, e')) ∧
  (∃ e', BgpTimers.keepalive_due t e3 = Ok (bool_decide (3 ≤ h)%Z, e')) ∧
  ∃ e', BgpTimers.keepalive_due t' e3 =
    Ok (bool_decide (3 ≤ h ∧ h / 3 * 1000000000 ≤ since e1)%Z, e').
Proof.
  intros Hh. unfold BgpTimers.reset_hold_timer, BgpTimers.reset_keepalive_timer.
  assert (h = 0 ∨ 0 < h < 3 ∨ 3 ≤ h)%Z as [->|[Hs|Hl]] by lia.
  - intros [= <- <-] [= <- <-]. split_and!; by eexists.
  - assert (h / 3 = 0)%Z as H3 by (apply Z.div_small; lia).
    simpl. rewrite H3. rewrite (proj2 (Z.ltb_lt 0 h)) by lia. intros [= <- <-]. simpl.
    intros [= <- <-]. unfold BgpTimers.hold_timer_expired, BgpTimers.keepalive_due. simpl.
    rewrite (proj2 (Z.eqb_neq h 0)) by lia. split_and!.
    + apply elapsed_ge. unfold from_secs. lia.
    + apply bool_decide_off. lia.
    + apply bool_decide_off. lia.
  - assert (0 < h / 3)%Z as H3 by (apply Z.div_str_pos; lia).
    simpl. rewrite (proj2 (Z.ltb_lt 0 h)) by lia. intros [= <- <-]. simpl.
    rewrite (proj2 (Z.ltb_lt 0 (h / 3))) by lia. intros [= <- <-].
    unfold BgpTimers.hold_timer_expired, BgpTimers.keepalive_due. simpl.
    rewrite (proj2 (Z.eqb_neq h 0)), (proj2 (Z.eqb_neq (h / 3) 0)) by lia. split_and!.
    + apply elapsed_ge. unfold from_secs. lia.
    + exists e3. by rewrite bool_decide_eq_true_2.
    + apply elapsed_ge. unfold from_secs. lia.
Qed.

(** ** Witnesses *)

#[local] Existing Instance list_bytes_api.
#[local] Existing Instances sorted_order no_libm.

Definition sample_local : LocalConfig.t := LocalConfig.new 65000 16843009.

(** A session with a state, a hold-timer start and one route in the RIB. *)
Definition sample_session (state : BgpState.t) (start : option Instant) : Session :=
  {| peer := {| Peer.addr := sample_peer; Peer.remote_as := 65001; Peer.local := sample_local;
       Peer.state := state;
       Peer.timers := {| BgpTimers.hold_time := 3; BgpTimers.keepalive_interval := 1;
         BgpTimers.hold_timer_start := start; BgpTimers.keepalive_timer_start := None |};
       Peer.negotiated_hold_time := 3; Peer.peer_router_id := None;
       Peer.peer_capabilities := [Capability.GracefulRestart 60 0] |};
     rib := Unlocked sample_rib; metrics := Metrics.new; sent := []; spawned := [];
     env := sample_env; writes := λ _, true |}.

Lemma sample_session_ok state start : lock_ok (sample_session state start).
Proof. split; [apply sample_rib_wf|done]. Qed.

Definition sample_message (t : MessageType.t) (body : bytes) : BgpMessage.t :=
  BgpMessage.mk (Header.mk (Z.of_nat (19 + length body)) t) body.

Definition sample_open_body : bytes := [4; 253; 233; 0; 2; 1; 1; 1; 1; 0]%Z.

Definition other_peer : SocketAddr := {| ip := V4 1; port := 179; flowinfo := 0; scope_id := 0 |}.

Lemma session_isolation_witness :
  ∃ r', rib (handle_incoming Release other_peer sample_local
      [ReadData (MARKER ++ [0; 19; 4]%Z); ReadClosed] (sample_session BgpState.Idle None)).2
      = Unlocked r' ∧
    adj_lookup r'.(Rib.adj_rib_in) sample_peer (PrefixKey.from sample_prefix) = Some sample_route.
Proof.
  destruct (session_isolation (api:=list_bytes_api) other_peer sample_local [ReadData (MARKER ++ [0; 19; 4]%Z); ReadClosed]
    (sample_session BgpState.Idle None) sample_rib eq_refl sample_rib_wf eq_refl)
    as [(r'&Hr'&_&Hother) _].
  exists r'. split; [exact Hr'|]. rewrite Hother by done. exact sample_adj_found.
Defined.

Lemma session_refines_witness :
  ∃ r' ops, rib (handle_incoming Release other_peer sample_local
      [ReadData (MARKER ++ [0; 19; 4]%Z); ReadClosed] (sample_session BgpState.Idle None)).2
      = Unlocked r' ∧ spec_steps ops (view sample_rib) (view r').
Proof.
  destruct (session_refines (api:=list_bytes_api) Release other_peer sample_local
    [ReadData (MARKER ++ [0; 19; 4]%Z); ReadClosed] (sample_session BgpState.Idle None) sample_rib
    eq_refl sample_rib_wf eq_refl) as [(r'&ops&Hr'&_&Hops&_)|[? _]]; [|discriminate].
  exists r', ops. split; [exact Hr'|exact Hops].
Defined.

Lemma session_round_safe_witness :
  returns (session_round Release [] ReadClosed (sample_session BgpState.Established None)).1.
Proof.
  destruct (session_round_safe (api:=list_bytes_api) Release [] ReadClosed
    (sample_session BgpState.Established None) (sample_session_ok _ _)) as [[_ Hr]|[? _]];
    [discriminate|exact Hr|discriminate].
Defined.

Lemma session_follows_framing_witness :
  handle_buffer Release (S 20) (MARKER ++ [0; 19; 4; 255]%Z) (sample_session BgpState.OpenConfirm None) =
  (_ ← handle_messages Release [sample_message MessageType.Keepalive []]; mret [255%Z])
    (sample_session BgpState.OpenConfirm None).
Proof. by apply (session_follows_framing Release (MARKER ++ [0; 19; 4; 255]%Z)). Defined.

(** What a run returned, apart from the state it reached. *)
Lemma run_result {A} (m : M A) s a : (m s).1 = Ok a → m s = (Ok a, (m s).2).
Proof. destruct (m s) as [o s']. simpl. by intros ->. Qed.

Definition sample_messages : list BgpMessage.t :=
  [sample_message MessageType.Open sample_open_body; sample_message MessageType.Keepalive []].

Lemma sample_messages_run :
  (handle_messages Release sample_messages (sample_session BgpState.OpenSent None)).1 = Ok tt.
Proof. vm_compute. reflexivity. Qed.

Lemma session_established_witness :
  in_state BgpState.Established
    (handle_messages Release sample_messages (sample_session BgpState.OpenSent None)).2.
Proof.
  apply (session_established Release sample_messages (sample_session BgpState.OpenSent None) tt _
    eq_refl (run_result _ _ _ sample_messages_run)).
  exists [], (sample_message MessageType.Open sample_open_body), [], (sample_message MessageType.Keepalive []), [].
  split_and!; [reflexivity|reflexivity|apply Forall_nil, I|reflexivity|apply Forall_nil, I|apply Forall_nil, I].
Defined.

Lemma open_handler_spec_witness :
  ∃ s', handle_open sample_open_body (sample_session BgpState.OpenSent None) = (Ok tt, s') ∧
    (peer s').(Peer.timers).(BgpTimers.hold_time) = 2%Z ∧
    (peer s').(Peer.timers).(BgpTimers.keepalive_interval) = 0%Z ∧
    (peer s').(Peer.timers).(BgpTimers.hold_timer_start) =
      Some (clock (env (sample_session BgpState.OpenSent None)) 0) ∧
    (peer s').(Peer.state) = BgpState.OpenConfirm.
Proof.
  destruct (open_handler_spec (api:=list_bytes_api) sample_open_body (OpenMessage.Build_OpenMessage 4 65001 2 16843009 [])
    (sample_session BgpState.OpenSent None) ltac:(vm_compute; reflexivity)) as (caps&s'&_&Hrun&_&_&_&_&Ht&Hst&_).
  exists s'. split; [exact Hrun|]. rewrite Ht. split_and!; [reflexivity..|exact Hst].
Defined.

Lemma update_handler_spec_witness :
  ∃ s', handle_update Release [0; 0; 0; 0; 8; 10]%Z (sample_session BgpState.Idle None) = (Ok tt, s') ∧
    Metrics.get (metrics s') routes_received = 1%Z.
Proof.
  destruct (update_handler_spec (api:=list_bytes_api) Release [0; 0; 0; 0; 8; 10]%Z
    {| withdrawn_routes := []; path_attributes := Attrs.default; nlri := [Prefixes.new 167772160 8] |}
    (sample_session BgpState.Idle None) sample_rib ltac:(vm_compute; reflexivity) eq_refl sample_rib_wf eq_refl
    (or_introl eq_refl))
    as (s'&r1&r'&eor&Hrun&_&_&_&_&_&_&Hn&_).
  exists s'. split; [exact Hrun|exact Hn].
Defined.

Lemma notification_handler_spec_witness :
  ∃ s' r', handle_notification [6; 2]%Z (sample_session BgpState.Established None) = (Ok tt, s') ∧
    rib s' = Unlocked r' ∧ r'.(Rib.adj_rib_in) !! sample_peer = None.
Proof.
  destruct (notification_handler_spec (api:=list_bytes_api) [6; 2]%Z (NotificationMessage.mk 6 2 [])
    (sample_session BgpState.Established None) sample_rib ltac:(vm_compute; reflexivity) eq_refl sample_rib_wf)
    as (s'&r'&Hrun&Hr'&_&Hadj&_).
  exists s', r'. split_and!; [exact Hrun|exact Hr'|]. rewrite Hadj. apply lookup_delete_eq.
Defined.

Lemma hold_timer_expiry_witness :
  ∃ s', session_round Release [] Tick (sample_session BgpState.Established (Some 1000000000%Z)) = (Ok None, s') ∧
    (peer s').(Peer.state) = BgpState.Idle.
Proof.
  destruct (hold_timer_expiry (api:=list_bytes_api) Release [] Tick (sample_session BgpState.Established (Some 1000000000%Z))
    sample_rib {| clock := λ _, 5000000000%Z; seeds := λ n, n |} eq_refl eq_refl sample_rib_wf)
    as (s'&r'&Hrun&_&_&_&Hst&_).
  exists s'. split; [exact Hrun|exact Hst].
Defined.

Lemma silent_session_ends_witness :
  ∃ s' r', session_loop Release (replicate 3 Tick) []
      (sample_session BgpState.Established (Some 0%Z)) = (Ok None, s') ∧
    rib s' = Unlocked r' ∧ r'.(Rib.adj_rib_in) !! sample_peer = None.
Proof.
  destruct (silent_session_ends (api:=list_bytes_api) Release 2 []
    (sample_session BgpState.Established (Some 0%Z)) sample_rib 0%Z) as (s'&r'&Hrun&Hr'&_&Hadj).
  - reflexivity.
  - apply sample_rib_wf.
  - reflexivity.
  - reflexivity.
  - reflexivity.
  - intros k _. simpl. unfold from_secs. vm_compute. discriminate.
  - exists s', r'. split_and!; [exact Hrun|exact Hr'|]. rewrite Hadj. apply lookup_delete_eq.
Defined.

Lemma sample_close_run :
  (session_loop Release [ReadClosed] [] (sample_session BgpState.OpenSent None)).1 = Ok None.
Proof. vm_compute. reflexivity. Qed.

Lemma session_end_withdraws_witness :
  ∃ s' r', session_loop Release [ReadClosed] [] (sample_session BgpState.OpenSent None) = (Ok None, s') ∧
    rib s' = Unlocked r' ∧ r'.(Rib.adj_rib_in) !! sample_peer = None.
Proof.
  pose proof (run_result _ _ _ sample_close_run) as Hrun.
  destruct (session_end_withdraws _ _ _ _ _ (sample_session_ok _ _) Hrun) as (_&r'&Hr'&_&Hadj&_).
  exists (session_loop Release [ReadClosed] [] (sample_session BgpState.OpenSent None)).2, r'.
  split_and!; [exact Hrun|exact Hr'|exact Hadj].
Defined.

Lemma error_exits_keep_routes_witness :
  rib (session_round Release [] ReadError (sample_session BgpState.OpenSent None)).2 = Unlocked sample_rib.
Proof. by apply (error_exits_keep_routes Release (sample_session BgpState.OpenSent None)) with (e := sample_env). Defined.

Lemma timers_schedule_witness :
  ∃ e', BgpTimers.hold_timer_expired
      {| BgpTimers.hold_time := 3; BgpTimers.keepalive_interval := 1;
         BgpTimers.hold_timer_start := Some 5000000000%Z; BgpTimers.keepalive_timer_start := None |}
      {| clock := λ _, 8000000000%Z; seeds := λ n, n |} = Ok (true, e').
Proof.
  destruct (timers_schedule 3 sample_env _ _ _ _ {| clock := λ _, 8000000000%Z; seeds := λ n, n |}
    ltac:(lia) eq_refl eq_refl) as ([e' He]&_).
  exists e'. exact He.
Defined.
