(* ===== verification/Show.v ===== *)
(** * Formatting: the standard library's [Display] and [str] operations

    Characters of a UTF-8 string, padding ([{:<w}], [{:>w}]), [split_whitespace] and
    [trim], joining, and the text of IP and socket addresses.  The management
    commands use them. *)

From S2P Require Import Prelude.
From S2P Require Import UpdateMessage.
From S2P Require Import Text.
From S2P Require Import Env.
From Stdlib Require Import Ascii.

Module Show.
(** ** Characters *)

(** A byte that continues the encoding of a character. *)
Definition continuation (c : ascii) : bool :=
  let n := nat_of_ascii c in (128 <=? n) && (n <=? 191).

(** The characters of a string, each as its bytes. *)
Fixpoint chars (s : string) : list string :=
  match s with
  | EmptyString => []
  | String c s =>
      match chars s with
      | (String d g) :: gs =>
          if continuation d then String c (String d g) :: gs
          else String c EmptyString :: String d g :: gs
      | gs => String c EmptyString :: gs
      end
  end.

Definition concat_str (l : list string) : string := foldr String.append EmptyString l.

Fixpoint bytes_string (bs : list nat) : string :=
  match bs with
  | [] => EmptyString
  | b :: bs => String (ascii_of_nat b) (bytes_string bs)
  end.

(** [char::is_whitespace]: the characters of the property White_Space, encoded. *)
Definition whitespace : list string := map bytes_string (
  [[9]; [10]; [11]; [12]; [13]; [32]; [194; 133]; [194; 160]; [225; 154; 128]] ++
  map (λ b, [226; 128; b]) [128; 129; 130; 131; 132; 133; 134; 135; 136; 137; 138; 168; 169; 175] ++
  [[226; 129; 159]; [227; 128; 128]]).

Definition is_whitespace (c : string) : bool := bool_decide (c ∈ whitespace).

Fixpoint drop_spaces (cs : list string) : list string :=
  match cs with
  | [] => []
  | c :: cs' => if is_whitespace c then drop_spaces cs' else cs
  end.

(** [str::trim] *)
Definition trim (s : string) : string :=
  concat_str (reverse (drop_spaces (reverse (drop_spaces (chars s))))).

(** The words of a sequence of characters, [cur] being read. *)
Fixpoint words (cur : string) (cs : list string) : list string :=
  match cs with
  | [] => match cur with EmptyString => [] | _ => [cur] end
  | c :: cs =>
      if is_whitespace c
      then match cur with EmptyString => words EmptyString cs | _ => cur :: words EmptyString cs end
      else words (cur +:+ c) cs
  end.

(** [str::split_whitespace] *)
Definition split_whitespace (s : string) : list string := words EmptyString (chars s).

(** [slice.join(sep)] *)
Fixpoint join (sep : string) (l : list string) : string :=
  match l with
  | [] => EmptyString
  | [s] => s
  | s :: l => s +:+ sep +:+ join sep l
  end.

Fixpoint repeat_str (s : string) (n : nat) : string :=
  match n with O => EmptyString | S n => s +:+ repeat_str s n end.

(** [{:<w}] and [{:>w}] *)
Definition pad_right (w : nat) (s : string) : string :=
  s +:+ repeat_str " " (w - length (chars s)).
Definition pad_left (w : nat) (s : string) : string :=
  repeat_str " " (w - length (chars s)) +:+ s.

(** ** Addresses *)

Definition hex_char (d : Z) : ascii :=
  ascii_of_N (Z.to_N (if (d <? 10)%Z then 48 + d else 87 + d)).

(** [{:x}] of a [u16] *)
Definition show_hex16 (n : Z) : string :=
  let ds := map (λ i, (Z.shiftr n (4 * i) mod 16)%Z) [3; 2; 1; 0]%Z in
  let fix strip (ds : list Z) :=
    match ds with
    | 0%Z :: (_ :: _) as ds' => strip ds'
    | _ => ds
    end in
  foldr (λ d s, String (hex_char d) s) EmptyString (strip ds).

Definition segments (a : Z) : list Z :=
  map (λ i, (Z.shiftr a (16 * i) mod 2 ^ 16)%Z) [7; 6; 5; 4; 3; 2; 1; 0]%Z.

(** The longest run of zero segments, the first of the longest ones: its start and
    its length. *)
Fixpoint zero_span (i : nat) (segs : list Z) (current longest : nat * nat) : nat * nat :=
  match segs with
  | [] => longest
  | seg :: segs =>
      if (seg =? 0)%Z then
        let current := (if current.2 =? 0 then i else current.1, S current.2) in
        let longest := if longest.2 <? current.2 then current else longest in
        zero_span (S i) segs current longest
      else zero_span (S i) segs (0, 0) longest
  end.

Definition show_ipv6 (a : Z) : string :=
  if (Z.shiftr a 32 =? 0xffff)%Z then "::ffff:" +:+ Prefixes.show_addr (wrap 32 a)
  else
    let segs := segments a in
    let '(start, len) := zero_span 0 segs (0, 0) (0, 0) in
    let slice l := join ":" (map show_hex16 l) in
    if 1 <? len then slice (take start segs) +:+ "::" +:+ slice (drop (start + len) segs)
    else slice segs.

Definition show_ip (a : IpAddr) : string :=
  match a with V4 a => Prefixes.show_addr a | V6 a => show_ipv6 a end.

Definition show_socket (a : SocketAddr) : string :=
  match a.(ip) with
  | V4 x => Prefixes.show_addr x
  | V6 x => "[" +:+ show_ipv6 x +:+
      (if (a.(scope_id) =? 0)%Z then EmptyString else "%" +:+ show_uint a.(scope_id)) +:+ "]"
  end +:+ ":" +:+ show_uint a.(port).
End Show.
