(* ===== verification/Config.v ===== *)
(** * The configuration ([src/config.rs]) and start-up ([src/main.rs])

    The TOML parser and the file system are parameters; what the derived
    deserializer builds is a [Config.t]. *)

From S2P Require Import Prelude.
From S2P Require Import Env.
From S2P Require Import Fsm.
From S2P Require Import Show.

Module RouterConfig.
Record t := mk {
  local_as : Z;
  router_id : Ipv4Addr;
  listen : SocketAddr;
  hold_time : Z;
  keepalive_interval : option Z
}.
End RouterConfig.

Module NeighborConfig.
Record t := mk {
  addr : IpAddr;
  remote_as : Z;
  hold_time : option Z;
  description : option string;
  route_reflector_client : bool;
  import_policy : option string;
  export_policy : option string;
  md5_password : option string
}.

Definition socket_addr (self : t) (port : Z) : SocketAddr :=
  {| ip := self.(addr); port := port; flowinfo := 0; scope_id := 0 |}.
End NeighborConfig.

Module FilterAction.
Inductive t := Permit | Deny.

#[global] Instance t_eq_dec : EqDecision t.
Proof. solve_decision. Defined.
End FilterAction.

Module PrefixListEntry.
Record t := mk { action : FilterAction.t; prefix : string; ge : option Z; le : option Z }.
End PrefixListEntry.

Module PrefixList.
Record t := mk { name : string; entries : list PrefixListEntry.t }.
End PrefixList.

Module CommunityList.
Record t := mk { name : string; communities : list string }.
End CommunityList.

Module PolicyConfig.
Record t := mk { prefix_lists : list PrefixList.t; community_lists : list CommunityList.t }.
End PolicyConfig.

(** One constructor for each [bail!]. *)
Module ConfigError.
Inductive t :=
| LocalAsZero
| RouterIdUnspecified
| RouterIdBroadcast
| RouterIdLoopback
| HoldTime
| KeepaliveZero
| KeepaliveTooLong
| DuplicateNeighbor (addr : IpAddr)
| RemoteAsZero (addr : IpAddr)
| NeighborHoldTime (addr : IpAddr)
| PasswordEmpty (addr : IpAddr)
| PasswordTooLong (addr : IpAddr).

(** The messages of the [bail!]s. *)
Definition to_string (e : t) : string :=
  let neighbor addr problem := "neighbor " +:+ Show.show_ip addr +:+ ": " +:+ problem in
  match e with
  | LocalAsZero => "local_as must be non-zero"
  | RouterIdUnspecified => "router_id must not be 0.0.0.0"
  | RouterIdBroadcast => "router_id must not be 255.255.255.255"
  | RouterIdLoopback => "router_id must not be a loopback address (127.x.x.x)"
  | HoldTime => "hold_time must be 0 or >= 3 seconds (RFC 4271)"
  | KeepaliveZero => "keepalive_interval must be > 0"
  | KeepaliveTooLong => "keepalive_interval must be less than hold_time"
  | DuplicateNeighbor addr => "duplicate neighbor address: " +:+ Show.show_ip addr
  | RemoteAsZero addr => neighbor addr "remote_as must be non-zero"
  | NeighborHoldTime addr => neighbor addr "hold_time must be 0 or >= 3 seconds"
  | PasswordEmpty addr => neighbor addr "md5_password must not be empty"
  | PasswordTooLong addr => neighbor addr "md5_password exceeds 80 bytes (RFC 2385)"
  end.
End ConfigError.

Definition default_listen : SocketAddr := {| ip := V4 0; port := 179; flowinfo := 0; scope_id := 0 |}.

Definition default_hold_time : Z := 90.

Module Config.
Record t := mk {
  router : RouterConfig.t;
  neighbors : list NeighborConfig.t;
  policy : PolicyConfig.t
}.

(** [if cond { bail!(e) }] *)
Definition bail_if (cond : bool) (e : ConfigError.t) : outcome ConfigError.t unit :=
  if cond then Err e else Ok tt.

Definition bad_hold_time (h : Z) : bool := negb (h =? 0)%Z && (h <? 3)%Z.

(** The body of the loop over the neighbors; the state is [seen_addrs]. *)
Definition validate_neighbor (seen_addrs : gset IpAddr) (n : NeighborConfig.t) :
    outcome ConfigError.t (gset IpAddr) :=
  let addr := n.(NeighborConfig.addr) in
  _ ← bail_if (bool_decide (addr ∈ seen_addrs)) (ConfigError.DuplicateNeighbor addr);
  let seen_addrs := {[addr]} ∪ seen_addrs in
  _ ← bail_if (n.(NeighborConfig.remote_as) =? 0)%Z (ConfigError.RemoteAsZero addr);
  _ ← match n.(NeighborConfig.hold_time) with
      | Some ht => bail_if (bad_hold_time ht) (ConfigError.NeighborHoldTime addr)
      | None => Ok tt
      end;
  _ ← match n.(NeighborConfig.md5_password) with
      | Some pw =>
          _ ← bail_if (String.length pw =? 0) (ConfigError.PasswordEmpty addr);
          bail_if (80 <? String.length pw) (ConfigError.PasswordTooLong addr)
      | None => Ok tt
      end;
  Ok seen_addrs.

Fixpoint validate_neighbors (seen_addrs : gset IpAddr) (ns : list NeighborConfig.t) :
    outcome ConfigError.t unit :=
  match ns with
  | [] => Ok tt
  | n :: ns => seen_addrs ← validate_neighbor seen_addrs n; validate_neighbors seen_addrs ns
  end.

Definition validate (self : t) : outcome ConfigError.t unit :=
  let router := self.(router) in
  let rid := router.(RouterConfig.router_id) in
  let hold_time := router.(RouterConfig.hold_time) in
  _ ← bail_if (router.(RouterConfig.local_as) =? 0)%Z ConfigError.LocalAsZero;
  _ ← bail_if (rid =? 0)%Z ConfigError.RouterIdUnspecified;
  _ ← bail_if (bool_decide (be_bytes 4 rid = [255; 255; 255; 255]%Z)) ConfigError.RouterIdBroadcast;
  _ ← bail_if (bool_decide (head (be_bytes 4 rid) = Some 127%Z)) ConfigError.RouterIdLoopback;
  _ ← bail_if (bad_hold_time hold_time) ConfigError.HoldTime;
  _ ← match router.(RouterConfig.keepalive_interval) with
      | Some ka =>
          _ ← bail_if (ka =? 0)%Z ConfigError.KeepaliveZero;
          bail_if (negb (hold_time =? 0)%Z && (hold_time <=? ka)%Z) ConfigError.KeepaliveTooLong
      | None => Ok tt
      end;
  validate_neighbors ∅ self.(neighbors).
End Config.

(** What [from_file] and [from_str] report. *)
Inductive LoadError := ReadFailed | TomlFailed | Invalid (e : ConfigError.t).

Module Cli.
Record t := mk {
  config : option string;
  listen : option SocketAddr;
  local_as : option Z;
  router_id : option Ipv4Addr;
  hold_time : option Z;
  mgmt_socket : string
}.
End Cli.

Section loading.
(** [std::fs::read_to_string] and [toml::from_str]. *)
Context (read_to_string : string → option string) (toml_from_str : string → option Config.t).

(** [Config::from_str] *)
Definition from_str (s : string) : outcome LoadError Config.t :=
  match toml_from_str s with
  | None => Err TomlFailed
  | Some config => _ ← map_err Invalid (Config.validate config); Ok config
  end.

(** [Config::from_file] *)
Definition from_file (path : string) : outcome LoadError Config.t :=
  match read_to_string path with
  | None => Err ReadFailed
  | Some content =>
      match toml_from_str content with
      | None => Err TomlFailed
      | Some config => _ ← map_err Invalid (Config.validate config); Ok config
      end
  end.

(** What [main] does with the command line: the speaker's settings and the address
    it listens on. *)
Definition startup (cli : Cli.t) : outcome LoadError (LocalConfig.t * SocketAddr) :=
  match cli.(Cli.config) with
  | Some config_path =>
      cfg ← from_file config_path;
      let router := cfg.(Config.router) in
      let lc := LocalConfig.new router.(RouterConfig.local_as) router.(RouterConfig.router_id) in
      let lc := LocalConfig.mk (LocalConfig.local_as lc) (LocalConfig.router_id lc)
                  router.(RouterConfig.hold_time) in
      Ok (lc, default router.(RouterConfig.listen) cli.(Cli.listen))
  | None =>
      let lc := LocalConfig.new (default 65000%Z cli.(Cli.local_as))
                  (default 16843009%Z cli.(Cli.router_id)) in
      let lc := LocalConfig.mk (LocalConfig.local_as lc) (LocalConfig.router_id lc)
                  (default 90%Z cli.(Cli.hold_time)) in
      Ok (lc, default default_listen cli.(Cli.listen))
  end.
End loading.

(* ------------------------------------------------------------------ *)
(** ** What validation accepts *)

(** RFC 4271: no hold time, or one of at least three seconds. *)
Definition hold_time_ok (h : Z) : Prop := (h = 0 ∨ 3 ≤ h)%Z.

Definition neighbor_ok (n : NeighborConfig.t) : Prop :=
  n.(NeighborConfig.remote_as) ≠ 0%Z ∧
  (∀ h, n.(NeighborConfig.hold_time) = Some h → hold_time_ok h) ∧
  ∀ pw, n.(NeighborConfig.md5_password) = Some pw → 0 < String.length pw ≤ 80.

Definition valid (c : Config.t) : Prop :=
  let r := c.(Config.router) in let rid := r.(RouterConfig.router_id) in
  let hold := r.(RouterConfig.hold_time) in
  r.(RouterConfig.local_as) ≠ 0%Z ∧
  rid ≠ 0%Z ∧ rid ≠ (2 ^ 32 - 1)%Z ∧ ¬ (127 * 2 ^ 24 ≤ rid < 128 * 2 ^ 24)%Z ∧
  hold_time_ok hold ∧
  (∀ ka, r.(RouterConfig.keepalive_interval) = Some ka → ka ≠ 0%Z ∧ (hold = 0 ∨ ka < hold)%Z) ∧
  NoDup (map NeighborConfig.addr c.(Config.neighbors)) ∧
  Forall neighbor_ok c.(Config.neighbors).

Lemma bail_if_Ok b e u : Config.bail_if b e = Ok u ↔ b = false.
Proof. destruct b, u; simpl; split; congruence. Qed.

Lemma bail_if_returns b e : returns (Config.bail_if b e).
Proof. by destruct b. Qed.

(** A sequence of checks passes when each of them does. *)
Lemma check_bind {B} (m : outcome ConfigError.t unit) (f : unit → outcome ConfigError.t B) b :
  mbind f m = Ok b ↔ m = Ok tt ∧ f tt = Ok b.
Proof.
  split; [intros ([]&?&?)%bind_Ok_inv; done|]. by intros [-> ?].
Qed.

Lemma bad_hold_time_false h : (0 ≤ h)%Z → Config.bad_hold_time h = false ↔ hold_time_ok h.
Proof. intros Hh. unfold Config.bad_hold_time, hold_time_ok. lia. Qed.

Lemma validate_neighbor_Ok seen n seen' :
  (∀ h, n.(NeighborConfig.hold_time) = Some h → 0 ≤ h)%Z →
  Config.validate_neighbor seen n = Ok seen' ↔
  (NeighborConfig.addr n ∉ seen) ∧ neighbor_ok n ∧ seen' = {[NeighborConfig.addr n]} ∪ seen.
Proof.
  intros Hpos. unfold Config.validate_neighbor, neighbor_ok.
  rewrite !check_bind, !bail_if_Ok, bool_decide_eq_false, Z.eqb_neq.
  destruct (NeighborConfig.hold_time n) as [h|]; destruct (NeighborConfig.md5_password n) as [pw|];
    rewrite ?check_bind, ?bail_if_Ok, ?bad_hold_time_false by (by apply Hpos);
    split; intros H; destruct_and!; split_and!; simplify_eq; naive_solver lia.
Qed.

Lemma validate_neighbors_Ok seen ns u :
  Forall (λ n, ∀ h, n.(NeighborConfig.hold_time) = Some h → 0 ≤ h)%Z ns →
  Config.validate_neighbors seen ns = Ok u ↔
  NoDup (map NeighborConfig.addr ns) ∧ Forall neighbor_ok ns ∧
  ∀ n, n ∈ ns → NeighborConfig.addr n ∉ seen.
Proof.
  intros Hpos. revert seen. induction Hpos as [|n ns Hn Hpos IH]; intros seen; simpl.
  - split; [|by destruct u]. intros _. split_and!; [constructor..|]. intros n Hn. by apply elem_of_nil in Hn.
  - split.
    + intros (seen'&Hok&Hr)%bind_Ok_inv. apply validate_neighbor_Ok in Hok as (Ha&Hnok&->); [|done].
      apply IH in Hr as (Hnd&Hall&Hseen). split_and!.
      * apply NoDup_cons. split; [|done]. intros (n'&Heq&Hin)%list_elem_of_fmap.
        specialize (Hseen n' Hin). set_solver.
      * by apply Forall_cons.
      * intros n' [->|Hin]%elem_of_cons; [done|]. specialize (Hseen n' Hin). set_solver.
    + intros ([Hnotin Hnd]%NoDup_cons&[Hnok Hall]%Forall_cons&Hseen).
      assert (Config.validate_neighbor seen n = Ok ({[NeighborConfig.addr n]} ∪ seen)) as ->.
      { apply validate_neighbor_Ok; [done|]. split_and!; [apply Hseen; by left|done..]. }
      apply IH. split_and!; [done..|]. intros n' Hin.
      assert (NeighborConfig.addr n' ∉ seen) by (apply Hseen; by right).
      assert (NeighborConfig.addr n' ≠ NeighborConfig.addr n); [|set_solver].
      intros Heq. apply Hnotin. rewrite <- Heq. by apply list_elem_of_fmap_2.
Qed.

(** Goes through a sequence of checks. *)
Ltac check_returns := repeat
  lazymatch goal with
  | |- returns (Config.bail_if _ _) => apply bail_if_returns
  | |- returns (Ok _) => exact I
  | |- returns (mbind _ _) => apply returns_bind; [|intros ? _]
  | |- returns (match ?x with _ => _ end) => destruct x
  end.

Lemma validate_neighbors_returns seen ns : returns (Config.validate_neighbors seen ns).
Proof.
  revert seen. induction ns as [|n ns IH]; intros seen; simpl; [done|].
  apply returns_bind; [|intros; apply IH]. unfold Config.validate_neighbor. by check_returns.
Qed.

(** The fields of a configuration are in the range of their types. *)
Definition typed (c : Config.t) : Prop :=
  u32 c.(Config.router).(RouterConfig.router_id) ∧
  u16 c.(Config.router).(RouterConfig.hold_time) ∧
  Forall (λ n, ∀ h, n.(NeighborConfig.hold_time) = Some h → 0 ≤ h)%Z c.(Config.neighbors).

Lemma loopback_octet rid :
  u32 rid → head (be_bytes 4 rid) = Some 127%Z ↔ (127 * 2 ^ 24 ≤ rid < 128 * 2 ^ 24)%Z.
Proof.
  intros [H0 Hr]. unfold be_bytes. simpl head. rewrite Z.shiftr_div_pow2 by done.
  rewrite Z.mod_small; [|split; [apply Z.div_pos; lia|apply Z.div_lt_upper_bound; lia]].
  split.
  - intros [= Hd]. pose proof (Z.div_mod rid (2 ^ (8 * Z.of_nat 3)) ltac:(done)).
    pose proof (Z.mod_pos_bound rid (2 ^ (8 * Z.of_nat 3)) ltac:(done)). lia.
  - intros Hb. change (Some (rid / 2 ^ (8 * Z.of_nat 3))%Z = Some 127%Z). f_equal. symmetry.
    apply (Z.div_unique _ _ _ (rid - 127 * 2 ^ 24)); lia.
Qed.

Lemma broadcast_octets rid :
  u32 rid → be_bytes 4 rid = [255; 255; 255; 255]%Z ↔ rid = (2 ^ 32 - 1)%Z.
Proof.
  intros Hr. split; [|by intros ->]. intros Hb. rewrite <- (of_be_be_bytes 4 rid) by done.
  by rewrite Hb.
Qed.

(** Validation decides validity. *)
Lemma validate_decides c :
  typed c →
  (Config.validate c = Ok tt ↔ valid c) ∧ (¬ valid c → ∃ e, Config.validate c = Err e).
Proof.
  intros (Hrid&Hhold&Hns).
  assert (Config.validate c = Ok tt ↔ valid c) as Hiff.
  { unfold Config.validate, valid. cbv zeta.
    rewrite !check_bind, !bail_if_Ok, !bool_decide_eq_false, !Z.eqb_neq, validate_neighbors_Ok by done.
    rewrite loopback_octet, broadcast_octets, bad_hold_time_false by (done || apply Hhold).
    assert (match RouterConfig.keepalive_interval (Config.router c) with
      | Some ka => _ ← Config.bail_if (ka =? 0)%Z ConfigError.KeepaliveZero;
          Config.bail_if (negb (RouterConfig.hold_time (Config.router c) =? 0)%Z &&
            (RouterConfig.hold_time (Config.router c) <=? ka)%Z) ConfigError.KeepaliveTooLong
      | None => Ok tt
      end = Ok tt ↔ ∀ ka, RouterConfig.keepalive_interval (Config.router c) = Some ka →
        ka ≠ 0%Z ∧ (RouterConfig.hold_time (Config.router c) = 0 ∨
                    ka < RouterConfig.hold_time (Config.router c))%Z) as ->.
    { destruct (RouterConfig.keepalive_interval _) as [ka|]; [|naive_solver].
      rewrite check_bind, !bail_if_Ok. split; [intros ? ka' [= <-]; lia|].
      intros Hka. specialize (Hka ka eq_refl). lia. }
    set_solver. }
  split; [done|]. intros Hnv. assert (returns (Config.validate c)) as Hret.
  { unfold Config.validate. cbv zeta. check_returns; apply validate_neighbors_returns. }
  destruct (Config.validate c) as [[]|e| |]; [|by exists e|done..].
  destruct Hnv. by apply Hiff.
Qed.

(** C25: validation accepts exactly the configurations with a non-zero AS, a router
    id that is neither unspecified, broadcast nor loopback, hold times (the router's,
    and a neighbor's where it has its own) of 0 or at least 3 seconds, a keepalive
    interval, where there is one, that is positive and, unless the hold time is 0,
    below the hold time (the comment in the code asks for the bound at 0 too), and
    neighbors with distinct addresses, non-zero ASes and, where there is one, a
    password of 1 to 80 bytes; it reports an error for any other, and never panics. *)
Theorem config_validate_spec c :
  typed c →
  (Config.validate c = Ok tt ↔ valid c) ∧ (¬ valid c → ∃ e, Config.validate c = Err e).
Proof. apply validate_decides. Qed.

(** With a configuration file the speaker runs with the AS, router id and hold
    time of the file, which validation has accepted, and ignores those of the
    command line; without one it takes them from the command line or the defaults,
    with no validation at all.  A start-up that fails had an unreadable, malformed
    or invalid file. *)
Theorem startup_spec (read_to_string : string → option string) (toml : string → option Config.t) cli :
  (∀ s c, toml s = Some c → typed c) →
  match cli.(Cli.config) with
  | Some path =>
      match content ← read_to_string path; toml content with
      | Some cfg =>
          (valid cfg → startup read_to_string toml cli =
             Ok ({| LocalConfig.local_as := cfg.(Config.router).(RouterConfig.local_as);
                    LocalConfig.router_id := cfg.(Config.router).(RouterConfig.router_id);
                    LocalConfig.hold_time := cfg.(Config.router).(RouterConfig.hold_time) |},
                 default cfg.(Config.router).(RouterConfig.listen) cli.(Cli.listen))) ∧
          (¬ valid cfg → ∃ e, startup read_to_string toml cli = Err (Invalid e))
      | None => startup read_to_string toml cli = Err ReadFailed ∨
                startup read_to_string toml cli = Err TomlFailed
      end
  | None => startup read_to_string toml cli =
      Ok ({| LocalConfig.local_as := default 65000%Z cli.(Cli.local_as);
             LocalConfig.router_id := default 16843009%Z cli.(Cli.router_id);
             LocalConfig.hold_time := default 90%Z cli.(Cli.hold_time) |},
          default default_listen cli.(Cli.listen))
  end.
Proof.
  intros Htyped. unfold startup, from_file. destruct (Cli.config cli) as [path|]; [|done].
  destruct (read_to_string path) as [content|]; simpl; [|by left].
  destruct (toml content) as [cfg|] eqn:Hcfg; [|by right].
  destruct (validate_decides cfg (Htyped _ _ Hcfg)) as [Hok Hbad]. split; intros Hv.
  - by rewrite (proj2 Hok Hv).
  - destruct (Hbad Hv) as [e ->]. by exists e.
Qed.

(* ------------------------------------------------------------------ *)
(** ** Witnesses *)

Definition sample_config (hold_time : Z) : Config.t :=
  {| Config.router := {| RouterConfig.local_as := 65001; RouterConfig.router_id := 167772161;
       RouterConfig.listen := default_listen; RouterConfig.hold_time := hold_time;
       RouterConfig.keepalive_interval := None |};
     Config.neighbors := []; Config.policy := PolicyConfig.mk [] [] |}.

Lemma sample_config_typed h : u16 h → typed (sample_config h).
Proof. intros Hh. split_and!; [by_decide|done|by apply Forall_nil]. Qed.

Lemma config_validate_spec_witness : ∃ e, Config.validate (sample_config 2) = Err e.
Proof.
  apply (config_validate_spec (sample_config 2)); [apply sample_config_typed; by_decide|].
  unfold valid, hold_time_ok. simpl. lia.
Defined.

Lemma startup_spec_witness :
  startup (λ _, Some EmptyString) (λ _, Some (sample_config 90))
    (Cli.mk (Some EmptyString) None (Some 64512%Z) None (Some 30%Z) EmptyString) =
  Ok ({| LocalConfig.local_as := 65001; LocalConfig.router_id := 167772161;
         LocalConfig.hold_time := 90 |}, default_listen).
Proof.
  refine (proj1 (startup_spec (λ _, Some EmptyString) (λ _, Some (sample_config 90))
    (Cli.mk (Some EmptyString) None (Some 64512%Z) None (Some 30%Z) EmptyString) _) _).
  - intros s c [= <-]. apply sample_config_typed. by_decide.
  - unfold valid, hold_time_ok. simpl. split_and!; try lia; [done|apply NoDup_nil_2|by apply Forall_nil].
Defined.
