(* ===== verification/Policy.v ===== *)
(** * The policy engine ([src/policy.rs])

    Prefix lists and community lists evaluated against a route; prefixes and
    communities are strings of the configuration, parsed at each use. *)

From S2P Require Import Prelude.
From S2P Require Import Attr.
From S2P Require Import UpdateMessage.
From S2P Require Import Text.
From S2P Require Import Config.
From Stdlib Require Import Ascii.

(** [!x] on a [w]-bit unsigned integer. *)
Definition not_uint (w x : Z) : Z := (2 ^ w - 1 - x)%Z.

(** "1.2.3.0/24" *)
Definition parse_prefix (s : string) : option (Ipv4Addr * Z) :=
  '(addr_str, len_str) ← Text.split_once "/" s;
  addr ← Text.parse_addr addr_str;
  len ← Text.parse_uint 8 len_str;
  Some (addr, len).

Definition parse_community_str (s : string) : option Community.t :=
  if decide (s = "no-export") then Some Community.NO_EXPORT
  else if decide (s = "no-advertise") then Some Community.NO_ADVERTISE
  else if decide (s = "no-export-subconfed") then Some Community.NO_EXPORT_SUBCONFED
  else
    '(asn_str, val_str) ← Text.split_once ":" s;
    asn ← Text.parse_uint 16 asn_str;
    val ← Text.parse_uint 16 val_str;
    Some (Z.lor (wrap 32 (Z.shiftl asn 16)) val).

(** Whether [test_addr/test_len] lies in [net_addr/net_len]. *)
Definition is_subnet {E} (p : profile) (test_addr : Ipv4Addr) (test_len : Z)
    (net_addr : Ipv4Addr) (net_len : Z) : outcome E bool :=
  if (test_len <? net_len)%Z then Ok false
  else if (net_len =? 0)%Z then Ok true
  else
    n ← sub_uint p 8 32 net_len;
    x ← shl_uint p 32 1 n;
    y ← sub_uint p 32 x 1;
    let mask := not_uint 32 y in
    Ok (Z.land net_addr mask =? Z.land test_addr mask)%Z.

(** [iter().find(..)] *)
Fixpoint find_first {A} (f : A → bool) (l : list A) : option A :=
  match l with
  | [] => None
  | a :: l => if f a then Some a else find_first f l
  end.

Module PolicyEngine.
(** [PolicyEngine { policy }] *)
Record t := mk { policy : PolicyConfig.t }.

Definition new (policy : PolicyConfig.t) : t := mk policy.

Section ops.
Context {E : Type} (p : profile).

Definition matches_entry (entry : PrefixListEntry.t) (prefix : Prefix) : outcome E bool :=
  match parse_prefix entry.(PrefixListEntry.prefix) with
  | None => Ok false
  | Some (net_addr, net_len) =>
      sub ← is_subnet p prefix.(address) prefix.(prefix_len) net_addr net_len;
      if negb sub then Ok false
      else
        let pl := prefix.(prefix_len) in
        let ge_ok := match entry.(PrefixListEntry.ge) with Some ge => (ge <=? pl)%Z | None => true end in
        let le_ok := match entry.(PrefixListEntry.le) with Some le => (pl <=? le)%Z | None => true end in
        let exact_ok :=
          match entry.(PrefixListEntry.ge), entry.(PrefixListEntry.le) with
          | None, None => (pl =? net_len)%Z
          | _, _ => true
          end in
        Ok (ge_ok && le_ok && exact_ok)
  end.

Fixpoint evaluate_entries (entries : list PrefixListEntry.t) (prefix : Prefix) : outcome E bool :=
  match entries with
  | [] => Ok false
  | entry :: entries =>
      m ← matches_entry entry prefix;
      if (m : bool) then
        Ok (bool_decide (entry.(PrefixListEntry.action) = FilterAction.Permit))
      else evaluate_entries entries prefix
  end.

Definition evaluate_prefix_list (list : PrefixList.t) (prefix : Prefix) (attrs : PathAttributes) :
    outcome E bool :=
  evaluate_entries list.(PrefixList.entries) prefix.

Definition apply (self : t) (policy_name : string) (prefix : Prefix) (attrs : PathAttributes) :
    outcome E bool :=
  match find_first (λ pl, bool_decide (pl.(PrefixList.name) = policy_name))
          self.(policy).(PolicyConfig.prefix_lists) with
  | Some pl => evaluate_prefix_list pl prefix attrs
  | None => Ok true
  end.
End ops.

Definition has_community (attrs : PathAttributes) (community_str : string) : bool :=
  match parse_community_str community_str with
  | Some c => bool_decide (c ∈ attrs.(communities))
  | None => false
  end.

Definition matches_community_list (self : t) (list_name : string) (attrs : PathAttributes) : bool :=
  match find_first (λ cl, bool_decide (cl.(CommunityList.name) = list_name))
          self.(policy).(PolicyConfig.community_lists) with
  | Some cl => existsb (has_community attrs) cl.(CommunityList.communities)
  | None => false
  end.
End PolicyEngine.

(* ------------------------------------------------------------------ *)
(** ** Networks *)

(** Masking keeps the bits above [n]. *)
Lemma land_mask w n a :
  uint w a → (0 ≤ n ≤ w)%Z → Z.land a (2 ^ w - 2 ^ n) = Z.shiftl (Z.shiftr a n) n.
Proof.
  intros Ha Hn.
  assert (2 ^ w - 2 ^ n = Z.shiftl (Z.ones (w - n)) n)%Z as ->.
  { rewrite Z.shiftl_mul_pow2, Z.ones_equiv by lia.
    replace (2 ^ w)%Z with (2 ^ (w - n) * 2 ^ n)%Z; [lia|].
    rewrite <- Z.pow_add_r by lia. f_equal. lia. }
  apply Z.bits_inj'. intros i Hi. rewrite Z.land_spec, !Z.shiftl_spec by done.
  destruct (Z.lt_ge_cases i n) as [Hlt|Hge].
  - by rewrite !(Z.testbit_neg_r _ (i - n)), andb_false_r by lia.
  - rewrite Z.shiftr_spec by lia. replace (i - n + n)%Z with i by lia.
    destruct (Z.lt_ge_cases i w).
    + by rewrite Z.ones_spec_low, andb_true_r by lia.
    + rewrite Z.ones_spec_high, andb_false_r by lia. symmetry.
      rewrite <- (Z.mod_small a (2 ^ w)) by apply Ha. apply Z.mod_pow2_bits_high. lia.
Qed.

(** The networks of length [n] of two addresses are the same. *)
Definition same_network (n a b : Z) : Prop := (Z.shiftr a (32 - n) = Z.shiftr b (32 - n))%Z.

#[export] Instance same_network_dec n a b : Decision (same_network n a b).
Proof. unfold same_network. apply _. Defined.

Lemma is_subnet_eq {E} p ta tl na nl :
  u32 ta → u32 na → (0 ≤ nl ≤ 32)%Z →
  is_subnet (E:=E) p ta tl na nl = Ok (bool_decide (nl ≤ tl ∧ same_network nl ta na)%Z).
Proof.
  intros Hta Hna Hnl. unfold is_subnet, same_network.
  destruct (Z.ltb_spec tl nl); [by rewrite bool_decide_eq_false_2 by lia|].
  destruct (Z.eqb_spec nl 0) as [->|Hz].
  - rewrite bool_decide_eq_true_2; [done|]. split; [done|].
    change (32 - 0)%Z with 32%Z. rewrite !Z.shiftr_div_pow2 by done.
    by rewrite !Z.div_small by (apply Hta || apply Hna).
  - rewrite sub_uint_le by lia. cbn [mbind outcome_bind]. unfold shl_uint.
    rewrite (proj2 (Z.ltb_lt _ _)) by lia. cbn [mbind outcome_bind].
    rewrite Z.shiftl_1_l. assert (2 ^ (32 - nl) < 2 ^ 32)%Z as Hp by (apply Z.pow_lt_mono_r; lia).
    assert (0 < 2 ^ (32 - nl))%Z as Hp0 by lia.
    rewrite wrap_small by (unfold uint; lia). rewrite sub_uint_le by lia. cbn [mbind outcome_bind].
    unfold not_uint. replace (2 ^ 32 - 1 - (2 ^ (32 - nl) - 1))%Z with (2 ^ 32 - 2 ^ (32 - nl))%Z by lia.
    rewrite !land_mask by (done || lia). f_equal. apply Bool.eq_iff_eq_true.
    rewrite Z.eqb_eq, bool_decide_eq_true, !Z.shiftl_mul_pow2 by lia.
    split; [intros Heq; split; [done|nia]|intros [_ ->]; done].
Qed.

(* ------------------------------------------------------------------ *)
(** ** What a policy means *)

(** An entry matches a route whose prefix lies in the entry's network and whose
    length is in the range [ge..le] (the network itself when there is neither). *)
Definition entry_matches (entry : PrefixListEntry.t) (prefix : Prefix) : Prop :=
  match parse_prefix entry.(PrefixListEntry.prefix) with
  | None => False
  | Some (net, net_len) =>
      let len := prefix.(prefix_len) in
      (net_len ≤ len)%Z ∧ same_network net_len prefix.(address) net ∧
      match entry.(PrefixListEntry.ge), entry.(PrefixListEntry.le) with
      | None, None => len = net_len
      | Some ge, None => (ge ≤ len)%Z
      | None, Some le => (len ≤ le)%Z
      | Some ge, Some le => (ge ≤ len ≤ le)%Z
      end
  end.

#[export] Instance entry_matches_dec entry prefix : Decision (entry_matches entry prefix).
Proof. unfold entry_matches. repeat case_match; apply _. Defined.

(** The action of the first entry that matches; none matching denies. *)
Definition list_permits (entries : list PrefixListEntry.t) (prefix : Prefix) : bool :=
  match find_first (λ e, bool_decide (entry_matches e prefix)) entries with
  | Some e => bool_decide (e.(PrefixListEntry.action) = FilterAction.Permit)
  | None => false
  end.

(** The networks of a policy are no longer than 32 bits. *)
Definition entry_wf (entry : PrefixListEntry.t) : Prop :=
  match parse_prefix entry.(PrefixListEntry.prefix) with
  | Some (_, net_len) => (net_len ≤ 32)%Z
  | None => True
  end.

Lemma parse_digits_bound max acc s n :
  (0 ≤ acc ≤ max)%Z → Text.parse_digits max acc s = Some n → (0 ≤ n ≤ max)%Z.
Proof.
  revert acc. induction s as [|c s IH]; intros acc Hacc; simpl; [by intros [= <-]|].
  intros (d&Hd&Hr)%bind_Some. assert (0 ≤ d)%Z.
  { unfold Text.digit in Hd. case_decide; [|done]. injection Hd. lia. }
  destruct (Z.leb_spec (acc * 10 + d) max); [|done]. eapply IH; [|exact Hr]. lia.
Qed.

Lemma parse_uint_bound w s n : (0 < w)%Z → Text.parse_uint w s = Some n → uint w n.
Proof.
  intros Hw. assert (1 < 2 ^ w)%Z by (apply Z.pow_gt_1; lia).
  unfold Text.parse_uint, uint. intros Hp.
  assert (∃ s', Text.parse_digits (2 ^ w - 1) 0 s' = Some n) as [s' Hs'].
  { repeat case_match; simplify_eq; eauto. }
  apply parse_digits_bound in Hs'; lia.
Qed.

Lemma read_digits_Forall s ds rest : Text.read_digits s = (ds, rest) → Forall is_digit ds.
Proof.
  revert ds rest. induction s as [|c s IH]; intros ds rest; simpl; [by intros [= <- <-]; constructor|].
  destruct (Text.digit c) as [d|] eqn:Hd; [|intros [= <- <-]; constructor].
  destruct (Text.read_digits s) as [ds' rest'] eqn:Hr. intros [= <- <-].
  apply Forall_cons. split; [|by eapply IH].
  unfold Text.digit in Hd. case_decide; [|done]. injection Hd as <-. unfold is_digit. lia.
Qed.

Lemma read_octet_u8 s n rest : Text.read_octet s = Some (n, rest) → u8 n.
Proof.
  unfold Text.read_octet. destruct (Text.read_digits s) as [ds r] eqn:Hr.
  case_decide; [done|]. destruct (Z.leb_spec (Text.of_digits ds) 255); [|done]. intros [= <- <-].
  apply read_digits_Forall in Hr. pose proof (of_digits_cons_ge ds 0 Hr ltac:(done)).
  unfold Text.of_digits in *. split; [done|]. change (2 ^ 8)%Z with 256%Z. lia.
Qed.

Lemma parse_addr_u32 s a : Text.parse_addr s = Some a → u32 a.
Proof.
  unfold Text.parse_addr. intros Hp.
  repeat match goal with
  | H : mbind _ _ = Some _ |- _ => apply bind_Some in H as (?&?&H)
  | H : context [match ?x with (_, _) => _ end] |- _ => destruct x
  | H : Text.read_octet _ = Some _ |- _ => apply read_octet_u8 in H
  end.
  case_match; [|done]. injection Hp as <-.
  apply (of_be_uint 4); [|done]. by repeat (apply Forall_cons; split).
Qed.

Lemma parse_prefix_bounds s a n : parse_prefix s = Some (a, n) → u32 a ∧ u8 n.
Proof.
  unfold parse_prefix. intros ([]&_&(addr&Ha&(len&Hn&[= <- <-])%bind_Some)%bind_Some)%bind_Some.
  split; [by eapply parse_addr_u32|by eapply parse_uint_bound].
Qed.

Lemma matches_entry_eq {E} p entry prefix :
  u32 prefix.(address) → entry_wf entry →
  PolicyEngine.matches_entry (E:=E) p entry prefix = Ok (bool_decide (entry_matches entry prefix)).
Proof.
  intros Hu Hwf.
  assert (∃ b, PolicyEngine.matches_entry (E:=E) p entry prefix = Ok b ∧
    (b = true ↔ entry_matches entry prefix)) as (b&->&Hb).
  { unfold PolicyEngine.matches_entry, entry_matches, entry_wf in *.
    destruct (parse_prefix _) as [[net net_len]|] eqn:Hp; [|by exists false].
    apply parse_prefix_bounds in Hp as [Hnet [Hlen _]].
    rewrite is_subnet_eq by done. cbn [mbind outcome_bind].
    case_bool_decide as Hin; simpl negb; cbv iota; (eexists; split; [done|]).
    - destruct Hin as [? Hs].
      destruct (PrefixListEntry.ge entry), (PrefixListEntry.le entry);
        (split; [intros; split_and!; [done|exact Hs|lia..]|intros (_&_&?); lia]).
    - split; [done|]. tauto. }
  f_equal. apply Bool.eq_iff_eq_true. by rewrite bool_decide_eq_true.
Qed.

Lemma find_first_Some {A} (f : A → bool) l a : find_first f l = Some a → a ∈ l ∧ f a = true.
Proof.
  induction l as [|b l IH]; simpl; [done|]. destruct (f b) eqn:Hb.
  - intros [= <-]. split; [by left|done].
  - intros [? ?]%IH. split; [by right|done].
Qed.

(** ** Text *)

Lemma parse_prefix_show q :
  u32 q.(address) → u8 q.(prefix_len) →
  parse_prefix (Prefixes.to_string q) = Some (q.(address), q.(prefix_len)).
Proof.
  intros Ha Hl. unfold parse_prefix, Prefixes.to_string.
  change ("/" +:+ show_uint (prefix_len q)) with (String "/" (show_uint (prefix_len q))).
  rewrite split_once_addr by done. cbn [mbind option_bind].
  rewrite parse_show_addr by done. cbn [mbind option_bind]. by rewrite parse_show_uint.
Qed.

(** A community is its two halves. *)
Lemma community_halves c :
  u32 c → Z.lor (wrap 32 (Z.shiftl (Community.asn c) 16)) (Community.value c) = c.
Proof.
  intros [H0 Hc]. unfold Community.asn, Community.value.
  rewrite (wrap_small 16) by (unfold uint; rewrite Z.shiftr_div_pow2 by done;
    split; [apply Z.div_pos; lia|apply Z.div_lt_upper_bound; lia]).
  rewrite wrap_small.
  2: { unfold uint. rewrite Z.shiftl_mul_pow2, Z.shiftr_div_pow2 by done.
       pose proof (Z.mul_div_le c (2 ^ 16) ltac:(done)).
       assert (0 ≤ c / 2 ^ 16)%Z by (apply Z.div_pos; lia). lia. }
  apply Z.bits_inj'. intros i Hi. unfold wrap. rewrite Z.lor_spec, Z.shiftl_spec by done.
  destruct (Z.lt_ge_cases i 16).
  - by rewrite Z.testbit_neg_r, Z.mod_pow2_bits_low by lia.
  - rewrite Z.shiftr_spec, Z.mod_pow2_bits_high, orb_false_r by lia. f_equal. lia.
Qed.

Lemma parse_community_show c : u32 c → parse_community_str (Community.to_string c) = Some c.
Proof.
  intros Hc. unfold Community.to_string.
  destruct (Z.eqb_spec c Community.NO_EXPORT) as [->|]; [done|].
  destruct (Z.eqb_spec c Community.NO_ADVERTISE) as [->|]; [done|].
  destruct (Z.eqb_spec c Community.NO_EXPORT_SUBCONFED) as [->|]; [done|].
  assert (u16 (Community.asn c)) as Hasn by (by apply wrap_uint).
  assert (u16 (Community.value c)) as Hval by (by apply wrap_uint).
  change (":" +:+ show_uint (Community.value c)) with (String ":" (show_uint (Community.value c))).
  unfold parse_community_str.
  destruct (show_uint_digits (Community.asn c)) as (ds&d&Hshow&Hds&_); [apply Hasn|].
  assert (∀ x s t, Text.digit x = None → show_uint (Community.asn c) +:+ s ≠ String x t) as Hne.
  { intros x s t Hx Heq. rewrite Hshow in Heq. apply Forall_cons in Hds as [Hd _].
    cbn [digits_string] in Heq. rewrite string_cons_app in Heq. injection Heq as <- _.
    by rewrite digit_digit_char in Hx. }
  do 3 (rewrite decide_False by (by apply Hne)).
  rewrite split_once_show by (apply Hasn || done). cbn [mbind option_bind].
  rewrite !parse_show_uint by done. cbn [mbind option_bind]. f_equal.
  by apply community_halves.
Qed.

(** C24: a named prefix list permits a route exactly when its first entry that
    matches the route is a permit (an entry that does not parse matches nothing,
    a list with no matching entry denies); an unknown policy name permits. *)
Theorem policy_apply_spec {E} p self name prefix attrs :
  u32 prefix.(address) →
  Forall (λ pl, Forall entry_wf pl.(PrefixList.entries))
    self.(PolicyEngine.policy).(PolicyConfig.prefix_lists) →
  PolicyEngine.apply (E:=E) p self name prefix attrs =
    Ok (match find_first (λ pl, bool_decide (pl.(PrefixList.name) = name))
                self.(PolicyEngine.policy).(PolicyConfig.prefix_lists) with
        | Some pl => list_permits pl.(PrefixList.entries) prefix
        | None => true
        end).
Proof.
  intros Hu Hwf. unfold PolicyEngine.apply.
  destruct (find_first _ _) as [pl|] eqn:Hfind; [|done].
  apply find_first_Some in Hfind as [Hin _]. rewrite Forall_forall in Hwf. apply Hwf in Hin.
  unfold PolicyEngine.evaluate_prefix_list, list_permits.
  induction Hin as [|entry entries He Hes IH]; simpl; [done|].
  rewrite matches_entry_eq by done. cbn [mbind outcome_bind].
  by destruct (bool_decide (entry_matches entry prefix)).
Qed.

(** A prefix and a community read back from their text: what a configuration
    or a command quotes from the daemon's output denotes the same value. *)
Theorem policy_text_roundtrip q c :
  u32 q.(address) → u8 q.(prefix_len) → u32 c →
  parse_prefix (Prefixes.to_string q) = Some (q.(address), q.(prefix_len)) ∧
  parse_community_str (Community.to_string c) = Some c.
Proof. intros Ha Hl Hc. split; [by apply parse_prefix_show|by apply parse_community_show]. Qed.

(** A route matches a named community list when one of the list's strings
    denotes a community it carries; an unknown list matches nothing. *)
Theorem community_list_spec self name attrs :
  PolicyEngine.matches_community_list self name attrs = true ↔
  ∃ cl s c, find_first (λ cl, bool_decide (cl.(CommunityList.name) = name))
      self.(PolicyEngine.policy).(PolicyConfig.community_lists) = Some cl ∧
    s ∈ cl.(CommunityList.communities) ∧ parse_community_str s = Some c ∧
    c ∈ attrs.(communities).
Proof.
  unfold PolicyEngine.matches_community_list. destruct (find_first _ _) as [cl|]; [|naive_solver].
  rewrite existsb_exists. unfold PolicyEngine.has_community. split.
  - intros (s&Hin&Hs). destruct (parse_community_str s) as [c|] eqn:Hc; [|done].
    apply bool_decide_eq_true in Hs. exists cl, s, c. split_and!; [done| |done..].
    by apply list_elem_of_In.
  - intros (cl'&s&c&[= <-]&Hin&Hc&Hattr). exists s. split; [by apply list_elem_of_In|].
    rewrite Hc. by apply bool_decide_eq_true_2.
Qed.

(* ------------------------------------------------------------------ *)
(** ** Witnesses *)

Definition sample_policy : PolicyEngine.t := PolicyEngine.new
  {| PolicyConfig.prefix_lists := [{| PrefixList.name := "allowed";
       PrefixList.entries := [
         PrefixListEntry.mk FilterAction.Deny "10.9.0.0/16" (Some 16%Z) None;
         PrefixListEntry.mk FilterAction.Permit "10.0.0.0/8" (Some 8%Z) (Some 24%Z)] |}];
     PolicyConfig.community_lists := [CommunityList.mk "internal" ["no-export"; "65001:100"]] |}.

Lemma sample_policy_wf :
  Forall (λ pl, Forall entry_wf pl.(PrefixList.entries))
    sample_policy.(PolicyEngine.policy).(PolicyConfig.prefix_lists).
Proof.
  apply Forall_singleton. simpl.
  apply Forall_cons; split; [|apply Forall_singleton]; vm_compute; discriminate.
Qed.

Lemma policy_apply_spec_witness :
  PolicyEngine.apply (E:=Empty_set) Debug sample_policy "allowed" (Prefixes.new 167837696 16) Attrs.default
    = Ok true ∧
  PolicyEngine.apply (E:=Empty_set) Debug sample_policy "allowed" (Prefixes.new 168361984 16) Attrs.default
    = Ok false.
Proof.
  rewrite !policy_apply_spec by (apply sample_policy_wf || by_decide).
  split; vm_compute; reflexivity.
Defined.

Lemma policy_text_roundtrip_witness :
  parse_prefix (Prefixes.to_string (Prefixes.new 167772160 8)) = Some (167772160, 8)%Z ∧
  parse_community_str (Community.to_string 4259905636) = Some 4259905636%Z.
Proof. apply (policy_text_roundtrip (Prefixes.new 167772160 8)); by_decide. Defined.

Lemma community_list_spec_witness :
  ∃ cl s c, find_first (λ cl, bool_decide (cl.(CommunityList.name) = "internal"))
      sample_policy.(PolicyEngine.policy).(PolicyConfig.community_lists) = Some cl ∧
    s ∈ cl.(CommunityList.communities) ∧ parse_community_str s = Some c ∧ c ∈ [4259905636%Z].
Proof.
  apply (community_list_spec sample_policy "internal"
    (Attrs.set_communities Attrs.default [4259905636%Z])). vm_compute. reflexivity.
Defined.
