(* ===== verification/RouteReflector.v ===== *)
(** * Route reflection ([src/rr.rs])

    RFC 4456: to which peers a route is reflected, what reflection adds to its
    attributes, and the loop checks. *)

From S2P Require Import Prelude.
From S2P Require Import Attr.
From S2P Require Import UpdateMessage.
From S2P Require Import Env.

Module RrRole.
Inductive t := None | Client | NonClient.

#[global] Instance t_eq_dec : EqDecision t.
Proof. solve_decision. Defined.
End RrRole.

Module RrConfig.
Record t := mk { cluster_id : Ipv4Addr; enabled : bool }.

Definition new (cluster_id : Ipv4Addr) : t := {| cluster_id := cluster_id; enabled := true |}.
End RrConfig.

Module RouteReflector.
Record t := mk { config : RrConfig.t; router_id : Ipv4Addr }.

Definition new (config : RrConfig.t) (router_id : Ipv4Addr) : t := mk config router_id.

Definition should_reflect (self : t) (source_role target_role : RrRole.t)
    (source_addr target_addr : SocketAddr) : bool :=
  if decide (source_addr = target_addr) then false
  else
    match source_role, target_role with
    | RrRole.None, _ => true
    | RrRole.Client, RrRole.Client => true
    | RrRole.Client, RrRole.NonClient => true
    | RrRole.NonClient, RrRole.Client => true
    | RrRole.NonClient, RrRole.NonClient => false
    | _, _ => false
    end.

Definition prepare_reflected_attrs (self : t) (attrs : PathAttributes) (orig : Ipv4Addr) :
    PathAttributes :=
  let reflected :=
    match attrs.(originator_id) with
    | None => Attrs.set_originator_id attrs (Some orig)
    | Some _ => attrs
    end in
  Attrs.set_cluster_list reflected (self.(config).(RrConfig.cluster_id) :: reflected.(cluster_list)).

Definition has_cluster_loop (self : t) (attrs : PathAttributes) : bool :=
  bool_decide (self.(config).(RrConfig.cluster_id) ∈ attrs.(cluster_list)).

Definition has_originator_loop (self : t) (attrs : PathAttributes) : bool :=
  bool_decide (attrs.(originator_id) = Some self.(router_id)).

Definition has_loop (self : t) (attrs : PathAttributes) : bool :=
  has_cluster_loop self attrs || has_originator_loop self attrs.
End RouteReflector.

(* ------------------------------------------------------------------ *)
(** ** A route along a chain of reflectors *)

(** Each reflector of the chain, with the BGP identifier it takes the route to
    come from, drops the route when it finds a loop and else passes it on. *)
Fixpoint reflect_along (hops : list (RouteReflector.t * Ipv4Addr)) (attrs : PathAttributes) :
    option PathAttributes :=
  match hops with
  | [] => Some attrs
  | (rr, orig) :: hops =>
      if RouteReflector.has_loop rr attrs then None
      else reflect_along hops (RouteReflector.prepare_reflected_attrs rr attrs orig)
  end.

Definition hop_cluster (hop : RouteReflector.t * Ipv4Addr) : Ipv4Addr :=
  hop.1.(RouteReflector.config).(RrConfig.cluster_id).

(** Everything but the two reflection attributes. *)
Definition unreflected (attrs : PathAttributes) : PathAttributes :=
  Attrs.set_cluster_list (Attrs.set_originator_id attrs None) [].

Lemma prepare_attrs rr attrs orig :
  let attrs' := RouteReflector.prepare_reflected_attrs rr attrs orig in
  attrs'.(cluster_list) = rr.(RouteReflector.config).(RrConfig.cluster_id) :: attrs.(cluster_list) ∧
  attrs'.(originator_id) = Some (default orig attrs.(originator_id)) ∧
  unreflected attrs' = unreflected attrs.
Proof.
  unfold RouteReflector.prepare_reflected_attrs, unreflected.
  destruct attrs as [o ap nh med lp aa ag co orig' cl un], orig'; by split_and!.
Qed.

Lemma has_loop_false rr attrs :
  RouteReflector.has_loop rr attrs = false ↔
  (rr.(RouteReflector.config).(RrConfig.cluster_id) ∉ attrs.(cluster_list)) ∧
  attrs.(originator_id) ≠ Some rr.(RouteReflector.router_id).
Proof.
  unfold RouteReflector.has_loop, RouteReflector.has_cluster_loop, RouteReflector.has_originator_loop.
  by rewrite orb_false_iff, !bool_decide_eq_false.
Qed.

(** What a chain adds to a route, and what it takes for the route to get through. *)
Lemma reflect_along_spec hops attrs attrs' :
  reflect_along hops attrs = Some attrs' →
  attrs'.(cluster_list) = rev (map hop_cluster hops) ++ attrs.(cluster_list) ∧
  unreflected attrs' = unreflected attrs ∧
  attrs'.(originator_id) = match attrs.(originator_id), hops with
    | None, (_, orig) :: _ => Some orig | o, _ => o end ∧
  NoDup (map hop_cluster hops) ∧ (∀ c, c ∈ map hop_cluster hops → c ∉ attrs.(cluster_list)).
Proof.
  revert attrs. induction hops as [|[rr orig] hops IH]; intros attrs; simpl.
  - intros [= ->]. split_and!; [done..|by destruct (originator_id attrs')|apply NoDup_nil_2|].
    intros c Hc. by apply elem_of_nil in Hc.
  - destruct (RouteReflector.has_loop rr attrs) eqn:Hloop; [done|].
    apply has_loop_false in Hloop as [Hc _]. intros (Hcl&Hun&Ho&Hnd&Hout)%IH.
    destruct (prepare_attrs rr attrs orig) as (Hpc&Hpo&Hpu). rewrite Hpc in *. split_and!.
    + rewrite Hcl, <- app_assoc. done.
    + by rewrite Hun.
    + rewrite Ho, Hpo. by destruct (originator_id attrs).
    + apply NoDup_cons. split; [|done]. intros Hin. apply (Hout _ Hin). by left.
    + intros c [->|Hin]%elem_of_cons; [done|]. intros Hin'. apply (Hout c Hin). by right.
Qed.

(** A route is reflected to another peer than its source when it comes from an
    eBGP peer, or from a client to an iBGP peer, or from a non-client to a client;
    never back to its source, never between non-clients, and never from an iBGP
    peer to an eBGP one. *)
Theorem should_reflect_spec rr source_role target_role source target :
  RouteReflector.should_reflect rr source_role target_role source target = true ↔
  source ≠ target ∧
  (source_role = RrRole.None ∨
   (source_role = RrRole.Client ∧ target_role ≠ RrRole.None) ∨
   (source_role = RrRole.NonClient ∧ target_role = RrRole.Client)).
Proof.
  unfold RouteReflector.should_reflect. case_decide; [by naive_solver|].
  destruct source_role, target_role; naive_solver.
Qed.

(** C29: reflection is loop-free: a route that gets through a chain of reflectors
    has visited each cluster at most once, and none of those it came with, so no
    chain is longer than the number of clusters; CLUSTER_LIST is the path in
    reverse, ORIGINATOR_ID is set by the first reflector and then kept, and no other
    attribute changes. *)
Theorem reflection_loop_free hops attrs attrs' (clusters : gset Ipv4Addr) :
  reflect_along hops attrs = Some attrs' →
  (∀ hop, hop ∈ hops → hop_cluster hop ∈ clusters) →
  length hops ≤ size clusters ∧
  attrs'.(cluster_list) = rev (map hop_cluster hops) ++ attrs.(cluster_list) ∧
  NoDup (map hop_cluster hops) ∧
  (∀ c, c ∈ map hop_cluster hops → c ∉ attrs.(cluster_list)) ∧
  attrs'.(originator_id) = match attrs.(originator_id), hops with
    | None, (_, orig) :: _ => Some orig | o, _ => o end ∧
  unreflected attrs' = unreflected attrs.
Proof.
  intros (Hcl&Hun&Ho&Hnd&Hout)%reflect_along_spec Hin. split_and!; try done.
  rewrite <- (length_map hop_cluster), <- (size_list_to_set (C:=gset Ipv4Addr)) by done.
  apply subseteq_size. intros c (hop&->&Hhop)%elem_of_list_to_set%list_elem_of_fmap. by apply Hin.
Qed.

(** A reflector rejects a route that it, another reflector of its cluster, or
    the router itself, has put into circulation. *)
Theorem reflected_route_rejected rr rr' attrs orig :
  (rr'.(RouteReflector.config).(RrConfig.cluster_id) = rr.(RouteReflector.config).(RrConfig.cluster_id) ∨
   default orig attrs.(originator_id) = rr'.(RouteReflector.router_id)) →
  RouteReflector.has_loop rr' (RouteReflector.prepare_reflected_attrs rr attrs orig) = true.
Proof.
  destruct (prepare_attrs rr attrs orig) as (Hcl&Ho&_). intros Hor.
  apply not_false_is_true. rewrite has_loop_false, Hcl, Ho. intros [Hc Hr].
  destruct Hor as [Heq|Heq]; [|by rewrite Heq in Hr]. apply Hc. rewrite Heq. by left.
Qed.

(* ------------------------------------------------------------------ *)
(** ** Witnesses *)

Definition sample_rr (n : Z) : RouteReflector.t := RouteReflector.new (RrConfig.new n) n.

Lemma should_reflect_spec_witness :
  RouteReflector.should_reflect (sample_rr 1) RrRole.Client RrRole.NonClient
    {| ip := V4 1; port := 179; flowinfo := 0; scope_id := 0 |}
    {| ip := V4 2; port := 179; flowinfo := 0; scope_id := 0 |} = true.
Proof. apply should_reflect_spec. split; [done|]. right. by left. Defined.

Lemma reflection_loop_free_witness :
  ∃ attrs', reflect_along [(sample_rr 1, 9%Z); (sample_rr 2, 1%Z)] Attrs.default = Some attrs' ∧
    2 ≤ size ({[1; 2]}%Z : gset Z) ∧ attrs'.(originator_id) = Some 9%Z.
Proof.
  eexists. split; [reflexivity|].
  destruct (reflection_loop_free [(sample_rr 1, 9%Z); (sample_rr 2, 1%Z)] Attrs.default _ {[1; 2]}%Z eq_refl)
    as (Hlen&_&_&_&Ho&_); [|by split].
  intros hop [->|[->|Hin]%elem_of_cons]%elem_of_cons; [by_decide..|by apply elem_of_nil in Hin].
Defined.

Lemma reflected_route_rejected_witness :
  RouteReflector.has_loop (sample_rr 9)
    (RouteReflector.prepare_reflected_attrs (sample_rr 1) Attrs.default 9) = true.
Proof. apply reflected_route_rejected. by right. Defined.
