(* ===== verification/Mp.v ===== *)
(** * Multi-protocol reachability ([src/mp.rs])

    The values of the MP_REACH_NLRI and MP_UNREACH_NLRI attributes (RFC 4760), for
    IPv4 and IPv6. *)

From S2P Require Import Prelude.
From S2P Require Import Bytes.
From S2P Require Import Attr.
From S2P Require Import UpdateMessage.
From S2P Require Import Env.
From S2P Require Import Show.

Module MpError.
Inductive t := UnknownAfi (v : Z) | UnknownSafi (v : Z) | TooShort | InvalidAddress.
End MpError.

Module Afi.
Inductive t := Ipv4 | Ipv6.

#[global] Instance t_eq_dec : EqDecision t.
Proof. solve_decision. Defined.

(** [afi as u16] *)
Definition to_u16 (a : t) : Z := match a with Ipv4 => 1 | Ipv6 => 2 end.
End Afi.

Module Safi.
Inductive t := Unicast | Multicast | LabeledUnicast.

(** [safi as u8] *)
Definition to_u8 (s : t) : Z := match s with Unicast => 1 | Multicast => 2 | LabeledUnicast => 4 end.
End Safi.

Definition afi_try_from (v : Z) : outcome MpError.t Afi.t :=
  match v with
  | 1%Z => Ok Afi.Ipv4
  | 2%Z => Ok Afi.Ipv6
  | _ => Err (MpError.UnknownAfi v)
  end.

Definition safi_try_from (v : Z) : outcome MpError.t Safi.t :=
  match v with
  | 1%Z => Ok Safi.Unicast
  | 2%Z => Ok Safi.Multicast
  | 4%Z => Ok Safi.LabeledUnicast
  | _ => Err (MpError.UnknownSafi v)
  end.

(** The octets of an address, and of an address of a family. *)
Definition ip_octets (a : IpAddr) : bytes :=
  match a with V4 a => be_bytes 4 a | V6 a => be_bytes 16 a end.

Definition octet_count (afi : Afi.t) : nat :=
  match afi with Afi.Ipv4 => 4 | Afi.Ipv6 => 16 end.

Definition ip_from (afi : Afi.t) (octets : bytes) : IpAddr :=
  match afi with Afi.Ipv4 => V4 (of_be octets) | Afi.Ipv6 => V6 (of_be octets) end.

Module MpPrefix.
Record t := mk { afi : Afi.t; prefix_len : Z; address : IpAddr }.

Definition ipv4 (addr : Z) (len : Z) : t := {| afi := Afi.Ipv4; prefix_len := len; address := V4 addr |}.
Definition ipv6 (addr : Z) (len : Z) : t := {| afi := Afi.Ipv6; prefix_len := len; address := V6 addr |}.

Definition encoded_len (self : t) : nat := div_ceil8 self.(prefix_len).

Definition to_string (self : t) : string :=
  Show.show_ip self.(address) +:+ "/" +:+ show_uint self.(prefix_len).

Section api.
Context {api : BytesApi}.

Definition parse (buf : bytes) (afi : Afi.t) : outcome MpError.t (t * bytes) :=
  if decide (length buf < 1) then Err MpError.TooShort
  else
    '(prefix_len, buf) ← get_u8 buf;
    let byte_len := div_ceil8 prefix_len in
    if decide (length buf < byte_len) then Err MpError.TooShort
    else
      let w := octet_count afi in
      '(octets, buf) ← Prefixes.read_octets (min byte_len w) buf;
      let b := octets ++ replicate (w - length octets) 0%Z in
      Ok ({| afi := afi; prefix_len := prefix_len; address := ip_from afi b |}, buf).

Definition serialize {E} (self : t) (buf : bytes) : outcome E bytes :=
  let buf := put_u8 buf self.(prefix_len) in
  octets ← slice (ip_octets self.(address)) 0 (encoded_len self);
  Ok (put_slice buf octets).

(** [while buf.remaining() > 0 { prefixes.push(MpPrefix::parse(&mut buf, afi)?) }] *)
Definition parse_all (afi : Afi.t) (buf : bytes) : outcome MpError.t (list t) :=
  parse_many (λ buf, parse buf afi) buf.

(** [for prefix in prefixes { prefix.serialize(&mut buf) }] *)
Fixpoint serialize_all {E} (ps : list t) (buf : bytes) : outcome E bytes :=
  match ps with
  | [] => Ok buf
  | p :: ps => buf ← serialize p buf; serialize_all ps buf
  end.
End api.
End MpPrefix.

Module MpReachNlri.
Record t := mk {
  afi : Afi.t;
  safi : Safi.t;
  next_hops : list IpAddr;
  nlri : list MpPrefix.t
}.

Definition new (afi : Afi.t) (safi : Safi.t) (next_hop : IpAddr) : t :=
  {| afi := afi; safi := safi; next_hops := [next_hop]; nlri := [] |}.

Section api.
Context {api : BytesApi}.

(** The loops over the next hops: one address per round while one is left. *)
Definition next_hop_step (afi : Afi.t) (s : list IpAddr * bytes) :
    outcome MpError.t ((list IpAddr * bytes) + list IpAddr) :=
  let '(next_hops, nh_buf) := s in
  if decide (octet_count afi ≤ length nh_buf) then
    match afi with
    | Afi.Ipv4 =>
        '(a, nh_buf) ← get_u32 nh_buf;
        Ok (inl (next_hops ++ [V4 a], nh_buf))
    | Afi.Ipv6 =>
        '(b, nh_buf) ← copy_to_slice 16 nh_buf;
        Ok (inl (next_hops ++ [V6 (of_be b)], nh_buf))
    end
  else Ok (inr next_hops).

Definition parse (buf : bytes) : outcome MpError.t t :=
  if decide (length buf < 4) then Err MpError.TooShort
  else
    '(a, buf) ← get_u16 buf;
    afi ← afi_try_from a;
    '(s, buf) ← get_u8 buf;
    safi ← safi_try_from s;
    '(nh_len, buf) ← get_u8 buf;
    let nh_len := Z.to_nat nh_len in
    if decide (length buf < nh_len) then Err MpError.TooShort
    else
      '(nh_bytes, buf) ← copy_to_bytes nh_len buf;
      next_hops ← loop (S (length nh_bytes)) (next_hop_step afi) ([], nh_bytes);
      '(_snpa, buf) ← get_u8 buf;
      nlri ← MpPrefix.parse_all afi buf;
      Ok {| afi := afi; safi := safi; next_hops := next_hops; nlri := nlri |}.

Definition serialize {E} (self : t) : outcome E bytes :=
  let buf := put_u16 [] (Afi.to_u16 self.(afi)) in
  let buf := put_u8 buf (Safi.to_u8 self.(safi)) in
  let nh_buf := foldl (λ nh_buf nh, put_slice nh_buf (ip_octets nh)) [] self.(next_hops) in
  let buf := put_u8 buf (wrap 8 (Z.of_nat (length nh_buf))) in
  let buf := put buf nh_buf in
  let buf := put_u8 buf 0 in
  MpPrefix.serialize_all self.(nlri) buf.
End api.
End MpReachNlri.

Module MpUnreachNlri.
Record t := mk { afi : Afi.t; safi : Safi.t; withdrawn : list MpPrefix.t }.

Definition new (afi : Afi.t) (safi : Safi.t) : t := {| afi := afi; safi := safi; withdrawn := [] |}.

Section api.
Context {api : BytesApi}.

Definition parse (buf : bytes) : outcome MpError.t t :=
  if decide (length buf < 3) then Err MpError.TooShort
  else
    '(a, buf) ← get_u16 buf;
    afi ← afi_try_from a;
    '(s, buf) ← get_u8 buf;
    safi ← safi_try_from s;
    withdrawn ← MpPrefix.parse_all afi buf;
    Ok {| afi := afi; safi := safi; withdrawn := withdrawn |}.

Definition serialize {E} (self : t) : outcome E bytes :=
  let buf := put_u16 [] (Afi.to_u16 self.(afi)) in
  let buf := put_u8 buf (Safi.to_u8 self.(safi)) in
  MpPrefix.serialize_all self.(withdrawn) buf.
End api.
End MpUnreachNlri.

(* ------------------------------------------------------------------ *)
(** ** Well-formed values *)

(** An address of the family. *)
Definition ip_wf (afi : Afi.t) (a : IpAddr) : Prop :=
  match afi, a with
  | Afi.Ipv4, V4 a => u32 a
  | Afi.Ipv6, V6 a => uint 128 a
  | _, _ => False
  end.

(** A prefix as the wire carries it: of the family, no longer than its addresses,
    and no bits in the octets that are not sent. *)
Definition mp_prefix_wf (afi : Afi.t) (q : MpPrefix.t) : Prop :=
  q.(MpPrefix.afi) = afi ∧ ip_wf afi q.(MpPrefix.address) ∧
  (0 ≤ q.(MpPrefix.prefix_len) ≤ 8 * Z.of_nat (octet_count afi))%Z ∧
  drop (MpPrefix.encoded_len q) (ip_octets q.(MpPrefix.address)) =
    replicate (octet_count afi - MpPrefix.encoded_len q) 0%Z.

Definition mp_prefix_bytes (q : MpPrefix.t) : bytes :=
  q.(MpPrefix.prefix_len) :: take (MpPrefix.encoded_len q) (ip_octets q.(MpPrefix.address)).

Lemma length_ip_octets afi a : ip_wf afi a → length (ip_octets a) = octet_count afi.
Proof. destruct afi, a; try done; intros _; apply length_be_bytes. Qed.

Lemma ip_from_octets afi a : ip_wf afi a → ip_from afi (ip_octets a) = a.
Proof.
  destruct afi, a; try done; simpl; intros Ha; f_equal; [by apply (of_be_be_bytes 4)|by apply (of_be_be_bytes 16)].
Qed.

Lemma afi_roundtrip afi : afi_try_from (Afi.to_u16 afi) = Ok afi.
Proof. by destruct afi. Qed.

Lemma safi_roundtrip safi : safi_try_from (Safi.to_u8 safi) = Ok safi.
Proof. by destruct safi. Qed.

Lemma afi_try_from_returns v : returns (afi_try_from v).
Proof. unfold afi_try_from. by repeat case_match. Qed.

Lemma safi_try_from_returns v : returns (safi_try_from v).
Proof. unfold safi_try_from. by repeat case_match. Qed.

Section mp_lemmas.
Context {api : BytesApi} {laws : BytesLaws api}.

Lemma mp_prefix_parse_cons l buf afi :
  MpPrefix.parse (l :: buf) afi =
    if decide (length buf < div_ceil8 l) then Err MpError.TooShort
    else
      let w := octet_count afi in let n := min (div_ceil8 l) w in
      Ok (MpPrefix.mk afi l (ip_from afi (take n buf ++ replicate (w - n) 0%Z)), drop n buf).
Proof.
  unfold MpPrefix.parse. rewrite decide_False by (simpl; lia). read_step. cbv zeta.
  case_decide; [done|]. rewrite read_octets_spec by lia. cbn [mbind outcome_bind].
  by rewrite length_take_le by lia.
Qed.

Lemma mp_prefix_parse_returns buf afi : returns (MpPrefix.parse buf afi).
Proof. destruct buf; [done|]. rewrite mp_prefix_parse_cons. by case_decide. Qed.

Lemma mp_prefix_parse_shorter afi buf p rest :
  MpPrefix.parse buf afi = Ok (p, rest) → length rest < length buf.
Proof.
  destruct buf; [done|]. rewrite mp_prefix_parse_cons. case_decide; [done|]. intros [= <- <-].
  rewrite length_drop. simpl. lia.
Qed.

Lemma mp_parse_all_returns afi buf : returns (MpPrefix.parse_all afi buf).
Proof.
  apply parse_many_returns; [intros; apply mp_prefix_parse_returns|apply mp_prefix_parse_shorter].
Qed.

Lemma mp_encoded_len_le afi q : mp_prefix_wf afi q → MpPrefix.encoded_len q ≤ octet_count afi.
Proof.
  intros (_&_&[_ Hl]&_). unfold MpPrefix.encoded_len, div_ceil8.
  assert ((MpPrefix.prefix_len q + 7) / 8 < Z.of_nat (octet_count afi) + 1)%Z; [|lia].
  apply Z.div_lt_upper_bound; lia.
Qed.

Lemma mp_prefix_parse_bytes afi q rest :
  mp_prefix_wf afi q → MpPrefix.parse (mp_prefix_bytes q ++ rest) afi = Ok (q, rest).
Proof.
  intros Hwf. pose proof (mp_encoded_len_le afi q Hwf) as Hle.
  destruct Hwf as (Hafi&Hip&_&Hdrop). pose proof (length_ip_octets afi _ Hip) as Hlen.
  unfold mp_prefix_bytes. cbn [app]. rewrite mp_prefix_parse_cons. fold (MpPrefix.encoded_len q).
  assert (length (take (MpPrefix.encoded_len q) (ip_octets (MpPrefix.address q))) = MpPrefix.encoded_len q)
    as Hl by (rewrite length_take; lia).
  rewrite decide_False by (rewrite length_app; lia). cbv zeta. rewrite Nat.min_l by done.
  rewrite take_app_length', drop_app_length' by done.
  rewrite <- Hdrop, take_drop, ip_from_octets by done. destruct q. simpl in *. by subst.
Qed.

Lemma mp_serialize_all_eq {E} afi ps buf :
  Forall (mp_prefix_wf afi) ps →
  MpPrefix.serialize_all (E:=E) ps buf = Ok (buf ++ concat (map mp_prefix_bytes ps)).
Proof.
  intros Hps. revert buf. induction Hps as [|p ps Hp _ IH]; intros buf;
    cbn [MpPrefix.serialize_all map concat]; [by rewrite app_nil_r|].
  assert (MpPrefix.serialize (E:=E) p buf = Ok (buf ++ mp_prefix_bytes p)) as ->.
  { pose proof (mp_encoded_len_le afi p Hp) as Hle.
    destruct Hp as (_&Hip&_). unfold MpPrefix.serialize, mp_prefix_bytes.
    rewrite slice_Ok by (rewrite ?(length_ip_octets afi) by done; lia). cbn [mbind outcome_bind].
    rewrite drop_0, Nat.sub_0_r. autorewrite with bytes. by rewrite <- app_assoc. }
  cbn [mbind outcome_bind]. by rewrite IH, <- app_assoc.
Qed.

Lemma mp_parse_all_bytes afi ps :
  Forall (mp_prefix_wf afi) ps → MpPrefix.parse_all afi (concat (map mp_prefix_bytes ps)) = Ok ps.
Proof.
  intros Hps. apply (parse_many_concat _ mp_prefix_bytes (mp_prefix_wf afi)); [|intros; simpl; lia|done].
  intros p rest Hp. by apply mp_prefix_parse_bytes.
Qed.

(** The next hops, each of the size of the family's addresses. *)
Lemma next_hops_bytes afi nhs acc n :
  Forall (ip_wf afi) nhs → length (concat (map ip_octets nhs)) < n →
  loop n (MpReachNlri.next_hop_step afi) (acc, concat (map ip_octets nhs)) = Ok (acc ++ nhs).
Proof.
  intros Hnhs. revert acc n.
  induction Hnhs as [|a nhs Ha Hnhs IH]; intros acc n Hn; (destruct n as [|n]; [simpl in *; lia|]);
    rewrite loop_unfold; cbn [MpReachNlri.next_hop_step].
  - rewrite decide_False by (simpl; destruct afi; simpl; lia). by rewrite app_nil_r.
  - cbn [map concat] in *. pose proof (length_ip_octets afi a Ha) as Hlen.
    rewrite length_app in *. rewrite decide_True by lia.
    assert (1 ≤ octet_count afi) by (destruct afi; simpl; lia).
    destruct afi, a as [x|x]; try done; cbn [ip_octets] in *.
    + rewrite get_u32_app by done. cbn [mbind outcome_bind].
      rewrite IH by (simpl in *; lia). by rewrite <- app_assoc.
    + rewrite copy_to_slice_app by done. cbn [mbind outcome_bind].
      rewrite (of_be_be_bytes 16) by done. rewrite IH by (simpl in *; lia). by rewrite <- app_assoc.
Qed.

Lemma put_next_hops nhs buf :
  foldl (λ nh_buf nh, put_slice nh_buf (ip_octets nh)) buf nhs = buf ++ concat (map ip_octets nhs).
Proof.
  revert buf. induction nhs as [|a nhs IH]; intros buf; simpl; [by rewrite app_nil_r|].
  rewrite IH. autorewrite with bytes. by rewrite <- app_assoc.
Qed.

Lemma next_hops_returns afi nh :
  returns (loop (S (length nh)) (MpReachNlri.next_hop_step afi) ([], nh)).
Proof.
  apply (loop_returns (λ _, True) (λ s, length s.2)); [| |done|simpl; lia].
  - intros [acc b] _. unfold MpReachNlri.next_hop_step. case_decide; [|done].
    destruct afi; simpl in *.
    + rewrite get_u32_spec, take_or_panic_long by done. done.
    + rewrite copy_to_slice_long by done. done.
  - intros [acc b] [acc' b'] _ Hs. split; [done|]. unfold MpReachNlri.next_hop_step in Hs.
    case_decide; [|done]. destruct afi; simpl in *.
    + apply bind_Ok_inv in Hs as ([v r]&(?&_&->)%get_u32_Ok&[= <- <-]). rewrite length_drop. lia.
    + rewrite copy_to_slice_long in Hs by done. injection Hs as <- <-. rewrite length_drop. lia.
Qed.

(** The loop over the next hops reports no error. *)
Lemma next_hops_no_error afi nh e :
  loop (S (length nh)) (MpReachNlri.next_hop_step afi) ([], nh) ≠ Err e.
Proof.
  generalize (S (length nh)) as n. intros n. generalize (@nil IpAddr) as acc. revert nh.
  induction n as [|n IH]; intros nh acc; [done|]. rewrite loop_unfold.
  cbn [MpReachNlri.next_hop_step]. case_decide as Hn; [|done]. destruct afi; simpl in Hn.
  - rewrite get_u32_spec, take_or_panic_long by done. apply IH.
  - rewrite copy_to_slice_long by done. apply IH.
Qed.
End mp_lemmas.

(* ------------------------------------------------------------------ *)
(** ** Properties *)

Definition mp_reach_wf (r : MpReachNlri.t) : Prop :=
  Forall (ip_wf r.(MpReachNlri.afi)) r.(MpReachNlri.next_hops) ∧
  length r.(MpReachNlri.next_hops) * octet_count r.(MpReachNlri.afi) ≤ 255 ∧
  Forall (mp_prefix_wf r.(MpReachNlri.afi)) r.(MpReachNlri.nlri).

Lemma length_next_hops afi nhs :
  Forall (ip_wf afi) nhs → length (concat (map ip_octets nhs)) = length nhs * octet_count afi.
Proof.
  induction 1 as [|a nhs Ha _ IH]; simpl; [done|].
  rewrite length_app, IH. by rewrite (length_ip_octets afi) by done.
Qed.

(** C30: an MP_REACH_NLRI value whose next hops and prefixes belong to its address
    family serialises without panicking and parses back to itself, for IPv4 and
    IPv6, provided the next hops take at most 255 octets, no prefix is longer than
    the family's addresses, and the octets of a prefix that its length leaves out are
    zero (they are not sent); so does an MP_UNREACH_NLRI value with such prefixes. *)
Theorem mp_roundtrip {api : BytesApi} {laws : BytesLaws api} reach unreach :
  mp_reach_wf reach →
  Forall (mp_prefix_wf unreach.(MpUnreachNlri.afi)) unreach.(MpUnreachNlri.withdrawn) →
  (∃ wire, MpReachNlri.serialize (E:=Empty_set) reach = Ok wire ∧ MpReachNlri.parse wire = Ok reach) ∧
  ∃ wire, MpUnreachNlri.serialize (E:=Empty_set) unreach = Ok wire ∧
          MpUnreachNlri.parse wire = Ok unreach.
Proof.
  intros (Hnh&Hlen&Hps) Hun. split.
  - unfold MpReachNlri.serialize. rewrite (mp_serialize_all_eq (MpReachNlri.afi reach)) by done.
    eexists. split; [done|].
    rewrite put_next_hops, app_nil_l.
    pose proof (length_next_hops _ _ Hnh) as Hl. autorewrite with bytes.
    rewrite wrap_small by (split; [lia|change (2 ^ 8)%Z with 256%Z; lia]).
    cbn [app]. rewrite <- !app_assoc. unfold MpReachNlri.parse.
    rewrite decide_False by (rewrite !length_app, length_be_bytes; simpl; lia).
    rewrite get_u16_app by by destruct (MpReachNlri.afi reach). cbn [mbind outcome_bind].
    rewrite afi_roundtrip. cbn [mbind outcome_bind app]. read_step.
    rewrite safi_roundtrip. cbn [mbind outcome_bind]. read_step. rewrite Nat2Z.id. cbv zeta.
    rewrite decide_False by (rewrite length_app; lia). rewrite copy_to_bytes_app by done.
    cbn [mbind outcome_bind]. rewrite next_hops_bytes by (done || lia).
    cbn [mbind outcome_bind app]. read_step. rewrite mp_parse_all_bytes by done.
    by destruct reach.
  - unfold MpUnreachNlri.serialize. rewrite (mp_serialize_all_eq (MpUnreachNlri.afi unreach)) by done.
    eexists. split; [done|]. autorewrite with bytes. cbn [app]. rewrite <- !app_assoc.
    unfold MpUnreachNlri.parse.
    rewrite decide_False by (rewrite !length_app, length_be_bytes; simpl; lia).
    rewrite get_u16_app by by destruct (MpUnreachNlri.afi unreach). cbn [mbind outcome_bind].
    rewrite afi_roundtrip. cbn [mbind outcome_bind app]. read_step.
    rewrite safi_roundtrip. cbn [mbind outcome_bind]. rewrite mp_parse_all_bytes by done.
    by destruct unreach.
Qed.

Lemma mp_unreach_parse_returns {api : BytesApi} {laws : BytesLaws api} buf :
  returns (MpUnreachNlri.parse buf).
Proof.
  unfold MpUnreachNlri.parse. case_decide; [done|].
  destruct buf as [|a0 [|a1 [|s buf]]]; simpl in *; try lia.
  rewrite get_u16_cons. cbn [mbind outcome_bind].
  apply returns_bind; [apply afi_try_from_returns|intros afi _]. read_step.
  apply returns_bind; [apply safi_try_from_returns|intros safi _].
  apply returns_bind; [apply mp_parse_all_returns|done].
Qed.

(** C20: the parser of MP_REACH_NLRI panics on exactly the values with an address
    family and a subsequent family it knows that end with their next hops, where the
    SNPA count is read unchecked; on every other value it returns a result or an
    error, and the parser of MP_UNREACH_NLRI always does. *)
Theorem mp_parse_panics {api : BytesApi} {laws : BytesLaws api} buf :
  (MpReachNlri.parse buf = Panic ↔
     ∃ a0 a1 s n nh afi safi, buf = a0 :: a1 :: s :: n :: nh ∧
       afi_try_from (a0 * 256 + a1) = Ok afi ∧ safi_try_from s = Ok safi ∧ length nh = Z.to_nat n) ∧
  MpReachNlri.parse buf ≠ Diverge ∧ returns (MpUnreachNlri.parse buf).
Proof.
  pose proof (mp_unreach_parse_returns buf) as Hun.
  assert (∀ o : outcome MpError.t MpReachNlri.t, returns o → o ≠ Panic ∧ o ≠ Diverge) as Hret.
  { intros o. apply returns_not_panic. }
  unfold MpReachNlri.parse. case_decide as Hlen.
  { split; [|done]. split; [done|]. intros (?&?&?&?&?&?&?&->&_). simpl in Hlen. lia. }
  destruct buf as [|a0 [|a1 [|s [|n buf]]]]; simpl in Hlen; try lia. clear Hlen.
  rewrite get_u16_cons. cbn [mbind outcome_bind].
  assert (∀ o : outcome MpError.t MpReachNlri.t,
    (o = Panic ↔ ∃ afi safi, afi_try_from (a0 * 256 + a1) = Ok afi ∧ safi_try_from s = Ok safi ∧
       length buf = Z.to_nat n) ∧ o ≠ Diverge →
    (o = Panic ↔ ∃ b0 b1 s' n' nh afi safi, a0 :: a1 :: s :: n :: buf = b0 :: b1 :: s' :: n' :: nh ∧
       afi_try_from (b0 * 256 + b1) = Ok afi ∧ safi_try_from s' = Ok safi ∧ length nh = Z.to_nat n') ∧
    o ≠ Diverge ∧ returns (MpUnreachNlri.parse (a0 :: a1 :: s :: n :: buf))) as Hshape.
  { intros o [Hiff Hd]. split; [|done]. rewrite Hiff. split.
    - intros (afi&safi&?). by exists a0, a1, s, n, buf, afi, safi.
    - intros (b0&b1&s'&n'&nh&afi&safi&[= <- <- <- <- <-]&?). by exists afi, safi. }
  apply Hshape. clear Hshape Hun.
  pose proof (afi_try_from_returns (a0 * 256 + a1)) as Ha.
  destruct (afi_try_from (a0 * 256 + a1)) as [afi|e| |]; cbn [mbind outcome_bind];
    [|split; [split; [done|naive_solver]|done]|done..]. read_step.
  pose proof (safi_try_from_returns s) as Hs.
  destruct (safi_try_from s) as [safi|e| |]; cbn [mbind outcome_bind];
    [|split; [split; [done|naive_solver]|done]|done..]. read_step. cbv zeta.
  case_decide as Hn; [split; [split; [done|intros (?&?&_&_&?); lia]|done]|].
  rewrite copy_to_bytes_long by lia. cbn [mbind outcome_bind].
  pose proof (next_hops_returns afi (take (Z.to_nat n) buf)) as Hnh.
  destruct (loop _ _ _) as [nhs|e| |] eqn:Hloop; cbn [mbind outcome_bind];
    [|by destruct (next_hops_no_error afi (take (Z.to_nat n) buf) e)|done..].
  destruct (drop (Z.to_nat n) buf) as [|r rest] eqn:Hdrop.
  - rewrite get_u8_nil. split; [|done]. split; [|done]. intros _. exists afi, safi.
    split_and!; [done..|]. apply (f_equal length) in Hdrop. rewrite length_drop in Hdrop. simpl in *. lia.
  - read_step. destruct (Hret (nlri ← MpPrefix.parse_all afi rest;
      Ok {| MpReachNlri.afi := afi; MpReachNlri.safi := safi; MpReachNlri.next_hops := nhs;
            MpReachNlri.nlri := nlri |})) as [Hp Hd].
    { apply returns_bind; [apply mp_parse_all_returns|done]. }
    split; [|done]. split; [done|]. intros (_&_&_&_&Hl).
    apply (f_equal length) in Hdrop. rewrite length_drop in Hdrop. simpl in Hdrop. lia.
Qed.

(* ------------------------------------------------------------------ *)
(** ** Witnesses *)

#[local] Existing Instance list_bytes_api.

Definition sample_reach : MpReachNlri.t :=
  {| MpReachNlri.afi := Afi.Ipv6; MpReachNlri.safi := Safi.Unicast;
     MpReachNlri.next_hops := [V6 (Z.shiftl 0x20010db8 96 + 1)];
     MpReachNlri.nlri := [MpPrefix.ipv6 (Z.shiftl 0x20010db8 96) 32; MpPrefix.ipv6 0 0] |}.

Definition sample_unreach : MpUnreachNlri.t :=
  {| MpUnreachNlri.afi := Afi.Ipv4; MpUnreachNlri.safi := Safi.Multicast;
     MpUnreachNlri.withdrawn := [MpPrefix.ipv4 167772160 8] |}.

Lemma mp_roundtrip_witness :
  (∃ wire, MpReachNlri.serialize (E:=Empty_set) sample_reach = Ok wire ∧
           MpReachNlri.parse wire = Ok sample_reach) ∧
  ∃ wire, MpUnreachNlri.serialize (E:=Empty_set) sample_unreach = Ok wire ∧
          MpUnreachNlri.parse wire = Ok sample_unreach.
Proof.
  apply mp_roundtrip.
  - split_and!.
    + apply Forall_singleton. by_decide.
    + vm_compute. lia.
    + apply Forall_cons. split; [|apply Forall_singleton]; (split_and!; [done|by_decide|by_decide|done..]).
  - apply Forall_singleton. split_and!; [done|by_decide|by_decide|done..].
Defined.

Lemma mp_parse_panics_witness :
  MpReachNlri.parse [0; 1; 1; 4; 10; 0; 0; 1]%Z = Panic.
Proof.
  apply mp_parse_panics.
  by exists 0%Z, 1%Z, 1%Z, 4%Z, [10; 0; 0; 1]%Z, Afi.Ipv4, Safi.Unicast.
Defined.
