(* ===== verification/Mgmt.v ===== *)
(** * The management interface ([src/mgmt.rs])

    Line-oriented commands over a socket, answered with text made from the shared
    RIB, the metrics and the table of peers.  A command reads the state as it is when
    its line arrives.  The rows of the routing table are sorted after the hash map
    has yielded them in some order. *)

From S2P Require Import Prelude.
From S2P Require Import Attr.
From S2P Require Import UpdateMessage.
From S2P Require Import Text.
From S2P Require Import Env.
From S2P Require Import Show.
From S2P Require Import Dampening.
From S2P Require Import Rib.
From S2P Require Import RibSpec.
From S2P Require Import Metrics.
From S2P Require Import Fsm.
From Stdlib Require Import Ascii.

Module PeerInfo.
Record t := mk {
  addr : SocketAddr;
  remote_as : Z;
  state : BgpState.t;
  description : option string;
  uptime_secs : Z;
  routes_received : nat
}.
End PeerInfo.

Module MgmtState.
Record t := mk { peers : gmap SocketAddr PeerInfo.t }.

(** [MgmtState::default()], behind [shared] *)
Definition shared : t := mk ∅.
End MgmtState.

(** [\n] and [-], [=] rules *)
Abbreviation nl := Metrics.newline.

Definition quoted (s : string) : string := "'" +:+ s +:+ "'".

Definition unwrap_or_dash (a : option Ipv4Addr) : string :=
  match a with Some a => Prefixes.show_addr a | None => "-" end.

(** [as_path.iter().flat_map(..).map(to_string).collect::<Vec<_>>().join(" ")] *)
Definition path_text (attrs : PathAttributes) : string :=
  Show.join " " (map show_uint (concat (map AsPathSegment.as_numbers attrs.(as_path)))).

Definition if_empty (s alternative : string) : string :=
  match s with EmptyString => alternative | _ => s end.

Definition origin_text (attrs : PathAttributes) : string :=
  match attrs.(origin) with Some o => Origin.to_string o | None => "?" end.

(** [sort_by_key(|(k, _)| (k.address.octets(), k.prefix_len))]: octets compare as a
    sequence, then the length. *)
Definition sort_key (kr : PrefixKey.t * Route.t) : list Z :=
  be_bytes 4 kr.1.(PrefixKey.address) ++ [kr.1.(PrefixKey.prefix_len)].

Definition sort_rows (rows : list (PrefixKey.t * Route.t)) : list (PrefixKey.t * Route.t) :=
  sort_by (λ a b, lex (sort_key a) (sort_key b)) rows.

(** [for .. { out.push_str(..) }] *)
Definition push_all {A} (row : A → string) (l : list A) (out : string) : string :=
  foldl (λ out a, out +:+ row a) out l.

Section commands.
Context {ord : HashOrder}.

(** One line of the peer summary.  [Display for BgpState] writes the name with
    [write!], which drops the width of the format. *)
Definition summary_row (peer : PeerInfo.t) : string :=
  Show.pad_right 22 (Show.show_socket peer.(PeerInfo.addr)) +:+ " " +:+
  Show.pad_left 8 (show_uint peer.(PeerInfo.remote_as)) +:+ " " +:+
  BgpState.to_string peer.(PeerInfo.state) +:+ " " +:+
  default EmptyString peer.(PeerInfo.description) +:+ nl.

Definition cmd_bgp_summary (state : MgmtState.t) (rib : Rib.t) : io string :=
  let '(_, _, loc_count) := Rib.summary rib in
  let out := "BGP Summary" +:+ nl +:+ "===========" +:+ nl +:+
    "Total prefixes in Loc-RIB: " +:+ show_uint (Z.of_nat loc_count) +:+ nl +:+ nl +:+
    Show.pad_right 22 "Neighbor" +:+ " " +:+ Show.pad_left 8 "AS" +:+ " " +:+
    Show.pad_left 12 "State" +:+ " " +:+ "Description" +:+ nl +:+
    Show.repeat_str "-" 70 +:+ nl in
  peers ← iter state.(MgmtState.peers);
  let out := push_all (λ kp, summary_row kp.2) peers out in
  mret (if decide (state.(MgmtState.peers) = ∅) then out +:+ "(no peers configured)" +:+ nl else out).

Definition rib_row (kr : PrefixKey.t * Route.t) : string :=
  let attrs := kr.2.(Route.attrs) in
  Show.pad_right 20 (PrefixKey.to_string kr.1) +:+ " " +:+
  Show.pad_left 10 (show_uint (default 100%Z attrs.(local_pref))) +:+ " " +:+
  Show.pad_left 6 (show_uint (default 0%Z attrs.(multi_exit_disc))) +:+ " " +:+
  Show.pad_left 6 (if_empty (path_text attrs) "-") +:+ " " +:+
  Show.pad_right 20 (unwrap_or_dash attrs.(next_hop)) +:+ " " +:+
  origin_text attrs +:+ nl.

Definition rib_header : string :=
  "BGP Routing Table (Loc-RIB)" +:+ nl +:+ "===========================" +:+ nl +:+
  Show.pad_right 20 "Network" +:+ " " +:+ Show.pad_left 8 "Local-Pref" +:+ " " +:+
  Show.pad_left 6 "MED" +:+ " " +:+ Show.pad_left 6 "AS-Path" +:+ " " +:+
  Show.pad_right 20 "Next-Hop" +:+ " " +:+ "Origin" +:+ nl +:+
  Show.repeat_str "-" 80 +:+ nl.

Definition cmd_bgp_rib (rib : Rib.t) : io string :=
  if decide (rib.(Rib.loc_rib) = ∅) then mret ("Loc-RIB is empty." +:+ nl)
  else
    prefixes ← iter rib.(Rib.loc_rib);
    mret (push_all rib_row (sort_rows prefixes) rib_header).

(** The detail of one route. *)
Definition route_detail (prefix_str : string) (route : Route.t) : string :=
  let attrs := route.(Route.attrs) in
  "BGP Prefix " +:+ prefix_str +:+ nl +:+
  "  Best path from:  " +:+ Show.show_socket route.(Route.peer_addr) +:+ nl +:+
  "  Peer AS:         " +:+ show_uint route.(Route.peer_as) +:+ nl +:+
  "  Next-hop:        " +:+ unwrap_or_dash attrs.(next_hop) +:+ nl +:+
  "  Local-pref:      " +:+ show_uint (default 100%Z attrs.(local_pref)) +:+ nl +:+
  "  MED:             " +:+ show_uint (default 0%Z attrs.(multi_exit_disc)) +:+ nl +:+
  "  Origin:          " +:+ origin_text attrs +:+ nl +:+
  "  AS-path:         " +:+ if_empty (path_text attrs) "(empty)" +:+ nl +:+
  match attrs.(communities) with
  | [] => EmptyString
  | comms => "  Communities:     " +:+ Show.join " " (map Community.to_string comms) +:+ nl
  end.

Definition cmd_bgp_rib_prefix (rib : Rib.t) (prefix_str : string) : string :=
  match Text.split_once "/" prefix_str with
  | None => "Invalid prefix format: " +:+ quoted prefix_str +:+ ". Use X.X.X.X/LEN" +:+ nl
  | Some (addr_s, len_s) =>
      match Text.parse_addr addr_s with
      | None => "Invalid address: " +:+ quoted addr_s +:+ nl
      | Some addr =>
          match Text.parse_uint 8 len_s with
          | None => "Invalid prefix length: " +:+ quoted len_s +:+ nl
          | Some len =>
              match rib.(Rib.loc_rib) !! PrefixKey.mk addr len with
              | Some route => route_detail prefix_str route
              | None => "Prefix " +:+ prefix_str +:+ " not found in Loc-RIB." +:+ nl
              end
          end
      end
  end.

Definition neighbor_detail (peer : PeerInfo.t) : string :=
  "BGP neighbor " +:+ Show.show_socket peer.(PeerInfo.addr) +:+ nl +:+
  "  Remote AS:    " +:+ show_uint peer.(PeerInfo.remote_as) +:+ nl +:+
  "  State:        " +:+ BgpState.to_string peer.(PeerInfo.state) +:+ nl +:+
  "  Routes rcvd:  " +:+ show_uint (Z.of_nat peer.(PeerInfo.routes_received)) +:+ nl +:+
  "  Uptime:       " +:+ show_uint peer.(PeerInfo.uptime_secs) +:+ "s" +:+ nl +:+
  match peer.(PeerInfo.description) with
  | Some desc => "  Description:  " +:+ desc +:+ nl
  | None => EmptyString
  end +:+ nl.

Definition cmd_bgp_neighbors (state : MgmtState.t) (filter_ip : option string) : io string :=
  l ← iter state.(MgmtState.peers);
  let peers := map snd l in
  let peers := match filter_ip with
    | Some ip' => filter (λ p, Show.show_ip p.(PeerInfo.addr).(ip) = ip') peers
    | None => peers
    end in
  mret (match peers with
    | [] => "No matching neighbors." +:+ nl
    | _ => push_all neighbor_detail peers EmptyString
    end).

Definition aspath_row (kr : PrefixKey.t * Route.t) : string :=
  Show.pad_right 20 (PrefixKey.to_string kr.1) +:+ " via " +:+
  unwrap_or_dash kr.2.(Route.attrs).(next_hop) +:+ " path " +:+ path_text kr.2.(Route.attrs) +:+ nl.

(** [as_path.iter().any(|seg| seg.as_numbers().contains(&asn))] *)
Definition path_contains (asn : Z) (attrs : PathAttributes) : bool :=
  existsb (λ seg, bool_decide (asn ∈ AsPathSegment.as_numbers seg)) attrs.(as_path).

Definition cmd_bgp_rib_aspath (rib : Rib.t) (asn_str : string) : io string :=
  match Text.parse_uint 32 asn_str with
  | None => mret ("Invalid AS number: " +:+ quoted asn_str +:+ nl)
  | Some asn =>
      l ← iter rib.(Rib.loc_rib);
      let matches := List.filter (λ kr, path_contains asn kr.2.(Route.attrs)) l in
      mret (match matches with
        | [] => "No routes with ASN " +:+ show_uint asn +:+ " in AS_PATH." +:+ nl
        | _ => push_all aspath_row (sort_rows matches)
                 ("Routes with ASN " +:+ show_uint asn +:+ " in AS_PATH" +:+ nl +:+
                  Show.repeat_str "=" 40 +:+ nl)
        end)
  end.

Definition nexthop_row (kr : PrefixKey.t * Route.t) : string :=
  let attrs := kr.2.(Route.attrs) in
  Show.pad_right 20 (PrefixKey.to_string kr.1) +:+ " local-pref=" +:+
  show_uint (default 100%Z attrs.(local_pref)) +:+ " path=" +:+ if_empty (path_text attrs) "-" +:+ nl.

Definition cmd_bgp_rib_nexthop (rib : Rib.t) (ip_str : string) : io string :=
  match Text.parse_addr ip_str with
  | None => mret ("Invalid IPv4 address: " +:+ quoted ip_str +:+ nl)
  | Some target =>
      l ← iter rib.(Rib.loc_rib);
      let matches := List.filter
        (λ kr : PrefixKey.t * Route.t, bool_decide (kr.2.(Route.attrs).(next_hop) = Some target)) l in
      mret (match matches with
        | [] => "No routes with next-hop " +:+ Prefixes.show_addr target +:+ "." +:+ nl
        | _ => push_all nexthop_row (sort_rows matches)
                 ("Routes via next-hop " +:+ Prefixes.show_addr target +:+ nl +:+
                  Show.repeat_str "=" 40 +:+ nl)
        end)
  end.

(** [env!("CARGO_PKG_VERSION")] and [option_env!("RUSTC_VERSION")] are those of the
    build. *)
Context (cargo_pkg_version : string) (rustc_version : option string).

Definition cmd_version : string :=
  "PathForge BGP daemon" +:+ nl +:+
  "Version: " +:+ cargo_pkg_version +:+ nl +:+
  "Rustc:   " +:+ default "unknown" rustc_version +:+ nl.

Definition help_lines : list string := [
  "Available commands:";
  EmptyString;
  "show bgp summary                — Peer summary and RIB count";
  "show bgp rib                    — Full BGP routing table (Loc-RIB)";
  "show bgp rib prefix X.X.X.X/N  — Detail for a specific prefix";
  "show bgp rib aspath <ASN>       — Routes containing ASN in AS_PATH";
  "show bgp rib nexthop <X.X.X.X>  — Routes with a specific next-hop";
  "show bgp neighbors              — All neighbor detail";
  "show bgp neighbors <ip>         — Specific neighbor detail";
  "show bgp metrics                — Human-readable counters";
  "metrics                         — Prometheus exposition format";
  "version                         — Daemon version";
  "help                            — Show this help";
  "quit / exit                     — Close connection"
].

Definition cmd_help : string := push_all (λ line, line +:+ nl) help_lines EmptyString.

(** A slice pattern of literals, and one whose last element is a variable. *)
Definition is_command (words parts : list string) : bool := bool_decide (parts = words).

Definition command_arg (words parts : list string) : option string :=
  if decide (take (length words) parts = words)
  then match drop (length words) parts with [x] => Some x | _ => None end
  else None.

Definition process_command (cmd : string) (state : MgmtState.t) (rib : Rib.t) (metrics : Metrics.t) :
    io string :=
  let parts := Show.split_whitespace cmd in
  if is_command ["show"; "bgp"; "summary"] parts then cmd_bgp_summary state rib
  else if is_command ["show"; "bgp"; "rib"] parts then cmd_bgp_rib rib
  else match command_arg ["show"; "bgp"; "rib"; "prefix"] parts with
  | Some prefix => mret (cmd_bgp_rib_prefix rib prefix)
  | None =>
  match command_arg ["show"; "bgp"; "rib"; "aspath"] parts with
  | Some asn => cmd_bgp_rib_aspath rib asn
  | None =>
  match command_arg ["show"; "bgp"; "rib"; "nexthop"] parts with
  | Some ip => cmd_bgp_rib_nexthop rib ip
  | None =>
  if is_command ["show"; "bgp"; "neighbors"] parts then cmd_bgp_neighbors state None
  else match command_arg ["show"; "bgp"; "neighbors"] parts with
  | Some ip => cmd_bgp_neighbors state (Some ip)
  | None =>
  if is_command ["show"; "bgp"; "metrics"] parts then mret (Metrics.text_summary metrics)
  else if is_command ["metrics"] parts then mret (Metrics.prometheus_text metrics)
  else if is_command ["version"] parts then mret cmd_version
  else if is_command ["help"] parts || is_command [] parts then mret cmd_help
  else if is_command ["quit"] parts || is_command ["exit"] parts then mret ("Bye!" +:+ nl)
  else mret ("Unknown command: " +:+ quoted cmd +:+ nl +:+
             "Type 'help' for available commands." +:+ nl)
  end end end end.

(** The state a command finds. *)
Record Shared := mkShared { peers_table : MgmtState.t; shared_rib : Rib.t; counters : Metrics.t }.

(** The loop of [handle_mgmt_conn] on the lines its client sends, each with the
    state when it is read; [writes] are the results of the writes to come.  The
    result is what was written, and whether the task returns [Ok]. *)
Fixpoint mgmt_loop (lines : list (string * Shared)) (writes : nat → bool) (out : list string) :
    io (list string * bool) :=
  match lines with
  | [] => mret (out, true)
  | (line, s) :: lines =>
      response ← process_command (Show.trim line) s.(peers_table) s.(shared_rib) s.(counters);
      if negb (writes 0) then mret (out, false) else
      let out := out ++ [response] in
      if negb (writes 1) then mret (out, false) else
      mgmt_loop lines (λ n, writes (2 + n)) (out ++ [nl +:+ "> "])
  end.

Definition handle_mgmt_conn (lines : list (string * Shared)) (writes : nat → bool) :
    io (list string * bool) :=
  if negb (writes 0) then mret ([], false)
  else mgmt_loop lines (λ n, writes (S n)) ["PathForge BGP Management" +:+ nl +:+ "> "].
End commands.

(* ------------------------------------------------------------------ *)
(** ** Lemmas *)

Lemma concat_str_app l1 l2 :
  Show.concat_str (l1 ++ l2) = Show.concat_str l1 +:+ Show.concat_str l2.
Proof.
  unfold Show.concat_str. induction l1 as [|s l1 IH]; [done|]. simpl. by rewrite IH, string_app_assoc.
Qed.

(** Pushing the rows appends them. *)
Lemma push_all_concat {A} (row : A → string) l out :
  push_all row l out = out +:+ Show.concat_str (map row l).
Proof.
  unfold push_all. revert out; induction l as [|a l IH]; intros out; simpl.
  - by rewrite string_app_nil.
  - by rewrite IH, string_app_assoc.
Qed.

Definition row_le (a b : PrefixKey.t * Route.t) : Prop := lex_le (sort_key a) (sort_key b).

Lemma sort_key_inj k k' :
  u32 k.(PrefixKey.address) → u32 k'.(PrefixKey.address) →
  ∀ r r', sort_key (k, r) = sort_key (k', r') → k = k'.
Proof.
  intros Hk Hk' r r' Heq. unfold sort_key in Heq. cbn [fst] in Heq.
  apply app_inj_2 in Heq as [Hb [= Hl]]; [|done].
  apply (f_equal of_be) in Hb. rewrite !of_be_be_bytes in Hb by done.
  destruct k, k'. simpl in *. by subst.
Qed.

(** The rows of a table. *)
Definition rows_of (loc : LocRib) : list (PrefixKey.t * Route.t) := sort_rows (map_to_list loc).

Lemma sort_rows_perm l : sort_rows l ≡ₚ l.
Proof. apply sort_by_perm. Qed.

Lemma sort_rows_sorted l : StronglySorted row_le (sort_rows l).
Proof. by apply (sort_by_sorted sort_key). Qed.

Lemma StronglySorted_list_filter {A} (R : relation A) (f : A → bool) l :
  StronglySorted R l → StronglySorted R (List.filter f l).
Proof.
  induction 1 as [|x l Hl IH Hx]; simpl; [constructor|]. destruct (f x); [|done].
  constructor; [done|]. apply Forall_forall. intros y [Hy _]%list_elem_of_In%filter_In.
  rewrite Forall_forall in Hx. by apply Hx, list_elem_of_In.
Qed.

Lemma list_filter_perm {A} (f : A → bool) l l' : l ≡ₚ l' → List.filter f l ≡ₚ List.filter f l'.
Proof.
  induction 1 as [|x l l' _ IH|x y l|l l' l'' _ IH1 _ IH2]; simpl; [done|..].
  - destruct (f x); by rewrite IH.
  - destruct (f x), (f y); try done. apply Permutation_swap.
  - by rewrite IH1.
Qed.

Lemma list_filter_true {A} (l : list A) : List.filter (λ _, true) l = l.
Proof. induction l as [|x l IH]; simpl; [done|]. by rewrite IH. Qed.

(** Whatever order the hash map yields its entries in, the rows kept are those of
    the sorted table. *)
Lemma sort_rows_filter (loc : LocRib) f l :
  (∀ key r, loc !! key = Some r → u32 key.(PrefixKey.address)) → l ≡ₚ map_to_list loc →
  sort_rows (List.filter f l) = List.filter f (rows_of loc).
Proof.
  intros Hkeys Hl.
  assert (sort_rows (List.filter f l) ≡ₚ List.filter f (rows_of loc)) as Hperm.
  { rewrite sort_rows_perm. apply list_filter_perm. unfold rows_of. by rewrite sort_rows_perm. }
  apply (StronglySorted_unique_strong row_le);
    [|apply sort_rows_sorted|apply StronglySorted_list_filter, sort_rows_sorted|done].
  assert (∀ x, x ∈ List.filter f (rows_of loc) → loc !! x.1 = Some x.2) as Hin.
  { intros x [Hx _]%list_elem_of_In%filter_In. apply list_elem_of_In in Hx.
    unfold rows_of in Hx. rewrite sort_rows_perm in Hx. by apply elem_of_map_to_list', Hx. }
  intros x y Hx Hy Hxy Hyx. rewrite Hperm in Hx. apply Hin in Hx, Hy.
  pose proof (anti_symm lex_le _ _ Hxy Hyx) as Hkey. destruct x as [k r], y as [k' r']. simpl in *.
  apply sort_key_inj in Hkey; [subst; congruence|by eapply Hkeys..].
Qed.

(** The text of a table: its header and its rows, or another text when it has none. *)
Definition table_text {A} (none header : string) (row : A → string) (rows : list A) : string :=
  match rows with [] => none | _ => header +:+ Show.concat_str (map row rows) end.

Lemma table_of_matches {ord : HashOrder} (loc : LocRib) f none header row e :
  (∀ key r, loc !! key = Some r → u32 key.(PrefixKey.address)) →
  ∃ e', (l ← iter loc;
         let matches := List.filter f l in
         mret (M:=io) (match matches with [] => none | _ => push_all row (sort_rows matches) header end)) e
    = Ok (table_text none header row (List.filter f (rows_of loc)), e').
Proof.
  intros Hkeys. eexists. erewrite io_bind_Ok by done. cbv zeta.
  set (l := hash_iter (seeds e 0) loc).
  assert (l ≡ₚ map_to_list loc) as Hl by apply hash_iter_perm.
  pose proof (sort_rows_filter loc f l Hkeys Hl) as Hs. rewrite <- Hs.
  unfold mret, io_ret. do 2 f_equal. unfold table_text. rewrite push_all_concat.
  pose proof (sort_rows_perm (List.filter f l)) as Hp.
  destruct (List.filter f l) as [|x m]; [done|].
  destruct (sort_rows (x :: m)); [|done]. by apply Permutation_nil_cons in Hp.
Qed.

(* ------------------------------------------------------------------ *)
(** ** Properties *)



Section conversation.
Context {ord : HashOrder} (version : string) (rustc : option string).

(** No command panics. *)
Lemma runs_process_command cmd state rib m :
  runs (process_command version rustc cmd state rib m) (λ _, True).
Proof.
  assert (∀ {K V} `{Countable K} (mp : gmap K V) (f : list (K * V) → string),
    runs (l ← iter mp; mret (f l)) (λ _, True)) as Hiter.
  { intros. eapply runs_bind; [by apply (runs_iter _ (λ _, True))|]. intros. by apply runs_ret. }
  unfold process_command.
  repeat case_match; try (by apply runs_ret);
    unfold cmd_bgp_summary, cmd_bgp_rib, cmd_bgp_rib_aspath, cmd_bgp_rib_nexthop, cmd_bgp_neighbors;
    repeat case_match; try (by apply runs_ret); apply Hiter.
Qed.

(** The texts of a conversation after the banner. *)
Definition exchange (responses : list string) : list string :=
  concat (map (λ response, [response; nl +:+ "> "]) responses).

(** What a command answers in some order of the hash maps. *)
Definition answers (line : string * Shared) (response : string) : Prop :=
  ∃ e e', process_command version rustc (Show.trim line.1) line.2.(peers_table)
    line.2.(shared_rib) line.2.(counters) e = Ok (response, e').

Lemma mgmt_loop_runs lines : ∀ out,
  runs (mgmt_loop version rustc lines (λ _, true) out) (λ '(out', ok), ok = true ∧
    ∃ responses, Forall2 answers lines responses ∧ out' = out ++ exchange responses).
Proof.
  induction lines as [|[line s] lines IH]; intros out; cbn [mgmt_loop].
  - apply runs_ret. split; [done|]. exists []. split; [constructor|]. by rewrite app_nil_r.
  - eapply (runs_bind _ _ (answers (line, s))).
    + intros e. destruct (runs_process_command (Show.trim line) (peers_table s) (shared_rib s) (counters s) e)
        as (response&e'&Hrun&_).
      exists response, e'. split; [done|]. by exists e, e'.
    + intros response Hans. simpl. eapply runs_mono; [apply IH|].
      intros [out' ok] (->&responses&Hall&->). split; [done|].
      exists (response :: responses). split; [by constructor|]. by rewrite <- !app_assoc.
Qed.
End conversation.

(** C33: a management connection whose writes succeed answers every line its client
    sends, each with the state of its time, in order and with a prompt after each,
    and ends only with the client's last line: no line makes it panic, and "quit"
    and "exit", of which the help says that they close the connection, are answered
    like the others. *)
Theorem mgmt_conversation {ord : HashOrder} version rustc lines e :
  ∃ responses e', handle_mgmt_conn version rustc lines (λ _, true) e =
    Ok ((("PathForge BGP Management" +:+ nl +:+ "> ") :: exchange responses, true), e') ∧
  Forall2 (answers version rustc) lines responses.
Proof.
  destruct (mgmt_loop_runs version rustc lines ["PathForge BGP Management" +:+ nl +:+ "> "] e)
    as ([out ok]&e'&Hrun&->&responses&Hall&->).
  by exists responses, e'.
Qed.

(** The peers a session serves are never listed: nothing in the program adds to
    the table of peers [MgmtState::shared] creates, and from that table "show bgp
    neighbors" finds none, whatever the address asked for. *)
Theorem neighbors_never_listed {ord : HashOrder} ip e :
  ∃ e', cmd_bgp_neighbors MgmtState.shared ip e = Ok ("No matching neighbors." +:+ nl, e').
Proof.
  unfold cmd_bgp_neighbors. eexists. erewrite io_bind_Ok by done. cbv zeta.
  assert (hash_iter (seeds e 0) (MgmtState.peers MgmtState.shared) = []) as ->.
  { apply Permutation_nil_r. rewrite hash_iter_perm. unfold MgmtState.shared. cbn [MgmtState.peers]. by rewrite map_to_list_empty. }
  by destruct ip.
Qed.

(* ------------------------------------------------------------------ *)
(** ** Witnesses *)

#[local] Existing Instance sorted_order.

Lemma sample_rib_keys key r :
  sample_rib.(Rib.loc_rib) !! key = Some r → u32 key.(PrefixKey.address).
Proof. intros [-> _]%sample_loc_lookup. by_decide. Qed.


