(* ===== verification/Server.v ===== *)
(** * The server ([src/server.rs], and the tasks [src/main.rs] starts)

    The sessions of all the peers, interleaved: each accepted connection is a task of
    its own, and the tasks share the RIB, the metrics and the clock.  A step is what
    a task does between two points where another may run: a connection is accepted,
    a session polls its timers and its stream, handles one message of its buffer (at
    most one critical section of the RIB's lock), a purge task runs, a management
    command is answered.  [serve] runs any sequence of steps. *)

From S2P Require Import Prelude.
From S2P Require Import Bytes.
From S2P Require Import Message.
From S2P Require Import ControlMessages.
From S2P Require Import OpenMessage.
From S2P Require Import Attr.
From S2P Require Import UpdateMessage.
From S2P Require Import Rpki.
From S2P Require Import Env.
From S2P Require Import Dampening.
From S2P Require Import Rib.
From S2P Require Import RibSpec.
From S2P Require Import RibRefine.
From S2P Require Import Metrics.
From S2P Require Import Fsm.
From S2P Require Import Peer.
From S2P Require Import SessionLogic.
From S2P Require Import Profiles.
From S2P Require Import Show.
From S2P Require Import Mgmt.

(** ** A session, a step at a time *)

(** Where a session is between two steps: before a read, or with a buffer whose
    messages are being handled. *)
Inductive Phase := Reading (buf : bytes) | Draining (buf : bytes).

Section steps.
Context {api : BytesApi} {ord : HashOrder} {libm : Libm} (prof : profile).

(** The timers and the read of a round.  Data are left in the buffer: up to there
    the round does what it does when nothing is read. *)
Definition poll (buf : bytes) (event : ReadEvent) : M (option Phase) :=
  match event with
  | ReadData data =>
      next ← session_round prof buf Tick;
      mret ((λ _, Draining (buf ++ data)) <$> next)
  | _ => next ← session_round prof buf event; mret (Reading <$> next)
  end.

(** One turn of the message loop. *)
Definition drain_one (buf : bytes) : M (option Phase) :=
  '(msg, buf) ← try_parse (BgpMessage.parse buf);
  match msg with
  | Some msg => _ ← handle_message prof msg; mret (Some (Draining buf))
  | None => mret (Some (Reading buf))
  end.

(** The turns of the message loop, up to the next read. *)
Fixpoint drain_all (fuel : nat) (phase : Phase) : M (option bytes) :=
  match phase with
  | Reading buf => mret (Some buf)
  | Draining buf =>
      match fuel with
      | O => λ s, (Diverge, s)
      | S fuel =>
          next ← drain_one buf;
          match next with Some phase => drain_all fuel phase | None => mret None end
      end
  end.
End steps.

(** ** The server *)

(** A task of the server: what its session owns. *)
Record Conn := {
  conn_peer : Peer.t;
  conn_phase : Phase;
  conn_sent : list bytes;
  conn_writes : nat → bool
}.

Module Server.
(** [Server], with the tasks it has spawned and what they share. *)
Record t := mk {
  bind_addr : SocketAddr;
  local : LocalConfig.t;
  rib : RibLock;
  metrics : Metrics.t;
  env : Env;
  conns : gmap nat Conn;
  purges : list (Duration * SocketAddr);
  (** what the management commands read *)
  mgmt : MgmtState.t;
  (** [run] has not returned *)
  running : bool
}.

(** [Server::new], and the table [main] makes for the management interface. *)
Definition new (bind_addr : SocketAddr) (local : LocalConfig.t) (env : Env) : t :=
  {| bind_addr := bind_addr; local := local; rib := Unlocked Rib.new; metrics := Metrics.new;
     env := env; conns := ∅; purges := []; mgmt := MgmtState.shared; running := true |}.
End Server.

(** What a task sees of the server. *)
Definition enter (w : Server.t) (c : Conn) : Session :=
  {| peer := c.(conn_peer); rib := w.(Server.rib); metrics := w.(Server.metrics);
     sent := c.(conn_sent); spawned := w.(Server.purges); env := w.(Server.env);
     writes := c.(conn_writes) |}.

(** The server once a task has run: the shared state is the task's, [conns] is the
    new set of sessions. *)
Definition leave (w : Server.t) (s : Session) (conns : gmap nat Conn) : Server.t :=
  {| Server.bind_addr := w.(Server.bind_addr); Server.local := w.(Server.local);
     Server.rib := rib s; Server.metrics := metrics s; Server.env := env s;
     Server.conns := conns; Server.purges := spawned s; Server.mgmt := w.(Server.mgmt);
     Server.running := w.(Server.running) |}.

(** A session that goes on is kept; one that has returned, with [Ok] or with an
    error ("Peer session error" is logged), or has panicked, is gone. *)
Definition settle (w : Server.t) (id : nat) (result : outcome SessionError (option Phase) * Session) :
    Server.t :=
  let s := result.2 in
  leave w s (match result.1 with
    | Ok (Some phase) =>
        <[id := {| conn_peer := peer s; conn_phase := phase; conn_sent := sent s;
                   conn_writes := writes s |}]> w.(Server.conns)
    | _ => delete id w.(Server.conns)
    end).

Definition set_env_of (w : Server.t) (env : Env) : Server.t :=
  {| Server.bind_addr := w.(Server.bind_addr); Server.local := w.(Server.local);
     Server.rib := w.(Server.rib); Server.metrics := w.(Server.metrics); Server.env := env;
     Server.conns := w.(Server.conns); Server.purges := w.(Server.purges);
     Server.mgmt := w.(Server.mgmt); Server.running := w.(Server.running) |}.

Definition drop_purge (w : Server.t) (purges : list (Duration * SocketAddr)) : Server.t :=
  {| Server.bind_addr := w.(Server.bind_addr); Server.local := w.(Server.local);
     Server.rib := w.(Server.rib); Server.metrics := w.(Server.metrics); Server.env := w.(Server.env);
     Server.conns := w.(Server.conns); Server.purges := purges; Server.mgmt := w.(Server.mgmt);
     Server.running := w.(Server.running) |}.

Definition stop (w : Server.t) : Server.t :=
  {| Server.bind_addr := w.(Server.bind_addr); Server.local := w.(Server.local);
     Server.rib := w.(Server.rib); Server.metrics := w.(Server.metrics); Server.env := w.(Server.env);
     Server.conns := w.(Server.conns); Server.purges := w.(Server.purges);
     Server.mgmt := w.(Server.mgmt); Server.running := false |}.

(** What happens next: [id] names a task; [inner] is what a poisoned lock holds, which
    a command reads only when the lock is poisoned. *)
Inductive Happening :=
| Accept (id : nat) (peer_addr : SocketAddr) (writes : nat → bool)
| AcceptError
| Poll (id : nat) (event : ReadEvent)
| Message (id : nat)
| Purge (i : nat)
| Command (cmd : string) (inner : Rib.t).

(** [rib.read().unwrap_or_else(|e| e.into_inner())]: the commands read a poisoned
    lock too; what the panic left in it is [inner]. *)
Definition into_inner (lock : RibLock) (inner : Rib.t) : Rib.t :=
  match lock with Unlocked r => r | Poisoned => inner end.

(** A task before its first step. *)
Definition fresh_conn (w : Server.t) (peer_addr : SocketAddr) (writes : nat → bool) : Conn :=
  {| conn_peer := Peer.new peer_addr 0 w.(Server.local); conn_phase := Reading [];
     conn_sent := []; conn_writes := writes |}.

Section server.
Context {api : BytesApi} {ord : HashOrder} {libm : Libm} (prof : profile).
Context (version : string) (rustc : option string).

(** One step; [None] when it cannot happen. *)
Definition step (w : Server.t) (h : Happening) : option Server.t :=
  if negb w.(Server.running) then None else
  match h with
  | Accept id peer_addr writes =>
      match w.(Server.conns) !! id with
      | Some _ => None
      | None =>
          Some (settle w id ((next ← handle_incoming prof peer_addr w.(Server.local) [];
                              mret (Reading <$> next)) (enter w (fresh_conn w peer_addr writes))))
      end
  | AcceptError => Some (stop w)
  | Poll id event =>
      c ← w.(Server.conns) !! id;
      match c.(conn_phase) with
      | Reading buf => Some (settle w id (poll prof buf event (enter w c)))
      | Draining _ => None
      end
  | Message id =>
      c ← w.(Server.conns) !! id;
      match c.(conn_phase) with
      | Draining buf => Some (settle w id (drain_one prof buf (enter w c)))
      | Reading _ => None
      end
  | Purge i =>
      '(_, peer_addr) ← w.(Server.purges) !! i;
      let w := drop_purge w (delete i w.(Server.purges)) in
      Some (leave w (purge_task peer_addr (enter w (fresh_conn w peer_addr (λ _, false)))).2
              w.(Server.conns))
  | Command cmd inner =>
      match process_command version rustc (Show.trim cmd) w.(Server.mgmt) (into_inner w.(Server.rib) inner)
              w.(Server.metrics) w.(Server.env) with
      | Ok (_, env) => Some (set_env_of w env)
      | _ => None
      end
  end.

(** A run of the server. *)
Fixpoint serve (w : Server.t) (hs : list Happening) : option Server.t :=
  match hs with
  | [] => Some w
  | h :: hs => w' ← step w h; serve w' hs
  end.
End server.

(* ------------------------------------------------------------------ *)
(** ** The steps of a session make its rounds *)

Section rounds.
Context {api : BytesApi} {ord : HashOrder} {libm : Libm} (prof : profile).

Lemma drain_all_buffer fuel buf s :
  drain_all prof fuel (Draining buf) s = (b ← handle_buffer prof fuel buf; mret (Some b)) s.
Proof.
  revert buf s; induction fuel as [|fuel IH]; intros buf s; [done|].
  cbn [drain_all handle_buffer]. unfold drain_one. rewrite !M_bind_assoc.
  apply M_bind_ext. intros [[msg|] rest] s1.
  - rewrite !M_bind_assoc. apply M_bind_ext. intros _ s2. apply IH.
  - by destruct fuel.
Qed.

(** The bytes a phase still has to go through. *)
Definition phase_bytes (phase : Phase) : bytes :=
  match phase with Reading buf | Draining buf => buf end.

Lemma round_steps buf event s :
  session_round prof buf event s =
  (next ← poll prof buf event;
   match next with
   | Some phase => drain_all prof (S (length (phase_bytes phase))) phase
   | None => mret None
   end) s.
Proof.
  assert (∀ (m : M (option bytes)) s, m s = (next ← (r ← m; mret (Reading <$> r));
    match next with
    | Some phase => drain_all prof (S (length (phase_bytes phase))) phase
    | None => mret None
    end) s) as Hread.
  { intros m s0. rewrite M_bind_assoc. unfold mbind, M_bind.
    by destruct (m s0) as [[[b|]|e| |] s1]. }
  destruct event as [|data| |]; [apply Hread| |apply Hread|apply Hread].
  unfold poll, session_round. rewrite !M_bind_assoc. apply M_bind_ext. intros p s1.
  rewrite !M_bind_assoc. apply M_bind_ext. intros expired s2. destruct expired.
  - repeat (rewrite !M_bind_assoc; apply M_bind_ext; intros ? ?). done.
  - repeat (rewrite !M_bind_assoc; apply M_bind_ext; intros ? ?).
    symmetry. apply (drain_all_buffer (S (length (buf ++ data)))).
Qed.
End rounds.

(* ------------------------------------------------------------------ *)
(** ** What a step does to the RIB *)

(** A server whose RIB is sound, whose sessions are of peers that satisfy [P], and
    which has no purge task. *)
Record server_ok (P : SocketAddr → Prop) (w : Server.t) (r : Rib.t) : Prop := {
  ok_rib : w.(Server.rib) = Unlocked r;
  ok_wf : rib_wf r;
  ok_mode : r.(Rib.rpki).(RpkiValidator.mode) = RpkiMode.Disabled;
  ok_conns id c : w.(Server.conns) !! id = Some c → P c.(conn_peer).(Peer.addr);
  ok_purges : w.(Server.purges) = []
}.

(** The operations of peers that satisfy [P] lead from [r] to [r']. *)
Definition rib_worked (P : SocketAddr → Prop) (r r' : Rib.t) : Prop :=
  ∃ ops, Forall (λ op, P (op_peer op)) ops ∧ spec_steps ops (view r) (view r').

Lemma rib_worked_refl P r : rib_worked P r r.
Proof. exists []. split; [by apply Forall_nil|constructor]. Qed.

Lemma rib_worked_trans P r1 r2 r3 : rib_worked P r1 r2 → rib_worked P r2 r3 → rib_worked P r1 r3.
Proof.
  intros (o1&?&?) (o2&?&?). exists (o1 ++ o2). split; [by apply Forall_app|].
  by eapply spec_steps_app.
Qed.

Section step_lemmas.
Context {api : BytesApi} {laws : BytesLaws api} {ord : HashOrder} {libm : Libm}.
Context (version : string) (rustc : option string).

(** A session task starting or going on. *)
Definition task_ok (a : SocketAddr) {A} (m : M A) : Prop :=
  (∀ R, Closed a R → ∀ s r, rib s = Unlocked r → rib_frame R r → (peer s).(Peer.addr) = a →
     session_frame a R (m s).2) ∧
  ∀ l, keeps (spawned_are l) m.

Lemma task_ok_intro a {A} (m : M A) :
  (∀ R `{!Closed a R}, keeps (session_frame a R) m) → (∀ l, keeps (spawned_are l) m) → task_ok a m.
Proof. intros Hm Hl. split; [|done]. intros R ? s r Hr Hf Ha. apply Hm; [done|]. split; [done|by rewrite Hr]. Qed.

Lemma poll_ok a buf event : task_ok a (poll Release buf event).
Proof.
  apply task_ok_intro; [intros R ?|intros l]; unfold poll; destruct event;
    (apply keeps_bind; [|auto with keeps]); (apply (framed_session_round a R) || apply spawned_session_round).
Qed.

Lemma drain_one_ok a buf : task_ok a (drain_one Release buf).
Proof.
  apply task_ok_intro; [intros R ?|intros l]; unfold drain_one;
    (apply keeps_bind; [auto with keeps|]); intros [[msg|] rest]; try auto with keeps;
    (apply keeps_bind; [|auto with keeps]);
    (apply (framed_handle_message a R) || apply spawned_handle_message).
Qed.

Lemma spawned_handle_incoming l addr local events :
  keeps (spawned_are l) (handle_incoming Release addr local events).
Proof.
  unfold handle_incoming, run_session. keep_steps. apply spawned_session_loop.
Qed.

Lemma accept_ok a local :
  task_ok a (next ← handle_incoming Release a local []; mret (Reading <$> next)).
Proof.
  split.
  - intros R ? s r Hr Hf Ha. pose proof (framed_handle_incoming a R local [] s r Hr Hf) as Hs.
    unfold mbind, M_bind. by destruct (handle_incoming _ _ _ _ s) as [[x|e| |] s'].
  - intros l. apply keeps_bind; [apply spawned_handle_incoming|auto with keeps].
Qed.

(** The step of a task of peer [a]. *)
Lemma settle_ok P a (m : M (option Phase)) w r c id :
  server_ok P w r → P a → task_ok a m → c.(conn_peer).(Peer.addr) = a →
  ∃ r', server_ok P (settle w id (m (enter w c))) r' ∧ rib_worked P r r'.
Proof.
  intros [Hr Hwf Hmode Hconns Hpurges] HP [Hm Hl] Ha.
  assert (rib_frame (worked a (view r)) r) as Hf.
  { split_and!; [done..|]. exists []. split; [by apply Forall_nil|constructor]. }
  pose proof (Hm _ _ (enter w c) r Hr Hf Ha) as [Hpeer Hs].
  pose proof (Hl [] (enter w c) Hpurges) as Hsp.
  destruct (m (enter w c)) as [o s'] eqn:Hrun. simpl in *.
  destruct (rib s') as [r'|] eqn:Hr'; [|done]. destruct Hs as (?&?&ops&Hops&Hsteps).
  exists r'. split.
  - split; simpl; [done..| |done]. intros id' c' Hc'.
    destruct o as [[phase|]|e| |]; [|by apply lookup_delete_Some in Hc' as [_ ?%Hconns]..].
    apply lookup_insert_Some in Hc' as [[_ <-]|[_ ?%Hconns]]; [|done]. simpl. by rewrite Hpeer.
  - exists ops. split; [|done]. eapply Forall_impl; [done|]. by intros op ->.
Qed.

Lemma step_ok P w h w' r :
  server_ok P w r → (∀ id a ws, h = Accept id a ws → P a) →
  step Release version rustc w h = Some w' →
  ∃ r', server_ok P w' r' ∧ rib_worked P r r'.
Proof.
  intros Hok HP. pose proof Hok as [Hr Hwf Hmode Hconns Hpurges]. unfold step.
  destruct (Server.running w); [|done]. simpl. destruct h as [id a ws| |id event|id|i|cmd].
  - case_match; [done|]. intros [= <-]. eapply settle_ok; [done|by eapply HP|apply accept_ok|done].
  - intros [= <-]. exists r. split; [by split|apply rib_worked_refl].
  - destruct (Server.conns w !! id) as [c|] eqn:Hc; [|done]. simpl. case_match; [|done].
    intros [= <-]. eapply settle_ok; [done|by eapply Hconns|apply poll_ok|done].
  - destruct (Server.conns w !! id) as [c|] eqn:Hc; [|done]. simpl. case_match; [done|].
    intros [= <-]. eapply settle_ok; [done|by eapply Hconns|apply drain_one_ok|done].
  - by rewrite Hpurges.
  - rewrite Hr. case_match; [|done..]. case_match. intros [= <-].
    exists r. split; [by split|apply rib_worked_refl].
Qed.

(** The addresses a run accepts connections from. *)
Definition accepts (P : SocketAddr → Prop) (h : Happening) : Prop :=
  match h with Accept _ a _ => P a | _ => True end.

Lemma serve_ok P hs : ∀ w w' r,
  server_ok P w r → Forall (accepts P) hs → serve Release version rustc w hs = Some w' →
  ∃ r', server_ok P w' r' ∧ rib_worked P r r'.
Proof.
  induction hs as [|h hs IH]; intros w w' r Hok Hhs; simpl.
  - intros [= <-]. exists r. split; [done|apply rib_worked_refl].
  - apply Forall_cons in Hhs as [Hh Hhs].
    destruct (step Release version rustc w h) as [w1|] eqn:Hstep; [|done]. simpl. intros Hrun.
    destruct (step_ok P w h w1 r Hok) as (r1&Hok1&Hw1); [by intros id a ws ->|done|].
    destruct (IH w1 w' r1 Hok1 Hhs Hrun) as (r'&?&?).
    exists r'. split; [done|]. by eapply rib_worked_trans.
Qed.
End step_lemmas.

(** The addresses accepted in a run. *)
Definition accepted_from (hs : list Happening) : list SocketAddr :=
  omap (λ h, match h with Accept _ a _ => Some a | _ => None end) hs.

Lemma accepts_accepted hs : Forall (accepts (λ a, a ∈ accepted_from hs)) hs.
Proof.
  apply Forall_forall. intros [id a ws| |id event|id|i|cmd] Hin; simpl; try done.
  apply list_elem_of_omap. by exists (Accept id a ws).
Qed.

Lemma new_ok P bind local env : server_ok P (Server.new bind local env) Rib.new.
Proof. split; [done|apply rib_new_wf|done| |done]. intros id c. simpl. by rewrite lookup_empty. Qed.

Lemma server_ok_mono (P Q : SocketAddr → Prop) w r :
  server_ok P w r → (∀ id c, w.(Server.conns) !! id = Some c → Q c.(conn_peer).(Peer.addr)) →
  server_ok Q w r.
Proof. intros [????] ?. by split. Qed.

Lemma spec_steps_nil v v' : spec_steps [] v v' → v = v'.
Proof. by inversion 1. Qed.

(** Steps for other peers leave a table alone. *)
Lemma spec_steps_other a ops v v' :
  Forall (λ op, op_peer op ≠ a) ops → spec_steps ops v v' → ∀ key, v' a key = v a key.
Proof.
  intros Hops Hs. induction Hs as [|op ops v v1 v' [Hother _] _ IH]; intros key; [done|].
  apply Forall_cons in Hops as [Hop Hops]. rewrite IH by done. apply Hother. congruence.
Qed.

(* ------------------------------------------------------------------ *)
(** ** The two builds of the server *)

(** Runs of any step function. *)
Section iterate.
Context {W H : Type}.

Fixpoint iterate (f : W → H → option W) (w : W) (hs : list H) : option W :=
  match hs with [] => Some w | h :: hs => w' ← f w h; iterate f w' hs end.

Lemma iterate_keeps (P : W → Prop) f :
  (∀ w h w', P w → f w h = Some w' → P w') →
  ∀ hs w w', P w → iterate f w hs = Some w' → P w'.
Proof.
  intros Hf. induction hs as [|h hs IH]; intros w w' Hw; simpl; [by intros [= <-]|].
  intros (w1&Hs&Hr)%bind_Some. eauto.
Qed.

(** When a step of [f] is one of [g] or leads to [P], which lasts, so is a run. *)
Lemma iterate_le (P : W → Prop) f g :
  (∀ w h, f w h = g w h ∨ ∃ w', f w h = Some w' ∧ P w') →
  (∀ w h w', P w → f w h = Some w' → P w') →
  ∀ hs w w', iterate f w hs = Some w' → iterate g w hs = Some w' ∨ P w'.
Proof.
  intros Hle Hf. induction hs as [|h hs IH]; intros w w'; simpl; [by left|].
  intros (w1&Hs&Hr)%bind_Some. destruct (Hle w h) as [Heq|(w2&Hw2&HP)].
  - rewrite <- Heq, Hs. by apply IH.
  - right. eapply iterate_keeps; [exact Hf| |exact Hr]. congruence.
Qed.

(** Up to its first step that leads to [P], a run of [f] is one of [g]. *)
Lemma iterate_agree (P : W → Prop) f g :
  (∀ w h, f w h = g w h ∨ ∃ w', f w h = Some w' ∧ P w') →
  ∀ hs w, iterate f w hs = iterate g w hs ∨
    ∃ before h after w1 w2, hs = before ++ h :: after ∧
      iterate f w before = Some w1 ∧ iterate g w before = Some w1 ∧ f w1 h = Some w2 ∧ P w2.
Proof.
  intros Hle. induction hs as [|h hs IH]; intros w; [by left|]. simpl.
  destruct (Hle w h) as [Heq|(w2&Hw2&HP)]; [|right; by exists [], h, hs, w, w2].
  rewrite <- Heq. destruct (f w h) as [w'|] eqn:Hw'; simpl; [|by left].
  destruct (IH w') as [?|(before&h1&after&w1&w2&->&?&?&?&?)]; [by left|right].
  exists (h :: before), h1, after, w1, w2. simpl. by rewrite <- Heq, Hw'.
Qed.
End iterate.

Lemma serve_iterate `{BytesApi, HashOrder, Libm} prof version rustc w hs :
  serve prof version rustc w hs = iterate (step prof version rustc) w hs.
Proof. revert w; induction hs as [|h hs IH]; intros w; [done|]. apply option_bind_ext; [apply IH|done]. Qed.

#[local] Opaque handle_incoming session_round handle_message.

Section builds.
Context {api : BytesApi} {ord : HashOrder} {libm : Libm}.
Context (version : string) (rustc : option string).

Lemma poll_le buf event : poll Debug buf event ⊑ poll Release buf event.
Proof. unfold poll. compare. Qed.

Lemma drain_one_le buf : drain_one Debug buf ⊑ drain_one Release buf.
Proof. unfold drain_one. compare. Qed.

Lemma accept_le a local :
  (next ← handle_incoming Debug a local []; mret (M:=M) (Reading <$> next)) ⊑
  (next ← handle_incoming Release a local []; mret (Reading <$> next)).
Proof. compare. Qed.

Lemma settle_le w id (m m' : M (option Phase)) s :
  m ⊑ m' → settle w id (m s) = settle w id (m' s) ∨ (settle w id (m s)).(Server.rib) = Poisoned.
Proof. intros Hm. destruct (Hm s) as [->|[_ Hp]]; [by left|by right]. Qed.

(** A step of a debug build is that of a release build, or it poisons the lock. *)
Lemma step_le w h :
  step Debug version rustc w h = step Release version rustc w h ∨
  ∃ w', step Debug version rustc w h = Some w' ∧ w'.(Server.rib) = Poisoned.
Proof.
  unfold step. destruct (negb _); [left; reflexivity|]. destruct h as [id a ws| |id event|id|i|cmd].
  - case_match; [left; reflexivity|]. destruct (settle_le w id _ _ (enter w (fresh_conn w a ws))
      (accept_le a w.(Server.local))) as [->|?]; [left; reflexivity|right; eexists; split; [reflexivity|assumption]].
  - left; reflexivity.
  - destruct (Server.conns w !! id) as [c|]; simpl; [|left; reflexivity].
    case_match; [|left; reflexivity]. destruct (settle_le w id _ _ (enter w c) (poll_le buf event))
      as [->|?]; [left; reflexivity|right; eexists; split; [reflexivity|assumption]].
  - destruct (Server.conns w !! id) as [c|]; simpl; [|left; reflexivity].
    case_match; [left; reflexivity|]. destruct (settle_le w id _ _ (enter w c) (drain_one_le buf))
      as [->|?]; [left; reflexivity|right; eexists; split; [reflexivity|assumption]].
  - left; reflexivity.
  - left; reflexivity.
Qed.

Lemma settle_poisoned w id (m : M (option Phase)) c :
  keeps poisoned m → w.(Server.rib) = Poisoned →
  (settle w id (m (enter w c))).(Server.rib) = Poisoned.
Proof. intros Hm Hw. by apply (Hm (enter w c)). Qed.

Lemma poisoned_poll prof buf event : keeps poisoned (poll prof buf event).
Proof.
  pose proof (poisoned_session_round prof buf) as Hk. pose proof poisoned_io.
  unfold poll. destruct event; (apply keeps_bind; [apply Hk|auto with keeps]).
Qed.

Lemma poisoned_drain_one prof buf : keeps poisoned (drain_one prof buf).
Proof.
  pose proof (poisoned_handle_message prof) as Hk. unfold drain_one.
  apply keeps_bind; [auto with keeps|]. intros [[msg|] rest]; auto with keeps.
Qed.

(** No step brings a poisoned lock back. *)
Lemma step_poisoned prof w h w' :
  w.(Server.rib) = Poisoned → step prof version rustc w h = Some w' → w'.(Server.rib) = Poisoned.
Proof.
  intros Hw. unfold step. destruct (negb _); [done|]. destruct h as [id a ws| |id event|id|i|cmd].
  - case_match; [done|]. intros [= <-]. apply settle_poisoned; [|done].
    apply keeps_bind; [apply poisoned_handle_incoming|auto with keeps].
  - by intros [= <-].
  - destruct (Server.conns w !! id) as [c|]; [|done]. simpl. case_match; [|done].
    intros [= <-]. apply settle_poisoned; [apply poisoned_poll|done].
  - destruct (Server.conns w !! id) as [c|]; [|done]. simpl. case_match; [done|].
    intros [= <-]. apply settle_poisoned; [apply poisoned_drain_one|done].
  - destruct (Server.purges w !! i) as [[d a]|]; [|done]. simpl. intros [= <-]. simpl.
    by apply poisoned_purge_task.
  - case_match; [|done..]. case_match. by intros [= <-].
Qed.

(** A run of either build is one of the release build, or a debug build's that
    ends with a poisoned lock. *)
Lemma serve_cases prof w hs w' :
  serve prof version rustc w hs = Some w' →
  serve Release version rustc w hs = Some w' ∨ (prof = Debug ∧ w'.(Server.rib) = Poisoned).
Proof.
  destruct prof; [|by left]. rewrite !serve_iterate. intros Hrun.
  destruct (iterate_le (λ w, w.(Server.rib) = Poisoned) _ _ step_le (step_poisoned Debug) hs w w' Hrun); [by left|by right].
Qed.

Lemma serve_poisoned prof w hs w' :
  w.(Server.rib) = Poisoned → serve prof version rustc w hs = Some w' → w'.(Server.rib) = Poisoned.
Proof.
  rewrite serve_iterate. apply (iterate_keeps (λ w, w.(Server.rib) = Poisoned)), step_poisoned.
Qed.
End builds.

#[local] Transparent handle_incoming session_round handle_message.

(* ------------------------------------------------------------------ *)
(** ** Properties *)

(** C5: the server refines the abstract RIB: however the tasks interleave, whatever
    the peers send, and whichever sessions end, fail or panic, the tables are what a
    sequence of the machine's operations makes of empty ones, each for a peer that
    connected, Loc-RIB is a preferred choice among them, and no purge task exists;
    only a debug build can poison the lock. *)
Theorem server_refines {api : BytesApi} {laws : BytesLaws api} {ord : HashOrder} {libm : Libm}
    prof version rustc bind local env hs w :
  serve prof version rustc (Server.new bind local env) hs = Some w →
  (∃ r ops, w.(Server.rib) = Unlocked r ∧ rib_wf r ∧ chosen (view r) r.(Rib.loc_rib) ∧
     Forall (λ op, op_peer op ∈ accepted_from hs) ops ∧ spec_steps ops (view Rib.new) (view r) ∧
     w.(Server.purges) = []) ∨
  (prof = Debug ∧ w.(Server.rib) = Poisoned).
Proof.
  intros [Hrun|?]%serve_cases; [left|by right].
  destruct (serve_ok version rustc (λ a, a ∈ accepted_from hs) hs _ _ _ (new_ok _ bind local env)
    (accepts_accepted hs) Hrun) as (r&[]&ops&?&?).
  exists r, ops. split_and!; [done|done| |done..]. by apply rib_wf_chosen.
Qed.

(** C18: the table of a peer without a session is never touched: once none of the
    live sessions is that of [a] (its session has ended, failed or panicked), no
    step of the server adds, withdraws or marks a route of [a] until a connection
    from the same address and port is accepted. *)
Theorem dead_peer_table_stays {api : BytesApi} {laws : BytesLaws api} {ord : HashOrder} {libm : Libm}
    prof version rustc bind local env before w1 after w2 a :
  serve prof version rustc (Server.new bind local env) before = Some w1 →
  (∀ id c, w1.(Server.conns) !! id = Some c → c.(conn_peer).(Peer.addr) ≠ a) →
  a ∉ accepted_from after → serve prof version rustc w1 after = Some w2 →
  (∃ r1 r2, w1.(Server.rib) = Unlocked r1 ∧ w2.(Server.rib) = Unlocked r2 ∧
     ∀ key, view r2 a key = view r1 a key) ∨
  (prof = Debug ∧ w2.(Server.rib) = Poisoned).
Proof.
  intros Hrun1 Hdead Hno Hrun2. destruct (serve_cases _ _ _ _ _ _ Hrun1) as [Hrel1|[-> Hp]];
    [|right; split; [done|by eapply serve_poisoned]].
  destruct (serve_cases _ _ _ _ _ _ Hrun2) as [Hrel2|?]; [left|by right].
  clear Hrun1 Hrun2. rename Hrel1 into Hrun1, Hrel2 into Hrun2.
  destruct (serve_ok version rustc _ _ _ _ _ (new_ok _ bind local env) (accepts_accepted before) Hrun1)
    as (r1&Hok1&_).
  assert (Forall (accepts (λ b, b ≠ a)) after) as Hacc.
  { eapply Forall_impl; [apply accepts_accepted|]. intros [] Hh; simpl in *; congruence. }
  destruct (serve_ok version rustc _ _ _ _ _ (server_ok_mono _ (λ b, b ≠ a) _ _ Hok1 Hdead) Hacc Hrun2)
    as (r2&Hok2&ops&Hops&Hsteps).
  exists r1, r2. split_and!; [apply Hok1|apply Hok2|]. by apply spec_steps_other with ops.
Qed.

(** C19: the two build profiles agree: a session of a debug build does exactly what one
    of a release build does, or it panics in a critical section and poisons the RIB's
    lock; and a run of a debug server is the run of a release server, to the last
    counter and byte sent, or it is so up to the one step that poisons the lock. *)
Theorem profiles_agree {api : BytesApi} {ord : HashOrder} {libm : Libm} version rustc :
  (∀ addr local events s,
     handle_incoming Debug addr local events s = handle_incoming Release addr local events s ∨
     ((handle_incoming Debug addr local events s).1 = Panic ∧
      rib (handle_incoming Debug addr local events s).2 = Poisoned)) ∧
  ∀ w hs, serve Debug version rustc w hs = serve Release version rustc w hs ∨
    ∃ before h after w1 w2, hs = before ++ h :: after ∧
      serve Debug version rustc w before = Some w1 ∧
      serve Release version rustc w before = Some w1 ∧
      step Debug version rustc w1 h = Some w2 ∧ w2.(Server.rib) = Poisoned.
Proof.
  split.
  - intros addr local events s. apply handle_incoming_le.
  - intros w hs. setoid_rewrite serve_iterate. apply iterate_agree, step_le.
Qed.

(* ------------------------------------------------------------------ *)
(** ** Witnesses *)

#[local] Existing Instance list_bytes_api.
#[local] Existing Instances sorted_order no_libm.

Definition peer_a : SocketAddr := {| ip := V4 167772161; port := 40000; flowinfo := 0; scope_id := 0 |}.
Definition peer_b : SocketAddr := {| ip := V4 167772162; port := 40001; flowinfo := 0; scope_id := 0 |}.

(** An UPDATE that announces 10.0.0.0/8. *)
Definition announcement : bytes := MARKER ++ [0; 25; 2; 0; 0; 0; 0; 8; 10]%Z.

Definition all_written : nat → bool := λ _, true.

(** A peer connects, announces a prefix, and its connection is reset; another
    connects and closes. *)
Definition reset_run : list Happening :=
  [Accept 0 peer_a all_written; Poll 0 (ReadData announcement); Message 0; Message 0;
   Poll 0 ReadError].

Definition later_run : list Happening :=
  [Accept 1 peer_b all_written; Command "show bgp rib" Rib.new; Poll 1 ReadClosed].

Definition sample_server : Server.t :=
  Server.new peer_b (LocalConfig.new 65000 16843009) sample_env.

Definition sample_serve (w : Server.t) (hs : list Happening) : option Server.t :=
  serve Release "0.1.0" None w hs.

Lemma sample_serve_some hs :
  bool_decide (is_Some (sample_serve sample_server hs)) = true →
  sample_serve sample_server hs = Some (default sample_server (sample_serve sample_server hs)).
Proof. intros [w Hw]%bool_decide_eq_true. by rewrite Hw. Qed.

(** The server once the first peer's connection has been reset. *)
Definition after_reset : Server.t := default sample_server (sample_serve sample_server reset_run).

Lemma after_reset_run : sample_serve sample_server reset_run = Some after_reset.
Proof. apply sample_serve_some. vm_compute. reflexivity. Qed.

Lemma after_reset_empty : Server.conns after_reset = ∅.
Proof. vm_compute. reflexivity. Qed.

Definition rib_of (w : Server.t) : Rib.t :=
  match w.(Server.rib) with Unlocked r => r | Poisoned => Rib.new end.

Lemma after_reset_route :
  is_Some (view (rib_of after_reset) peer_a (PrefixKey.mk 167772160 8)).
Proof. vm_compute. by eexists. Qed.

Definition after_later : Server.t := default after_reset (sample_serve after_reset later_run).

Lemma after_later_run : sample_serve after_reset later_run = Some after_later.
Proof.
  assert (bool_decide (is_Some (sample_serve after_reset later_run)) = true) as H
    by (vm_compute; reflexivity).
  apply bool_decide_eq_true in H as [w Hw]. unfold after_later. by rewrite Hw.
Qed.

Lemma server_refines_witness :
  ∃ r ops, Server.rib after_reset = Unlocked r ∧ chosen (view r) r.(Rib.loc_rib) ∧
    spec_steps ops (view Rib.new) (view r) ∧ ops ≠ [].
Proof.
  destruct (server_refines Release "0.1.0" None peer_b (LocalConfig.new 65000 16843009) sample_env
    reset_run after_reset after_reset_run) as [(r&ops&Hr&_&Hch&_&Hs&_)|[? _]]; [|discriminate].
  exists r, ops. split_and!; [exact Hr|exact Hch|exact Hs|]. intros ->.
  pose proof after_reset_route as [route Hroute]. unfold rib_of in Hroute. rewrite Hr in Hroute.
  apply spec_steps_nil in Hs. by rewrite <- Hs in Hroute.
Defined.

(** The route of the peer whose connection was reset is still there when other peers
    have come and gone. *)
Lemma dead_peer_table_stays_witness :
  ∃ r2, Server.rib after_later = Unlocked r2 ∧
    is_Some (view r2 peer_a (PrefixKey.mk 167772160 8)).
Proof.
  destruct (dead_peer_table_stays Release "0.1.0" None peer_b (LocalConfig.new 65000 16843009)
    sample_env reset_run after_reset later_run after_later peer_a after_reset_run)
    as [(r1&r2&Hr1&Hr2&Hsame)|[? _]].
  - intros id c. by rewrite after_reset_empty, lookup_empty.
  - by_decide.
  - exact after_later_run.
  - exists r2. split; [exact Hr2|]. rewrite Hsame.
    pose proof after_reset_route as Hroute. unfold rib_of in Hroute. by rewrite Hr1 in Hroute.
  - discriminate.
Defined.

(** The gauge of active sessions is 0 while a session lives, once another has closed. *)
Example active_gauge_misreports :
  match sample_serve sample_server
    [Accept 0 peer_a all_written; Accept 1 peer_b all_written; Poll 1 ReadClosed] with
  | Some w => size (Server.conns w) = 1 ∧ Metrics.get (Server.metrics w) sessions_active = 0%Z
  | None => False
  end.
Proof. vm_compute. done. Qed.
