(* ===== verification/EndToEnd.v ===== *)
(** * A session from the wire to the RIB

    The composition of the parsers, the state machine and the RIB: a session that is
    sent the messages of a well-behaved speaker, cut into reads in any way and with
    idle rounds between them, becomes established and applies the UPDATEs to its
    peer's table, in order. *)

From S2P Require Import Prelude.
From S2P Require Import Bytes.
From S2P Require Import Message.
From S2P Require Import ControlMessages.
From S2P Require Import Capabilities.
From S2P Require Import OpenMessage.
From S2P Require Import Attr.
From S2P Require Import UpdateMessage.
From S2P Require Import Rpki.
From S2P Require Import Env.
From S2P Require Import Dampening.
From S2P Require Import Rib.
From S2P Require Import RibSpec.
From S2P Require Import RibRefine.
From S2P Require Import Metrics.
From S2P Require Import Fsm.
From S2P Require Import Peer.
From S2P Require Import SessionLogic.
From S2P Require Import PeerSpec.
From S2P Require Import Server.

(** ** Sessions on a stream *)

(** A round in which the connection lives. *)
Definition quiet (event : ReadEvent) : Prop :=
  match event with ReadData _ | Tick => True | ReadClosed | ReadError => False end.

Definition event_data (event : ReadEvent) : bytes :=
  match event with ReadData data => data | _ => [] end.

Section stream.
Context {api : BytesApi} {laws : BytesLaws api} {ord : HashOrder} {libm : Libm} (prof : profile).
(** What holds of the session while the messages [left] are still to come. *)
Context (I : list BgpMessage.t → Session → Prop).
Hypothesis Hidle : ∀ left buf s, I left s →
  ∃ s', session_round prof buf Tick s = (Ok (Some buf), s') ∧ I left s'.
Hypothesis Hmessage : ∀ m left s, I (m :: left) s →
  ∃ s', handle_message prof m s = (Ok tt, s') ∧ I left s'.

Lemma handle_messages_rule ms left s :
  I (ms ++ left) s → ∃ s', handle_messages prof ms s = (Ok tt, s') ∧ I left s'.
Proof using Hmessage.
  revert s; induction ms as [|m ms IH]; intros s Hs; simpl; [by exists s|].
  destruct (Hmessage _ _ _ Hs) as (s1&Hm&Hs1). destruct (IH s1 Hs1) as (s'&Hms&?).
  exists s'. split; [|done]. by erewrite M_bind_Ok by exact Hm.
Qed.

(** A round that reads: the poll, then the messages that are now whole. *)
Lemma read_round ms rest left buf data s :
  BgpMessage.drain (buf ++ data) = Ok (ms, rest) → I (ms ++ left) s →
  ∃ s', session_round prof buf (ReadData data) s = (Ok (Some rest), s') ∧ I left s'.
Proof using Hidle Hmessage laws.
  intros Hd Hs. destruct (Hidle _ buf _ Hs) as (s1&Ht&Hs1).
  destruct (handle_messages_rule _ _ _ Hs1) as (s'&Hms&?). exists s'. split; [|done].
  rewrite round_steps. unfold poll. rewrite M_bind_assoc. erewrite M_bind_Ok by exact Ht.
  erewrite M_bind_Ok by reflexivity. cbn [fmap option_fmap option_map phase_bytes].
  rewrite drain_all_buffer. unfold mbind, M_bind. rewrite (handle_buffer_drain prof _ _ _ _ Hd).
  unfold mbind, M_bind. by rewrite Hms.
Qed.

(** The bytes that are left make no whole message. *)
Lemma drain_rest buf ms rest :
  BgpMessage.drain buf = Ok (ms, rest) → BgpMessage.drain rest = Ok ([], rest).
Proof using laws.
  intros Hd. pose proof (drain_app buf []) as Happ. rewrite app_nil_r, Hd in Happ. simpl in Happ.
  rewrite app_nil_r in Happ.
  destruct (BgpMessage.drain rest) as [[ms2 r2]|e| |]; simpl in *; [|done..].
  injection Happ as Hms <-. rewrite <- (app_nil_r ms) in Hms at 1. by apply app_inv_head in Hms as <-.
Qed.

(** The session handles the messages of its stream, however it is read. *)
Lemma stream_rule events : ∀ buf ms rest s,
  Forall quiet events → BgpMessage.drain buf = Ok ([], buf) →
  BgpMessage.drain (buf ++ concat (map event_data events)) = Ok (ms, rest) → I ms s →
  ∃ s', session_loop prof events buf s = (Ok (Some rest), s') ∧ I [] s'.
Proof using Hidle Hmessage laws.
  induction events as [|event events IH]; intros buf ms rest s Hq Hbuf Hd Hs; simpl in *.
  - rewrite app_nil_r, Hbuf in Hd. injection Hd as <- <-. by exists s.
  - apply Forall_cons in Hq as [Hev Hq]. destruct event as [|data| |]; [done| |done|]; simpl in Hd.
    + rewrite app_assoc, drain_app in Hd. apply bind_Ok_inv in Hd as ([ms1 r1]&Hd1&Hd).
      apply bind_Ok_inv in Hd as ([ms2 r2]&Hd2&[= <- <-]).
      destruct (read_round _ _ ms2 _ _ _ Hd1 Hs) as (s1&Hround&Hs1).
      destruct (IH r1 ms2 r2 s1 Hq (drain_rest _ _ _ Hd1) Hd2 Hs1) as (s'&Hloop&?).
      exists s'. split; [|done]. by erewrite M_bind_Ok by exact Hround.
    + destruct (Hidle _ buf _ Hs) as (s1&Hround&Hs1).
      destruct (IH buf ms rest s1 Hq Hbuf Hd Hs1) as (s'&Hloop&?).
      exists s'. split; [|done]. by erewrite M_bind_Ok by exact Hround.
Qed.
End stream.

(* ------------------------------------------------------------------ *)
(** ** The RIB calls only read the environment *)

Section rib_advances.
Context {ord : HashOrder} {libm : Libm} (p : profile).

#[local] Hint Extern 4 (advances (match ?x with _ => _ end)) => destruct x : advances.
#[local] Hint Extern 5 (advances (if ?x then _ else _)) => destruct x : advances.
#[local] Hint Extern 6 (advances (let _ := _ in _)) => cbv zeta : advances.

Lemma advances_decay e h : advances (PrefixDampening.decay e h).
Proof. unfold PrefixDampening.decay. eauto 8 with advances. Qed.

#[local] Hint Resolve advances_decay : advances.

Lemma advances_record d peer k : advances (DampeningTable.record_withdrawal p d peer k).
Proof.
  unfold DampeningTable.record_withdrawal, DampeningTable.entry_or_new, PrefixDampening.new.
  eauto 12 with advances.
Qed.

Lemma advances_check d peer k : advances (DampeningTable.check_advertisement d peer k).
Proof. unfold DampeningTable.check_advertisement. eauto 12 with advances. Qed.

Lemma advances_decision self key : advances (Rib.run_decision_process self key).
Proof. unfold Rib.run_decision_process. eauto 12 with advances. Qed.

#[local] Hint Resolve advances_record advances_check advances_decision : advances.

Lemma advances_prefix rpki peer peer_as attrs s q :
  advances (Rib.process_prefix p rpki peer peer_as attrs s q).
Proof. destruct s as [[d m] aff]. unfold Rib.process_prefix, Route.new. eauto 12 with advances. Qed.

#[local] Hint Resolve advances_prefix : advances.

Lemma advances_update self peer peer_as nlri attrs withdrawn :
  advances (Rib.process_update p self peer peer_as nlri attrs withdrawn).
Proof. unfold Rib.process_update. eauto 12 with advances. Qed.

Lemma advances_remove_stale self peer : advances (Rib.remove_stale_for_peer self peer).
Proof. unfold Rib.remove_stale_for_peer. eauto 12 with advances. Qed.

#[local] Hint Resolve advances_update advances_remove_stale : advances.

Lemma advances_update_rib peer u eor r : advances (update_rib p peer u eor r).
Proof. unfold update_rib. eauto 12 with advances. Qed.
End rib_advances.

(* ------------------------------------------------------------------ *)
(** ** An UPDATE of an unsuppressed peer *)

(** No prefix of the peer is suppressed. *)
Definition unsuppressed (a : SocketAddr) (r : Rib.t) : Prop :=
  ∀ key, DampeningTable.is_suppressed r.(Rib.dampening) a key = false.

(** The calls on the RIB an UPDATE makes. *)
Definition update_ops (a : SocketAddr) (asn : Z) (u : UpdateMessage) : list rib_op :=
  OpUpdate a asn u.(nlri) u.(path_attributes) u.(withdrawn_routes) ::
  if end_of_rib u then [OpRemoveStale a] else [].

Section updates.
Context {ord : HashOrder} {libm : Libm} (p : profile) (a : SocketAddr) (asn : Z).

(** An UPDATE that withdraws nothing suppresses nothing. *)
Lemma runs_update_unsuppressed n self nlri attrs :
  rib_wf self → rov_ready self.(Rib.rpki) nlri → DampeningTable.room p n self.(Rib.dampening) →
  unsuppressed a self →
  runs (Rib.process_update p self a asn nlri attrs []) (unsuppressed a).
Proof.
  intros Hwf Hready Hroom Hun.
  eapply runs_mono; [by apply (runs_update_suppress p n)|]. intros self' Hs key.
  destruct (from_surj key) as [q <-].
  destruct (DampeningTable.is_suppressed (Rib.dampening self') a _) eqn:Hq; [|done].
  destruct (Hs q Hq) as [Hq'|?%elem_of_nil]; [|done]. by rewrite Hun in Hq'.
Qed.

End updates.

Section update_done.
Context {ord : HashOrder} {libm : Libm} (p : profile) (a : SocketAddr) (asn : Z).

(** What an UPDATE does to the table of its peer, in full; [n] is the number of
    withdrawals that a debug build still has room for afterwards. *)
Definition update_done (n : nat) (u : UpdateMessage) (r r' : Rib.t) : Prop :=
  (rib_wf r' ∧ r'.(Rib.rpki).(RpkiValidator.mode) = RpkiMode.Disabled) ∧
  DampeningTable.room p n r'.(Rib.dampening) ∧
  spec_steps (update_ops a asn u) (view r) (view r') ∧
  (u.(withdrawn_routes) = [] → unsuppressed a r → unsuppressed a r' ∧
    (∀ q, q ∈ u.(nlri) → ∃ route, view r' a (PrefixKey.from q) = Some route ∧
       announced a asn u.(path_attributes) q route) ∧
    ∀ q route, q ∉ u.(nlri) → view r a (PrefixKey.from q) = Some route →
      route.(Route.stale) = false → view r' a (PrefixKey.from q) = Some route).

Lemma accepted_disabled r q :
  r.(Rib.rpki).(RpkiValidator.mode) = RpkiMode.Disabled → unsuppressed a r →
  accepted r.(Rib.dampening) r.(Rib.rpki) a asn q.
Proof.
  intros Hmode Hun. split; [apply Hun|]. unfold RpkiValidator.should_reject. by rewrite Hmode.
Qed.

(** The update itself, before any purge. *)
Lemma runs_process_update_done n u r :
  rib_wf r → r.(Rib.rpki).(RpkiValidator.mode) = RpkiMode.Disabled →
  DampeningTable.room p (length u.(withdrawn_routes) + n) r.(Rib.dampening) →
  runs (Rib.process_update p r a asn u.(nlri) u.(path_attributes) u.(withdrawn_routes)) (λ r1,
    (rib_wf r1 ∧ r1.(Rib.rpki) = r.(Rib.rpki)) ∧ DampeningTable.room p n r1.(Rib.dampening) ∧
    spec_step (OpUpdate a asn u.(nlri) u.(path_attributes) u.(withdrawn_routes)) (view r) (view r1) ∧
    (u.(withdrawn_routes) = [] → unsuppressed a r → unsuppressed a r1 ∧
      (∀ q, q ∈ u.(nlri) → ∃ route, view r1 a (PrefixKey.from q) = Some route ∧
         announced a asn u.(path_attributes) q route) ∧
      ∀ q, q ∉ u.(nlri) → view r1 a (PrefixKey.from q) = view r a (PrefixKey.from q))).
Proof.
  intros Hwf Hmode Hroom e.
  destruct (runs_process_update p n r a asn u.(nlri) u.(path_attributes) u.(withdrawn_routes)
    Hwf (or_introl Hmode) Hroom e) as (r1&e1&Hrun&Hwf1&Hr1&Hroom1&Hadj).
  exists r1, e1. split; [done|]. split; [done|]. split; [done|]. split; [by eapply update_table|].
  intros Hw Hun. assert (unsuppressed a r1) as Hun1.
  { rewrite Hw in Hrun, Hroom. by apply (runs_Ok _ _ _ _ _ (runs_update_unsuppressed p a asn n r
      u.(nlri) u.(path_attributes) Hwf (or_introl Hmode) Hroom Hun) Hrun). }
  split; [done|]. destruct Hadj as [_ Hq]. rewrite Hw in Hq.
  assert (∀ q, accepted r1.(Rib.dampening) r.(Rib.rpki) a asn q) as Hacc.
  { intros q. rewrite <- Hr1. apply accepted_disabled; [by rewrite Hr1|done]. }
  split; intros q Hin; specialize (Hq q); cbv zeta in Hq;
    rewrite decide_False in Hq by (by intros ?%elem_of_nil).
  - rewrite decide_True in Hq by done. destruct Hq as [t Hq]. eexists. by split.
  - rewrite decide_False in Hq by tauto. done.
Qed.

Lemma runs_update_done peer n u r :
  peer.(Peer.addr) = a → peer.(Peer.remote_as) = asn →
  rib_wf r → r.(Rib.rpki).(RpkiValidator.mode) = RpkiMode.Disabled →
  DampeningTable.room p (length u.(withdrawn_routes) + n) r.(Rib.dampening) →
  runs (update_rib p peer u (end_of_rib u) r) (λ '(_, r'), update_done n u r r').
Proof.
  intros Ha Hasn Hwf Hmode Hroom. unfold update_rib. rewrite Ha, Hasn.
  eapply runs_bind; [by apply (runs_process_update_done n)|].
  intros r1 ([Hwf1 Hr1]&Hroom1&Hstep&Hq). rewrite <- Hr1 in Hmode.
  eapply (runs_bind _ _ (update_done n u r)); [|intros r2 ?; by apply runs_ret].
  unfold update_done, update_ops. destruct (end_of_rib u).
  - eapply runs_bind; [by apply runs_and; [apply runs_remove_stale_step|apply (runs_remove_stale r1 a)]|].
    intros [r2 keys] [(Hwf2&Hr2&Hd2&Hstep2) (_&_&_&Hkeys&Hlook)]. apply runs_ret.
    split; [by rewrite Hr2|]. split; [by rewrite Hd2|]. split; [econstructor; [done|]; econstructor; [done|constructor]|].
    intros Hw Hun. destruct (Hq Hw Hun) as (Hun1&Hin&Hout).
    assert (∀ key route, view r1 a key = Some route → route.(Route.stale) = false →
      view r2 a key = Some route) as Hkeep.
    { intros key route Hroute Hst. unfold view in *. rewrite Hlook, decide_False; [done|].
      intros [_ (route'&Hroute'&?)%Hkeys]. congruence. }
    split_and!.
    + intros key. rewrite Hd2. apply Hun1.
    + intros q Hqin. destruct (Hin q Hqin) as (route&Hroute&Hann). exists route. split; [|done].
      apply Hkeep; [done|]. by destruct Hann as (_&_&_&_&?).
    + intros q route Hqout Hroute Hst. apply Hkeep; [|done]. by rewrite Hout.
  - apply runs_ret. split; [done|]. split; [done|]. split; [econstructor; [done|constructor]|].
    intros Hw Hun. destruct (Hq Hw Hun) as (Hun1&Hin&Hout). split_and!; [done..|].
    intros q route Hqout Hroute _. by rewrite Hout.
Qed.
End update_done.

(* ------------------------------------------------------------------ *)
(** ** Sessions whose timers do not expire *)

(** The readings of the clock lie within [H] of [T]. *)
Definition clock_within (T H : Z) (e : Env) : Prop := ∀ n, (T ≤ clock e n < T + H)%Z.

Lemma clock_within_later T H e e' : clock_within T H e → later e e' → clock_within T H e'.
Proof. intros Hc [k Hk] n. rewrite Hk. apply Hc. Qed.

Definition hold_ok (H : Z) (t : BgpTimers.t) : Prop :=
  t.(BgpTimers.hold_time) = 0%Z ∨ (H ≤ from_secs t.(BgpTimers.hold_time))%Z.

(** A timer that was started, was started since [T]. *)
Definition timer_ok (T H : Z) (t : BgpTimers.t) : Prop :=
  ∀ start, t.(BgpTimers.hold_timer_start) = Some start → (T ≤ start)%Z ∧ hold_ok H t.

(** The session of the peer [base], in a state [st] of the FSM: its writes succeed
    and its hold timer does not expire. *)
Record steady (T H : Z) (base : Peer.t) (st : BgpState.t) (s : Session) : Prop := {
  steady_writes n : writes s n = true;
  steady_clock : clock_within T H (env s);
  steady_peer : ∃ t, peer s = Peer.set_timers (Peer.set_state base st) t ∧ timer_ok T H t
}.

Section steady.
Context {api : BytesApi} {laws : BytesLaws api} {ord : HashOrder} {libm : Libm}.
Context (prof : profile) (T H : Z).

Lemma hold_not_expired t e :
  timer_ok T H t → clock_within T H e →
  ∃ e', BgpTimers.hold_timer_expired t e = Ok (false, e') ∧ later e e'.
Proof.
  intros Ht Hc. unfold BgpTimers.hold_timer_expired.
  destruct (Z.eqb_spec (BgpTimers.hold_time t) 0); [exists e; split; [done|apply later_refl]|].
  destruct (BgpTimers.hold_timer_start t) as [start|] eqn:Hs; [|exists e; split; [done|apply later_refl]].
  destruct (Ht start Hs) as [? [?|?]]; [done|]. specialize (Hc 0).
  eexists. split.
  - unfold mbind, io_bind, elapsed, now, mret, io_ret. simpl. by rewrite (proj2 (Z.leb_gt _ _)) by lia.
  - by exists 1.
Qed.

(** An idle round changes neither the state nor the RIB. *)
Lemma steady_idle base st buf s :
  steady T H base st s →
  ∃ s', session_round prof buf Tick s = (Ok (Some buf), s') ∧ rib s' = rib s ∧
    steady T H base st s' ∧ ∀ t, peer s = Peer.set_timers (Peer.set_state base st) t →
      ∃ t', peer s' = Peer.set_timers (Peer.set_state base st) t' ∧
        t'.(BgpTimers.hold_time) = t.(BgpTimers.hold_time) ∧
        t'.(BgpTimers.hold_timer_start) = t.(BgpTimers.hold_timer_start).
Proof.
  intros [Hw Hc (t&Hp&Ht)].
  destruct (hold_not_expired (peer s).(Peer.timers) (env s)) as (e&He&Hlater); [by rewrite Hp|done|].
  destruct (tick_continues prof buf s e He Hw) as (s'&Hrun&Hr&Hl&Hw'&t'&Hp'&Hh&Hs).
  exists s'. split; [done|]. split; [done|]. rewrite Hp in Hp', Hh, Hs. simpl in Hh, Hs. split.
  - split; [done|by eapply clock_within_later, later_trans|].
    exists t'. split; [done|]. intros start. unfold hold_ok. rewrite Hh, Hs. apply Ht.
  - intros t0 Heq. rewrite Heq in Hp. apply (f_equal Peer.timers) in Hp. simpl in Hp. subst t0.
    by exists t'.
Qed.

(** Restarting the hold timer. *)
Lemma reset_hold_steady s :
  clock_within T H (env s) → timer_ok T H (peer s).(Peer.timers) → hold_ok H (peer s).(Peer.timers) →
  ∃ t e, reset_hold_timer s = (Ok tt, set_peer (set_env s e) (Peer.set_timers (peer s) t)) ∧
    later (env s) e ∧ timer_ok T H t ∧ t.(BgpTimers.hold_time) = (peer s).(Peer.timers).(BgpTimers.hold_time).
Proof.
  intros Hc Ht Hok. unfold reset_hold_timer, BgpTimers.reset_hold_timer, gets, modify_peer, modify.
  unfold mbind, M_bind, with_env. destruct (0 <? _)%Z; simpl; (eexists _, _; split; [reflexivity|]).
  - split; [by exists 1|]. split; [|done]. intros start [= <-]. split; [apply Hc|done].
  - split; [apply later_refl|]. by split.
Qed.

Lemma reset_keepalive_steady s :
  ∃ t e, reset_keepalive_timer s = (Ok tt, set_peer (set_env s e) (Peer.set_timers (peer s) t)) ∧
    later (env s) e ∧ t.(BgpTimers.hold_time) = (peer s).(Peer.timers).(BgpTimers.hold_time) ∧
    t.(BgpTimers.hold_timer_start) = (peer s).(Peer.timers).(BgpTimers.hold_timer_start).
Proof.
  unfold reset_keepalive_timer, BgpTimers.reset_keepalive_timer, gets, modify_peer, modify.
  unfold mbind, M_bind, with_env. destruct (0 <? _)%Z; simpl; (eexists _, _; split; [reflexivity|]).
  - split; [by exists 1|]. done.
  - split; [apply later_refl|]. done.
Qed.

(** The OPEN of the peer. *)
Lemma open_steady base body open caps s :
  steady T H base BgpState.OpenSent s →
  Open.parse body = Ok open →
  Capability.parse_from_open_params (E:=Empty_set) open.(optional_params) = Ok caps →
  hold_ok H (BgpTimers.new (Z.min base.(Peer.local).(LocalConfig.hold_time) open.(hold_time))) →
  ∃ s', handle_open body s = (Ok tt, s') ∧ rib s' = rib s ∧
    steady T H (Peer.negotiate (Peer.set_capabilities base caps) open) BgpState.OpenConfirm s' ∧
    hold_ok H (peer s').(Peer.timers).
Proof.
  intros [Hw Hc (t&Hp&_)] Hparse Hcaps Hok.
  set (s1 := set_peer (set_metrics s (Metrics.inc (metrics s) messages_rx_open))
    (Peer.negotiate (Peer.set_capabilities (peer s) caps) open)).
  assert ((peer s).(Peer.local) = base.(Peer.local)) as Hlocal by (by rewrite Hp).
  assert (hold_ok H (peer s1).(Peer.timers)) as Hok1 by (simpl; by rewrite Hlocal).
  assert (timer_ok T H (peer s1).(Peer.timers)) as Ht1 by done.
  destruct (reset_hold_steady s1 Hc Ht1 Hok1) as (t1&e&Hreset&Hlater&Ht&Hhold).
  eexists. split.
  { unfold handle_open. erewrite M_bind_Ok by reflexivity.
    erewrite M_bind_Ok by (unfold try_parse; rewrite Hparse; reflexivity).
    erewrite M_bind_Ok by (unfold pure_call; rewrite Hcaps; reflexivity).
    do 2 (erewrite M_bind_Ok by reflexivity). erewrite M_bind_Ok by exact Hreset.
    erewrite M_bind_Ok by reflexivity. erewrite M_bind_Ok by (unfold write_all; simpl; rewrite Hw; reflexivity).
    reflexivity. }
  simpl. split; [done|]. split.
  - split; [intros n; apply Hw|by eapply clock_within_later|]. exists t1. split; [|done].
    simpl. by rewrite Hp.
  - unfold hold_ok in *. by rewrite Hhold.
Qed.

(** The KEEPALIVE that establishes the session. *)
Lemma keepalive_steady base s :
  steady T H base BgpState.OpenConfirm s → hold_ok H (peer s).(Peer.timers) →
  ∃ s', handle_keepalive s = (Ok tt, s') ∧ rib s' = rib s ∧
    steady T H base BgpState.Established s' ∧ hold_ok H (peer s').(Peer.timers).
Proof.
  intros [Hw Hc (t&Hp&Ht)] Hok.
  set (s1 := set_metrics s (Metrics.inc (metrics s) messages_rx_keepalive)).
  destruct (reset_hold_steady s1) as (t1&e&Hreset&Hlater&Ht1&Hhold); [done|simpl; by rewrite Hp|done|].
  set (s2 := set_peer (set_env s1 e) (Peer.set_state (Peer.set_timers (peer s) t1) BgpState.Established)).
  destruct (reset_keepalive_steady s2) as (t2&e2&Hka&Hlater2&Hhold2&Hstart2).
  eexists. split.
  { unfold handle_keepalive. erewrite M_bind_Ok by reflexivity. erewrite M_bind_Ok by exact Hreset.
    erewrite M_bind_Ok by reflexivity. rewrite decide_True by (simpl; by rewrite Hp).
    erewrite M_bind_Ok.
    2: { unfold transition, modify_peer, modify. simpl. rewrite Hp. simpl. rewrite <- Hp. reflexivity. }
    erewrite M_bind_Ok by exact Hka. reflexivity. }
  simpl in *. split; [done|]. split.
  - split; [done|by eapply clock_within_later, later_trans|]. exists t2. simpl.
    split; [by rewrite Hp|]. intros start. unfold hold_ok. rewrite Hhold2, Hstart2. apply Ht1.
  - unfold hold_ok in *. by rewrite Hhold2, Hhold.
Qed.

(** An UPDATE of an established session. *)
Lemma update_steady n base body u s r :
  steady T H base BgpState.Established s → hold_ok H (peer s).(Peer.timers) →
  Update.parse body = Ok u → rib s = Unlocked r → rib_wf r →
  r.(Rib.rpki).(RpkiValidator.mode) = RpkiMode.Disabled →
  DampeningTable.room prof (length u.(withdrawn_routes) + n) r.(Rib.dampening) →
  ∃ s' r', handle_update prof body s = (Ok tt, s') ∧ rib s' = Unlocked r' ∧
    update_done prof base.(Peer.addr) base.(Peer.remote_as) n u r r' ∧
    steady T H base BgpState.Established s' ∧ hold_ok H (peer s').(Peer.timers).
Proof.
  intros [Hw Hc (t&Hp&Ht)] Hok Hparse Hr Hwf Hmode Hroom.
  set (s1 := set_metrics s (Metrics.inc (metrics s) messages_rx_update)).
  destruct (reset_hold_steady s1) as (t1&e&Hreset&Hlater&Ht1&Hhold); [done|simpl; by rewrite Hp|done|].
  set (m2 := Metrics.fetch_add (Metrics.fetch_add (Metrics.inc (metrics s) messages_rx_update)
    routes_received (Z.of_nat (length u.(nlri)))) routes_withdrawn (Z.of_nat (length u.(withdrawn_routes)))).
  set (p2 := Peer.set_timers (Peer.set_state base BgpState.Established) t1).
  assert (Peer.set_state (Peer.set_timers (peer s) t1)
    (next_state (Peer.set_timers (peer s) t1).(Peer.state) BgpEvent.UpdateMsg) = p2) as Hp2
    by (by rewrite Hp).
  assert (transition BgpEvent.UpdateMsg (set_peer (set_env s1 e) (Peer.set_timers (peer s1) t1)) =
    (Ok tt, set_peer (set_env s1 e) p2)) as Htr by (rewrite <- Hp2; reflexivity).
  destruct (runs_advances (update_rib prof p2 u (end_of_rib u) r) _ e
    (runs_update_done prof _ _ p2 n u r eq_refl eq_refl Hwf Hmode Hroom)) as ([loc r']&e'&Hrun&Hdone&Hlater').
  { apply advances_update_rib. }
  exists (set_metrics (set_env (set_rib (set_metrics (set_peer (set_env s1 e) p2) m2) (Unlocked r')) e')
    (Metrics.set m2 routes_loc_rib (Z.of_nat loc))), r'.
  split.
  { unfold handle_update. erewrite M_bind_Ok by reflexivity.
    erewrite M_bind_Ok by (unfold try_parse; rewrite Hparse; reflexivity).
    erewrite M_bind_Ok by exact Hreset. erewrite M_bind_Ok by exact Htr.
    do 3 (erewrite M_bind_Ok by reflexivity).
    erewrite M_bind_Ok by (unfold with_rib; simpl; rewrite Hr; rewrite Hrun; reflexivity).
    reflexivity. }
  simpl. split; [done|]. split; [exact Hdone|]. split.
  - split; [done|by eapply clock_within_later, later_trans|]. by exists t1.
  - unfold hold_ok in *. simpl in *. by rewrite Hhold.
Qed.
End steady.

(* ------------------------------------------------------------------ *)
(** ** A speaker's messages *)

(** A message that carries an UPDATE. *)
Definition carries {api : BytesApi} (u : UpdateMessage) (m : BgpMessage.t) : Prop :=
  BgpMessage.wf m ∧ m.(BgpMessage.header).(Header.msg_type) = MessageType.Update ∧
  Update.parse m.(BgpMessage.body) = Ok u.

(** The RIB [r'] is [r] with the UPDATEs applied, in order, to the table of [a]; when
    none withdraws anything and nothing of [a] was suppressed, the last UPDATE that
    announces a prefix decides its route. *)
Definition applied (a : SocketAddr) (asn : Z) (us : list UpdateMessage) (r r' : Rib.t) : Prop :=
  (rib_wf r' ∧ r'.(Rib.rpki).(RpkiValidator.mode) = RpkiMode.Disabled) ∧
  spec_steps (concat (map (update_ops a asn) us)) (view r) (view r') ∧
  (Forall (λ u, u.(withdrawn_routes) = []) us → unsuppressed a r → unsuppressed a r' ∧
    ∀ us1 u us2 q, us = us1 ++ u :: us2 → q ∈ u.(nlri) → Forall (λ u2, q ∉ u2.(nlri)) us2 →
      ∃ route, view r' a (PrefixKey.from q) = Some route ∧
        announced a asn u.(path_attributes) q route).

Lemma applied_nil a asn r :
  rib_wf r → r.(Rib.rpki).(RpkiValidator.mode) = RpkiMode.Disabled → applied a asn [] r r.
Proof.
  intros ??. split; [done|]. split; [constructor|]. intros _ ?. split; [done|].
  intros us1 u us2 q Heq. by apply app_cons_not_nil in Heq.
Qed.

Lemma applied_snoc p n a asn us u r r1 r2 :
  applied a asn us r r1 → update_done p a asn n u r1 r2 → applied a asn (us ++ [u]) r r2.
Proof.
  intros (_&Hs1&Hq1) (Hok&_&Hs2&Hq2). split; [done|]. split.
  - rewrite map_app, concat_app. eapply spec_steps_app; [done|]. cbn [map concat].
    by rewrite app_nil_r.
  - rewrite Forall_app, Forall_singleton. intros [Hws Hw] Hun.
    destruct (Hq1 Hws Hun) as [Hun1 Hlast]. destruct (Hq2 Hw Hun1) as (Hun2&Hin&Hout).
    split; [done|]. intros us1 u0 us2 q Heq Hq Hno.
    destruct us2 as [|u2 us2 _] using rev_ind.
    + apply app_inj_tail in Heq as [-> ->]. by apply Hin.
    + change (us1 ++ u0 :: us2 ++ [u2]) with (us1 ++ (u0 :: us2) ++ [u2]) in Heq.
      rewrite app_assoc in Heq. apply app_inj_tail in Heq as [-> ->].
      apply Forall_app in Hno as [Hno Hno2]. rewrite Forall_singleton in Hno2.
      destruct (Hlast us1 u0 us2 q eq_refl Hq Hno) as (route&Hroute&Hann).
      exists route. split; [|done]. apply Hout; [done..|]. by destruct Hann as (_&_&_&_&?).
Qed.

(** The withdrawals of a list of UPDATEs. *)
Definition withdrawals (us : list UpdateMessage) : nat :=
  sum_list (map (λ u, length u.(withdrawn_routes)) us).

Section journey.
Context {api : BytesApi} {laws : BytesLaws api} {ord : HashOrder} {libm : Libm}.
Context (prof : profile) (T H : Z) (base : Peer.t) (open : OpenMessage) (caps : list Capability.t).
Context (mo mk : BgpMessage.t) (us : list UpdateMessage) (mus : list BgpMessage.t) (r : Rib.t).

Let base' : Peer.t := Peer.negotiate (Peer.set_capabilities base caps) open.

Hypothesis Hmo : mo.(BgpMessage.header).(Header.msg_type) = MessageType.Open.
Hypothesis Hopen : Open.parse mo.(BgpMessage.body) = Ok open.
Hypothesis Hcaps : Capability.parse_from_open_params (E:=Empty_set) open.(optional_params) = Ok caps.
Hypothesis Hhold :
  hold_ok H (BgpTimers.new (Z.min base.(Peer.local).(LocalConfig.hold_time) open.(hold_time))).
Hypothesis Hmk : mk.(BgpMessage.header).(Header.msg_type) = MessageType.Keepalive.
Hypothesis Hmus : Forall2 carries us mus.
Hypothesis Hwf : rib_wf r.
Hypothesis Hmode : r.(Rib.rpki).(RpkiValidator.mode) = RpkiMode.Disabled.
Hypothesis Hroom : DampeningTable.room prof (withdrawals us) r.(Rib.dampening).

(** An established session that has applied [past], and will be sent [todo]. *)
Definition established_with (past todo : list UpdateMessage) (s : Session) : Prop :=
  steady T H base' BgpState.Established s ∧ hold_ok H (peer s).(Peer.timers) ∧
  ∃ r', rib s = Unlocked r' ∧ applied base'.(Peer.addr) base'.(Peer.remote_as) past r r' ∧
    DampeningTable.room prof (withdrawals todo) r'.(Rib.dampening).

(** The session while [left] is still to come. *)
Definition journey (left : list BgpMessage.t) (s : Session) : Prop :=
  (left = mo :: mk :: mus ∧ rib s = Unlocked r ∧ steady T H base BgpState.OpenSent s) ∨
  (left = mk :: mus ∧ rib s = Unlocked r ∧ steady T H base' BgpState.OpenConfirm s ∧
   hold_ok H (peer s).(Peer.timers)) ∨
  ∃ past todo, us = past ++ todo ∧ Forall2 carries todo left ∧ established_with past todo s.

Lemma idle_hold st s s' :
  steady T H base' st s → hold_ok H (peer s).(Peer.timers) →
  (∀ t, peer s = Peer.set_timers (Peer.set_state base' st) t →
     ∃ t', peer s' = Peer.set_timers (Peer.set_state base' st) t' ∧
       t'.(BgpTimers.hold_time) = t.(BgpTimers.hold_time) ∧
       t'.(BgpTimers.hold_timer_start) = t.(BgpTimers.hold_timer_start)) →
  hold_ok H (peer s').(Peer.timers).
Proof.
  intros [_ _ (t&Hp&_)] Hok Ht. destruct (Ht t Hp) as (t'&->&Hh&_).
  rewrite Hp in Hok. unfold hold_ok in *. simpl in *. by rewrite Hh.
Qed.

Lemma journey_idle left buf s :
  journey left s →
  ∃ s', session_round prof buf Tick s = (Ok (Some buf), s') ∧ journey left s'.
Proof using.
  intros [(->&Hr&Hs)|[(->&Hr&Hs&Hok)|(past&todo&Hus&Hleft&Hs&Hok&r'&Hr&Happ&Hrm)]];
    destruct (steady_idle prof T H _ _ buf s Hs) as (s'&Hrun&Hr'&Hs'&Ht); exists s'; (split; [done|]).
  - left. by rewrite Hr'.
  - right; left. rewrite Hr'. split_and!; [done..|]. by apply (idle_hold BgpState.OpenConfirm s).
  - right; right. exists past, todo. split_and!; [done..|]. split; [done|].
    split; [by apply (idle_hold BgpState.Established s)|]. exists r'. by rewrite Hr'.
Qed.

Lemma journey_message m left s :
  journey (m :: left) s → ∃ s', handle_message prof m s = (Ok tt, s') ∧ journey left s'.
Proof using All.
  unfold handle_message.
  intros [([= -> ->]&Hr&Hs)|[([= -> ->]&Hr&Hs&Hok)|(past&todo&Hus&Hleft&Hs&Hok&r'&Hr&Happ&Hrm)]].
  - rewrite Hmo. destruct (open_steady T H base _ open caps s Hs Hopen Hcaps Hhold) as (s'&Hrun&Hr'&?&?).
    exists s'. split; [done|]. right; left. by rewrite Hr'.
  - rewrite Hmk. destruct (keepalive_steady T H base' s Hs Hok) as (s'&Hrun&Hr'&?&?).
    exists s'. split; [done|]. right; right. exists [], us. split_and!; [done..|].
    split_and!; [done..|]. exists r. split_and!; [by rewrite Hr'|by apply applied_nil|done].
  - apply Forall2_cons_inv_r in Hleft as (u&todo'&(_&Hty&Hparse)&Htodo&->). rewrite Hty.
    destruct Happ as ([Hwf' Hmode']&Happ).
    destruct (update_steady prof T H (withdrawals todo') base' _ u s r' Hs Hok Hparse Hr Hwf' Hmode' Hrm)
      as (s'&r2&Hrun&Hr2&Hdone&?&?).
    exists s'. split; [done|]. right; right. exists (past ++ [u]), todo'.
    split_and!; [by rewrite <- app_assoc|done|]. split_and!; [done..|]. exists r2.
    split_and!; [done|by eapply applied_snoc|by destruct Hdone as (_&?&_)].
Qed.

(** The whole journey. *)
Lemma journey_loop events s :
  Forall quiet events →
  BgpMessage.drain (concat (map event_data events)) = Ok (mo :: mk :: mus, []) →
  rib s = Unlocked r → steady T H base BgpState.OpenSent s →
  ∃ s', session_loop prof events [] s = (Ok (Some []), s') ∧ established_with us [] s'.
Proof using All.
  intros Hq Hd Hr Hs.
  destruct (stream_rule prof journey journey_idle journey_message events [] (mo :: mk :: mus) [] s
    Hq drain_nil Hd) as (s'&Hrun&Hj); [by left|].
  exists s'. split; [done|]. destruct Hj as [(?&_)|[(?&_)|(past&todo&Hus&Htodo&Hest)]]; [done..|].
  apply Forall2_nil_inv_r in Htodo as ->. rewrite app_nil_r in Hus. by rewrite Hus.
Qed.
End journey.

(** The UPDATEs of a speaker, as messages. *)
Lemma wires_carry {api : BytesApi} {laws : BytesLaws api} us wires :
  Forall update_wf us → Forall2 (λ u wire, Update.serialize (E:=Empty_set) u = Ok wire) us wires →
  ∃ mus, Forall2 carries us mus ∧ wires = map BgpMessage.encode mus.
Proof.
  intros Hwf Hs. induction Hs as [|u wire us wires Hu _ IH].
  - exists []. by split.
  - apply Forall_cons in Hwf as [Hwfu Hwf]. destruct (IH Hwf) as (mus&?&->).
    destruct (update_encoded u Hwfu) as (m&Hm&?&?&?). rewrite Hm in Hu. injection Hu as <-.
    exists (m :: mus). split; [by constructor|done].
Qed.

Lemma carries_wf {api : BytesApi} us mus : Forall2 carries us mus → Forall BgpMessage.wf mus.
Proof. induction 1 as [|u m us mus (?&_) _ IH]; by constructor. Qed.

Lemma local_caps_wf local : u32 local.(LocalConfig.local_as) → Forall Capability.wf (local_caps local).
Proof.
  intros Hl. repeat apply Forall_cons_2; try apply Forall_nil_2; simpl; [done|done| |]; split; by_decide.
Qed.

(** What a speaker that runs this program sends: its OPEN. *)
Lemma local_open_encoded {api : BytesApi} {laws : BytesLaws api} local :
  u32 local.(LocalConfig.local_as) → u16 local.(LocalConfig.hold_time) →
  u32 local.(LocalConfig.router_id) →
  ∃ m open, Open.serialize (local_open local) = BgpMessage.encode m ∧ BgpMessage.wf m ∧
    m.(BgpMessage.header).(Header.msg_type) = MessageType.Open ∧
    Open.parse m.(BgpMessage.body) = Ok open ∧
    open.(my_as) = Z.min local.(LocalConfig.local_as) 65535 ∧
    open.(hold_time) = local.(LocalConfig.hold_time) ∧
    Capability.parse_from_open_params (E:=Empty_set) open.(optional_params) = Ok (local_caps local).
Proof.
  intros Has Hh Hid.
  destruct (open_caps (Z.min local.(LocalConfig.local_as) 65535) local.(LocalConfig.hold_time)
    local.(LocalConfig.router_id) (local_caps local)) as (Hwf&_&Hcaps);
    [unfold uint in *; lia|done|done|by apply local_caps_wf|simpl; lia|].
  destruct (open_encoded _ Hwf) as (m&?&?&?&?). exists m. eexists. split_and!; done.
Qed.

(* ------------------------------------------------------------------ *)
(** ** Properties *)

(** C7: end to end: a session whose peer sends what this program's own OPEN,
    KEEPALIVE and UPDATE encoders write, however the bytes are cut into reads and
    with whatever idle rounds between them, as long as the writes succeed and no
    more time passes than the negotiated hold time (in a debug build, as long as no
    suppression counter can overflow), ends established with the
    peer's AS (as two octets) and capabilities, nothing left in its buffer, and a
    RIB to which exactly the peer's UPDATEs were applied, in order; when none of
    them withdraws and none of the peer's prefixes was suppressed, the last UPDATE
    that announces a prefix decides its route. *)
Theorem session_end_to_end {api : BytesApi} {laws : BytesLaws api} {ord : HashOrder} {libm : Libm}
    prof addr local peer_local us wires events s r T H :
  rib s = Unlocked r → rib_wf r → r.(Rib.rpki).(RpkiValidator.mode) = RpkiMode.Disabled →
  DampeningTable.room prof (withdrawals us) r.(Rib.dampening) →
  (∀ n, writes s n = true) → clock_within T H (env s) →
  hold_ok H (BgpTimers.new
    (Z.min local.(LocalConfig.hold_time) peer_local.(LocalConfig.hold_time))) →
  u32 peer_local.(LocalConfig.local_as) → u16 peer_local.(LocalConfig.hold_time) →
  u32 peer_local.(LocalConfig.router_id) →
  Forall update_wf us → Forall2 (λ u wire, Update.serialize (E:=Empty_set) u = Ok wire) us wires →
  Forall quiet events →
  concat (map event_data events) =
    Open.serialize (local_open peer_local) ++ KeepaliveMessage.serialize ++ concat wires →
  let asn := Z.min peer_local.(LocalConfig.local_as) 65535 in
  ∃ s' r', handle_incoming prof addr local events s = (Ok (Some []), s') ∧
    (peer s').(Peer.state) = BgpState.Established ∧ (peer s').(Peer.remote_as) = asn ∧
    (peer s').(Peer.peer_capabilities) = local_caps peer_local ∧
    rib s' = Unlocked r' ∧ chosen (view r') r'.(Rib.loc_rib) ∧ applied addr asn us r r'.
Proof.
  intros Hr Hwf Hmode Hroom Hw Hc Hhold Has Hh Hid Hus Hwires Hq Hdata asn.
  destruct (local_open_encoded peer_local Has Hh Hid) as (mo&open&Hmo&Hmowf&Hmoty&Hopen&Hasn&Hoh&Hcaps).
  pose proof (wire_encoded (M:=unit) tt) as Hka.
  destruct Hka as (mk&Hmk&Hmkwf&Hmkty&_); [done|by_decide|]. simpl in Hmk, Hmkty.
  destruct (wires_carry us wires Hus Hwires) as (mus&Hmus&->).
  set (base := Peer.set_state (Peer.new addr 0 local) BgpState.OpenSent).
  set (s1 := (write_all (Open.serialize (local_open local)) (set_peer (set_metrics s
    (Metrics.inc (Metrics.inc (metrics s) sessions_active) messages_tx_open)) base)).2).
  assert (steady T H base BgpState.OpenSent s1) as Hs1.
  { split; [intros n; apply Hw|done|]. by exists (BgpTimers.new local.(LocalConfig.hold_time)). }
  rewrite <- Hoh in Hhold.
  destruct (journey_loop prof T H base open (local_caps peer_local) mo mk us mus r Hmoty Hopen Hcaps Hhold
    Hmkty Hmus Hwf Hmode Hroom events s1 Hq) as (s'&Hrun&Hest&_&r'&Hr'&Happ&_); [|done|done|].
  { rewrite Hdata, Hmo, Hmk.
    replace (BgpMessage.encode mo ++ BgpMessage.encode mk ++ concat (map BgpMessage.encode mus))
      with (concat (map BgpMessage.encode (mo :: mk :: mus)) ++ []) by (simpl; by rewrite app_nil_r).
    rewrite drain_encode, drain_nil; [simpl; by rewrite app_nil_r|].
    repeat apply Forall_cons_2; [done..|]. by eapply carries_wf. }
  exists s', r'. split.
  { unfold handle_incoming, run_session. do 6 (erewrite M_bind_Ok by reflexivity).
    erewrite M_bind_Ok by (unfold write_all; simpl; rewrite Hw; reflexivity).
    rewrite <- Hrun. f_equal. unfold s1, write_all. simpl. by rewrite Hw. }
  destruct Hest as [_ _ (t&Hp&_)]. rewrite Hp. simpl. split_and!; try done.
  - by apply rib_wf_chosen; destruct Happ as ([??]&_).
  - unfold asn. rewrite <- Hasn. exact Happ.
Qed.

(* ------------------------------------------------------------------ *)
(** ** Witnesses *)

#[local] Existing Instance list_bytes_api.
#[local] Existing Instances sorted_order no_libm.

Definition announce_update : UpdateMessage :=
  {| withdrawn_routes := []; path_attributes := sample_attrs; nlri := [Prefixes.new 167772160 8] |}.

Lemma announce_update_wf : update_wf announce_update.
Proof.
  split_and!; [by apply Forall_nil|apply sample_attrs_wf| |by_decide].
  apply Forall_singleton. split_and!; [by_decide..|done].
Qed.

(** A wire, and a speaker's stream. *)
Definition wire_of (u : UpdateMessage) : bytes :=
  match Update.serialize (E:=Empty_set) u with Ok wire => wire | _ => [] end.

Lemma announce_wire : Update.serialize (E:=Empty_set) announce_update = Ok (wire_of announce_update).
Proof. vm_compute. reflexivity. Qed.

Definition sample_stream : bytes :=
  Open.serialize (local_open sample_local) ++ KeepaliveMessage.serialize ++
  concat [wire_of announce_update].

(** The stream in three reads, cut within messages, with idle rounds. *)
Definition sample_events : list ReadEvent :=
  [ReadData (take 30 sample_stream); Tick; ReadData (take 40 (drop 30 sample_stream)); Tick;
   ReadData (drop 70 sample_stream)].

Lemma sample_events_data : concat (map event_data sample_events) = sample_stream.
Proof. vm_compute. reflexivity. Qed.

Lemma other_unsuppressed : unsuppressed other_peer sample_rib.
Proof.
  intros key. unfold DampeningTable.is_suppressed. simpl.
  rewrite lookup_insert_ne; [|by intros [=]]. by rewrite lookup_empty.
Qed.

Lemma session_end_to_end_witness :
  ∃ s' r' route, handle_incoming Release other_peer sample_local sample_events
      (sample_session BgpState.Idle None) = (Ok (Some []), s') ∧
    (peer s').(Peer.state) = BgpState.Established ∧ rib s' = Unlocked r' ∧
    view r' other_peer (PrefixKey.mk 167772160 8) = Some route ∧
    route.(Route.attrs) = sample_attrs.
Proof.
  destruct (session_end_to_end Release other_peer sample_local sample_local [announce_update]
    [wire_of announce_update] sample_events (sample_session BgpState.Idle None) sample_rib
    5000000000 1) as (s'&r'&Hrun&Hst&_&_&Hr'&_&_&_&Happ).
  - reflexivity.
  - apply sample_rib_wf.
  - reflexivity.
  - by left.
  - reflexivity.
  - intros n. simpl. lia.
  - right. vm_compute. discriminate.
  - by_decide.
  - by_decide.
  - by_decide.
  - apply Forall_singleton, announce_update_wf.
  - constructor; [apply announce_wire|constructor].
  - repeat apply Forall_cons_2; try apply Forall_nil_2; done.
  - rewrite sample_events_data. reflexivity.
  - destruct Happ as [_ Hlast]; [by apply Forall_singleton|exact other_unsuppressed|].
    destruct (Hlast [] announce_update [] (Prefixes.new 167772160 8)) as (route&Hroute&_&Hattrs&_);
      [done|by left|by apply Forall_nil|].
    exists s', r', route. split_and!; [exact Hrun|exact Hst|exact Hr'|exact Hroute|exact Hattrs].
Defined.
