(* ===== verification/UnitTests.v ===== *)
(** * The program's unit tests: the wire formats

    The [#[cfg(test)]] modules of the sources, as computations of the model: an
    assertion that fails, an [unwrap] of nothing or of an error, is a panic, and a
    test passes when it returns.  A test takes the build profile; the tests of the
    RIB, of its neighbours and of the management interface are in
    [UnitTestsRib.v], which runs them all. *)

From S2P Require Import Prelude.
From S2P Require Import Bytes.
From S2P Require Import Message.
From S2P Require Import ControlMessages.
From S2P Require Import Capabilities.
From S2P Require Import OpenMessage.
From S2P Require Import Attr.
From S2P Require Import UpdateMessage.
From S2P Require Import Env.
From S2P Require Import Mp.

(* ------------------------------------------------------------------ *)
(** ** Assertions *)

Definition panic {A} : io A := λ _, Panic.

(** [assert!] and [assert_eq!] *)
Definition assert (b : bool) : io unit := if b then mret tt else panic.
Definition assert_eq `{EqDecision A} (a b : A) : io unit := assert (bool_decide (a = b)).

(** [Option::unwrap] and [Result::unwrap] *)
Definition unwrap {A} (o : option A) : io A :=
  match o with Some a => mret a | None => panic end.
Definition unwrap_ok {E A} (o : outcome E A) : io A := λ e,
  match o with Ok a => Ok (a, e) | Err _ | Panic => Panic | Diverge => Diverge end.

(** [v[i]] *)
Definition at_index {A} (l : list A) (i : nat) : io A := lift (index l i).

Definition is_none {A} (o : option A) : bool := match o with None => true | Some _ => false end.

(** A test passes when it returns. *)
Definition passes (e : Env) (t : io unit) : bool :=
  match t e with Ok _ => true | _ => false end.

(** [Ipv4Addr::new] *)
Definition ipv4 (a b c d : Z) : Ipv4Addr := of_be [a; b; c; d].

(** [serialized.freeze().slice(HEADER_LEN..)]: the body of a message. *)
Definition body_of (serialized : bytes) : io bytes :=
  lift (slice serialized HEADER_LEN (length serialized)).

Section wire_tests.
Context {api : BytesApi}.

(* ------------------------------------------------------------------ *)
(** ** [message/*.rs] *)

Definition test_header_roundtrip : io unit :=
  let hdr := Header.new MessageType.Keepalive 0 in
  let buf := Header.serialize hdr [] in
  _ ← assert_eq (length buf) HEADER_LEN;
  '(parsed, _) ← unwrap_ok (Header.parse buf);
  _ ← assert_eq parsed.(Header.msg_type) MessageType.Keepalive;
  assert_eq parsed.(Header.len) (Z.of_nat HEADER_LEN).

Definition test_invalid_marker : io unit :=
  assert (match Header.parse (replicate 19 0%Z) with
          | Err MessageError.InvalidMarker => true
          | _ => false
          end).

Definition test_keepalive_serialize : io unit :=
  let bytes := KeepaliveMessage.serialize in
  _ ← assert_eq (length bytes) HEADER_LEN;
  '(hdr, _) ← unwrap_ok (Header.parse bytes);
  _ ← assert_eq hdr.(Header.msg_type) MessageType.Keepalive;
  assert_eq hdr.(Header.len) (Z.of_nat HEADER_LEN).

Definition test_notification_roundtrip : io unit :=
  let orig := NotificationMessage.new ErrorCode.HoldTimerExpired 0 in
  body ← body_of (NotificationMessage.serialize orig);
  parsed ← unwrap_ok (NotificationMessage.parse body);
  _ ← assert_eq parsed.(NotificationMessage.error_code) (ErrorCode.to_u8 ErrorCode.HoldTimerExpired);
  assert_eq parsed.(NotificationMessage.error_subcode) 0%Z.

Definition test_cease_notification : io unit :=
  assert_eq (length (NotificationMessage.serialize NotificationMessage.cease)) (HEADER_LEN + 2).

Definition test_route_refresh_ipv4_unicast : io unit :=
  let bytes := RouteRefresh.serialize (RouteRefresh.new 1 1) in
  ty ← at_index bytes 18;
  _ ← assert_eq ty 5%Z;
  data ← lift (slice bytes 19 (length bytes));
  r ← lift (RouteRefresh.parse data);
  parsed ← unwrap r;
  _ ← assert_eq parsed.(RouteRefresh.afi) 1%Z;
  assert_eq parsed.(RouteRefresh.safi) 1%Z.

Definition test_route_refresh_ipv6_unicast : io unit :=
  let bytes := RouteRefresh.serialize (RouteRefresh.new 2 1) in
  data ← lift (slice bytes 19 (length bytes));
  r ← lift (RouteRefresh.parse data);
  parsed ← unwrap r;
  _ ← assert_eq parsed.(RouteRefresh.afi) 2%Z;
  assert_eq parsed.(RouteRefresh.safi) 1%Z.

Definition test_route_refresh_too_short : io unit :=
  r ← lift (RouteRefresh.parse [1; 0; 0]%Z);
  assert (is_none r).

Definition test_open_roundtrip : io unit :=
  let orig := Open.new 65001 90 (ipv4 10 0 0 1) in
  body ← body_of (Open.serialize orig);
  parsed ← unwrap_ok (Open.parse body);
  _ ← assert_eq parsed.(version) 4%Z;
  _ ← assert_eq parsed.(my_as) 65001%Z;
  _ ← assert_eq parsed.(hold_time) 90%Z;
  assert_eq parsed.(bgp_id) (ipv4 10 0 0 1).

Definition test_open_with_optional_param : io unit :=
  let msg := Open.new 65000 180 (ipv4 1 1 1 1) in
  let msg := {| version := msg.(version); my_as := msg.(my_as); hold_time := msg.(hold_time);
                bgp_id := msg.(bgp_id);
                optional_params := msg.(optional_params) ++
                  [OptionalParam.mk 2 [1; 4; 0; 1; 0; 1]%Z] |} in
  body ← body_of (Open.serialize msg);
  parsed ← unwrap_ok (Open.parse body);
  _ ← assert_eq (length parsed.(optional_params)) 1;
  p ← at_index parsed.(optional_params) 0;
  assert_eq p.(OptionalParam.param_type) 2%Z.

Definition test_prefix_roundtrip : io unit :=
  let p := Prefixes.new (ipv4 192 168 1 0) 24 in
  buf ← lift (Prefixes.serialize p []);
  _ ← assert_eq (length buf) 4;
  '(parsed, _) ← unwrap_ok (Prefixes.parse buf);
  _ ← assert_eq parsed.(prefix_len) 24%Z;
  assert_eq parsed.(address) (ipv4 192 168 1 0).

(** Serialising an UPDATE and parsing its body. *)
Definition reparse (msg : UpdateMessage) : io UpdateMessage :=
  serialized ← lift (Update.serialize msg);
  body ← body_of serialized;
  unwrap_ok (Update.parse body).

Definition test_update_empty_roundtrip : io unit :=
  parsed ← reparse Update.new;
  _ ← assert (bool_decide (parsed.(withdrawn_routes) = []));
  assert (bool_decide (parsed.(nlri) = [])).

Definition test_update_with_attrs_and_nlri : io unit :=
  let attrs := Attrs.set_local_pref (Attrs.set_next_hop (Attrs.set_as_path
    (Attrs.set_origin Update.new.(path_attributes) (Some Origin.Igp))
    [AsPathSegment.AsSequence [65000; 65001]%Z]) (Some (ipv4 10 0 0 1))) (Some 100%Z) in
  let msg := {| withdrawn_routes := Update.new.(withdrawn_routes); path_attributes := attrs;
                nlri := Update.new.(nlri) ++
                  [Prefixes.new (ipv4 10 0 0 0) 8; Prefixes.new (ipv4 172 16 0 0) 12] |} in
  parsed ← reparse msg;
  _ ← assert_eq (length parsed.(nlri)) 2;
  _ ← assert_eq parsed.(path_attributes).(origin) (Some Origin.Igp);
  _ ← assert_eq parsed.(path_attributes).(local_pref) (Some 100%Z);
  assert_eq (Attrs.as_path_len parsed.(path_attributes)) 2.

Definition test_withdrawn_routes : io unit :=
  let msg := {| withdrawn_routes := Update.new.(withdrawn_routes) ++ [Prefixes.new (ipv4 192 168 0 0) 16];
                path_attributes := Update.new.(path_attributes); nlri := Update.new.(nlri) |} in
  parsed ← reparse msg;
  _ ← assert_eq (length parsed.(withdrawn_routes)) 1;
  w ← at_index parsed.(withdrawn_routes) 0;
  assert_eq w.(prefix_len) 16%Z.

(* ------------------------------------------------------------------ *)
(** ** [attr.rs] *)

Definition roundtrip (attrs : PathAttributes) : io PathAttributes :=
  unwrap_ok (Attrs.parse (Attrs.serialize attrs)).

Definition test_origin_roundtrip : io unit :=
  parsed ← roundtrip (Attrs.set_origin Attrs.default (Some Origin.Igp));
  assert_eq parsed.(origin) (Some Origin.Igp).

Definition test_as_path_roundtrip : io unit :=
  parsed ← roundtrip
    (Attrs.set_as_path Attrs.default [AsPathSegment.AsSequence [65001; 65002; 65003]%Z]);
  _ ← assert_eq (length parsed.(as_path)) 1;
  seg ← at_index parsed.(as_path) 0;
  _ ← assert_eq (AsPathSegment.as_numbers seg) [65001; 65002; 65003]%Z;
  assert_eq (Attrs.as_path_len parsed) 3.

Definition test_next_hop_roundtrip : io unit :=
  parsed ← roundtrip (Attrs.set_next_hop Attrs.default (Some (ipv4 192 0 2 1)));
  assert_eq parsed.(next_hop) (Some (ipv4 192 0 2 1)).

Definition test_med_local_pref : io unit :=
  parsed ← roundtrip
    (Attrs.set_local_pref (Attrs.set_multi_exit_disc Attrs.default (Some 100%Z)) (Some 200%Z));
  _ ← assert_eq parsed.(multi_exit_disc) (Some 100%Z);
  assert_eq parsed.(local_pref) (Some 200%Z).

Definition test_communities : io unit :=
  parsed ← roundtrip (Attrs.set_communities Attrs.default [0x00010002; Community.NO_EXPORT]%Z);
  _ ← assert_eq (length parsed.(communities)) 2;
  c1 ← at_index parsed.(communities) 1;
  _ ← assert_eq c1 Community.NO_EXPORT;
  c0 ← at_index parsed.(communities) 0;
  _ ← assert_eq (Community.asn c0) 1%Z;
  c0 ← at_index parsed.(communities) 0;
  assert_eq (Community.value c0) 2%Z.

Definition test_full_attributes : io unit :=
  let attrs := {| origin := Some Origin.Egp;
                  as_path := [AsPathSegment.AsSequence [65000; 65001]%Z;
                              AsPathSegment.AsSet [65002; 65003]%Z];
                  next_hop := Some (ipv4 10 0 0 1); multi_exit_disc := Some 50%Z;
                  local_pref := Some 100%Z; atomic_aggregate := true;
                  aggregator := Attrs.default.(aggregator); communities := [Community.NO_EXPORT];
                  originator_id := Attrs.default.(originator_id);
                  cluster_list := Attrs.default.(cluster_list);
                  unknown := Attrs.default.(unknown) |} in
  parsed ← roundtrip attrs;
  _ ← assert_eq parsed.(origin) (Some Origin.Egp);
  _ ← assert_eq (length parsed.(as_path)) 2;
  _ ← assert_eq (Attrs.as_path_len parsed) 3;
  _ ← assert parsed.(atomic_aggregate);
  c0 ← at_index parsed.(communities) 0;
  assert_eq c0 Community.NO_EXPORT.

(* ------------------------------------------------------------------ *)
(** ** [mp.rs] *)

(** What the standard library parses from the literals of the tests. *)
Definition ip_2001_db8 : Z := Z.shiftl 0x20010db8 96.
Definition ip_2001_db8_1 : Z := Z.shiftl 0x20010db80001 80.
Definition ip_fd00 : Z := Z.shiftl 0xfd00 112.

Definition test_mp_prefix_ipv4_roundtrip : io unit :=
  let p := MpPrefix.ipv4 (ipv4 10 0 0 0) 8 in
  buf ← lift (MpPrefix.serialize p []);
  '(parsed, _) ← unwrap_ok (MpPrefix.parse buf Afi.Ipv4);
  _ ← assert_eq parsed.(MpPrefix.prefix_len) 8%Z;
  assert_eq parsed.(MpPrefix.address) (V4 (ipv4 10 0 0 0)).

Definition test_mp_prefix_ipv6_roundtrip : io unit :=
  let p := MpPrefix.ipv6 ip_2001_db8 32 in
  buf ← lift (MpPrefix.serialize p []);
  '(parsed, _) ← unwrap_ok (MpPrefix.parse buf Afi.Ipv6);
  _ ← assert_eq parsed.(MpPrefix.prefix_len) 32%Z;
  assert_eq parsed.(MpPrefix.address) (V6 ip_2001_db8).

Definition test_mp_reach_nlri_roundtrip : io unit :=
  let reach := MpReachNlri.new Afi.Ipv6 Safi.Unicast (V6 (ip_2001_db8 + 1)) in
  let reach := {| MpReachNlri.afi := reach.(MpReachNlri.afi); MpReachNlri.safi := reach.(MpReachNlri.safi);
                  MpReachNlri.next_hops := reach.(MpReachNlri.next_hops);
                  MpReachNlri.nlri := reach.(MpReachNlri.nlri) ++
                    [MpPrefix.ipv6 ip_2001_db8_1 48; MpPrefix.ipv6 ip_fd00 8] |} in
  serialized ← lift (MpReachNlri.serialize reach);
  parsed ← unwrap_ok (MpReachNlri.parse serialized);
  _ ← assert_eq parsed.(MpReachNlri.afi) Afi.Ipv6;
  _ ← assert_eq (Safi.to_u8 parsed.(MpReachNlri.safi)) (Safi.to_u8 Safi.Unicast);
  _ ← assert_eq (length parsed.(MpReachNlri.next_hops)) 1;
  _ ← assert_eq (length parsed.(MpReachNlri.nlri)) 2;
  p ← at_index parsed.(MpReachNlri.nlri) 0;
  assert_eq p.(MpPrefix.prefix_len) 48%Z.

Definition test_mp_unreach_nlri_roundtrip : io unit :=
  let unreach := MpUnreachNlri.new Afi.Ipv6 Safi.Unicast in
  let unreach := {| MpUnreachNlri.afi := unreach.(MpUnreachNlri.afi);
                    MpUnreachNlri.safi := unreach.(MpUnreachNlri.safi);
                    MpUnreachNlri.withdrawn := unreach.(MpUnreachNlri.withdrawn) ++
                      [MpPrefix.ipv6 ip_2001_db8 32] |} in
  serialized ← lift (MpUnreachNlri.serialize unreach);
  parsed ← unwrap_ok (MpUnreachNlri.parse serialized);
  _ ← assert_eq parsed.(MpUnreachNlri.afi) Afi.Ipv6;
  _ ← assert_eq (length parsed.(MpUnreachNlri.withdrawn)) 1;
  p ← at_index parsed.(MpUnreachNlri.withdrawn) 0;
  assert_eq p.(MpPrefix.prefix_len) 32%Z.

Definition test_mp_reach_ipv4_roundtrip : io unit :=
  let reach := MpReachNlri.new Afi.Ipv4 Safi.Unicast (V4 (ipv4 10 0 0 1)) in
  let reach := {| MpReachNlri.afi := reach.(MpReachNlri.afi); MpReachNlri.safi := reach.(MpReachNlri.safi);
                  MpReachNlri.next_hops := reach.(MpReachNlri.next_hops);
                  MpReachNlri.nlri := reach.(MpReachNlri.nlri) ++ [MpPrefix.ipv4 (ipv4 192 168 0 0) 24] |} in
  serialized ← lift (MpReachNlri.serialize reach);
  parsed ← unwrap_ok (MpReachNlri.parse serialized);
  _ ← assert_eq parsed.(MpReachNlri.afi) Afi.Ipv4;
  p ← at_index parsed.(MpReachNlri.nlri) 0;
  assert_eq p.(MpPrefix.prefix_len) 24%Z.
End wire_tests.

(* ------------------------------------------------------------------ *)
(** ** [capabilities.rs] *)

(** [&bytes[2..]] *)
Definition value_of (bytes : list Z) : io (list Z) := lift (slice bytes 2 (length bytes)).

Definition test_route_refresh_roundtrip : io unit :=
  assert_eq (Capability.to_bytes Capability.RouteRefresh) [2; 0]%Z.

Definition test_four_octet_asn_roundtrip : io unit :=
  let bytes := Capability.to_bytes (Capability.FourOctetAsn 131072) in
  _ ← assert_eq bytes [65; 4; 0; 2; 0; 0]%Z;
  value ← value_of bytes;
  parsed ← lift (Capability.parse_one 65 value);
  assert_eq parsed (Capability.FourOctetAsn 131072).

Definition test_multiprotocol_ipv6 : io unit :=
  let bytes := Capability.to_bytes (Capability.MultiProtocol 2 1) in
  b0 ← at_index bytes 0;
  _ ← assert_eq b0 1%Z;
  value ← value_of bytes;
  parsed ← lift (Capability.parse_one 1 value);
  assert_eq parsed (Capability.MultiProtocol 2 1).

Definition test_graceful_restart : io unit :=
  let bytes := Capability.to_bytes (Capability.GracefulRestart 120 0x8) in
  value ← value_of bytes;
  parsed ← lift (Capability.parse_one 64 value);
  assert (match parsed with Capability.GracefulRestart 120 _ => true | _ => false end).

Definition test_build_capabilities_block : io unit :=
  let caps := [Capability.RouteRefresh; Capability.FourOctetAsn 65001] in
  let block := Capability.build_capabilities caps in
  _ ← assert (2 <? length block);
  data ← lift (slice block 1 (length block));
  parsed ← lift (Capability.parse_optional_params data);
  _ ← assert (bool_decide (Capability.RouteRefresh ∈ parsed));
  assert (bool_decide (Capability.FourOctetAsn 65001 ∈ parsed)).

Definition test_unknown_capability : io unit :=
  parsed ← lift (Capability.parse_one 99 [0xAA; 0xBB]%Z);
  assert (match parsed with Capability.Unknown 99 _ => true | _ => false end).

Definition test_display : io unit :=
  _ ← assert_eq (Capability.to_string Capability.RouteRefresh) "RouteRefresh";
  assert_eq (Capability.to_string (Capability.FourOctetAsn 65000)) "4-byte-ASN(65000)".

(** The tests of this file. *)
Definition wire_suite {api : BytesApi} : list (string * io unit) := [
  ("message::test_header_roundtrip", test_header_roundtrip);
  ("message::test_invalid_marker", test_invalid_marker);
  ("keepalive::test_keepalive_serialize", test_keepalive_serialize);
  ("notification::test_notification_roundtrip", test_notification_roundtrip);
  ("notification::test_cease_notification", test_cease_notification);
  ("route_refresh::test_route_refresh_ipv4_unicast", test_route_refresh_ipv4_unicast);
  ("route_refresh::test_route_refresh_ipv6_unicast", test_route_refresh_ipv6_unicast);
  ("route_refresh::test_route_refresh_too_short", test_route_refresh_too_short);
  ("open::test_open_roundtrip", test_open_roundtrip);
  ("open::test_open_with_optional_param", test_open_with_optional_param);
  ("update::test_prefix_roundtrip", test_prefix_roundtrip);
  ("update::test_update_empty_roundtrip", test_update_empty_roundtrip);
  ("update::test_update_with_attrs_and_nlri", test_update_with_attrs_and_nlri);
  ("update::test_withdrawn_routes", test_withdrawn_routes);
  ("attr::test_origin_roundtrip", test_origin_roundtrip);
  ("attr::test_as_path_roundtrip", test_as_path_roundtrip);
  ("attr::test_next_hop_roundtrip", test_next_hop_roundtrip);
  ("attr::test_med_local_pref", test_med_local_pref);
  ("attr::test_communities", test_communities);
  ("attr::test_full_attributes", test_full_attributes);
  ("mp::test_mp_prefix_ipv4_roundtrip", test_mp_prefix_ipv4_roundtrip);
  ("mp::test_mp_prefix_ipv6_roundtrip", test_mp_prefix_ipv6_roundtrip);
  ("mp::test_mp_reach_nlri_roundtrip", test_mp_reach_nlri_roundtrip);
  ("mp::test_mp_unreach_nlri_roundtrip", test_mp_unreach_nlri_roundtrip);
  ("mp::test_mp_reach_ipv4_roundtrip", test_mp_reach_ipv4_roundtrip);
  ("capabilities::test_route_refresh_roundtrip", test_route_refresh_roundtrip);
  ("capabilities::test_four_octet_asn_roundtrip", test_four_octet_asn_roundtrip);
  ("capabilities::test_multiprotocol_ipv6", test_multiprotocol_ipv6);
  ("capabilities::test_graceful_restart", test_graceful_restart);
  ("capabilities::test_build_capabilities_block", test_build_capabilities_block);
  ("capabilities::test_unknown_capability", test_unknown_capability);
  ("capabilities::test_display", test_display)
].
