(* ===== verification/UnitTestsConfig.v ===== *)
(** * The program's unit tests: the configuration

    The tests of [config.rs].  Each starts from a TOML document; what
    [toml::from_str] and the derived deserializer make of a document is a
    parameter of [from_str], and the tests are proved for every reader that reads
    the thirteen documents below as TOML and the [#[serde(default)]] attributes
    say. *)

From S2P Require Import Prelude.
From S2P Require Import Text.
From S2P Require Import Env.
From S2P Require Import Metrics.
From S2P Require Import Config.
From S2P Require Import UnitTests.

(** [str::contains] *)
Fixpoint str_contains (s needle : string) : bool :=
  String.prefix needle s ||
  match s with EmptyString => false | String _ s => str_contains s needle end.

(* ------------------------------------------------------------------ *)
(** ** The documents *)

(** The raw string literal with these lines between its delimiters. *)
Definition doc (ls : list string) : string :=
  String.concat Metrics.newline (EmptyString :: ls ++ [EmptyString]).

(** A quoted string, and a key bound to one. *)
Definition quoted (s : string) : string := Metrics.quote +:+ s +:+ Metrics.quote.
Definition bound (key value : string) : string := key +:+ " = " +:+ quoted value.

Definition SAMPLE_CONFIG : string := doc [
  "[router]";
  "local_as = 65001";
  bound "router_id" "10.0.0.1";
  bound "listen" "0.0.0.0:179";
  "hold_time = 90";
  EmptyString;
  "[[neighbors]]";
  bound "addr" "192.168.1.2";
  "remote_as = 65002";
  bound "description" "Upstream provider";
  bound "import_policy" "import-from-upstream";
  EmptyString;
  "[[neighbors]]";
  bound "addr" "10.0.0.2";
  "remote_as = 65001";
  bound "description" "iBGP peer";
  "route_reflector_client = true";
  EmptyString;
  "[policy]";
  "[[policy.prefix_lists]]";
  bound "name" "allowed-prefixes";
  "entries = [";
  "    { " +:+ bound "action" "permit" +:+ ", " +:+ bound "prefix" "10.0.0.0/8" +:+ " },";
  "    { " +:+ bound "action" "permit" +:+ ", " +:+ bound "prefix" "172.16.0.0/12" +:+
    ", ge = 24, le = 32 },";
  "    { " +:+ bound "action" "deny" +:+ ",   " +:+ bound "prefix" "0.0.0.0/0" +:+ " },";
  "]";
  EmptyString;
  "[[policy.community_lists]]";
  bound "name" "no-export-comms";
  "communities = [" +:+ quoted "no-export" +:+ ", " +:+ quoted "65001:100" +:+ "]"].

(** The lines of a [router] table and of an element of [neighbors]. *)
Definition router_lines (local_as router_id : string) : list string :=
  ["[router]"; "local_as = " +:+ local_as; bound "router_id" router_id].

Definition neighbor_lines (addr remote_as : string) : list string :=
  [EmptyString; "[[neighbors]]"; bound "addr" addr; "remote_as = " +:+ remote_as].

Definition minimal_doc : string := doc (router_lines "65000" "1.2.3.4").
Definition hold_time_doc : string := doc (router_lines "65000" "1.2.3.4" ++ ["hold_time = 2"]).
Definition zero_as_doc : string := doc (router_lines "0" "1.2.3.4").
Definition unspecified_doc : string := doc (router_lines "65000" "0.0.0.0").
Definition broadcast_doc : string := doc (router_lines "65000" "255.255.255.255").
Definition loopback_doc : string := doc (router_lines "65000" "127.0.0.1").
Definition duplicate_doc : string :=
  doc (router_lines "65000" "1.2.3.4" ++ neighbor_lines "10.0.0.1" "65001" ++
       neighbor_lines "10.0.0.1" "65002").
Definition zero_remote_as_doc : string :=
  doc (router_lines "65000" "1.2.3.4" ++ neighbor_lines "10.0.0.1" "0").
Definition keepalive_doc : string :=
  doc (router_lines "65000" "1.2.3.4" ++ ["hold_time = 90"; "keepalive_interval = 100"]).
Definition password_doc (pw : string) : string :=
  doc (router_lines "65000" "1.2.3.4" ++ neighbor_lines "10.0.0.1" "65001" ++
       [bound "md5_password" pw]).

(** ["x".repeat(81)] *)
Definition long_pw : string := String.concat EmptyString (replicate 81 "x").

(* ------------------------------------------------------------------ *)
(** ** What the documents say *)

Definition router (local_as : Z) (router_id : Ipv4Addr) : RouterConfig.t :=
  RouterConfig.mk local_as router_id default_listen default_hold_time None.

Definition neighbor (addr : Ipv4Addr) (remote_as : Z) (md5_password : option string) :
    NeighborConfig.t :=
  NeighborConfig.mk (V4 addr) remote_as None None false None None md5_password.

Definition no_policy : PolicyConfig.t := PolicyConfig.mk [] [].

Definition sample : Config.t := {|
  Config.router := RouterConfig.mk 65001 (ipv4 10 0 0 1) default_listen 90 None;
  Config.neighbors := [
    NeighborConfig.mk (V4 (ipv4 192 168 1 2)) 65002 None (Some "Upstream provider") false
      (Some "import-from-upstream") None None;
    NeighborConfig.mk (V4 (ipv4 10 0 0 2)) 65001 None (Some "iBGP peer") true None None None];
  Config.policy := PolicyConfig.mk
    [PrefixList.mk "allowed-prefixes" [
       PrefixListEntry.mk FilterAction.Permit "10.0.0.0/8" None None;
       PrefixListEntry.mk FilterAction.Permit "172.16.0.0/12" (Some 24%Z) (Some 32%Z);
       PrefixListEntry.mk FilterAction.Deny "0.0.0.0/0" None None]]
    [CommunityList.mk "no-export-comms" ["no-export"; "65001:100"]]
|}.

Definition with_neighbors (ns : list NeighborConfig.t) : Config.t :=
  Config.mk (router 65000 (ipv4 1 2 3 4)) ns no_policy.

Definition with_router (r : RouterConfig.t) : Config.t := Config.mk r [] no_policy.

(** Each document with the configuration it describes. *)
Definition documents : list (string * Config.t) := [
  (SAMPLE_CONFIG, sample);
  (minimal_doc, with_neighbors []);
  (hold_time_doc, with_router (RouterConfig.mk 65000 (ipv4 1 2 3 4) default_listen 2 None));
  (zero_as_doc, with_router (router 0 (ipv4 1 2 3 4)));
  (unspecified_doc, with_router (router 65000 (ipv4 0 0 0 0)));
  (broadcast_doc, with_router (router 65000 (ipv4 255 255 255 255)));
  (loopback_doc, with_router (router 65000 (ipv4 127 0 0 1)));
  (duplicate_doc, with_neighbors [neighbor (ipv4 10 0 0 1) 65001 None; neighbor (ipv4 10 0 0 1) 65002 None]);
  (zero_remote_as_doc, with_neighbors [neighbor (ipv4 10 0 0 1) 0 None]);
  (keepalive_doc,
     with_router (RouterConfig.mk 65000 (ipv4 1 2 3 4) default_listen 90 (Some 100%Z)));
  (password_doc "secret", with_neighbors [neighbor (ipv4 10 0 0 1) 65001 (Some "secret")]);
  (password_doc EmptyString, with_neighbors [neighbor (ipv4 10 0 0 1) 65001 (Some EmptyString)]);
  (password_doc long_pw, with_neighbors [neighbor (ipv4 10 0 0 1) 65001 (Some long_pw)])
].

(** The reader that knows these documents and no other. *)
Definition read_documents (s : string) : option Config.t :=
  snd <$> List.find (λ dc, bool_decide (dc.1 = s)) documents.

(* ------------------------------------------------------------------ *)
(** ** The tests *)

Section config_tests.
(** [toml::from_str], and the text of an error that is not [validate]'s. *)
Context (toml_from_str : string → option Config.t) (error_text : LoadError → string).

(** [result.unwrap_err().to_string()] *)
Definition unwrap_err_text {A} (o : outcome LoadError A) : io string :=
  match o with
  | Err (Invalid e) => mret (ConfigError.to_string e)
  | Err e => mret (error_text e)
  | _ => panic
  end.

(** [assert!(result.is_err())] *)
Definition assert_is_err {A} (o : outcome LoadError A) : io unit :=
  match o with Err _ => mret tt | Ok _ | Panic => panic | Diverge => λ _, Diverge end.

Definition test_parse_full_config : io unit :=
  cfg ← unwrap_ok (from_str toml_from_str SAMPLE_CONFIG);
  _ ← assert_eq cfg.(Config.router).(RouterConfig.local_as) 65001%Z;
  _ ← assert_eq cfg.(Config.router).(RouterConfig.router_id) (ipv4 10 0 0 1);
  _ ← assert_eq cfg.(Config.router).(RouterConfig.hold_time) 90%Z;
  _ ← assert_eq (length cfg.(Config.neighbors)) 2;
  n0 ← at_index cfg.(Config.neighbors) 0;
  _ ← assert_eq n0.(NeighborConfig.remote_as) 65002%Z;
  n1 ← at_index cfg.(Config.neighbors) 1;
  _ ← assert n1.(NeighborConfig.route_reflector_client);
  _ ← assert_eq (length cfg.(Config.policy).(PolicyConfig.prefix_lists)) 1;
  l0 ← at_index cfg.(Config.policy).(PolicyConfig.prefix_lists) 0;
  _ ← assert_eq (length l0.(PrefixList.entries)) 3;
  assert_eq (length cfg.(Config.policy).(PolicyConfig.community_lists)) 1.

Definition test_minimal_config : io unit :=
  cfg ← unwrap_ok (from_str toml_from_str minimal_doc);
  _ ← assert_eq cfg.(Config.router).(RouterConfig.local_as) 65000%Z;
  assert (length cfg.(Config.neighbors) =? 0).

Definition test_invalid_hold_time : io unit :=
  assert_is_err (from_str toml_from_str hold_time_doc).

Definition test_invalid_as : io unit :=
  assert_is_err (from_str toml_from_str zero_as_doc).

Definition test_invalid_router_id_unspecified : io unit :=
  err ← unwrap_err_text (from_str toml_from_str unspecified_doc);
  assert (str_contains err "0.0.0.0").

Definition test_invalid_router_id_broadcast : io unit :=
  assert_is_err (from_str toml_from_str broadcast_doc).

Definition test_invalid_router_id_loopback : io unit :=
  assert_is_err (from_str toml_from_str loopback_doc).

Definition test_duplicate_neighbor : io unit :=
  err ← unwrap_err_text (from_str toml_from_str duplicate_doc);
  assert (str_contains err "duplicate").

Definition test_neighbor_zero_remote_as : io unit :=
  assert_is_err (from_str toml_from_str zero_remote_as_doc).

Definition test_invalid_keepalive_interval : io unit :=
  err ← unwrap_err_text (from_str toml_from_str keepalive_doc);
  assert (str_contains err "keepalive_interval").

Definition test_md5_password_valid : io unit :=
  cfg ← unwrap_ok (from_str toml_from_str (password_doc "secret"));
  n0 ← at_index cfg.(Config.neighbors) 0;
  assert_eq n0.(NeighborConfig.md5_password) (Some "secret").

Definition test_md5_password_empty_rejected : io unit :=
  err ← unwrap_err_text (from_str toml_from_str (password_doc EmptyString));
  assert (str_contains err "md5_password").

Definition test_md5_password_too_long_rejected : io unit :=
  err ← unwrap_err_text (from_str toml_from_str (password_doc long_pw));
  assert (str_contains err "md5_password").

(** The tests of this file. *)
Definition config_suite : list (string * io unit) := [
  ("config::test_parse_full_config", test_parse_full_config);
  ("config::test_minimal_config", test_minimal_config);
  ("config::test_invalid_hold_time", test_invalid_hold_time);
  ("config::test_invalid_as", test_invalid_as);
  ("config::test_invalid_router_id_unspecified", test_invalid_router_id_unspecified);
  ("config::test_invalid_router_id_broadcast", test_invalid_router_id_broadcast);
  ("config::test_invalid_router_id_loopback", test_invalid_router_id_loopback);
  ("config::test_duplicate_neighbor", test_duplicate_neighbor);
  ("config::test_neighbor_zero_remote_as", test_neighbor_zero_remote_as);
  ("config::test_invalid_keepalive_interval", test_invalid_keepalive_interval);
  ("config::test_md5_password_valid", test_md5_password_valid);
  ("config::test_md5_password_empty_rejected", test_md5_password_empty_rejected);
  ("config::test_md5_password_too_long_rejected", test_md5_password_too_long_rejected)
].

(** With a reader that reads the documents, each test starts from the
    configuration its document describes. *)
Context (Hreads : ∀ d cfg, (d, cfg) ∈ documents → toml_from_str d = Some cfg).

Lemma from_str_document d cfg :
  read_documents d = Some cfg →
  from_str toml_from_str d = (_ ← map_err Invalid (Config.validate cfg); Ok cfg).
Proof.
  intros ([d' c]&[Hin Hd]%List.find_some&->)%fmap_Some. apply bool_decide_eq_true in Hd as <-.
  apply list_elem_of_In, Hreads in Hin. unfold from_str. cbn [fst snd]. by rewrite Hin.
Qed.

Lemma config_suite_passes e : Forall (λ nt, passes e nt.2 = true) config_suite.
Proof.
  unfold config_suite, test_parse_full_config, test_minimal_config, test_invalid_hold_time,
    test_invalid_as, test_invalid_router_id_unspecified, test_invalid_router_id_broadcast,
    test_invalid_router_id_loopback, test_duplicate_neighbor, test_neighbor_zero_remote_as,
    test_invalid_keepalive_interval, test_md5_password_valid, test_md5_password_empty_rejected,
    test_md5_password_too_long_rejected.
  repeat (apply Forall_cons; split;
    [erewrite from_str_document by (vm_compute; reflexivity); vm_compute; reflexivity|]).
  by apply Forall_nil.
Qed.
End config_tests.

(** [read_documents] reads them all. *)
Lemma read_documents_reads d cfg : (d, cfg) ∈ documents → read_documents d = Some cfg.
Proof.
  assert (Forall (λ dc, read_documents dc.1 = Some dc.2) documents) as Hall.
  { unfold documents. repeat (apply Forall_cons; split; [vm_compute; reflexivity|]). by apply Forall_nil. }
  rewrite Forall_forall in Hall. apply (Hall (d, cfg)).
Qed.
