(* ===== verification/UnitTestsRib.v ===== *)
(** * The program's unit tests: the RIB, its neighbours and the management interface

    The tests of [rib.rs], [dampening.rs], [rpki.rs], [policy.rs], [rr.rs],
    [metrics.rs] and [mgmt.rs], and the run of the whole suite.  The one test that
    starts a thread takes the schedule of its two threads. *)

From S2P Require Import Prelude.
From S2P Require Import Bytes.
From S2P Require Import Attr.
From S2P Require Import UpdateMessage.
From S2P Require Import Text.
From S2P Require Import Rpki.
From S2P Require Import Env.
From S2P Require Import Dampening.
From S2P Require Import Rib.
From S2P Require Import Metrics.
From S2P Require Import Config.
From S2P Require Import Policy.
From S2P Require Import RouteReflector.
From S2P Require Import Mgmt.
From S2P Require Import UnitTests.
From S2P Require Import UnitTestsConfig.

(** [std::thread::sleep]: the clock has moved on by [d] at the next reading. *)
Definition sleep (d : Duration) : io unit := λ e,
  Ok (tt, {| clock := λ n, (clock e n + d)%Z; seeds := seeds e |}).

(** ["10.0.0.n:179".parse().unwrap()] *)
Definition peer (n : Z) : SocketAddr :=
  {| ip := V4 (ipv4 10 0 0 n); port := 179; flowinfo := 0; scope_id := 0 |}.

(* ------------------------------------------------------------------ *)
(** ** [rpki.rs] *)

Definition validator_with_roas : RpkiValidator.t :=
  let v := RpkiValidator.new RpkiMode.Strict in
  let v := RpkiValidator.add_roa v (Roa.new (ipv4 10 0 0 0) 8 24 65001) in
  RpkiValidator.add_roa v (Roa.new (ipv4 192 168 0 0) 16 16 65002).

Definition set_mode (v : RpkiValidator.t) (mode : RpkiMode.t) : RpkiValidator.t :=
  RpkiValidator.mk mode v.(RpkiValidator.roas).

Section rpki_tests.
Context (p : profile).

Definition test_valid_route : io unit :=
  s ← lift (RpkiValidator.validate p validator_with_roas (ipv4 10 1 0 0) 24 65001);
  assert_eq s RovState.Valid.

Definition test_invalid_wrong_origin : io unit :=
  s ← lift (RpkiValidator.validate p validator_with_roas (ipv4 10 1 0 0) 24 65099);
  assert_eq s RovState.Invalid.

Definition test_invalid_prefix_too_long : io unit :=
  s ← lift (RpkiValidator.validate p validator_with_roas (ipv4 10 1 2 0) 25 65001);
  assert_eq s RovState.NotFound.

Definition test_not_found : io unit :=
  s ← lift (RpkiValidator.validate p validator_with_roas (ipv4 172 16 0 0) 12 65001);
  assert_eq s RovState.NotFound.

Definition test_disabled_mode_always_not_found : io unit :=
  let v := set_mode validator_with_roas RpkiMode.Disabled in
  s ← lift (RpkiValidator.validate p v (ipv4 10 1 0 0) 24 65001);
  assert_eq s RovState.NotFound.

Definition test_should_reject_strict : io unit :=
  let v := validator_with_roas in
  _ ← assert (RpkiValidator.should_reject v RovState.Invalid);
  _ ← assert (negb (RpkiValidator.should_reject v RovState.Valid));
  assert (negb (RpkiValidator.should_reject v RovState.NotFound)).

Definition test_should_not_reject_loose : io unit :=
  let v := set_mode validator_with_roas RpkiMode.Loose in
  _ ← assert (negb (RpkiValidator.should_reject v RovState.Invalid));
  assert (negb (RpkiValidator.should_reject v RovState.Valid)).

(** [assert!(roa.covers(..))] and [assert!(!roa.covers(..))] *)
Definition assert_covers (expected : bool) (roa : Roa.t) (addr : Ipv4Addr) (len : Z) : io unit :=
  c ← lift (Roa.covers p roa addr len);
  assert (Bool.eqb c expected).

Definition test_roa_covers_exact_length : io unit :=
  let roa := Roa.new (ipv4 192 168 0 0) 16 16 65001 in
  _ ← assert_covers true roa (ipv4 192 168 0 0) 16;
  _ ← assert_covers false roa (ipv4 192 168 0 0) 15;
  assert_covers false roa (ipv4 192 168 0 0) 17.

Definition test_roa_covers_subnet : io unit :=
  let roa := Roa.new (ipv4 10 0 0 0) 8 24 65001 in
  _ ← assert_covers true roa (ipv4 10 0 0 0) 8;
  _ ← assert_covers true roa (ipv4 10 1 0 0) 16;
  _ ← assert_covers true roa (ipv4 10 1 2 0) 24;
  _ ← assert_covers false roa (ipv4 10 1 2 0) 25;
  assert_covers false roa (ipv4 11 0 0 0) 8.

Definition test_rov_state_display : io unit :=
  _ ← assert_eq (RovState.to_string RovState.Valid) "valid";
  _ ← assert_eq (RovState.to_string RovState.Invalid) "invalid";
  assert_eq (RovState.to_string RovState.NotFound) "not-found".

Definition test_rpki_mode_display : io unit :=
  _ ← assert_eq (RpkiMode.to_string RpkiMode.Disabled) "disabled";
  _ ← assert_eq (RpkiMode.to_string RpkiMode.Loose) "loose";
  assert_eq (RpkiMode.to_string RpkiMode.Strict) "strict".
End rpki_tests.

(* ------------------------------------------------------------------ *)
(** ** [dampening.rs] *)

Definition pfx (a : Z) : PrefixKey.t := PrefixKey.mk (ipv4 10 0 0 a) 24.
Definition damp_peer : SocketAddr := peer 1.

(** [DampeningConfig { suppress_limit, max_suppress_time, ..Default::default() }] *)
Definition config_with (suppress_limit : f64) (max_suppress_time : Duration) : DampeningConfig.t :=
  {| DampeningConfig.penalty_per_flap := DampeningConfig.default.(DampeningConfig.penalty_per_flap);
     DampeningConfig.suppress_limit := suppress_limit;
     DampeningConfig.reuse_limit := DampeningConfig.default.(DampeningConfig.reuse_limit);
     DampeningConfig.half_life_secs := DampeningConfig.default.(DampeningConfig.half_life_secs);
     DampeningConfig.max_suppress_time := max_suppress_time |}.

Definition config_1500 : DampeningConfig.t :=
  config_with (F64.of_Z 1500) DampeningConfig.default.(DampeningConfig.max_suppress_time).

(** [DampeningConfig { half_life_secs: 1.0, ..Default::default() }] *)
Definition config_half_life_1 : DampeningConfig.t :=
  {| DampeningConfig.penalty_per_flap := DampeningConfig.default.(DampeningConfig.penalty_per_flap);
     DampeningConfig.suppress_limit := DampeningConfig.default.(DampeningConfig.suppress_limit);
     DampeningConfig.reuse_limit := DampeningConfig.default.(DampeningConfig.reuse_limit);
     DampeningConfig.half_life_secs := F64.of_Z 1;
     DampeningConfig.max_suppress_time := DampeningConfig.default.(DampeningConfig.max_suppress_time) |}.

(** [entry.penalty = penalty] *)
Definition set_penalty (entry : PrefixDampening.t) (penalty : f64) : PrefixDampening.t :=
  {| PrefixDampening.penalty := penalty;
     PrefixDampening.suppressed := entry.(PrefixDampening.suppressed);
     PrefixDampening.suppressed_at := entry.(PrefixDampening.suppressed_at);
     PrefixDampening.last_decay := entry.(PrefixDampening.last_decay);
     PrefixDampening.suppress_count := entry.(PrefixDampening.suppress_count) |}.

Section dampening_tests.
Context {libm : Libm} (p : profile).

Definition test_no_suppression_single_flap : io unit :=
  let table := DampeningTable.new DampeningConfig.default in
  '(suppressed, _) ← DampeningTable.record_withdrawal p table damp_peer (pfx 1);
  assert (negb suppressed).

Definition test_suppression_after_two_flaps : io unit :=
  let table := DampeningTable.new config_1500 in
  '(_, table) ← DampeningTable.record_withdrawal p table damp_peer (pfx 1);
  '(suppressed, table) ← DampeningTable.record_withdrawal p table damp_peer (pfx 1);
  _ ← assert suppressed;
  _ ← assert (DampeningTable.is_suppressed table damp_peer (pfx 1));
  assert_eq (DampeningTable.suppressed_count table) 1.

Definition test_unsuppressed_on_advertisement_below_reuse : io unit :=
  let table := DampeningTable.new config_1500 in
  '(_, table) ← DampeningTable.record_withdrawal p table damp_peer (pfx 1);
  '(_, table) ← DampeningTable.record_withdrawal p table damp_peer (pfx 1);
  _ ← assert (DampeningTable.is_suppressed table damp_peer (pfx 1));
  entry ← unwrap (table.(DampeningTable.state) !! (damp_peer, pfx 1));
  let table := DampeningTable.set_entry table (damp_peer, pfx 1)
    (set_penalty entry (F64.of_Z 500)) in
  '(still_suppressed, table) ← DampeningTable.check_advertisement table damp_peer (pfx 1);
  _ ← assert (negb still_suppressed);
  assert (negb (DampeningTable.is_suppressed table damp_peer (pfx 1))).

Definition test_max_suppress_time_override : io unit :=
  let table := DampeningTable.new (config_with (F64.of_Z 1500) 1000000) in
  '(_, table) ← DampeningTable.record_withdrawal p table damp_peer (pfx 1);
  '(_, table) ← DampeningTable.record_withdrawal p table damp_peer (pfx 1);
  _ ← assert (DampeningTable.is_suppressed table damp_peer (pfx 1));
  _ ← sleep 5000000;
  '(still_suppressed, _) ← DampeningTable.check_advertisement table damp_peer (pfx 1);
  assert (negb still_suppressed).

Definition test_penalty_decays_over_time : io unit :=
  let table := DampeningTable.new config_half_life_1 in
  entry ← DampeningTable.entry_or_new table (damp_peer, pfx 1);
  let table := DampeningTable.set_entry table (damp_peer, pfx 1)
    (set_penalty entry (F64.of_Z 2000)) in
  _ ← sleep 1100000000;
  '(penalty, _) ← DampeningTable.current_penalty table damp_peer (pfx 1);
  _ ← assert (F64.ltb penalty (F64.of_Z 1100));
  assert (F64.ltb (F64.of_Z 800) penalty).

Definition test_remove_peer_clears_state : io unit :=
  let table := DampeningTable.new config_1500 in
  '(_, table) ← DampeningTable.record_withdrawal p table damp_peer (pfx 1);
  '(_, table) ← DampeningTable.record_withdrawal p table damp_peer (pfx 1);
  _ ← assert_eq (DampeningTable.suppressed_count table) 1;
  let table := DampeningTable.remove_peer table damp_peer in
  _ ← assert_eq (DampeningTable.suppressed_count table) 0;
  assert_eq (size table.(DampeningTable.state)) 0.

Definition test_independent_prefixes : io unit :=
  let table := DampeningTable.new config_1500 in
  '(_, table) ← DampeningTable.record_withdrawal p table damp_peer (pfx 1);
  '(_, table) ← DampeningTable.record_withdrawal p table damp_peer (pfx 1);
  '(_, table) ← DampeningTable.record_withdrawal p table damp_peer (pfx 2);
  _ ← assert (DampeningTable.is_suppressed table damp_peer (pfx 1));
  _ ← assert (negb (DampeningTable.is_suppressed table damp_peer (pfx 2)));
  assert_eq (DampeningTable.suppressed_count table) 1.
End dampening_tests.

(* ------------------------------------------------------------------ *)
(** ** [policy.rs] *)

Definition make_engine : PolicyEngine.t := PolicyEngine.new
  {| PolicyConfig.prefix_lists := [
       {| PrefixList.name := "allow-rfc1918";
          PrefixList.entries := [
            PrefixListEntry.mk FilterAction.Permit "10.0.0.0/8" (Some 8%Z) (Some 24%Z);
            PrefixListEntry.mk FilterAction.Permit "192.168.0.0/16" None None;
            PrefixListEntry.mk FilterAction.Deny "0.0.0.0/0" None None] |};
       {| PrefixList.name := "exact-only";
          PrefixList.entries := [PrefixListEntry.mk FilterAction.Permit "172.16.0.0/12" None None] |}];
     PolicyConfig.community_lists := [
       {| CommunityList.name := "no-export-comms";
          CommunityList.communities := ["no-export"; "65001:100"] |}] |}.

Definition prefix_of (addr : string) (len : Z) : io Prefix :=
  a ← unwrap (Text.parse_addr addr); mret (Prefixes.new a len).

Section policy_tests.
Context (p : profile).

(** [assert!(eng.apply(..))] and [assert!(!eng.apply(..))] *)
Definition assert_apply (expected : bool) (name addr : string) (len : Z) : io unit :=
  q ← prefix_of addr len;
  b ← lift (PolicyEngine.apply p make_engine name q Attrs.default);
  assert (Bool.eqb b expected).

Definition test_permit_in_range : io unit :=
  _ ← assert_apply true "allow-rfc1918" "10.0.0.0" 8;
  _ ← assert_apply true "allow-rfc1918" "10.1.0.0" 16;
  assert_apply false "allow-rfc1918" "10.0.0.0" 25.

Definition test_exact_prefix_match : io unit :=
  _ ← assert_apply true "allow-rfc1918" "192.168.0.0" 16;
  assert_apply false "allow-rfc1918" "192.168.1.0" 24.

Definition test_exact_only_policy : io unit :=
  _ ← assert_apply true "exact-only" "172.16.0.0" 12;
  assert_apply false "exact-only" "172.16.1.0" 24.

Definition test_unknown_policy_default_permit : io unit :=
  assert_apply true "nonexistent" "1.2.3.0" 24.

Definition test_community_matching : io unit :=
  let attrs := Attrs.set_communities Attrs.default [Community.NO_EXPORT] in
  _ ← assert (PolicyEngine.matches_community_list make_engine "no-export-comms" attrs);
  let attrs2 := Attrs.set_communities Attrs.default [Z.lor (wrap 32 (Z.shiftl 65001 16)) 100] in
  _ ← assert (PolicyEngine.matches_community_list make_engine "no-export-comms" attrs2);
  let attrs3 := Attrs.default in
  assert (negb (PolicyEngine.matches_community_list make_engine "no-export-comms" attrs3)).

Definition test_community_parse : io unit :=
  _ ← assert_eq (parse_community_str "no-export") (Some Community.NO_EXPORT);
  c ← unwrap (parse_community_str "65001:200");
  _ ← assert_eq (Community.asn c) 65001%Z;
  _ ← assert_eq (Community.value c) 200%Z;
  assert (is_none (parse_community_str "invalid")).

(** [assert!(is_subnet(..))] and [assert!(!is_subnet(..))] *)
Definition assert_subnet (expected : bool) (test : string) (test_len : Z) (net : string) (net_len : Z) :
    io unit :=
  a ← unwrap (Text.parse_addr test);
  n ← unwrap (Text.parse_addr net);
  b ← lift (is_subnet p a test_len n net_len);
  assert (Bool.eqb b expected).

Definition test_is_subnet : io unit :=
  _ ← assert_subnet true "10.1.0.0" 16 "10.0.0.0" 8;
  _ ← assert_subnet false "192.168.0.0" 16 "10.0.0.0" 8;
  assert_subnet true "1.2.3.4" 32 "0.0.0.0" 0.
End policy_tests.

(* ------------------------------------------------------------------ *)
(** ** [rr.rs] *)

Definition make_rr : RouteReflector.t :=
  RouteReflector.new (RrConfig.new (ipv4 10 0 0 1)) (ipv4 10 0 0 1).

Definition test_reflect_client_to_client : io unit :=
  assert (RouteReflector.should_reflect make_rr RrRole.Client RrRole.Client (peer 2) (peer 3)).

Definition test_reflect_client_to_non_client : io unit :=
  assert (RouteReflector.should_reflect make_rr RrRole.Client RrRole.NonClient (peer 2) (peer 3)).

Definition test_no_reflect_non_client_to_non_client : io unit :=
  assert (negb (RouteReflector.should_reflect make_rr RrRole.NonClient RrRole.NonClient (peer 2) (peer 3))).

Definition test_reflect_non_client_to_client : io unit :=
  assert (RouteReflector.should_reflect make_rr RrRole.NonClient RrRole.Client (peer 2) (peer 3)).

Definition test_no_reflect_to_originator : io unit :=
  assert (negb (RouteReflector.should_reflect make_rr RrRole.Client RrRole.Client (peer 2) (peer 2))).

Definition test_cluster_loop_detection : io unit :=
  let attrs := Attrs.set_cluster_list Attrs.default [ipv4 10 0 0 1] in
  _ ← assert (RouteReflector.has_cluster_loop make_rr attrs);
  let attrs2 := Attrs.set_cluster_list Attrs.default [ipv4 10 0 0 99] in
  assert (negb (RouteReflector.has_cluster_loop make_rr attrs2)).

Definition test_originator_loop_detection : io unit :=
  let attrs := Attrs.set_originator_id Attrs.default (Some (ipv4 10 0 0 1)) in
  assert (RouteReflector.has_originator_loop make_rr attrs).

Definition test_prepare_reflected_attrs : io unit :=
  let reflected := RouteReflector.prepare_reflected_attrs make_rr Attrs.default (ipv4 10 0 0 5) in
  _ ← assert_eq reflected.(originator_id) (Some (ipv4 10 0 0 5));
  assert_eq reflected.(cluster_list) [ipv4 10 0 0 1].

Definition test_cluster_list_prepend : io unit :=
  let attrs := Attrs.set_cluster_list Attrs.default [ipv4 10 0 0 99] in
  let reflected := RouteReflector.prepare_reflected_attrs make_rr attrs (ipv4 10 0 0 5) in
  c0 ← at_index reflected.(cluster_list) 0;
  _ ← assert_eq c0 (ipv4 10 0 0 1);
  c1 ← at_index reflected.(cluster_list) 1;
  assert_eq c1 (ipv4 10 0 0 99).

Definition test_originator_id_not_overwritten : io unit :=
  let attrs := Attrs.set_originator_id Attrs.default (Some (ipv4 10 0 0 50)) in
  let reflected := RouteReflector.prepare_reflected_attrs make_rr attrs (ipv4 10 0 0 99) in
  assert_eq reflected.(originator_id) (Some (ipv4 10 0 0 50)).

(* ------------------------------------------------------------------ *)
(** ** [metrics.rs] *)

Definition test_metrics_increment : io unit :=
  let m := Metrics.inc Metrics.new sessions_established in
  let m := Metrics.inc m sessions_established in
  let m := Metrics.inc m messages_rx_update in
  _ ← assert_eq (Metrics.get m sessions_established) 2%Z;
  _ ← assert_eq (Metrics.get m messages_rx_update) 1%Z;
  assert_eq (Metrics.get m sessions_active) 0%Z.

Definition test_prometheus_output : io unit :=
  let m := Metrics.inc Metrics.new sessions_active in
  let m := Metrics.inc m routes_received in
  let m := Metrics.inc m routes_received in
  let out := Metrics.prometheus_text m in
  _ ← assert (str_contains out "bgp_sessions_active 1");
  _ ← assert (str_contains out "bgp_routes_received_total 2");
  _ ← assert (str_contains out "# HELP");
  assert (str_contains out "# TYPE").

Definition test_text_summary : io unit :=
  let m := Metrics.set Metrics.new routes_loc_rib 42 in
  let out := Metrics.text_summary m in
  assert (str_contains out "Loc-RIB:    42").

(** Two threads that share the counters: each element of the schedule runs the next
    step of the first thread or of the second; once one has returned the other runs
    alone. *)
Fixpoint run_threads {S} (schedule : list bool) (t1 t2 : list (S → S)) (s : S) : S :=
  match schedule, t1, t2 with
  | true :: schedule, f :: t1, t2 => run_threads schedule t1 t2 (f s)
  | false :: schedule, t1, f :: t2 => run_threads schedule t1 t2 (f s)
  | true :: schedule, [], t2 => run_threads schedule [] t2 s
  | false :: schedule, t1, [] => run_threads schedule t1 [] s
  | [], t1, t2 => foldl (λ s f, f s) s (t1 ++ t2)
  end.

(** [for _ in 0..1000 { m.inc(&m.messages_rx_keepalive) }] *)
Definition thread : list (Metrics.t → Metrics.t) :=
  replicate 1000 (λ m, Metrics.inc m messages_rx_keepalive).

Definition test_thread_safe_shared (schedule : list bool) : io unit :=
  let m := run_threads schedule thread thread Metrics.new in
  assert_eq (Metrics.get m messages_rx_keepalive) 2000%Z.

(* ------------------------------------------------------------------ *)
(** ** [rib.rs] *)

Section rib_tests.
Context {ord : HashOrder} {libm : Libm} (p : profile).

Definition test_basic_route_insertion : io unit :=
  let rib := Rib.new in
  let prefix := Prefixes.new (ipv4 10 0 0 0) 8 in
  let attrs := Attrs.set_local_pref (Attrs.set_origin Attrs.default (Some Origin.Igp)) (Some 100%Z) in
  rib ← Rib.process_update p rib (peer 1) 65001 [prefix] attrs [];
  _ ← assert_eq (Rib.prefix_count rib) 1;
  best ← unwrap (rib.(Rib.loc_rib) !! PrefixKey.from prefix);
  assert_eq best.(Route.peer_addr) (peer 1).

Definition test_best_path_local_pref : io unit :=
  let rib := Rib.new in
  let prefix := Prefixes.new (ipv4 192 168 0 0) 24 in
  let attrs_low := Attrs.set_local_pref Attrs.default (Some 50%Z) in
  rib ← Rib.process_update p rib (peer 1) 65001 [prefix] attrs_low [];
  let attrs_high := Attrs.set_local_pref Attrs.default (Some 200%Z) in
  rib ← Rib.process_update p rib (peer 2) 65002 [prefix] attrs_high [];
  best ← unwrap (rib.(Rib.loc_rib) !! PrefixKey.from prefix);
  assert_eq best.(Route.peer_addr) (peer 2).

Definition test_best_path_as_path_length : io unit :=
  let rib := Rib.new in
  let prefix := Prefixes.new (ipv4 172 16 0 0) 16 in
  let attrs_long := Attrs.set_as_path (Attrs.set_local_pref Attrs.default (Some 100%Z))
    [AsPathSegment.AsSequence [65001; 65002; 65003]%Z] in
  rib ← Rib.process_update p rib (peer 1) 65001 [prefix] attrs_long [];
  let attrs_short := Attrs.set_as_path (Attrs.set_local_pref Attrs.default (Some 100%Z))
    [AsPathSegment.AsSequence [65004]%Z] in
  rib ← Rib.process_update p rib (peer 2) 65002 [prefix] attrs_short [];
  best ← unwrap (rib.(Rib.loc_rib) !! PrefixKey.from prefix);
  assert_eq best.(Route.peer_addr) (peer 2).

Definition test_withdraw_route : io unit :=
  let rib := Rib.new in
  let prefix := Prefixes.new (ipv4 10 0 0 0) 8 in
  rib ← Rib.process_update p rib (peer 1) 65001 [prefix] Attrs.default [];
  _ ← assert_eq (Rib.prefix_count rib) 1;
  rib ← Rib.process_update p rib (peer 1) 65001 [] Attrs.default [prefix];
  assert_eq (Rib.prefix_count rib) 0.

Definition test_remove_peer : io unit :=
  let rib := Rib.new in
  let p1 := Prefixes.new (ipv4 10 0 0 0) 8 in
  let p2 := Prefixes.new (ipv4 172 16 0 0) 16 in
  rib ← Rib.process_update p rib (peer 1) 65001 [p1; p2] Attrs.default [];
  _ ← assert_eq (Rib.prefix_count rib) 2;
  '(rib, _) ← Rib.remove_peer rib (peer 1);
  assert_eq (Rib.prefix_count rib) 0.

Definition test_summary : io unit :=
  let rib := Rib.new in
  let p1 := Prefixes.new (ipv4 10 0 0 0) 8 in
  let p2 := Prefixes.new (ipv4 172 16 0 0) 16 in
  rib ← Rib.process_update p rib (peer 1) 65001 [p1; p2] Attrs.default [];
  let '(peers, adj, loc) := Rib.summary rib in
  _ ← assert_eq peers 1;
  _ ← assert_eq adj 2;
  assert_eq loc 2.

Definition test_longest_prefix_match_basic : io unit :=
  let rib := Rib.new in
  let p8 := Prefixes.new (ipv4 10 0 0 0) 8 in
  let p24 := Prefixes.new (ipv4 10 1 2 0) 24 in
  rib ← Rib.process_update p rib (peer 1) 65001 [p8; p24] Attrs.default [];
  m ← Rib.longest_match p rib (ipv4 10 1 2 5);
  '(key, _) ← unwrap m;
  _ ← assert_eq key.(PrefixKey.prefix_len) 24%Z;
  m ← Rib.longest_match p rib (ipv4 10 2 0 1);
  '(key, _) ← unwrap m;
  _ ← assert_eq key.(PrefixKey.prefix_len) 8%Z;
  m ← Rib.longest_match p rib (ipv4 192 0 0 1);
  assert (is_none m).

Definition test_longest_prefix_match_default_route : io unit :=
  let rib := Rib.new in
  let default := Prefixes.new (ipv4 0 0 0 0) 0 in
  let specific := Prefixes.new (ipv4 10 0 0 0) 8 in
  rib ← Rib.process_update p rib (peer 1) 65001 [default; specific] Attrs.default [];
  m ← Rib.longest_match p rib (ipv4 10 5 0 1);
  '(key, _) ← unwrap m;
  _ ← assert_eq key.(PrefixKey.prefix_len) 8%Z;
  m ← Rib.longest_match p rib (ipv4 1 2 3 4);
  '(key, _) ← unwrap m;
  assert_eq key.(PrefixKey.prefix_len) 0%Z.

Definition test_longest_prefix_match_empty_rib : io unit :=
  m ← Rib.longest_match p Rib.new (ipv4 10 0 0 1);
  assert (is_none m).

(** [rib.adj_rib_in(&peer).unwrap()[&key].stale] *)
Definition is_stale (rib : Rib.t) (peer_addr : SocketAddr) (prefix : Prefix) : io bool :=
  adj ← unwrap (rib.(Rib.adj_rib_in) !! peer_addr);
  route ← unwrap ((adj : AdjRibIn) !! PrefixKey.from prefix);
  mret route.(Route.stale).

Definition test_graceful_restart_mark_stale : io unit :=
  let q := Prefixes.new (ipv4 10 0 0 0) 8 in
  rib ← Rib.process_update p Rib.new (peer 1) 65001 [q] Attrs.default [];
  stale ← is_stale rib (peer 1) q;
  _ ← assert (negb stale);
  let rib := Rib.mark_peer_stale rib (peer 1) in
  stale ← is_stale rib (peer 1) q;
  _ ← assert stale;
  _ ← assert_eq (Rib.prefix_count rib) 1;
  assert_eq (Rib.stale_route_count rib) 1.

Definition test_graceful_restart_refresh_clears_stale : io unit :=
  let q := Prefixes.new (ipv4 10 0 0 0) 8 in
  rib ← Rib.process_update p Rib.new (peer 1) 65001 [q] Attrs.default [];
  let rib := Rib.mark_peer_stale rib (peer 1) in
  rib ← Rib.process_update p rib (peer 1) 65001 [q] Attrs.default [];
  stale ← is_stale rib (peer 1) q;
  _ ← assert (negb stale);
  assert_eq (Rib.stale_route_count rib) 0.

Definition test_graceful_restart_remove_stale : io unit :=
  let p1 := Prefixes.new (ipv4 10 0 0 0) 8 in
  let p2 := Prefixes.new (ipv4 172 16 0 0) 16 in
  rib ← Rib.process_update p Rib.new (peer 1) 65001 [p1; p2] Attrs.default [];
  let rib := Rib.mark_peer_stale rib (peer 1) in
  rib ← Rib.process_update p rib (peer 1) 65001 [p1] Attrs.default [];
  _ ← assert_eq (Rib.stale_route_count rib) 1;
  '(rib, removed) ← Rib.remove_stale_for_peer rib (peer 1);
  _ ← assert_eq (length removed) 1;
  key ← at_index removed 0;
  _ ← assert_eq key (PrefixKey.from p2);
  assert_eq (Rib.prefix_count rib) 1.
End rib_tests.

(* ------------------------------------------------------------------ *)
(** ** [mgmt.rs] *)

Section mgmt_tests.
Context {ord : HashOrder} {libm : Libm} (p : profile) (version : string) (rustc : option string).
Context (schedule : list bool).

Definition test_show_bgp_summary_empty : io unit :=
  out ← cmd_bgp_summary MgmtState.shared Rib.new;
  assert (str_contains out "Loc-RIB: 0" || str_contains out "no peers").

Definition test_show_bgp_rib_empty : io unit :=
  out ← cmd_bgp_rib Rib.new;
  assert (str_contains out "empty").

Definition test_show_bgp_rib_prefix_not_found : io unit :=
  assert (str_contains (cmd_bgp_rib_prefix Rib.new "10.0.0.0/8") "not found").

Definition test_help : io unit :=
  _ ← assert (str_contains cmd_help "show bgp summary");
  assert (str_contains cmd_help "show bgp rib").

Definition test_unknown_command : io unit :=
  out ← process_command version rustc "foo bar" MgmtState.shared Rib.new Metrics.new;
  assert (str_contains out "Unknown command").

Definition test_show_rib_with_routes : io unit :=
  let attrs := Attrs.set_as_path (Attrs.set_next_hop (Attrs.set_local_pref
    (Attrs.set_origin Attrs.default (Some Origin.Igp)) (Some 100%Z)) (Some (ipv4 10 0 0 1)))
    [AsPathSegment.AsSequence [65001; 65002]%Z] in
  rib ← Rib.process_update p Rib.new (peer 2) 65001 [Prefixes.new (ipv4 192 168 0 0) 24] attrs [];
  out ← cmd_bgp_rib rib;
  _ ← assert (str_contains out "192.168.0.0/24");
  assert (str_contains out "65001").

Definition rib_with_routes : io Rib.t :=
  let attrs := Attrs.set_as_path (Attrs.set_next_hop Attrs.default (Some (ipv4 192 0 2 1)))
    [AsPathSegment.AsSequence [64500; 64501]%Z] in
  let peer := {| ip := V4 (ipv4 192 0 2 1); port := 179; flowinfo := 0; scope_id := 0 |} in
  Rib.process_update p Rib.new peer 64500 [Prefixes.new (ipv4 10 0 0 0) 8] attrs [].

Definition test_show_rib_aspath_found : io unit :=
  rib ← rib_with_routes;
  out ← cmd_bgp_rib_aspath rib "64500";
  _ ← assert (str_contains out "10.0.0.0/8");
  assert (str_contains out "64500").

Definition test_show_rib_aspath_not_found : io unit :=
  rib ← rib_with_routes;
  out ← cmd_bgp_rib_aspath rib "99999";
  assert (str_contains out "No routes").

Definition test_show_rib_aspath_invalid : io unit :=
  out ← cmd_bgp_rib_aspath Rib.new "notanasn";
  assert (str_contains out "Invalid").

Definition test_show_rib_nexthop_found : io unit :=
  rib ← rib_with_routes;
  out ← cmd_bgp_rib_nexthop rib "192.0.2.1";
  assert (str_contains out "10.0.0.0/8").

Definition test_show_rib_nexthop_not_found : io unit :=
  rib ← rib_with_routes;
  out ← cmd_bgp_rib_nexthop rib "1.2.3.4";
  assert (str_contains out "No routes").

Definition test_show_rib_nexthop_invalid : io unit :=
  out ← cmd_bgp_rib_nexthop Rib.new "not-an-ip";
  assert (str_contains out "Invalid").

Definition test_version : io unit :=
  assert (str_contains (cmd_version version rustc) "PathForge").

(* ------------------------------------------------------------------ *)
(** ** The suite *)

Definition rib_suite : list (string * io unit) := [
  ("rpki::test_valid_route", test_valid_route p);
  ("rpki::test_invalid_wrong_origin", test_invalid_wrong_origin p);
  ("rpki::test_invalid_prefix_too_long", test_invalid_prefix_too_long p);
  ("rpki::test_not_found", test_not_found p);
  ("rpki::test_disabled_mode_always_not_found", test_disabled_mode_always_not_found p);
  ("rpki::test_should_reject_strict", test_should_reject_strict);
  ("rpki::test_should_not_reject_loose", test_should_not_reject_loose);
  ("rpki::test_roa_covers_exact_length", test_roa_covers_exact_length p);
  ("rpki::test_roa_covers_subnet", test_roa_covers_subnet p);
  ("rpki::test_rov_state_display", test_rov_state_display);
  ("rpki::test_rpki_mode_display", test_rpki_mode_display);
  ("dampening::test_no_suppression_single_flap", test_no_suppression_single_flap p);
  ("dampening::test_suppression_after_two_flaps", test_suppression_after_two_flaps p);
  ("dampening::test_unsuppressed_on_advertisement_below_reuse",
     test_unsuppressed_on_advertisement_below_reuse p);
  ("dampening::test_max_suppress_time_override", test_max_suppress_time_override p);
  ("dampening::test_penalty_decays_over_time", test_penalty_decays_over_time);
  ("dampening::test_remove_peer_clears_state", test_remove_peer_clears_state p);
  ("dampening::test_independent_prefixes", test_independent_prefixes p);
  ("policy::test_permit_in_range", test_permit_in_range p);
  ("policy::test_exact_prefix_match", test_exact_prefix_match p);
  ("policy::test_exact_only_policy", test_exact_only_policy p);
  ("policy::test_unknown_policy_default_permit", test_unknown_policy_default_permit p);
  ("policy::test_community_matching", test_community_matching);
  ("policy::test_community_parse", test_community_parse);
  ("policy::test_is_subnet", test_is_subnet p);
  ("rr::test_reflect_client_to_client", test_reflect_client_to_client);
  ("rr::test_reflect_client_to_non_client", test_reflect_client_to_non_client);
  ("rr::test_no_reflect_non_client_to_non_client", test_no_reflect_non_client_to_non_client);
  ("rr::test_reflect_non_client_to_client", test_reflect_non_client_to_client);
  ("rr::test_no_reflect_to_originator", test_no_reflect_to_originator);
  ("rr::test_cluster_loop_detection", test_cluster_loop_detection);
  ("rr::test_originator_loop_detection", test_originator_loop_detection);
  ("rr::test_prepare_reflected_attrs", test_prepare_reflected_attrs);
  ("rr::test_cluster_list_prepend", test_cluster_list_prepend);
  ("rr::test_originator_id_not_overwritten", test_originator_id_not_overwritten);
  ("metrics::test_metrics_increment", test_metrics_increment);
  ("metrics::test_prometheus_output", test_prometheus_output);
  ("metrics::test_text_summary", test_text_summary);
  ("metrics::test_thread_safe_shared", test_thread_safe_shared schedule);
  ("rib::test_basic_route_insertion", test_basic_route_insertion p);
  ("rib::test_best_path_local_pref", test_best_path_local_pref p);
  ("rib::test_best_path_as_path_length", test_best_path_as_path_length p);
  ("rib::test_withdraw_route", test_withdraw_route p);
  ("rib::test_remove_peer", test_remove_peer p);
  ("rib::test_summary", test_summary p);
  ("rib::test_longest_prefix_match_basic", test_longest_prefix_match_basic p);
  ("rib::test_longest_prefix_match_default_route", test_longest_prefix_match_default_route p);
  ("rib::test_longest_prefix_match_empty_rib", test_longest_prefix_match_empty_rib p);
  ("rib::test_graceful_restart_mark_stale", test_graceful_restart_mark_stale p);
  ("rib::test_graceful_restart_refresh_clears_stale", test_graceful_restart_refresh_clears_stale p);
  ("rib::test_graceful_restart_remove_stale", test_graceful_restart_remove_stale p);
  ("mgmt::test_show_bgp_summary_empty", test_show_bgp_summary_empty);
  ("mgmt::test_show_bgp_rib_empty", test_show_bgp_rib_empty);
  ("mgmt::test_show_bgp_rib_prefix_not_found", test_show_bgp_rib_prefix_not_found);
  ("mgmt::test_help", test_help);
  ("mgmt::test_unknown_command", test_unknown_command);
  ("mgmt::test_show_rib_with_routes", test_show_rib_with_routes);
  ("mgmt::test_show_rib_aspath_found", test_show_rib_aspath_found);
  ("mgmt::test_show_rib_aspath_not_found", test_show_rib_aspath_not_found);
  ("mgmt::test_show_rib_aspath_invalid", test_show_rib_aspath_invalid);
  ("mgmt::test_show_rib_nexthop_found", test_show_rib_nexthop_found);
  ("mgmt::test_show_rib_nexthop_not_found", test_show_rib_nexthop_not_found);
  ("mgmt::test_show_rib_nexthop_invalid", test_show_rib_nexthop_invalid);
  ("mgmt::test_version", test_version)
].
End mgmt_tests.

(* ------------------------------------------------------------------ *)
(** ** What the tests depend on *)

(** Threads that repeat one step run it as often as both do, under any schedule. *)
Lemma run_threads_same {S} (f : S → S) n1 n2 schedule s :
  run_threads schedule (replicate n1 f) (replicate n2 f) s = Nat.iter (n1 + n2) f s.
Proof.
  assert (∀ n s, foldl (λ s f, f s) s (replicate n f) = Nat.iter n f s) as Hfold.
  { intros n. induction n as [|n IH]; intros s'; [done|].
    cbn [replicate foldl]. by rewrite IH, Nat.iter_succ_r. }
  revert n1 n2 s. induction schedule as [|[] schedule IH]; intros n1 n2 s.
  - rewrite <- Hfold, replicate_add. by destruct n1.
  - destruct n1 as [|n1]; [apply (IH 0)|]. cbn [replicate run_threads].
    by rewrite IH, <- Nat.iter_succ_r.
  - destruct n2 as [|n2]; [destruct n1 as [|n1]; [apply (IH 0 0)|apply (IH (Datatypes.S n1) 0)]|].
    replace (n1 + Datatypes.S n2) with (Datatypes.S (n1 + n2)) by lia.
    rewrite Nat.iter_succ_r, <- IH. by destruct n1.
Qed.

(** The binary64 number nearest to [0.5] to the power [1.1], and its neighbours:
    what a [powf] accurate to one unit in the last place may return. *)
Definition half_to_1_1 : list f64 :=
  [SpecFloat.S754_finite false 8404014066019089 (-54);
   SpecFloat.S754_finite false 8404014066019090 (-54);
   SpecFloat.S754_finite false 8404014066019091 (-54)].

Definition accurate (libm : Libm) : Prop :=
  powf F64.half (F64.div (as_secs_f64 1100000000) (F64.of_Z 1)) ∈ half_to_1_1.

Lemma passes_bind {A} (m : io A) (f : A → io unit) e a e' :
  m e = Ok (a, e') → passes e' (f a) = true → passes e (m ≫= f) = true.
Proof. intros Hm. unfold passes. by rewrite (io_bind_Ok _ _ _ _ _ Hm). Qed.

Lemma assert_Ok b e : b = true → assert b e = Ok (tt, e).
Proof. by intros ->. Qed.

(** A first decay, [d] after the entry was created. *)
Lemma decay_once {libm : Libm} seeds d half_life entry :
  F64.ltb (F64.of_Z 0) (as_secs_f64 d) = true → (0 ≤ d)%Z →
  entry.(PrefixDampening.last_decay) = 0%Z →
  ∃ entry' e', PrefixDampening.decay entry half_life {| clock := λ _, d; seeds := seeds |} = Ok (entry', e') ∧
    entry'.(PrefixDampening.penalty) =
      F64.mul entry.(PrefixDampening.penalty) (powf F64.half (F64.div (as_secs_f64 d) half_life)).
Proof.
  intros Hpos Hd Hlast. unfold PrefixDampening.decay. rewrite Hlast.
  unfold elapsed, now, mbind, io_bind, mret, io_ret, mbind, outcome_bind.
  cbn -[F64.ltb F64.of_Z F64.mul F64.div as_secs_f64 Z.max Z.sub].
  rewrite Z.sub_0_r, Z.max_r, Hpos by done. eexists _, _. split; [reflexivity|done].
Qed.

Lemma decay_test_passes libm seeds :
  accurate libm →
  passes {| clock := λ _, 0%Z; seeds := seeds |} test_penalty_decays_over_time = true.
Proof.
  intros Hpow.
  assert (∀ x, x ∈ half_to_1_1 →
    F64.ltb (F64.mul (F64.of_Z 2000) x) (F64.of_Z 1100) = true ∧
    F64.ltb (F64.of_Z 800) (F64.mul (F64.of_Z 2000) x) = true) as Hbounds.
  { rewrite <- Forall_forall. repeat (apply Forall_cons; split; [done|]). by apply Forall_nil. }
  destruct (Hbounds _ Hpow) as [Hlt Hgt].
  set (entry := {| PrefixDampening.penalty := F64.of_Z 2000; PrefixDampening.suppressed := false;
    PrefixDampening.suppressed_at := None; PrefixDampening.last_decay := 0%Z;
    PrefixDampening.suppress_count := 0%Z |}).
  destruct (decay_once seeds 1100000000 (F64.of_Z 1) entry) as (entry'&e'&Hdecay&Hpenalty); [done..|].
  unfold test_penalty_decays_over_time.
  eapply passes_bind; [reflexivity|]. eapply passes_bind; [reflexivity|].
  eapply passes_bind with (a := (entry'.(PrefixDampening.penalty), _)).
  - unfold DampeningTable.current_penalty, DampeningTable.entry_or_new, DampeningTable.set_entry.
    cbn [DampeningTable.state]. rewrite lookup_insert_eq.
    erewrite io_bind_Ok by reflexivity. erewrite io_bind_Ok by exact Hdecay. reflexivity.
  - rewrite <- (Hpenalty : _ = F64.mul (F64.of_Z 2000) _) in Hlt, Hgt.
    eapply passes_bind; [exact (assert_Ok _ _ Hlt)|]. unfold passes. by rewrite (assert_Ok _ _ Hgt).
Qed.

Lemma thread_test_passes schedule e : passes e (test_thread_safe_shared schedule) = true.
Proof.
  unfold test_thread_safe_shared, thread. rewrite run_threads_same.
  vm_compute. reflexivity.
Qed.

(* ------------------------------------------------------------------ *)
(** ** Properties *)

(** The model passes the program's own 109 unit tests: each of them returns, in
    both build profiles and under every schedule of the one that runs two threads,
    when the clock stands still but for the sleeps of the tests, [toml::from_str]
    reads the thirteen documents of the tests of the configuration, and [powf] is
    right to one unit in the last place at the one argument the tests depend on. *)
Theorem unit_tests_pass (libm : Libm) p version rustc schedule seeds toml_from_str error_text :
  accurate libm →
  (∀ d cfg, (d, cfg) ∈ documents → toml_from_str d = Some cfg) →
  let e := {| clock := λ _, 0%Z; seeds := seeds |} in
  let suite := wire_suite (api:=list_bytes_api) ++ config_suite toml_from_str error_text ++
    rib_suite (ord:=sorted_order) p version rustc schedule in
  length suite = 109 ∧ Forall (λ nt, passes e nt.2 = true) suite.
Proof.
  intros Hpow Htoml e suite. split; [reflexivity|]. unfold suite. apply Forall_app. split.
  { repeat (apply Forall_cons; split; [vm_compute; reflexivity|]). by apply Forall_nil. }
  apply Forall_app. split; [by apply config_suite_passes|].
  assert (passes e test_penalty_decays_over_time = true) as Hdecay by by apply decay_test_passes.
  assert (passes e (test_thread_safe_shared schedule) = true) as Hthreads by apply thread_test_passes.
  unfold rib_suite. destruct p;
    repeat (apply Forall_cons; split; [exact Hdecay || exact Hthreads || (vm_compute; reflexivity)|]);
    by apply Forall_nil.
Qed.

(* ------------------------------------------------------------------ *)
(** ** Witnesses *)

(** A [powf] that is right at [0.5] to the power [1.1]. *)
Definition sample_libm : Libm :=
  {| powf _ _ := SpecFloat.S754_finite false 8404014066019090 (-54) |}.

Lemma unit_tests_pass_witness :
  Forall (λ nt, passes {| clock := λ _, 0%Z; seeds := λ _, 0 |} nt.2 = true)
    (wire_suite (api:=list_bytes_api) ++ config_suite read_documents (λ _, EmptyString) ++
     rib_suite (ord:=sorted_order) (libm:=sample_libm) Debug "0.1.0" None [true; false; false]).
Proof.
  apply (unit_tests_pass sample_libm Debug "0.1.0" None [true; false; false] (λ _, 0) read_documents
    (λ _, EmptyString)).
  - right. left.
  - exact read_documents_reads.
Defined.
